(** * plume, Metal backend: a shallow embedding of plume_metal.cpp

    The development follows the layout of the C++ file: the format
    mapper, the descriptor set layout, the descriptor set, the swap
    chain, the command list (the encoder state machine) and the command
    queue with its semaphores.  Native Metal objects are not modelled;
    the calls the backend makes on them are recorded in traces, and
    pointers are addresses ([ptr]) with [option] for a pointer that may
    be null.  A function whose C++ body can hit an [assert], read a
    vector out of range, dereference a null pointer or read an object
    through a cast to a struct that it is not returns an [option];
    [None] is that failure. *)

From Stdlib Require Import ZArith QArith Lia Sorting.Sorted.
From stdpp Require Import base option list.

Local Open Scope nat_scope.

(** An object address.  Two pointers are equal when the addresses are. *)
Definition ptr := nat.

(** uint32_t arithmetic wraps modulo 2^32. *)
Definition wrap32 (z : Z) : Z := (z mod 4294967296)%Z.

(* ===================================================================== *)
(** * Format mapper: [mapRenderFormat] and [mapPixelFormat]              *)
(* ===================================================================== *)

Module Formats.

(** Modelled from the spec: [RenderFormat] is declared in
    plume_render_interface_types.h, which is not among the sources.  Its
    members are taken from the case labels of [mapPixelFormat] (the
    "supported list" of the spec) and from the [MAX] sentinel that the
    static_assert of [ClearPipelineKey] names. *)
Inductive RenderFormat :=
| UNKNOWN
| R32G32B32A32_TYPELESS | R32G32B32A32_FLOAT | R32G32B32A32_UINT | R32G32B32A32_SINT
| R32G32B32_TYPELESS | R32G32B32_FLOAT | R32G32B32_UINT | R32G32B32_SINT
| R16G16B16A16_TYPELESS | R16G16B16A16_FLOAT | R16G16B16A16_UNORM
| R16G16B16A16_UINT | R16G16B16A16_SNORM | R16G16B16A16_SINT
| R32G32_TYPELESS | R32G32_FLOAT | R32G32_UINT | R32G32_SINT
| R8G8B8A8_TYPELESS | R8G8B8A8_UNORM | R8G8B8A8_UINT | R8G8B8A8_SNORM | R8G8B8A8_SINT
| B8G8R8A8_UNORM
| R16G16_TYPELESS | R16G16_FLOAT | R16G16_UNORM | R16G16_UINT | R16G16_SNORM | R16G16_SINT
| R32_TYPELESS | D32_FLOAT | D32_FLOAT_S8_UINT | R32_FLOAT | R32_UINT | R32_SINT
| R8G8_TYPELESS | R8G8_UNORM | R8G8_UINT | R8G8_SNORM | R8G8_SINT
| R16_TYPELESS | R16_FLOAT | D16_UNORM | R16_UNORM | R16_UINT | R16_SNORM | R16_SINT
| R8_TYPELESS | R8_UNORM | R8_UINT | R8_SNORM | R8_SINT
| BC1_TYPELESS | BC1_UNORM | BC1_UNORM_SRGB
| BC2_TYPELESS | BC2_UNORM | BC2_UNORM_SRGB
| BC3_TYPELESS | BC3_UNORM | BC3_UNORM_SRGB
| BC4_TYPELESS | BC4_UNORM | BC4_SNORM
| BC5_TYPELESS | BC5_UNORM | BC5_SNORM
| BC6H_TYPELESS | BC6H_UF16 | BC6H_SF16
| BC7_TYPELESS | BC7_UNORM | BC7_UNORM_SRGB
| MAX.

(** [MTL::PixelFormat]: the members the two switches name, and
    [PixelFormatOther] for every other value of the native enumeration
    (the [default:] branch of [mapRenderFormat]). *)
Inductive PixelFormat :=
| PixelFormatInvalid
| PixelFormatRGBA32Float | PixelFormatRGBA32Uint | PixelFormatRGBA32Sint
| PixelFormatRGBA16Float | PixelFormatRGBA16Unorm | PixelFormatRGBA16Uint
| PixelFormatRGBA16Snorm | PixelFormatRGBA16Sint
| PixelFormatRG32Float | PixelFormatRG32Uint | PixelFormatRG32Sint
| PixelFormatRGBA8Unorm | PixelFormatRGBA8Uint | PixelFormatRGBA8Snorm | PixelFormatRGBA8Sint
| PixelFormatBGRA8Unorm
| PixelFormatRG16Float | PixelFormatRG16Unorm | PixelFormatRG16Uint
| PixelFormatRG16Snorm | PixelFormatRG16Sint
| PixelFormatDepth32Float | PixelFormatDepth32Float_Stencil8
| PixelFormatR32Float | PixelFormatR32Uint | PixelFormatR32Sint
| PixelFormatRG8Unorm | PixelFormatRG8Uint | PixelFormatRG8Snorm | PixelFormatRG8Sint
| PixelFormatR16Float | PixelFormatDepth16Unorm | PixelFormatR16Unorm
| PixelFormatR16Uint | PixelFormatR16Snorm | PixelFormatR16Sint
| PixelFormatR8Unorm | PixelFormatR8Uint | PixelFormatR8Snorm | PixelFormatR8Sint
| PixelFormatBC1_RGBA | PixelFormatBC1_RGBA_sRGB
| PixelFormatBC2_RGBA | PixelFormatBC2_RGBA_sRGB
| PixelFormatBC3_RGBA | PixelFormatBC3_RGBA_sRGB
| PixelFormatBC4_RUnorm | PixelFormatBC4_RSnorm
| PixelFormatBC5_RGUnorm | PixelFormatBC5_RGSnorm
| PixelFormatBC6H_RGBFloat | PixelFormatBC6H_RGBUfloat
| PixelFormatBC7_RGBAUnorm | PixelFormatBC7_RGBAUnorm_sRGB
| PixelFormatOther.

#[global] Instance RenderFormat_eq_dec : EqDecision RenderFormat.
Proof. solve_decision. Defined.

#[global] Instance PixelFormat_eq_dec : EqDecision PixelFormat.
Proof. solve_decision. Defined.

(** [mapRenderFormat], plume_metal.cpp:170.  The [default:] branch is
    [assert(false && "Unknown Metal format.")]: no result. *)
Definition mapRenderFormat (format : PixelFormat) : option RenderFormat :=
  match format with
  | PixelFormatInvalid => Some UNKNOWN
  | PixelFormatRGBA32Float => Some R32G32B32A32_FLOAT
  | PixelFormatRGBA32Uint => Some R32G32B32A32_UINT
  | PixelFormatRGBA32Sint => Some R32G32B32A32_SINT
  | PixelFormatRGBA16Float => Some R16G16B16A16_FLOAT
  | PixelFormatRGBA16Unorm => Some R16G16B16A16_UNORM
  | PixelFormatRGBA16Uint => Some R16G16B16A16_UINT
  | PixelFormatRGBA16Snorm => Some R16G16B16A16_SNORM
  | PixelFormatRGBA16Sint => Some R16G16B16A16_SINT
  | PixelFormatRG32Float => Some R32G32_FLOAT
  | PixelFormatRG32Uint => Some R32G32_UINT
  | PixelFormatRG32Sint => Some R32G32_SINT
  | PixelFormatRGBA8Unorm => Some R8G8B8A8_UNORM
  | PixelFormatRGBA8Uint => Some R8G8B8A8_UINT
  | PixelFormatRGBA8Snorm => Some R8G8B8A8_SNORM
  | PixelFormatRGBA8Sint => Some R8G8B8A8_SINT
  | PixelFormatBGRA8Unorm => Some B8G8R8A8_UNORM
  | PixelFormatRG16Float => Some R16G16_FLOAT
  | PixelFormatRG16Unorm => Some R16G16_UNORM
  | PixelFormatRG16Uint => Some R16G16_UINT
  | PixelFormatRG16Snorm => Some R16G16_SNORM
  | PixelFormatRG16Sint => Some R16G16_SINT
  | PixelFormatDepth32Float => Some D32_FLOAT
  | PixelFormatDepth32Float_Stencil8 => Some D32_FLOAT_S8_UINT
  | PixelFormatR32Float => Some R32_FLOAT
  | PixelFormatR32Uint => Some R32_UINT
  | PixelFormatR32Sint => Some R32_SINT
  | PixelFormatRG8Unorm => Some R8G8_UNORM
  | PixelFormatRG8Uint => Some R8G8_UINT
  | PixelFormatRG8Snorm => Some R8G8_SNORM
  | PixelFormatRG8Sint => Some R8G8_SINT
  | PixelFormatR16Float => Some R16_FLOAT
  | PixelFormatDepth16Unorm => Some D16_UNORM
  | PixelFormatR16Unorm => Some R16_UNORM
  | PixelFormatR16Uint => Some R16_UINT
  | PixelFormatR16Snorm => Some R16_SNORM
  | PixelFormatR16Sint => Some R16_SINT
  | PixelFormatR8Unorm => Some R8_UNORM
  | PixelFormatR8Uint => Some R8_UINT
  | PixelFormatR8Snorm => Some R8_SNORM
  | PixelFormatR8Sint => Some R8_SINT
  | PixelFormatBC1_RGBA => Some BC1_UNORM
  | PixelFormatBC1_RGBA_sRGB => Some BC1_UNORM_SRGB
  | PixelFormatBC2_RGBA => Some BC2_UNORM
  | PixelFormatBC2_RGBA_sRGB => Some BC2_UNORM_SRGB
  | PixelFormatBC3_RGBA => Some BC3_UNORM
  | PixelFormatBC3_RGBA_sRGB => Some BC3_UNORM_SRGB
  | PixelFormatBC4_RUnorm => Some BC4_UNORM
  | PixelFormatBC4_RSnorm => Some BC4_SNORM
  | PixelFormatBC5_RGUnorm => Some BC5_UNORM
  | PixelFormatBC5_RGSnorm => Some BC5_SNORM
  | PixelFormatBC6H_RGBFloat => Some BC6H_SF16
  | PixelFormatBC6H_RGBUfloat => Some BC6H_UF16
  | PixelFormatBC7_RGBAUnorm => Some BC7_UNORM
  | PixelFormatBC7_RGBAUnorm_sRGB => Some BC7_UNORM_SRGB
  | PixelFormatOther => None
  end.

(** [mapPixelFormat], plume_metal.cpp:289.  The [default:] branch (here
    [MAX]) is [assert(false && "Unknown format.")]: no result. *)
Definition mapPixelFormat (format : RenderFormat) : option PixelFormat :=
  match format with
  | UNKNOWN => Some PixelFormatInvalid
  | R32G32B32A32_TYPELESS => Some PixelFormatRGBA32Float
  | R32G32B32A32_FLOAT => Some PixelFormatRGBA32Float
  | R32G32B32A32_UINT => Some PixelFormatRGBA32Uint
  | R32G32B32A32_SINT => Some PixelFormatRGBA32Sint
  | R32G32B32_TYPELESS => Some PixelFormatRGBA32Float
  | R32G32B32_FLOAT => Some PixelFormatRGBA32Float
  | R32G32B32_UINT => Some PixelFormatRGBA32Uint
  | R32G32B32_SINT => Some PixelFormatRGBA32Sint
  | R16G16B16A16_TYPELESS => Some PixelFormatRGBA16Float
  | R16G16B16A16_FLOAT => Some PixelFormatRGBA16Float
  | R16G16B16A16_UNORM => Some PixelFormatRGBA16Unorm
  | R16G16B16A16_UINT => Some PixelFormatRGBA16Uint
  | R16G16B16A16_SNORM => Some PixelFormatRGBA16Snorm
  | R16G16B16A16_SINT => Some PixelFormatRGBA16Sint
  | R32G32_TYPELESS => Some PixelFormatRG32Float
  | R32G32_FLOAT => Some PixelFormatRG32Float
  | R32G32_UINT => Some PixelFormatRG32Uint
  | R32G32_SINT => Some PixelFormatRG32Sint
  | R8G8B8A8_TYPELESS => Some PixelFormatRGBA8Unorm
  | R8G8B8A8_UNORM => Some PixelFormatRGBA8Unorm
  | R8G8B8A8_UINT => Some PixelFormatRGBA8Uint
  | R8G8B8A8_SNORM => Some PixelFormatRGBA8Snorm
  | R8G8B8A8_SINT => Some PixelFormatRGBA8Sint
  | B8G8R8A8_UNORM => Some PixelFormatBGRA8Unorm
  | R16G16_TYPELESS => Some PixelFormatRG16Float
  | R16G16_FLOAT => Some PixelFormatRG16Float
  | R16G16_UNORM => Some PixelFormatRG16Unorm
  | R16G16_UINT => Some PixelFormatRG16Uint
  | R16G16_SNORM => Some PixelFormatRG16Snorm
  | R16G16_SINT => Some PixelFormatRG16Sint
  | R32_TYPELESS => Some PixelFormatR32Float
  | D32_FLOAT => Some PixelFormatDepth32Float
  | D32_FLOAT_S8_UINT => Some PixelFormatDepth32Float_Stencil8
  | R32_FLOAT => Some PixelFormatR32Float
  | R32_UINT => Some PixelFormatR32Uint
  | R32_SINT => Some PixelFormatR32Sint
  | R8G8_TYPELESS => Some PixelFormatRG8Unorm
  | R8G8_UNORM => Some PixelFormatRG8Unorm
  | R8G8_UINT => Some PixelFormatRG8Uint
  | R8G8_SNORM => Some PixelFormatRG8Snorm
  | R8G8_SINT => Some PixelFormatRG8Sint
  | R16_TYPELESS => Some PixelFormatR16Float
  | R16_FLOAT => Some PixelFormatR16Float
  | D16_UNORM => Some PixelFormatDepth16Unorm
  | R16_UNORM => Some PixelFormatR16Unorm
  | R16_UINT => Some PixelFormatR16Uint
  | R16_SNORM => Some PixelFormatR16Snorm
  | R16_SINT => Some PixelFormatR16Sint
  | R8_TYPELESS => Some PixelFormatR8Unorm
  | R8_UNORM => Some PixelFormatR8Unorm
  | R8_UINT => Some PixelFormatR8Uint
  | R8_SNORM => Some PixelFormatR8Snorm
  | R8_SINT => Some PixelFormatR8Sint
  | BC1_TYPELESS => Some PixelFormatBC1_RGBA
  | BC1_UNORM => Some PixelFormatBC1_RGBA
  | BC1_UNORM_SRGB => Some PixelFormatBC1_RGBA_sRGB
  | BC2_TYPELESS => Some PixelFormatBC2_RGBA
  | BC2_UNORM => Some PixelFormatBC2_RGBA
  | BC2_UNORM_SRGB => Some PixelFormatBC2_RGBA_sRGB
  | BC3_TYPELESS => Some PixelFormatBC3_RGBA
  | BC3_UNORM => Some PixelFormatBC3_RGBA
  | BC3_UNORM_SRGB => Some PixelFormatBC3_RGBA_sRGB
  | BC4_TYPELESS => Some PixelFormatBC4_RUnorm
  | BC4_UNORM => Some PixelFormatBC4_RUnorm
  | BC4_SNORM => Some PixelFormatBC4_RSnorm
  | BC5_TYPELESS => Some PixelFormatBC5_RGUnorm
  | BC5_UNORM => Some PixelFormatBC5_RGUnorm
  | BC5_SNORM => Some PixelFormatBC5_RGSnorm
  | BC6H_TYPELESS => Some PixelFormatBC6H_RGBFloat
  | BC6H_UF16 => Some PixelFormatBC6H_RGBUfloat
  | BC6H_SF16 => Some PixelFormatBC6H_RGBFloat
  | BC7_TYPELESS => Some PixelFormatBC7_RGBAUnorm
  | BC7_UNORM => Some PixelFormatBC7_RGBAUnorm
  | BC7_UNORM_SRGB => Some PixelFormatBC7_RGBAUnorm_sRGB
  | MAX => None
  end.

(** The formats [mapPixelFormat] has a case for. *)
Definition supported (format : RenderFormat) : bool :=
  match mapPixelFormat format with Some _ => true | None => false end.

(** The *_TYPELESS members. *)
Definition isTypeless (format : RenderFormat) : bool :=
  match format with
  | R32G32B32A32_TYPELESS | R32G32B32_TYPELESS | R16G16B16A16_TYPELESS
  | R32G32_TYPELESS | R8G8B8A8_TYPELESS | R16G16_TYPELESS | R32_TYPELESS
  | R8G8_TYPELESS | R16_TYPELESS | R8_TYPELESS
  | BC1_TYPELESS | BC2_TYPELESS | BC3_TYPELESS | BC4_TYPELESS
  | BC5_TYPELESS | BC6H_TYPELESS | BC7_TYPELESS => true
  | _ => false
  end.

(** The three-component 32-bit formats.  Metal has no 96-bit pixel
    format; [mapPixelFormat] widens them to the four-component one. *)
Definition isThreeComponent32 (format : RenderFormat) : bool :=
  match format with
  | R32G32B32_TYPELESS | R32G32B32_FLOAT | R32G32B32_UINT | R32G32B32_SINT => true
  | _ => false
  end.

(** The round trip of a format through the native enumeration:
    [mapRenderFormat(mapPixelFormat(format))]. *)
Definition roundTrip (format : RenderFormat) : option RenderFormat :=
  mapPixelFormat format ≫= mapRenderFormat.

End Formats.

(* ===================================================================== *)
(** * Descriptor set layout                                              *)
(* ===================================================================== *)

Module Layout.

Definition MAX_BINDING_NUMBER : nat := 128.

(** Modelled from the spec: [RenderDescriptorRangeType] is declared in
    plume_render_interface_types.h, which is not among the sources.  The
    members are the case labels of [mapDataType] and the [UNKNOWN]
    default of [ResourceEntry]. *)
Inductive RenderDescriptorRangeType :=
| UNKNOWN
| CONSTANT_BUFFER
| FORMATTED_BUFFER
| READ_WRITE_FORMATTED_BUFFER
| TEXTURE
| READ_WRITE_TEXTURE
| SAMPLER
| STRUCTURED_BUFFER
| READ_WRITE_STRUCTURED_BUFFER
| BYTE_ADDRESS_BUFFER
| READ_WRITE_BYTE_ADDRESS_BUFFER
| ACCELERATION_STRUCTURE.

Inductive DataType :=
| DataTypeNone
| DataTypePointer
| DataTypeTexture
| DataTypeSampler
| DataTypePrimitiveAccelerationStructure.

Inductive TextureType :=
| TextureType2D
| TextureTypeTextureBuffer.

#[global] Instance RenderDescriptorRangeType_eq_dec : EqDecision RenderDescriptorRangeType.
Proof. solve_decision. Defined.

#[global] Instance DataType_eq_dec : EqDecision DataType.
Proof. solve_decision. Defined.

#[global] Instance TextureType_eq_dec : EqDecision TextureType.
Proof. solve_decision. Defined.

(** [mapDataType], plume_metal.cpp:143; the [default:] branch asserts. *)
Definition mapDataType (type : RenderDescriptorRangeType) : option DataType :=
  match type with
  | TEXTURE | READ_WRITE_TEXTURE | FORMATTED_BUFFER | READ_WRITE_FORMATTED_BUFFER =>
      Some DataTypeTexture
  | ACCELERATION_STRUCTURE => Some DataTypePrimitiveAccelerationStructure
  | STRUCTURED_BUFFER | BYTE_ADDRESS_BUFFER | READ_WRITE_STRUCTURED_BUFFER
  | READ_WRITE_BYTE_ADDRESS_BUFFER | CONSTANT_BUFFER => Some DataTypePointer
  | SAMPLER => Some DataTypeSampler
  | UNKNOWN => None
  end.

(** Modelled from the spec: [RenderDescriptorRange] and
    [RenderDescriptorSetDesc] are declared in
    plume_render_interface_types.h, which is not among the sources; the
    fields are the ones the constructor reads (spec section 3,
    "Descriptor Range").  [immutableSampler] is the array of the native
    sampler states of the range's immutable samplers, [None] for a null
    pointer.  [descriptorRangesCount] is the length of [descriptorRanges]. *)
Record RenderDescriptorRange := {
  type : RenderDescriptorRangeType;
  binding : nat;
  count : nat;
  immutableSampler : option (list ptr)
}.

Record RenderDescriptorSetDesc := {
  descriptorRanges : list RenderDescriptorRange;
  lastRangeIsBoundless : bool;
  boundlessRangeSize : nat
}.

Definition descriptorRangesCount (desc : RenderDescriptorSetDesc) : nat :=
  length (descriptorRanges desc).

(** The part of [MetalDevice] the layout reads:
    [device->capabilities.maxTextureSize]. *)
Record MetalDevice := {
  maxTextureSize : nat
}.

(** What the constructor sets on a native [MTL::ArgumentDescriptor].
    [textureType] is [None] when the constructor leaves it alone. *)
Record ArgumentDescriptor := {
  dataType : DataType;
  index : nat;
  arrayLength : nat;
  textureType : option TextureType
}.

Record DescriptorSetLayoutBinding := {
  lbBinding : nat;
  descriptorCount : nat;
  descriptorType : RenderDescriptorRangeType;
  immutableSamplers : list ptr
}.

Record MetalDescriptorSetLayout := {
  setBindings : list DescriptorSetLayoutBinding;
  bindingToIndex : list Z;
  argumentDescriptors : list ArgumentDescriptor;
  descriptorIndexBases : list nat;
  descriptorBindingIndices : list nat;
  descriptorTypeMaxIndex : Z
}.

#[global] Instance ArgumentDescriptor_eq_dec : EqDecision ArgumentDescriptor.
Proof. solve_decision. Defined.

(** First pass (plume_metal.cpp:970): every range, in the order of the
    description, appends [count] copies of its base offset and of its
    binding number. *)
Definition firstPass (ranges : list RenderDescriptorRange) : list nat * list nat :=
  fold_left
    (fun (acc : list nat * list nat) range =>
       let indexBase := length (fst acc) in
       (fst acc ++ replicate (count range) indexBase,
        snd acc ++ replicate (count range) (binding range)))
    ranges ([], []).

(** [std::sort] with the comparator [a.binding < b.binding]
    (plume_metal.cpp:980), as an insertion sort: a range goes before the
    first range whose binding is strictly greater.  [std::sort] leaves
    the order of ranges with equal bindings unspecified; for ranges with
    distinct bindings every sort gives this result. *)
Fixpoint insertRange (r : RenderDescriptorRange) (l : list RenderDescriptorRange)
  : list RenderDescriptorRange :=
  match l with
  | [] => [r]
  | x :: l' => if binding r <? binding x then r :: x :: l' else x :: insertRange r l'
  end.

Definition sortRanges (ranges : list RenderDescriptorRange) : list RenderDescriptorRange :=
  fold_left (fun acc r => insertRange r acc) ranges [].

(** The [createBinding] lambda (plume_metal.cpp:987).  It asserts
    [range.binding < MAX_BINDING_NUMBER]. *)
Definition createBinding (range : RenderDescriptorRange) : option DescriptorSetLayoutBinding :=
  if decide (binding range < MAX_BINDING_NUMBER) then
    Some {| lbBinding := binding range;
            descriptorCount := count range;
            descriptorType := type range;
            immutableSamplers :=
              match immutableSampler range with
              | Some samplers => take (count range) samplers
              | None => []
              end |}
  else None.

(** The placeholder entry of the padding loop (plume_metal.cpp:1020). *)
Definition paddingDescriptor (curBinding : nat) : ArgumentDescriptor :=
  {| dataType := DataTypePointer; index := curBinding; arrayLength := 0;
     textureType := None |}.

(** [while (curBinding < range.binding) { ...; curBinding++; }]: the
    placeholders emitted and the value of [curBinding] at the exit.  The
    loop runs at most [target - curBinding] times, which is the fuel
    [padding] gives it. *)
Fixpoint paddingLoop (fuel curBinding target : nat) : list ArgumentDescriptor * nat :=
  match fuel with
  | 0 => ([], curBinding)
  | S fuel' =>
      if curBinding <? target then
        let (l, c) := paddingLoop fuel' (S curBinding) target in
        (paddingDescriptor curBinding :: l, c)
      else ([], curBinding)
  end.

Definition padding (curBinding target : nat) : list ArgumentDescriptor * nat :=
  paddingLoop (target - curBinding) curBinding target.

(** [setTextureType] is called for two groups of range types only. *)
Definition textureTypeFor (type : RenderDescriptorRangeType) : option TextureType :=
  match type with
  | TEXTURE => Some TextureType2D
  | READ_WRITE_FORMATTED_BUFFER | FORMATTED_BUFFER => Some TextureTypeTextureBuffer
  | _ => None
  end.

(** The state the second pass threads through its loop. *)
Record Building := {
  bSetBindings : list DescriptorSetLayoutBinding;
  bBindingToIndex : list Z;
  bArgumentDescriptors : list ArgumentDescriptor;
  bDescriptorTypeMaxIndex : Z;
  bCurBinding : nat
}.

(** One iteration of the second pass (plume_metal.cpp:1010-1045). *)
Definition secondPassStep (b : Building) (range : RenderDescriptorRange) : option Building :=
  newBinding ← createBinding range;
  dt ← mapDataType (type range);
  let '(pads, cur) := padding (bCurBinding b) (binding range) in
  Some {| bSetBindings := bSetBindings b ++ [newBinding];
          bBindingToIndex :=
            <[binding range := Z.of_nat (length (bSetBindings b))]> (bBindingToIndex b);
          bArgumentDescriptors :=
            bArgumentDescriptors b ++ pads ++
              [ {| dataType := dt; index := binding range;
                   arrayLength := if 1 <? count range then count range else 0;
                   textureType := textureTypeFor (type range) |} ];
          bDescriptorTypeMaxIndex := wrap32 (bDescriptorTypeMaxIndex b + Z.of_nat (count range));
          bCurBinding := S cur |}.

Fixpoint secondPass (b : Building) (ranges : list RenderDescriptorRange) : option Building :=
  match ranges with
  | [] => Some b
  | range :: rest => b' ← secondPassStep b range; secondPass b' rest
  end.

(** The boundless range (plume_metal.cpp:1048-1068): [lastRange] is the
    last element of the sorted copy. *)
Definition boundlessStep (device : MetalDevice) (b : Building) (lastRange : RenderDescriptorRange)
  : option Building :=
  newBinding ← createBinding lastRange;
  dt ← mapDataType (type lastRange);
  Some {| bSetBindings := bSetBindings b ++ [newBinding];
          bBindingToIndex :=
            <[binding lastRange := Z.of_nat (length (bSetBindings b))]> (bBindingToIndex b);
          bArgumentDescriptors :=
            bArgumentDescriptors b ++
              [ {| dataType := dt; index := binding lastRange;
                   arrayLength := maxTextureSize device;
                   textureType := textureTypeFor (type lastRange) |} ];
          bDescriptorTypeMaxIndex := wrap32 (bDescriptorTypeMaxIndex b + 1);
          bCurBinding := bCurBinding b |}.

(** [MetalDescriptorSetLayout::MetalDescriptorSetLayout],
    plume_metal.cpp:953.  With [lastRangeIsBoundless] and no range at
    all the constructor reads [sortedRanges[-1]]; the final assertion is
    [argumentDescriptors.size() > 0]. *)
Definition newMetalDescriptorSetLayout (device : MetalDevice) (desc : RenderDescriptorSetDesc)
  : option MetalDescriptorSetLayout :=
  let '(bases, bindings) := firstPass (descriptorRanges desc) in
  let sortedRanges := sortRanges (descriptorRanges desc) in
  let rangeCount :=
    if lastRangeIsBoundless desc then descriptorRangesCount desc - 1
    else descriptorRangesCount desc in
  let start := {| bSetBindings := [];
                  bBindingToIndex := replicate MAX_BINDING_NUMBER (-1)%Z;
                  bArgumentDescriptors := [];
                  bDescriptorTypeMaxIndex := 0%Z;
                  bCurBinding := 0 |} in
  b ← secondPass start (take rangeCount sortedRanges);
  b' ← (if lastRangeIsBoundless desc then
          lastRange ← sortedRanges !! (descriptorRangesCount desc - 1);
          guard (0 < descriptorRangesCount desc);;
          boundlessStep device b lastRange
        else Some b);
  guard (0 < length (bArgumentDescriptors b'));;
  Some {| setBindings := bSetBindings b';
          bindingToIndex := bBindingToIndex b';
          argumentDescriptors := bArgumentDescriptors b';
          descriptorIndexBases := bases;
          descriptorBindingIndices := bindings;
          descriptorTypeMaxIndex := bDescriptorTypeMaxIndex b' |}.

(** [MetalDescriptorSetLayout::getBinding], plume_metal.cpp:1081.  The
    table entry is an int32_t; the sum is taken in uint32_t.  [None] is
    the null result and also a [binding] outside the table. *)
Definition getBinding (layout : MetalDescriptorSetLayout) (binding bindingIndexOffset : nat)
  : option DescriptorSetLayoutBinding :=
  entry ← bindingToIndex layout !! binding;
  let bindingIndex := wrap32 (entry + Z.of_nat bindingIndexOffset) in
  if decide (bindingIndex < Z.of_nat (length (setBindings layout)))%Z
  then setBindings layout !! Z.to_nat bindingIndex
  else None.

(** The order [std::sort] establishes. *)
Definition bindingLe (a b : RenderDescriptorRange) : Prop := binding a ≤ binding b.

(** A range of one descriptor, and the entry the second pass emits for
    it ([range.count > 1 ? range.count : 0] is 0). *)
Definition unitRange (t : RenderDescriptorRangeType) (b : nat) (samplers : option (list ptr))
  : RenderDescriptorRange :=
  {| type := t; binding := b; count := 1; immutableSampler := samplers |}.

Definition unitDescriptor (d : DataType) (t : RenderDescriptorRangeType) (b : nat)
  : ArgumentDescriptor :=
  {| dataType := d; index := b; arrayLength := 0; textureType := textureTypeFor t |}.

(** A description whose last range, marked boundless, does not have the
    highest binding number. *)
Definition boundlessDevice : MetalDevice := {| maxTextureSize := 4096 |}.

Definition boundlessNotHighest : RenderDescriptorSetDesc :=
  {| descriptorRanges :=
       [ {| type := TEXTURE; binding := 3; count := 1; immutableSampler := None |};
         {| type := SAMPLER; binding := 1; count := 1; immutableSampler := None |} ];
     lastRangeIsBoundless := true;
     boundlessRangeSize := 64 |}.

(** A range the constructor accepts: its binding fits the table and its
    type has a native data type. *)
Definition rangeOk (r : RenderDescriptorRange) : Prop :=
  binding r < MAX_BINDING_NUMBER ∧ type r ≠ UNKNOWN.

(** The binding record [createBinding] makes of a range. *)
Definition bindingOf (r : RenderDescriptorRange) : DescriptorSetLayoutBinding :=
  {| lbBinding := binding r; descriptorCount := count r; descriptorType := type r;
     immutableSamplers :=
       match immutableSampler r with
       | Some samplers => take (count r) samplers
       | None => []
       end |}.

(** The flat index at which the descriptors of the [k]-th range start. *)
Definition rangeBase (ranges : list RenderDescriptorRange) (k : nat) : nat :=
  sum_list (count <$> take k ranges).

(** The table and the bindings after the ranges [rs] have been gone
    through. *)
Definition tableOf (setBindings : list DescriptorSetLayoutBinding) (table : list Z)
    (rs : list RenderDescriptorRange) : Prop :=
  setBindings = bindingOf <$> rs ∧
  length table = MAX_BINDING_NUMBER ∧
  (∀ i r, rs !! i = Some r → table !! binding r = Some (Z.of_nat i)) ∧
  (∀ k, k < MAX_BINDING_NUMBER → k ∉ binding <$> rs → table !! k = Some (-1)%Z).

(** The argument descriptor the second pass makes of a range. *)
Definition entryOf (r : RenderDescriptorRange) : ArgumentDescriptor :=
  {| dataType := default DataTypeNone (mapDataType (type r)); index := binding r;
     arrayLength := if 1 <? count r then count r else 0;
     textureType := textureTypeFor (type r) |}.

(** The argument descriptors after the ranges [rs] have been gone
    through: one for every binding number below [cur], at its position. *)
Definition denseFor (args : list ArgumentDescriptor) (cur : nat)
    (rs : list RenderDescriptorRange) : Prop :=
  length args = cur ∧
  (∀ i d, args !! i = Some d → index d = i) ∧
  (∀ r, r ∈ rs → args !! binding r = Some (entryOf r)) ∧
  (∀ k, k < cur → k ∉ binding <$> rs → args !! k = Some (paddingDescriptor k)) ∧
  (∀ k, k < cur → ∃ r, r ∈ rs ∧ k ≤ binding r).

End Layout.

(* ===================================================================== *)
(** * Descriptor set                                                     *)
(* ===================================================================== *)

Module DescriptorSet.
Import Layout.

(** [MetalDescriptorSet::ResourceEntry]; the default member values are
    a null resource and the [UNKNOWN] type. *)
Record ResourceEntry := {
  resource : option ptr;
  entryType : RenderDescriptorRangeType
}.

Definition defaultResourceEntry : ResourceEntry :=
  {| resource := None; entryType := UNKNOWN |}.

(** [BufferDescriptor], [TextureDescriptor] and [SamplerDescriptor]
    (plume_metal.h:144-155).  The native handle inside may be null. *)
Inductive Descriptor :=
| BufferDescriptor (buffer : option ptr) (offset : Z)
| TextureDescriptor (texture : option ptr)
| SamplerDescriptor (state : option ptr).

(** The calls made on the argument encoder and on the bound resources. *)
Inductive EncoderCall :=
| setArgumentBuffer
| encSetTexture (texture : option ptr) (index : Z)
| encSetBuffer (buffer : option ptr) (offset : Z) (index : Z)
| encSetSamplerState (state : option ptr) (index : Z)
| retain (resource : option ptr).

(** The members of [MetalDescriptorSet] that the binding protocol reads
    and writes; [encoded] is the trace of native calls.  The argument
    buffer is created with [MTL::ResourceStorageModeShared], so the
    [StorageModeManaged] branch of [setDescriptor] is never taken. *)
Record MetalDescriptorSet := {
  setLayout : MetalDescriptorSetLayout;
  resourceEntries : list ResourceEntry;
  toReleaseOnDestruction : list ptr;
  encoded : list EncoderCall
}.

(** [MetalDescriptorSet::bindImmutableSamplers], plume_metal.cpp:1644. *)
Definition bindImmutableSamplers (layout : MetalDescriptorSetLayout) : list EncoderCall :=
  flat_map
    (fun b => imap (fun i s => encSetSamplerState (Some s) (Z.of_nat (lbBinding b + i)))
                   (immutableSamplers b))
    (setBindings layout).

(** [MetalDescriptorSet::MetalDescriptorSet(device, desc)],
    plume_metal.cpp:1585.  The thread-local [typeCounts] table is
    filled and never read; it is left out. *)
Definition newMetalDescriptorSet (device : MetalDevice) (desc : RenderDescriptorSetDesc)
  : option MetalDescriptorSet :=
  guard (lastRangeIsBoundless desc = true → 0 < descriptorRangesCount desc);;
  layout ← newMetalDescriptorSetLayout device desc;
  Some {| setLayout := layout;
          resourceEntries :=
            replicate (length (descriptorBindingIndices layout)) defaultResourceEntry;
          toReleaseOnDestruction := [];
          encoded := setArgumentBuffer :: bindImmutableSamplers layout |}.

(** [MetalDescriptorSet::getDescriptorType], plume_metal.cpp:1769: the
    result of [getBinding] is dereferenced without a null check. *)
Definition getDescriptorType (ds : MetalDescriptorSet) (binding : nat)
  : option RenderDescriptorRangeType :=
  b ← getBinding (setLayout ds) binding 0;
  Some (descriptorType b).

(** [MetalDescriptorSet::setDescriptor], plume_metal.cpp:1716.
    [descriptor = None] is the null pointer.  The C++ code casts the
    descriptor, without a check, to the struct that [dtype] calls for
    and reads its members.  For a descriptor of another struct that
    read has no defined behaviour, and there is no result here: what
    the theorems say of a non-null descriptor holds for a descriptor
    of the struct of the data type ([descriptorFits]). *)
Definition setDescriptor (descriptorIndex : nat) (descriptor : option Descriptor)
    (ds : MetalDescriptorSet) : option MetalDescriptorSet :=
  let layout := setLayout ds in
  guard (descriptorIndex < length (descriptorBindingIndices layout));;
  indexBase ← descriptorIndexBases layout !! descriptorIndex;
  bindingIndex ← descriptorBindingIndices layout !! descriptorIndex;
  setLayoutBinding ← setBindings layout !! indexBase;
  dtype ← mapDataType (descriptorType setLayoutBinding);
  descriptorType ← getDescriptorType ds bindingIndex;
  old ← resourceEntries ds !! descriptorIndex;
  let toRelease :=
    match resource old with
    | Some r => if decide (dtype = DataTypeSampler) then toReleaseOnDestruction ds
                else toReleaseOnDestruction ds ++ [r]
    | None => toReleaseOnDestruction ds
    end in
  let slot := wrap32 (Z.of_nat descriptorIndex - Z.of_nat indexBase + Z.of_nat bindingIndex) in
  '(nativeResource, calls) ←
    match descriptor with
    | None => Some (None, [])
    | Some d =>
        match dtype, d with
        | DataTypeTexture, TextureDescriptor texture =>
            Some (texture, [encSetTexture texture slot; retain texture])
        | DataTypePointer, BufferDescriptor buffer offset =>
            Some (buffer, [encSetBuffer buffer offset slot; retain buffer])
        | DataTypeSampler, SamplerDescriptor state =>
            Some (None, [encSetSamplerState state slot])
        | _, _ => None
        end
    end;
  Some {| setLayout := layout;
          resourceEntries :=
            <[descriptorIndex := {| resource := nativeResource; entryType := descriptorType |}]>
              (resourceEntries ds);
          toReleaseOnDestruction := toRelease;
          encoded := encoded ds ++ calls |}.

(** Modelled from the spec: [RenderBufferStructuredView] is declared in
    plume_render_interface_types.h, which is not among the sources; the
    two fields are the ones [setBuffer] reads (spec section 4.2: the
    byte offset is [firstElement * structureByteStride]). *)
Record RenderBufferStructuredView := {
  structureByteStride : Z;
  firstElement : Z
}.

(** [MetalDescriptorSet::setBuffer], plume_metal.cpp:1652.  [buffer] is
    the [mtl] handle of the [MetalBuffer], [bufferFormattedView] the
    [texture] handle of the [MetalBufferFormattedView]; the outer
    [option] is the interface pointer. *)
Definition setBuffer (descriptorIndex : nat) (buffer : option (option ptr)) (bufferSize : Z)
    (bufferStructuredView : option RenderBufferStructuredView)
    (bufferFormattedView : option (option ptr))
    (ds : MetalDescriptorSet) : option MetalDescriptorSet :=
  match buffer with
  | None => setDescriptor descriptorIndex None ds
  | Some mtl =>
      match bufferFormattedView with
      | Some texture =>
          guard (bufferStructuredView = None);;
          setDescriptor descriptorIndex (Some (TextureDescriptor texture)) ds
      | None =>
          offset ←
            match bufferStructuredView with
            | Some view =>
                guard (0 < structureByteStride view)%Z;;
                Some (wrap32 (firstElement view * structureByteStride view))
            | None => Some 0%Z
            end;
          setDescriptor descriptorIndex (Some (BufferDescriptor mtl offset)) ds
      end
  end.

(** [MetalDescriptorSet::setTexture], plume_metal.cpp:1681.  [texture]
    is the [mtl] handle of the [MetalTexture], [textureView] the
    [texture] handle of the [MetalTextureView]. *)
Definition setTexture (descriptorIndex : nat) (texture : option (option ptr))
    (textureView : option (option ptr))
    (ds : MetalDescriptorSet) : option MetalDescriptorSet :=
  match texture with
  | None => setDescriptor descriptorIndex None ds
  | Some mtl =>
      match textureView with
      | Some viewTexture => setDescriptor descriptorIndex (Some (TextureDescriptor viewTexture)) ds
      | None => setDescriptor descriptorIndex (Some (TextureDescriptor mtl)) ds
      end
  end.

(** [MetalDescriptorSet::setSampler], plume_metal.cpp:1701. *)
Definition setSampler (descriptorIndex : nat) (sampler : option (option ptr))
    (ds : MetalDescriptorSet) : option MetalDescriptorSet :=
  match sampler with
  | None => setDescriptor descriptorIndex None ds
  | Some state => setDescriptor descriptorIndex (Some (SamplerDescriptor state)) ds
  end.

(** A call of the binding protocol, and a sequence of them. *)
Inductive SetCall :=
| CallSetBuffer (descriptorIndex : nat) (buffer : option (option ptr)) (bufferSize : Z)
    (bufferStructuredView : option RenderBufferStructuredView)
    (bufferFormattedView : option (option ptr))
| CallSetTexture (descriptorIndex : nat) (texture : option (option ptr))
    (textureView : option (option ptr))
| CallSetSampler (descriptorIndex : nat) (sampler : option (option ptr)).

Definition runCall (c : SetCall) (ds : MetalDescriptorSet) : option MetalDescriptorSet :=
  match c with
  | CallSetBuffer i b size sv fv => setBuffer i b size sv fv ds
  | CallSetTexture i t tv => setTexture i t tv ds
  | CallSetSampler i s => setSampler i s ds
  end.

Fixpoint runCalls (cs : list SetCall) (ds : MetalDescriptorSet) : option MetalDescriptorSet :=
  match cs with
  | [] => Some ds
  | c :: rest => ds' ← runCall c ds; runCalls rest ds'
  end.

(** The flat descriptor index a call writes, and whether the call passes
    a null resource. *)
Definition callIndex (c : SetCall) : nat :=
  match c with
  | CallSetBuffer i _ _ _ _ | CallSetTexture i _ _ | CallSetSampler i _ => i
  end.

Definition callIsNull (c : SetCall) : bool :=
  match c with
  | CallSetBuffer _ None _ _ _ | CallSetTexture _ None _ | CallSetSampler _ None => true
  | _ => false
  end.

(** The resources [retain] has been called on; on a null handle the
    message does nothing. *)
Definition retained (calls : list EncoderCall) : list ptr :=
  omap (λ c, match c with retain r => r | _ => None end) calls.

(** [MetalDescriptorSet::~MetalDescriptorSet], plume_metal.cpp:1628: the
    resources [release] is called on, in the order of the calls. *)
Definition releasedOnDestruction (ds : MetalDescriptorSet) : list ptr :=
  toReleaseOnDestruction ds ++ omap resource (resourceEntries ds).

(** The native data type [setDescriptor] works with at a flat
    descriptor index: the one of [setBindings[indexBase]]. *)
Definition slotDataType (layout : MetalDescriptorSetLayout) (descriptorIndex : nat)
  : option DataType :=
  indexBase ← descriptorIndexBases layout !! descriptorIndex;
  setLayoutBinding ← setBindings layout !! indexBase;
  mapDataType (descriptorType setLayoutBinding).

(** Sampler slots hold no resource, and what has been retained is what
    the destructor releases. *)
Definition balanced (ds : MetalDescriptorSet) : Prop :=
  retained (encoded ds) ≡ₚ releasedOnDestruction ds ∧
  ∀ i e, resourceEntries ds !! i = Some e →
         slotDataType (setLayout ds) i = Some DataTypeSampler → resource e = None.

(** The argument slot a call on the encoder writes. *)
Definition callSlot (c : EncoderCall) : option Z :=
  match c with
  | encSetTexture _ index | encSetBuffer _ _ index | encSetSamplerState _ index => Some index
  | setArgumentBuffer | retain _ => None
  end.

(** A descriptor struct of the kind a native data type is bound with. *)
Definition descriptorFits (dtype : DataType) (d : Descriptor) : bool :=
  match dtype, d with
  | DataTypeTexture, TextureDescriptor _
  | DataTypePointer, BufferDescriptor _ _
  | DataTypeSampler, SamplerDescriptor _ => true
  | _, _ => false
  end.

(** The resource [setDescriptor] records for a descriptor and the calls
    it makes for it on the argument encoder at [slot], when the
    descriptor is of the struct the data type of the slot calls for: a
    sampler is not recorded, and a null descriptor makes no call. *)
Definition descriptorResource (d : option Descriptor) : option ptr :=
  match d with
  | Some (TextureDescriptor texture) => texture
  | Some (BufferDescriptor buffer _) => buffer
  | Some (SamplerDescriptor _) | None => None
  end.

Definition descriptorCalls (d : option Descriptor) (slot : Z) : list EncoderCall :=
  match d with
  | Some (TextureDescriptor texture) => [encSetTexture texture slot; retain texture]
  | Some (BufferDescriptor buffer offset) => [encSetBuffer buffer offset slot; retain buffer]
  | Some (SamplerDescriptor state) => [encSetSamplerState state slot]
  | None => []
  end.

(** The descriptor a call of the binding protocol builds, when its
    assertions hold, and the native resource the call hands over. *)
Definition callDescriptor (c : SetCall) : option Descriptor :=
  match c with
  | CallSetBuffer _ None _ _ _ | CallSetTexture _ None _ | CallSetSampler _ None => None
  | CallSetBuffer _ (Some _) _ _ (Some texture) => Some (TextureDescriptor texture)
  | CallSetBuffer _ (Some mtl) _ sv None =>
      Some (BufferDescriptor mtl
              (match sv with
               | Some view => wrap32 (firstElement view * structureByteStride view)
               | None => 0%Z
               end))
  | CallSetTexture _ (Some _) (Some viewTexture) => Some (TextureDescriptor viewTexture)
  | CallSetTexture _ (Some mtl) None => Some (TextureDescriptor mtl)
  | CallSetSampler _ (Some state) => Some (SamplerDescriptor state)
  end.

Definition callResource (c : SetCall) : option ptr := descriptorResource (callDescriptor c).

(** The resource of the last call of a sequence on a flat index; null
    when no call was on the index. *)
Definition lastResource (calls : list SetCall) (i : nat) : option ptr :=
  from_option callResource None (last (filter (λ c, callIndex c = i) calls)).

End DescriptorSet.

(* ===================================================================== *)
(** * Swap chain                                                         *)
(* ===================================================================== *)

Module SwapChain.
Import Formats.

Definition MAX_DRAWABLES : nat := 3.

(** [CGSize]: two [CGFloat] values.  The sizes the swap chain builds
    come from uint32_t values, which a double holds exactly; the model
    uses rationals, so a size the layer reports may be fractional. *)
Record CGSize := CGSizeMake {
  cgWidth : Q;
  cgHeight : Q
}.

Definition CGSizeEqualToSize (a b : CGSize) : bool :=
  Qeq_bool (cgWidth a) (cgWidth b) && Qeq_bool (cgHeight a) (cgHeight b).

(** [CocoaWindowAttributes], plume_apple.h:16: four [int] members. *)
Record CocoaWindowAttributes := {
  attrX : Z;
  attrY : Z;
  attrWidth : Z;
  attrHeight : Z
}.

(** The members of [RenderTextureDesc] the swap chain writes.
    [renderTarget] stands for [flags == RenderTextureFlag::RENDER_TARGET]. *)
Record RenderTextureDesc := {
  descWidth : Z;
  descHeight : Z;
  descFormat : RenderFormat;
  renderTarget : bool
}.

Record MetalDrawable := {
  desc : RenderTextureDesc;
  drawableMtl : option ptr
}.

(** [MetalCommandSemaphore], plume_metal.h:442. *)
Record MetalCommandSemaphore := {
  semMtl : ptr;
  mtlEventValue : Z
}.

(** What [layer->nextDrawable()] hands back: the drawable and the pixel
    format of its texture. *)
Record NativeDrawable := {
  handle : ptr;
  pixelFormat : PixelFormat
}.

(** The native calls of [resize] and [acquireTexture], in the order they
    are made. *)
Inductive NativeCall :=
| setDrawableSize (size : CGSize)
| commitAcquireBuffer (event : ptr) (value : Z)
| nextDrawable (result : option ptr)
| printNoMoreDrawables
| retainDrawable (drawable : ptr).

(** [MetalSwapChain], plume_metal.h:230.  [layerDrawableSize] is the
    state of the native layer that [layer->drawableSize()] reads. *)
Record MetalSwapChain := {
  layerDrawableSize : CGSize;
  width : Z;
  height : Z;
  drawables : list MetalDrawable;
  currentAvailableDrawableIndex : nat;
  calls : list NativeCall
}.

(** [MetalSwapChain::getWindowSize], plume_metal.cpp:1960: the [int]
    attributes are stored into uint32_t references. *)
Definition getWindowSize (attributes : CocoaWindowAttributes) : Z * Z :=
  (wrap32 (attrWidth attributes), wrap32 (attrHeight attributes)).

(** [MetalSwapChain::MetalSwapChain], plume_metal.cpp:1794.
    [layerSize] is the drawable size the layer comes with. *)
Definition newMetalSwapChain (layerSize : CGSize) (attributes : CocoaWindowAttributes)
    (format : RenderFormat) : MetalSwapChain :=
  let '(w, h) := getWindowSize attributes in
  {| layerDrawableSize := layerSize;
     width := w; height := h;
     drawables :=
       replicate MAX_DRAWABLES
         {| desc := {| descWidth := w; descHeight := h; descFormat := format;
                       renderTarget := true |};
            drawableMtl := None |};
     currentAvailableDrawableIndex := 0;
     calls := [] |}.

Definition resizeDrawable (w h : Z) (d : MetalDrawable) : MetalDrawable :=
  {| desc := {| descWidth := w; descHeight := h;
                descFormat := descFormat (desc d);
                renderTarget := renderTarget (desc d) |};
     drawableMtl := drawableMtl d |}.

(** [MetalSwapChain::resize], plume_metal.cpp:1861.  [attributes] is
    what the window wrapper reports during the call. *)
Definition resize (attributes : CocoaWindowAttributes) (sc : MetalSwapChain)
  : bool * MetalSwapChain :=
  let '(w, h) := getWindowSize attributes in
  let sc1 := {| layerDrawableSize := layerDrawableSize sc;
                width := w; height := h;
                drawables := drawables sc;
                currentAvailableDrawableIndex := currentAvailableDrawableIndex sc;
                calls := calls sc |} in
  if (w =? 0)%Z || (h =? 0)%Z then (false, sc1)
  else
    let drawableSize := CGSizeMake (inject_Z w) (inject_Z h) in
    if negb (CGSizeEqualToSize (layerDrawableSize sc1) drawableSize) then
      (true,
       {| layerDrawableSize := drawableSize;
          width := w; height := h;
          drawables := resizeDrawable w h <$> drawables sc1;
          currentAvailableDrawableIndex := currentAvailableDrawableIndex sc1;
          calls := calls sc1 ++ [setDrawableSize drawableSize] |})
    else (true, sc1).

(** [MetalSwapChain::acquireTexture], plume_metal.cpp:1908.
    [signalSemaphore] and [textureIndex] are the two pointer arguments
    ([textureIndex] holds the value behind the pointer); [next] is the
    answer of [layer->nextDrawable()].  The result is the return value,
    the value left behind [textureIndex], and the swap chain. *)
Definition acquireTexture (signalSemaphore : option MetalCommandSemaphore)
    (textureIndex : option Z) (next : option NativeDrawable) (sc : MetalSwapChain)
  : option (bool * Z * MetalSwapChain) :=
  sem ← signalSemaphore;
  index ← textureIndex;
  guard (index < Z.of_nat MAX_DRAWABLES)%Z;;
  let committed := calls sc ++ [commitAcquireBuffer (semMtl sem) (mtlEventValue sem)] in
  match next with
  | None =>
      Some (false, index,
            {| layerDrawableSize := layerDrawableSize sc;
               width := width sc; height := height sc;
               drawables := drawables sc;
               currentAvailableDrawableIndex := currentAvailableDrawableIndex sc;
               calls := committed ++ [nextDrawable None; printNoMoreDrawables] |})
  | Some d =>
      _ ← drawables sc !! currentAvailableDrawableIndex sc;
      format ← mapRenderFormat (pixelFormat d);
      let drawable :=
        {| desc := {| descWidth := width sc; descHeight := height sc;
                      descFormat := format; renderTarget := true |};
           drawableMtl := Some (handle d) |} in
      Some (true, Z.of_nat (currentAvailableDrawableIndex sc),
            {| layerDrawableSize := layerDrawableSize sc;
               width := width sc; height := height sc;
               drawables := <[currentAvailableDrawableIndex sc := drawable]> (drawables sc);
               currentAvailableDrawableIndex := currentAvailableDrawableIndex sc;
               calls := committed ++ [nextDrawable (Some (handle d)); retainDrawable (handle d)] |})
  end.

End SwapChain.

(* ===================================================================== *)
(** * Command list: the encoder state machine                            *)
(* ===================================================================== *)

Module CommandList.
Import Formats.

Definition MAX_CLEAR_RECTS : nat := 16.
Definition MAX_DESCRIPTOR_SET_BINDINGS : nat := 8.
Definition MAX_PUSH_CONSTANT_BINDINGS : nat := 4.
Definition MAX_VERTEX_BUFFER_BINDINGS : nat := 19.
Definition DESCRIPTOR_SETS_BINDING_INDEX : nat := 0.
Definition PUSH_CONSTANTS_BINDING_INDEX : nat :=
  DESCRIPTOR_SETS_BINDING_INDEX + MAX_DESCRIPTOR_SET_BINDINGS.
Definition VERTEX_BUFFERS_BINDING_INDEX : nat :=
  PUSH_CONSTANTS_BINDING_INDEX + MAX_PUSH_CONSTANT_BINDINGS.

(** [constexpr uint64_t alignUp(n, alignment = 16)], plume_metal.cpp:37. *)
Definition alignUp (n : Z) : Z :=
  Z.land ((n + 15) mod 18446744073709551616) (Z.lnot 15).

(** [enum class EncoderType], plume_metal.h:60; [NoEncoder] is the
    member [None]. *)
Inductive EncoderType := NoEncoder | Render | Compute | Blit | Resolve.

#[global] Instance EncoderType_eq_dec : EqDecision EncoderType.
Proof. solve_decision. Defined.

(** ** Scalars and small structs *)

(** A C [float], as its IEEE-754 binary32 bit pattern. *)
Definition float := Z.

Definition floatIsNaN (x : float) : bool :=
  ((x / 8388608) mod 256 =? 255)%Z && negb (x mod 8388608 =? 0)%Z.

Definition floatIsZero (x : float) : bool := (x mod 2147483648 =? 0)%Z.

(** [operator==] on two floats. *)
Definition float_eqb (x y : float) : bool :=
  if floatIsNaN x || floatIsNaN y then false
  else if floatIsZero x && floatIsZero y then true
  else (x =? y)%Z.

Record RenderColor := { colorR : float; colorG : float; colorB : float; colorA : float }.

(** [RenderRect]: four int32_t. *)
Record RenderRect := { left : Z; top : Z; right : Z; bottom : Z }.

(** [MTL::Viewport], built from the six floats of a [RenderViewport]. *)
Record Viewport := {
  originX : float; originY : float; vpWidth : float; vpHeight : float;
  znear : float; zfar : float
}.

Definition Viewport_eqb (a b : Viewport) : bool :=
  float_eqb (originX a) (originX b) && float_eqb (originY a) (originY b) &&
  float_eqb (vpWidth a) (vpWidth b) && float_eqb (vpHeight a) (vpHeight b) &&
  float_eqb (znear a) (znear b) && float_eqb (zfar a) (zfar b).

(** [MTL::ScissorRect]: four NS::UInteger. *)
Record ScissorRect := { scX : Z; scY : Z; scWidth : Z; scHeight : Z }.

Definition ScissorRect_eqb (a b : ScissorRect) : bool :=
  (scX a =? scX b)%Z && (scY a =? scY b)%Z &&
  (scWidth a =? scWidth b)%Z && (scHeight a =? scHeight b)%Z.

(** [operator==] of two [std::vector]: same size, equal elements. *)
Fixpoint vector_eqb {A} (eqb : A → A → bool) (a b : list A) : bool :=
  match a, b with
  | [], [] => true
  | x :: a', y :: b' => eqb x y && vector_eqb eqb a' b'
  | _, _ => false
  end.

(** [std::vector::resize(n, value)]. *)
Definition resize_vector {A} (n : nat) (value : A) (l : list A) : list A :=
  take n l ++ replicate (n - length l) value.

Inductive LoadAction := LoadActionDontCare | LoadActionLoad | LoadActionClear.

#[global] Instance LoadAction_eq_dec : EqDecision LoadAction.
Proof. solve_decision. Defined.

(** [union ClearValue], plume_metal.h:301, as a tagged variant; the
    default constructor sets [depth] to 0.0f.  The [stencil] member is
    a float that [clearDepthStencil] assigns a uint32_t to and that
    [checkActiveRenderEncoder] converts back: [clearStencil v] stands
    for the float that [v] converts to.  A float holds every integer
    below 2^24 exactly, so for these [v] is also the value converted
    back; the theorems that read a stencil value take this bound. *)
Inductive ClearValue :=
| clearColorValue (color : RenderColor)
| clearDepth (depth : float)
| clearStencil (stencilValue : Z).

Definition defaultClearValue : ClearValue := clearDepth 0%Z.

Inductive PrimitiveType :=
| PrimitiveTypePoint | PrimitiveTypeLine | PrimitiveTypeLineStrip
| PrimitiveTypeTriangle | PrimitiveTypeTriangleStrip.

Inductive IndexType := IndexTypeUInt16 | IndexTypeUInt32.

(** ** Objects the command list points to *)

(** A native texture, with the two dimensions the scissor clamp reads. *)
Record NativeTexture := { texture : ptr; textureWidth : Z; textureHeight : Z }.

(** [MetalAttachment], plume_metal.h:261.  [attachmentTexture] is the
    result of [getTexture()]. *)
Record MetalAttachment := {
  attachmentTexture : option NativeTexture;
  attachmentFormat : RenderFormat;
  attachmentSampleCount : Z
}.

(** [MetalFramebuffer], plume_metal.h:273.  [depthIsStencil] is the
    value of [RenderFormatIsStencil(depthAttachment.format)], a helper
    that plume_render_interface_types.h declares. *)
Record MetalFramebuffer := {
  framebuffer : ptr;
  fbWidth : Z;
  fbHeight : Z;
  colorAttachments : list MetalAttachment;
  depthAttachment : MetalAttachment;
  depthIsStencil : bool;
  fbSampleCount : Z
}.

(** The stage tests made on [RenderPushConstantRange::stageFlags]:
    [stageFlags & RenderShaderStageFlag::VERTEX], [PIXEL], [COMPUTE]. *)
Record StageFlags := { stageVERTEX : bool; stagePIXEL : bool; stageCOMPUTE : bool }.

(** Modelled from the spec: [RenderPushConstantRange] is declared in
    plume_render_interface_types.h, which is not among the sources; the
    fields are the ones of spec section 4.3.3,
    [{binding, set, offset, size, stageFlags}]. *)
Record RenderPushConstantRange := {
  rangeBinding : nat;
  rangeSet : nat;
  rangeOffset : Z;
  rangeSize : nat;
  rangeStageFlags : StageFlags
}.

(** [MetalCommandList::PushConstantData], plume_metal.h:310. *)
Record PushConstantData := {
  pcBinding : nat;
  pcSet : nat;
  pcOffset : Z;
  pcSize : Z;
  pcStageFlags : StageFlags;
  pcData : list Byte.byte
}.

Definition defaultPushConstantData : PushConstantData :=
  {| pcBinding := 0; pcSet := 0; pcOffset := 0%Z; pcSize := 0%Z;
     pcStageFlags := {| stageVERTEX := false; stagePIXEL := false; stageCOMPUTE := false |};
     pcData := [] |}.

(** [MetalPipelineLayout], plume_metal.h:595; [pipelineLayout] is the
    address of the object. *)
Record MetalPipelineLayout := {
  pipelineLayout : ptr;
  pushConstantRanges : list RenderPushConstantRange;
  setLayoutCount : nat
}.

(** [MetalRenderState], plume_metal.h:186; [renderState] is the address
    of the object.  The cull mode, clip mode, winding and stencil
    reference are not modelled: they are only passed on with the
    pipeline state. *)
Record MetalRenderState := {
  renderState : ptr;
  renderPipelineState : option ptr;
  depthStencilState : option ptr;
  primitiveType : PrimitiveType;
  depthBiasConstantFactor : float;
  depthBiasClamp : float;
  depthBiasSlopeFactor : float;
  dynamicDepthBiasEnabled : bool
}.

(** [MetalComputeState], plume_metal.h:179. *)
Record MetalComputeState := {
  computeState : ptr;
  computePipelineState : option ptr;
  threadGroupSizeX : Z;
  threadGroupSizeY : Z;
  threadGroupSizeZ : Z
}.

(** A pipeline as [setPipeline] sees it after the cast. *)
Inductive MetalPipeline :=
| ComputePipeline (state : MetalComputeState)
| GraphicsPipeline (state : MetalRenderState)
| UnknownPipeline.

(** What a vertex buffer slot holds: the device's null buffer or the
    [mtl] handle of a [MetalBuffer]. *)
Inductive BufferRef := DeviceNullBuffer | BufferMtl (mtl : option ptr).

(** ** Dirty flags, pending clears, state cache *)

(** [ComputeStateFlags], plume_metal.h:90. *)
Record ComputeStateFlags := {
  cPipelineState : bool;
  cDescriptorSets : bool;
  cPushConstants : bool;
  cDescriptorSetDirtyIndex : nat
}.

(** [GraphicsStateFlags], plume_metal.h:107; [vertexBufferSlots] is a
    19-bit field. *)
Record GraphicsStateFlags := {
  gPipelineState : bool;
  gDescriptorSets : bool;
  gPushConstants : bool;
  gViewports : bool;
  gScissors : bool;
  gIndexBuffer : bool;
  gDepthBias : bool;
  gDescriptorSetDirtyIndex : nat;
  vertexBufferSlots : Z
}.

Definition computeSetAll : ComputeStateFlags :=
  {| cPipelineState := true; cDescriptorSets := true; cPushConstants := true;
     cDescriptorSetDirtyIndex := 0 |}.

Definition graphicsSetAll : GraphicsStateFlags :=
  {| gPipelineState := true; gDescriptorSets := true; gPushConstants := true;
     gViewports := true; gScissors := true; gIndexBuffer := true; gDepthBias := true;
     gDescriptorSetDirtyIndex := 0;
     vertexBufferSlots := (Z.shiftl 1 (Z.of_nat MAX_VERTEX_BUFFER_BINDINGS) - 1)%Z |}.

(** [struct PendingClears], plume_metal.h:332. *)
Record PendingClears := {
  initialAction : list LoadAction;
  clearValues : list ClearValue;
  active : bool
}.

(** [stateCache], plume_metal.h:338. *)
Record StateCache := {
  lastPipelineState : option ptr;
  lastViewports : list Viewport;
  lastScissors : list ScissorRect;
  lastPushConstants : list PushConstantData
}.

Record DepthBias := {
  depthBias : float;
  depthBiasClampValue : float;
  slopeScaledDepthBias : float
}.

(** ** The native calls a recording makes *)

(** One attachment of a render pass descriptor. *)
Record AttachmentPass := {
  passTexture : option NativeTexture;
  loadAction : LoadAction;
  clearValue : ClearValue
}.

Inductive ShaderStage := VertexStage | FragmentStage | ComputeStage.

Inductive ClearKind := ColorClear (attachmentIndex : nat) | DepthClear (depth stencil : bool).

(** The calls on the command buffer and on its encoders.  The four
    [...CommandEncoder] calls open an encoder and [endEncoding] closes
    one; [resolvePassEncoder] is the render encoder that
    [resolveTexture] opens and closes on the spot.  [useResources]
    stands for the [useResource] calls of [bindEncoderResources] over
    the listed descriptor sets; [setRenderState] for the six calls that
    pass a [MetalRenderState] on; [clearQuads] for the pipeline, vertex
    and draw calls of a partial clear. *)
Inductive NativeCall :=
| commandBuffer
| commitCommandBuffer
| renderCommandEncoder (colors : list AttachmentPass) (depth stencil : option AttachmentPass)
| computeCommandEncoder
| blitCommandEncoder
| resolveComputeCommandEncoder
| resolvePassEncoder (src dst : option ptr)
| endEncoding (type : EncoderType)
| useResources (isCompute : bool) (sets : list ptr)
| setRenderState (state : MetalRenderState)
| setViewports (viewports : list Viewport)
| setDepthBias (bias slope clamp : float)
| setScissorRects (scissors : list ScissorRect)
| setVertexBuffer (buffer : option BufferRef) (offset : Z) (index : nat)
| bindDescriptorSet (isCompute : bool) (set : ptr) (index : nat)
| setPushConstantBytes (stage : ShaderStage) (data : list Byte.byte) (size : Z) (index : nat)
| setComputePipelineState (state : option ptr)
| drawPrimitives (type : PrimitiveType) (vertexStart vertexCount instanceCount baseInstance : Z)
| drawIndexedPrimitives (type : PrimitiveType) (indexCount : Z) (indexType : IndexType)
    (buffer : option ptr) (offset instanceCount baseVertex baseInstance : Z)
| dispatchThreadgroups (countX countY countZ sizeX sizeY sizeZ : Z)
| clearQuads (kind : ClearKind) (rectCount : nat)
| copyFromBuffer (src : option ptr) (srcOffset : Z) (dst : option ptr) (dstOffset size : Z)
| copyFromBufferToTexture (src dst : option ptr)
| copyFromTexture (src dst : option ptr)
| resolveDispatch (src dst : option ptr) (dstX dstY srcX srcY width height : Z).

(** ** [MetalCommandList], plume_metal.h:300

    Encoder pointers are [true] when non-null, and so is [mtl], the
    command buffer.  [currentEncoderDescriptorSets] is a
    [std::unordered_set] of pointers: a list without duplicates.
    [trace] is not a member: it collects the native calls. *)
#[local] Set Primitive Projections.

Record MetalCommandList := {
  mtl : bool;
  activeType : EncoderType;
  activeRenderEncoder : bool;
  activeComputeEncoder : bool;
  activeBlitEncoder : bool;
  activeResolveComputeEncoder : bool;
  dirtyComputeState : ComputeStateFlags;
  dirtyGraphicsState : GraphicsStateFlags;
  pendingClears : PendingClears;
  stateCache : StateCache;
  currentPrimitiveType : PrimitiveType;
  currentIndexType : IndexType;
  indexBuffer : option ptr;
  indexBufferOffset : Z;
  indexTypeSize : Z;
  vertexBuffers : list (option BufferRef);
  vertexBufferOffsets : list Z;
  viewportVector : list Viewport;
  scissorVector : list ScissorRect;
  pushConstants : list PushConstantData;
  dynamicDepthBias : DepthBias;
  targetFramebuffer : option MetalFramebuffer;
  activeComputePipelineLayout : option MetalPipelineLayout;
  activeGraphicsPipelineLayout : option MetalPipelineLayout;
  activeRenderState : option MetalRenderState;
  activeComputeState : option MetalComputeState;
  renderDescriptorSets : list (option ptr);
  computeDescriptorSets : list (option ptr);
  currentEncoderDescriptorSets : list ptr;
  trace : list NativeCall
}.

(** Field updates.  The record has primitive projections, so each
    [let] below unfolds to projections of [s]. *)
Definition set_mtl (v : bool) (s : MetalCommandList) : MetalCommandList :=
  let '(Build_MetalCommandList _ x1 x2 x3 x4 x5 x6 x7 x8 x9 x10 x11 x12 x13
      x14 x15 x16 x17 x18 x19 x20 x21 x22 x23 x24 x25 x26 x27 x28 x29) := s in
  Build_MetalCommandList v x1 x2 x3 x4 x5 x6 x7 x8 x9 x10 x11 x12 x13 x14 x15
      x16 x17 x18 x19 x20 x21 x22 x23 x24 x25 x26 x27 x28 x29.

Definition set_activeType (v : EncoderType) (s : MetalCommandList) : MetalCommandList :=
  let '(Build_MetalCommandList x0 _ x2 x3 x4 x5 x6 x7 x8 x9 x10 x11 x12 x13
      x14 x15 x16 x17 x18 x19 x20 x21 x22 x23 x24 x25 x26 x27 x28 x29) := s in
  Build_MetalCommandList x0 v x2 x3 x4 x5 x6 x7 x8 x9 x10 x11 x12 x13 x14 x15
      x16 x17 x18 x19 x20 x21 x22 x23 x24 x25 x26 x27 x28 x29.

Definition set_activeRenderEncoder (v : bool) (s : MetalCommandList) : MetalCommandList :=
  let '(Build_MetalCommandList x0 x1 _ x3 x4 x5 x6 x7 x8 x9 x10 x11 x12 x13
      x14 x15 x16 x17 x18 x19 x20 x21 x22 x23 x24 x25 x26 x27 x28 x29) := s in
  Build_MetalCommandList x0 x1 v x3 x4 x5 x6 x7 x8 x9 x10 x11 x12 x13 x14 x15
      x16 x17 x18 x19 x20 x21 x22 x23 x24 x25 x26 x27 x28 x29.

Definition set_activeComputeEncoder (v : bool) (s : MetalCommandList) : MetalCommandList :=
  let '(Build_MetalCommandList x0 x1 x2 _ x4 x5 x6 x7 x8 x9 x10 x11 x12 x13
      x14 x15 x16 x17 x18 x19 x20 x21 x22 x23 x24 x25 x26 x27 x28 x29) := s in
  Build_MetalCommandList x0 x1 x2 v x4 x5 x6 x7 x8 x9 x10 x11 x12 x13 x14 x15
      x16 x17 x18 x19 x20 x21 x22 x23 x24 x25 x26 x27 x28 x29.

Definition set_activeBlitEncoder (v : bool) (s : MetalCommandList) : MetalCommandList :=
  let '(Build_MetalCommandList x0 x1 x2 x3 _ x5 x6 x7 x8 x9 x10 x11 x12 x13
      x14 x15 x16 x17 x18 x19 x20 x21 x22 x23 x24 x25 x26 x27 x28 x29) := s in
  Build_MetalCommandList x0 x1 x2 x3 v x5 x6 x7 x8 x9 x10 x11 x12 x13 x14 x15
      x16 x17 x18 x19 x20 x21 x22 x23 x24 x25 x26 x27 x28 x29.

Definition set_activeResolveComputeEncoder (v : bool) (s : MetalCommandList) : MetalCommandList :=
  let '(Build_MetalCommandList x0 x1 x2 x3 x4 _ x6 x7 x8 x9 x10 x11 x12 x13
      x14 x15 x16 x17 x18 x19 x20 x21 x22 x23 x24 x25 x26 x27 x28 x29) := s in
  Build_MetalCommandList x0 x1 x2 x3 x4 v x6 x7 x8 x9 x10 x11 x12 x13 x14 x15
      x16 x17 x18 x19 x20 x21 x22 x23 x24 x25 x26 x27 x28 x29.

Definition set_dirtyComputeState (v : ComputeStateFlags) (s : MetalCommandList) : MetalCommandList :=
  let '(Build_MetalCommandList x0 x1 x2 x3 x4 x5 _ x7 x8 x9 x10 x11 x12 x13
      x14 x15 x16 x17 x18 x19 x20 x21 x22 x23 x24 x25 x26 x27 x28 x29) := s in
  Build_MetalCommandList x0 x1 x2 x3 x4 x5 v x7 x8 x9 x10 x11 x12 x13 x14 x15
      x16 x17 x18 x19 x20 x21 x22 x23 x24 x25 x26 x27 x28 x29.

Definition set_dirtyGraphicsState (v : GraphicsStateFlags) (s : MetalCommandList) : MetalCommandList :=
  let '(Build_MetalCommandList x0 x1 x2 x3 x4 x5 x6 _ x8 x9 x10 x11 x12 x13
      x14 x15 x16 x17 x18 x19 x20 x21 x22 x23 x24 x25 x26 x27 x28 x29) := s in
  Build_MetalCommandList x0 x1 x2 x3 x4 x5 x6 v x8 x9 x10 x11 x12 x13 x14 x15
      x16 x17 x18 x19 x20 x21 x22 x23 x24 x25 x26 x27 x28 x29.

Definition set_pendingClears (v : PendingClears) (s : MetalCommandList) : MetalCommandList :=
  let '(Build_MetalCommandList x0 x1 x2 x3 x4 x5 x6 x7 _ x9 x10 x11 x12 x13
      x14 x15 x16 x17 x18 x19 x20 x21 x22 x23 x24 x25 x26 x27 x28 x29) := s in
  Build_MetalCommandList x0 x1 x2 x3 x4 x5 x6 x7 v x9 x10 x11 x12 x13 x14 x15
      x16 x17 x18 x19 x20 x21 x22 x23 x24 x25 x26 x27 x28 x29.

Definition set_stateCache (v : StateCache) (s : MetalCommandList) : MetalCommandList :=
  let '(Build_MetalCommandList x0 x1 x2 x3 x4 x5 x6 x7 x8 _ x10 x11 x12 x13
      x14 x15 x16 x17 x18 x19 x20 x21 x22 x23 x24 x25 x26 x27 x28 x29) := s in
  Build_MetalCommandList x0 x1 x2 x3 x4 x5 x6 x7 x8 v x10 x11 x12 x13 x14 x15
      x16 x17 x18 x19 x20 x21 x22 x23 x24 x25 x26 x27 x28 x29.

Definition set_currentPrimitiveType (v : PrimitiveType) (s : MetalCommandList) : MetalCommandList :=
  let '(Build_MetalCommandList x0 x1 x2 x3 x4 x5 x6 x7 x8 x9 _ x11 x12 x13 x14
      x15 x16 x17 x18 x19 x20 x21 x22 x23 x24 x25 x26 x27 x28 x29) := s in
  Build_MetalCommandList x0 x1 x2 x3 x4 x5 x6 x7 x8 x9 v x11 x12 x13 x14 x15
      x16 x17 x18 x19 x20 x21 x22 x23 x24 x25 x26 x27 x28 x29.

Definition set_currentIndexType (v : IndexType) (s : MetalCommandList) : MetalCommandList :=
  let '(Build_MetalCommandList x0 x1 x2 x3 x4 x5 x6 x7 x8 x9 x10 _ x12 x13 x14
      x15 x16 x17 x18 x19 x20 x21 x22 x23 x24 x25 x26 x27 x28 x29) := s in
  Build_MetalCommandList x0 x1 x2 x3 x4 x5 x6 x7 x8 x9 x10 v x12 x13 x14 x15
      x16 x17 x18 x19 x20 x21 x22 x23 x24 x25 x26 x27 x28 x29.

Definition set_indexBuffer (v : option ptr) (s : MetalCommandList) : MetalCommandList :=
  let '(Build_MetalCommandList x0 x1 x2 x3 x4 x5 x6 x7 x8 x9 x10 x11 _ x13 x14
      x15 x16 x17 x18 x19 x20 x21 x22 x23 x24 x25 x26 x27 x28 x29) := s in
  Build_MetalCommandList x0 x1 x2 x3 x4 x5 x6 x7 x8 x9 x10 x11 v x13 x14 x15
      x16 x17 x18 x19 x20 x21 x22 x23 x24 x25 x26 x27 x28 x29.

Definition set_indexBufferOffset (v : Z) (s : MetalCommandList) : MetalCommandList :=
  let '(Build_MetalCommandList x0 x1 x2 x3 x4 x5 x6 x7 x8 x9 x10 x11 x12 _ x14
      x15 x16 x17 x18 x19 x20 x21 x22 x23 x24 x25 x26 x27 x28 x29) := s in
  Build_MetalCommandList x0 x1 x2 x3 x4 x5 x6 x7 x8 x9 x10 x11 x12 v x14 x15
      x16 x17 x18 x19 x20 x21 x22 x23 x24 x25 x26 x27 x28 x29.

Definition set_indexTypeSize (v : Z) (s : MetalCommandList) : MetalCommandList :=
  let '(Build_MetalCommandList x0 x1 x2 x3 x4 x5 x6 x7 x8 x9 x10 x11 x12 x13 _
      x15 x16 x17 x18 x19 x20 x21 x22 x23 x24 x25 x26 x27 x28 x29) := s in
  Build_MetalCommandList x0 x1 x2 x3 x4 x5 x6 x7 x8 x9 x10 x11 x12 x13 v x15
      x16 x17 x18 x19 x20 x21 x22 x23 x24 x25 x26 x27 x28 x29.

Definition set_vertexBuffers (v : list (option BufferRef)) (s : MetalCommandList) : MetalCommandList :=
  let '(Build_MetalCommandList x0 x1 x2 x3 x4 x5 x6 x7 x8 x9 x10 x11 x12 x13
      x14 _ x16 x17 x18 x19 x20 x21 x22 x23 x24 x25 x26 x27 x28 x29) := s in
  Build_MetalCommandList x0 x1 x2 x3 x4 x5 x6 x7 x8 x9 x10 x11 x12 x13 x14 v
      x16 x17 x18 x19 x20 x21 x22 x23 x24 x25 x26 x27 x28 x29.

Definition set_vertexBufferOffsets (v : list Z) (s : MetalCommandList) : MetalCommandList :=
  let '(Build_MetalCommandList x0 x1 x2 x3 x4 x5 x6 x7 x8 x9 x10 x11 x12 x13
      x14 x15 _ x17 x18 x19 x20 x21 x22 x23 x24 x25 x26 x27 x28 x29) := s in
  Build_MetalCommandList x0 x1 x2 x3 x4 x5 x6 x7 x8 x9 x10 x11 x12 x13 x14 x15
      v x17 x18 x19 x20 x21 x22 x23 x24 x25 x26 x27 x28 x29.

Definition set_viewportVector (v : list Viewport) (s : MetalCommandList) : MetalCommandList :=
  let '(Build_MetalCommandList x0 x1 x2 x3 x4 x5 x6 x7 x8 x9 x10 x11 x12 x13
      x14 x15 x16 _ x18 x19 x20 x21 x22 x23 x24 x25 x26 x27 x28 x29) := s in
  Build_MetalCommandList x0 x1 x2 x3 x4 x5 x6 x7 x8 x9 x10 x11 x12 x13 x14 x15
      x16 v x18 x19 x20 x21 x22 x23 x24 x25 x26 x27 x28 x29.

Definition set_scissorVector (v : list ScissorRect) (s : MetalCommandList) : MetalCommandList :=
  let '(Build_MetalCommandList x0 x1 x2 x3 x4 x5 x6 x7 x8 x9 x10 x11 x12 x13
      x14 x15 x16 x17 _ x19 x20 x21 x22 x23 x24 x25 x26 x27 x28 x29) := s in
  Build_MetalCommandList x0 x1 x2 x3 x4 x5 x6 x7 x8 x9 x10 x11 x12 x13 x14 x15
      x16 x17 v x19 x20 x21 x22 x23 x24 x25 x26 x27 x28 x29.

Definition set_pushConstants (v : list PushConstantData) (s : MetalCommandList) : MetalCommandList :=
  let '(Build_MetalCommandList x0 x1 x2 x3 x4 x5 x6 x7 x8 x9 x10 x11 x12 x13
      x14 x15 x16 x17 x18 _ x20 x21 x22 x23 x24 x25 x26 x27 x28 x29) := s in
  Build_MetalCommandList x0 x1 x2 x3 x4 x5 x6 x7 x8 x9 x10 x11 x12 x13 x14 x15
      x16 x17 x18 v x20 x21 x22 x23 x24 x25 x26 x27 x28 x29.

Definition set_dynamicDepthBias (v : DepthBias) (s : MetalCommandList) : MetalCommandList :=
  let '(Build_MetalCommandList x0 x1 x2 x3 x4 x5 x6 x7 x8 x9 x10 x11 x12 x13
      x14 x15 x16 x17 x18 x19 _ x21 x22 x23 x24 x25 x26 x27 x28 x29) := s in
  Build_MetalCommandList x0 x1 x2 x3 x4 x5 x6 x7 x8 x9 x10 x11 x12 x13 x14 x15
      x16 x17 x18 x19 v x21 x22 x23 x24 x25 x26 x27 x28 x29.

Definition set_targetFramebuffer (v : option MetalFramebuffer) (s : MetalCommandList) : MetalCommandList :=
  let '(Build_MetalCommandList x0 x1 x2 x3 x4 x5 x6 x7 x8 x9 x10 x11 x12 x13
      x14 x15 x16 x17 x18 x19 x20 _ x22 x23 x24 x25 x26 x27 x28 x29) := s in
  Build_MetalCommandList x0 x1 x2 x3 x4 x5 x6 x7 x8 x9 x10 x11 x12 x13 x14 x15
      x16 x17 x18 x19 x20 v x22 x23 x24 x25 x26 x27 x28 x29.

Definition set_activeComputePipelineLayout (v : option MetalPipelineLayout) (s : MetalCommandList) : MetalCommandList :=
  let '(Build_MetalCommandList x0 x1 x2 x3 x4 x5 x6 x7 x8 x9 x10 x11 x12 x13
      x14 x15 x16 x17 x18 x19 x20 x21 _ x23 x24 x25 x26 x27 x28 x29) := s in
  Build_MetalCommandList x0 x1 x2 x3 x4 x5 x6 x7 x8 x9 x10 x11 x12 x13 x14 x15
      x16 x17 x18 x19 x20 x21 v x23 x24 x25 x26 x27 x28 x29.

Definition set_activeGraphicsPipelineLayout (v : option MetalPipelineLayout) (s : MetalCommandList) : MetalCommandList :=
  let '(Build_MetalCommandList x0 x1 x2 x3 x4 x5 x6 x7 x8 x9 x10 x11 x12 x13
      x14 x15 x16 x17 x18 x19 x20 x21 x22 _ x24 x25 x26 x27 x28 x29) := s in
  Build_MetalCommandList x0 x1 x2 x3 x4 x5 x6 x7 x8 x9 x10 x11 x12 x13 x14 x15
      x16 x17 x18 x19 x20 x21 x22 v x24 x25 x26 x27 x28 x29.

Definition set_activeRenderState (v : option MetalRenderState) (s : MetalCommandList) : MetalCommandList :=
  let '(Build_MetalCommandList x0 x1 x2 x3 x4 x5 x6 x7 x8 x9 x10 x11 x12 x13
      x14 x15 x16 x17 x18 x19 x20 x21 x22 x23 _ x25 x26 x27 x28 x29) := s in
  Build_MetalCommandList x0 x1 x2 x3 x4 x5 x6 x7 x8 x9 x10 x11 x12 x13 x14 x15
      x16 x17 x18 x19 x20 x21 x22 x23 v x25 x26 x27 x28 x29.

Definition set_activeComputeState (v : option MetalComputeState) (s : MetalCommandList) : MetalCommandList :=
  let '(Build_MetalCommandList x0 x1 x2 x3 x4 x5 x6 x7 x8 x9 x10 x11 x12 x13
      x14 x15 x16 x17 x18 x19 x20 x21 x22 x23 x24 _ x26 x27 x28 x29) := s in
  Build_MetalCommandList x0 x1 x2 x3 x4 x5 x6 x7 x8 x9 x10 x11 x12 x13 x14 x15
      x16 x17 x18 x19 x20 x21 x22 x23 x24 v x26 x27 x28 x29.

Definition set_renderDescriptorSets (v : list (option ptr)) (s : MetalCommandList) : MetalCommandList :=
  let '(Build_MetalCommandList x0 x1 x2 x3 x4 x5 x6 x7 x8 x9 x10 x11 x12 x13
      x14 x15 x16 x17 x18 x19 x20 x21 x22 x23 x24 x25 _ x27 x28 x29) := s in
  Build_MetalCommandList x0 x1 x2 x3 x4 x5 x6 x7 x8 x9 x10 x11 x12 x13 x14 x15
      x16 x17 x18 x19 x20 x21 x22 x23 x24 x25 v x27 x28 x29.

Definition set_computeDescriptorSets (v : list (option ptr)) (s : MetalCommandList) : MetalCommandList :=
  let '(Build_MetalCommandList x0 x1 x2 x3 x4 x5 x6 x7 x8 x9 x10 x11 x12 x13
      x14 x15 x16 x17 x18 x19 x20 x21 x22 x23 x24 x25 x26 _ x28 x29) := s in
  Build_MetalCommandList x0 x1 x2 x3 x4 x5 x6 x7 x8 x9 x10 x11 x12 x13 x14 x15
      x16 x17 x18 x19 x20 x21 x22 x23 x24 x25 x26 v x28 x29.

Definition set_currentEncoderDescriptorSets (v : list ptr) (s : MetalCommandList) : MetalCommandList :=
  let '(Build_MetalCommandList x0 x1 x2 x3 x4 x5 x6 x7 x8 x9 x10 x11 x12 x13
      x14 x15 x16 x17 x18 x19 x20 x21 x22 x23 x24 x25 x26 x27 _ x29) := s in
  Build_MetalCommandList x0 x1 x2 x3 x4 x5 x6 x7 x8 x9 x10 x11 x12 x13 x14 x15
      x16 x17 x18 x19 x20 x21 x22 x23 x24 x25 x26 x27 v x29.

Definition set_trace (v : list NativeCall) (s : MetalCommandList) : MetalCommandList :=
  let '(Build_MetalCommandList x0 x1 x2 x3 x4 x5 x6 x7 x8 x9 x10 x11 x12 x13
      x14 x15 x16 x17 x18 x19 x20 x21 x22 x23 x24 x25 x26 x27 x28 _) := s in
  Build_MetalCommandList x0 x1 x2 x3 x4 x5 x6 x7 x8 x9 x10 x11 x12 x13 x14 x15
      x16 x17 x18 x19 x20 x21 x22 x23 x24 x25 x26 x27 x28 v.

#[local] Unset Primitive Projections.

(** The member initialisers of plume_metal.h:322-371.  The three floats
    of [dynamicDepthBias] have none; they start at zero here. *)
Definition newMetalCommandList : MetalCommandList :=
  {| mtl := false;
     activeType := NoEncoder;
     activeRenderEncoder := false;
     activeComputeEncoder := false;
     activeBlitEncoder := false;
     activeResolveComputeEncoder := false;
     dirtyComputeState :=
       {| cPipelineState := false; cDescriptorSets := false; cPushConstants := false;
          cDescriptorSetDirtyIndex := 0 |};
     dirtyGraphicsState :=
       {| gPipelineState := false; gDescriptorSets := false; gPushConstants := false;
          gViewports := false; gScissors := false; gIndexBuffer := false;
          gDepthBias := false; gDescriptorSetDirtyIndex := 0; vertexBufferSlots := 0%Z |};
     pendingClears := {| initialAction := []; clearValues := []; active := false |};
     stateCache :=
       {| lastPipelineState := None; lastViewports := []; lastScissors := [];
          lastPushConstants := [] |};
     currentPrimitiveType := PrimitiveTypeTriangle;
     currentIndexType := IndexTypeUInt32;
     indexBuffer := None;
     indexBufferOffset := 0%Z;
     indexTypeSize := 0%Z;
     vertexBuffers := replicate MAX_VERTEX_BUFFER_BINDINGS None;
     vertexBufferOffsets := replicate MAX_VERTEX_BUFFER_BINDINGS 0%Z;
     viewportVector := [];
     scissorVector := [];
     pushConstants := [];
     dynamicDepthBias :=
       {| depthBias := 0%Z; depthBiasClampValue := 0%Z; slopeScaledDepthBias := 0%Z |};
     targetFramebuffer := None;
     activeComputePipelineLayout := None;
     activeGraphicsPipelineLayout := None;
     activeRenderState := None;
     activeComputeState := None;
     renderDescriptorSets := replicate MAX_DESCRIPTOR_SET_BINDINGS None;
     computeDescriptorSets := replicate MAX_DESCRIPTOR_SET_BINDINGS None;
     currentEncoderDescriptorSets := [];
     trace := [] |}.

Definition emit (c : NativeCall) (s : MetalCommandList) : MetalCommandList :=
  set_trace (trace s ++ [c]) s.

(** Updates of single dirty flags. *)
Definition gWith (f : GraphicsStateFlags)
    (pipeline sets push view sciss bias : bool) (dirtyIndex : nat) (slots : Z)
  : GraphicsStateFlags :=
  {| gPipelineState := pipeline; gDescriptorSets := sets; gPushConstants := push;
     gViewports := view; gScissors := sciss; gIndexBuffer := gIndexBuffer f;
     gDepthBias := bias; gDescriptorSetDirtyIndex := dirtyIndex;
     vertexBufferSlots := slots |}.

Definition gSetPipelineState (b : bool) (f : GraphicsStateFlags) :=
  gWith f b (gDescriptorSets f) (gPushConstants f) (gViewports f) (gScissors f)
    (gDepthBias f) (gDescriptorSetDirtyIndex f) (vertexBufferSlots f).
Definition gSetDescriptorSets (b : bool) (dirtyIndex : nat) (f : GraphicsStateFlags) :=
  gWith f (gPipelineState f) b (gPushConstants f) (gViewports f) (gScissors f)
    (gDepthBias f) dirtyIndex (vertexBufferSlots f).
Definition gSetPushConstants (b : bool) (f : GraphicsStateFlags) :=
  gWith f (gPipelineState f) (gDescriptorSets f) b (gViewports f) (gScissors f)
    (gDepthBias f) (gDescriptorSetDirtyIndex f) (vertexBufferSlots f).
Definition gSetViewports (b : bool) (f : GraphicsStateFlags) :=
  gWith f (gPipelineState f) (gDescriptorSets f) (gPushConstants f) b (gScissors f)
    (gDepthBias f) (gDescriptorSetDirtyIndex f) (vertexBufferSlots f).
Definition gSetScissors (b : bool) (f : GraphicsStateFlags) :=
  gWith f (gPipelineState f) (gDescriptorSets f) (gPushConstants f) (gViewports f) b
    (gDepthBias f) (gDescriptorSetDirtyIndex f) (vertexBufferSlots f).
Definition gSetDepthBias (b : bool) (f : GraphicsStateFlags) :=
  gWith f (gPipelineState f) (gDescriptorSets f) (gPushConstants f) (gViewports f)
    (gScissors f) b (gDescriptorSetDirtyIndex f) (vertexBufferSlots f).
Definition gSetVertexBufferSlots (slots : Z) (f : GraphicsStateFlags) :=
  gWith f (gPipelineState f) (gDescriptorSets f) (gPushConstants f) (gViewports f)
    (gScissors f) (gDepthBias f) (gDescriptorSetDirtyIndex f) slots.

Definition cSetPipelineState (b : bool) (f : ComputeStateFlags) :=
  {| cPipelineState := b; cDescriptorSets := cDescriptorSets f;
     cPushConstants := cPushConstants f;
     cDescriptorSetDirtyIndex := cDescriptorSetDirtyIndex f |}.
Definition cSetDescriptorSets (b : bool) (dirtyIndex : nat) (f : ComputeStateFlags) :=
  {| cPipelineState := cPipelineState f; cDescriptorSets := b;
     cPushConstants := cPushConstants f; cDescriptorSetDirtyIndex := dirtyIndex |}.
Definition cSetPushConstants (b : bool) (f : ComputeStateFlags) :=
  {| cPipelineState := cPipelineState f; cDescriptorSets := cDescriptorSets f;
     cPushConstants := b; cDescriptorSetDirtyIndex := cDescriptorSetDirtyIndex f |}.

Definition cacheSetLastPushConstants (l : list PushConstantData) (c : StateCache) :=
  {| lastPipelineState := lastPipelineState c; lastViewports := lastViewports c;
     lastScissors := lastScissors c; lastPushConstants := l |}.
Definition cacheSetLastPipelineState (p : option ptr) (c : StateCache) :=
  {| lastPipelineState := p; lastViewports := lastViewports c;
     lastScissors := lastScissors c; lastPushConstants := lastPushConstants c |}.
Definition cacheSetLastViewports (l : list Viewport) (c : StateCache) :=
  {| lastPipelineState := lastPipelineState c; lastViewports := l;
     lastScissors := lastScissors c; lastPushConstants := lastPushConstants c |}.
Definition cacheSetLastScissors (l : list ScissorRect) (c : StateCache) :=
  {| lastPipelineState := lastPipelineState c; lastViewports := lastViewports c;
     lastScissors := l; lastPushConstants := lastPushConstants c |}.

(** ** Closing encoders *)

(** [MetalCommandList::endActiveRenderEncoder], plume_metal.cpp:3094. *)
Definition endActiveRenderEncoder (s : MetalCommandList) : MetalCommandList :=
  if activeRenderEncoder s then
    let s := emit (useResources false (currentEncoderDescriptorSets s)) s in
    let s := emit (endEncoding Render) s in
    let s := set_activeRenderEncoder false s in
    let s := set_currentEncoderDescriptorSets [] s in
    let s := set_dirtyGraphicsState graphicsSetAll s in
    set_stateCache
      {| lastPipelineState := None; lastViewports := []; lastScissors := [];
         lastPushConstants := [] |} s
  else s.

(** [MetalCommandList::endActiveComputeEncoder], plume_metal.cpp:2945. *)
Definition endActiveComputeEncoder (s : MetalCommandList) : MetalCommandList :=
  if activeComputeEncoder s then
    let s := emit (useResources true (currentEncoderDescriptorSets s)) s in
    let s := emit (endEncoding Compute) s in
    let s := set_activeComputeEncoder false s in
    let s := set_currentEncoderDescriptorSets [] s in
    set_stateCache (cacheSetLastPushConstants [] (stateCache s)) s
  else s.

(** [MetalCommandList::endActiveBlitEncoder], plume_metal.cpp:3123. *)
Definition endActiveBlitEncoder (s : MetalCommandList) : MetalCommandList :=
  if activeBlitEncoder s then
    set_activeBlitEncoder false (emit (endEncoding Blit) s)
  else s.

(** [MetalCommandList::endActiveResolveTextureComputeEncoder],
    plume_metal.cpp:3144. *)
Definition endActiveResolveTextureComputeEncoder (s : MetalCommandList) : MetalCommandList :=
  if activeResolveComputeEncoder s then
    set_activeResolveComputeEncoder false (emit (endEncoding Resolve) s)
  else s.

(** [MetalCommandList::endOtherEncoders], plume_metal.cpp:2875. *)
Definition endOtherEncoders (type : EncoderType) (s : MetalCommandList) : MetalCommandList :=
  if decide (activeType s = type) then s
  else
    match activeType s with
    | NoEncoder => s
    | Render => endActiveRenderEncoder s
    | Compute => endActiveComputeEncoder s
    | Blit => endActiveBlitEncoder s
    | Resolve => endActiveResolveTextureComputeEncoder s
    end.

(** ** Opening encoders *)

(** [MetalPipelineLayout::bindDescriptorSets], plume_metal.cpp:3282,
    with [descriptorSetCount = MAX_DESCRIPTOR_SET_BINDINGS]: the loop
    over [startIndex <= i < setLayoutCount]. *)
Definition insertSet (p : ptr) (sets : list ptr) : list ptr :=
  if decide (p ∈ sets) then sets else sets ++ [p].

Definition bindDescriptorSets (layout : MetalPipelineLayout)
    (descriptorSets : list (option ptr)) (isCompute : bool) (startIndex : nat)
    (s : MetalCommandList) : MetalCommandList :=
  fold_left
    (fun s i =>
       if decide (MAX_DESCRIPTOR_SET_BINDINGS ≤ i) then s
       else
         match descriptorSets !! i with
         | Some (Some descriptorSet) =>
             emit (bindDescriptorSet isCompute descriptorSet (DESCRIPTOR_SETS_BINDING_INDEX + i))
               (set_currentEncoderDescriptorSets
                  (insertSet descriptorSet (currentEncoderDescriptorSets s)) s)
         | _ => s
         end)
    (seq startIndex (setLayoutCount layout - startIndex)) s.

(** The three flushes of [checkActiveComputeEncoder],
    plume_metal.cpp:2921-2942.  [activeComputeState] and
    [activeComputePipelineLayout] are dereferenced. *)
Definition flushComputePipelineState (s : MetalCommandList) : option MetalCommandList :=
  if cPipelineState (dirtyComputeState s) then
    state ← activeComputeState s;
    Some (set_dirtyComputeState (cSetPipelineState false (dirtyComputeState s))
            (emit (setComputePipelineState (computePipelineState state)) s))
  else Some s.

Definition flushComputeDescriptorSets (s : MetalCommandList) : option MetalCommandList :=
  if cDescriptorSets (dirtyComputeState s) then
    layout ← activeComputePipelineLayout s;
    let s := bindDescriptorSets layout (computeDescriptorSets s) true
               (cDescriptorSetDirtyIndex (dirtyComputeState s)) s in
    Some (set_dirtyComputeState
            (cSetDescriptorSets false MAX_DESCRIPTOR_SET_BINDINGS (dirtyComputeState s)) s)
  else Some s.

Definition bindComputePushConstants (s : MetalCommandList) : MetalCommandList :=
  fold_left
    (fun s pushConstant =>
       if stageCOMPUTE (pcStageFlags pushConstant) then
         emit (setPushConstantBytes ComputeStage (pcData pushConstant) (pcSize pushConstant)
                 (PUSH_CONSTANTS_BINDING_INDEX + pcBinding pushConstant)) s
       else s)
    (pushConstants s) s.

Definition flushComputePushConstants (s : MetalCommandList) : MetalCommandList :=
  if cPushConstants (dirtyComputeState s) then
    let s := bindComputePushConstants s in
    let s := set_stateCache (cacheSetLastPushConstants (pushConstants s) (stateCache s)) s in
    set_dirtyComputeState (cSetPushConstants false (dirtyComputeState s)) s
  else s.

(** [MetalCommandList::checkActiveComputeEncoder], plume_metal.cpp:2903.
    Opening an encoder needs the command buffer. *)
Definition checkActiveComputeEncoder (s : MetalCommandList) : option MetalCommandList :=
  let s := endOtherEncoders Compute s in
  let s := set_activeType Compute s in
  s ← (if activeComputeEncoder s then Some s
       else
         guard (mtl s = true);;
         Some (set_dirtyComputeState computeSetAll
                 (set_activeComputeEncoder true (emit computeCommandEncoder s))));
  s ← flushComputePipelineState s;
  s ← flushComputeDescriptorSets s;
  Some (flushComputePushConstants s).

(** The attachments of the render pass descriptor that
    [checkActiveRenderEncoder] fills in: [pendingClears.initialAction[i]]
    and [pendingClears.clearValues[i]] are read for each of them. *)
Definition attachmentPass (pending : PendingClears) (i : nat) (a : MetalAttachment)
  : option AttachmentPass :=
  action ← initialAction pending !! i;
  value ← clearValues pending !! i;
  Some {| passTexture := attachmentTexture a; loadAction := action; clearValue := value |}.

Definition colorPasses (pending : PendingClears) (fb : MetalFramebuffer)
  : option (list AttachmentPass) :=
  mapM (fun x : option AttachmentPass => x) (imap (attachmentPass pending) (colorAttachments fb)).

Definition depthPass (pending : PendingClears) (fb : MetalFramebuffer)
  : option (option AttachmentPass) :=
  if decide (attachmentFormat (depthAttachment fb) = UNKNOWN) then Some None
  else Some <$> attachmentPass pending (length (colorAttachments fb)) (depthAttachment fb).

Definition stencilPass (pending : PendingClears) (fb : MetalFramebuffer)
  : option (option AttachmentPass) :=
  if decide (attachmentFormat (depthAttachment fb) = UNKNOWN) then Some None
  else if depthIsStencil fb then
    Some <$> attachmentPass pending (length (colorAttachments fb) + 1) (depthAttachment fb)
  else Some None.

(** [MetalCommandList::checkActiveRenderEncoder], plume_metal.cpp:2958. *)
Definition checkActiveRenderEncoder (s : MetalCommandList) : option MetalCommandList :=
  fb ← targetFramebuffer s;
  let s := endOtherEncoders Render s in
  let s := if active (pendingClears s) then endActiveRenderEncoder s else s in
  let s := set_activeType Render s in
  if activeRenderEncoder s then Some s
  else
    colors ← colorPasses (pendingClears s) fb;
    depth ← depthPass (pendingClears s) fb;
    stencil ← stencilPass (pendingClears s) fb;
    guard (mtl s = true);;
    let s := set_activeRenderEncoder true (emit (renderCommandEncoder colors depth stencil) s) in
    if active (pendingClears s) then
      Some (set_pendingClears
              {| initialAction := (fun _ => LoadActionLoad) <$> initialAction (pendingClears s);
                 clearValues := clearValues (pendingClears s);
                 active := false |} s)
    else Some s.

(** [MetalCommandList::checkActiveBlitEncoder], plume_metal.cpp:3113. *)
Definition checkActiveBlitEncoder (s : MetalCommandList) : option MetalCommandList :=
  let s := endOtherEncoders Blit s in
  let s := set_activeType Blit s in
  if activeBlitEncoder s then Some s
  else
    guard (mtl s = true);;
    Some (set_activeBlitEncoder true (emit blitCommandEncoder s)).

(** [MetalCommandList::checkActiveResolveTextureComputeEncoder],
    plume_metal.cpp:3131. *)
Definition checkActiveResolveTextureComputeEncoder (s : MetalCommandList)
  : option MetalCommandList :=
  guard (is_Some (targetFramebuffer s));;
  let s := endOtherEncoders Resolve s in
  let s := set_activeType Resolve s in
  if activeResolveComputeEncoder s then Some s
  else
    guard (mtl s = true);;
    Some (set_activeResolveComputeEncoder true (emit resolveComputeCommandEncoder s)).

(** [MetalCommandList::handlePendingClears], plume_metal.cpp:2433. *)
Definition handlePendingClears (s : MetalCommandList) : option MetalCommandList :=
  if active (pendingClears s) then
    s ← checkActiveRenderEncoder s;
    Some (endActiveRenderEncoder s)
  else Some s.

(** ** Flushing dirty graphics state *)

(** The dirty vertex buffer slots, lowest first: the [__builtin_ctzll]
    loop of plume_metal.cpp:3061 over a 19-bit field. *)
Definition dirtySlots (slots : Z) : list nat :=
  filter (fun i => Z.testbit slots (Z.of_nat i) = true) (seq 0 MAX_VERTEX_BUFFER_BINDINGS).

(** The flushes of [checkForUpdatesInGraphicsState], in source order
    (plume_metal.cpp:3020-3091). *)
Definition flushPipelineState (s : MetalCommandList) : MetalCommandList :=
  if gPipelineState (dirtyGraphicsState s) then
    let s :=
      match activeRenderState s with
      | Some state =>
          set_stateCache
            (cacheSetLastPipelineState (renderPipelineState state) (stateCache s))
            (emit (setRenderState state) s)
      | None => s
      end in
    set_dirtyGraphicsState (gSetPipelineState false (dirtyGraphicsState s)) s
  else s.

Definition flushViewports (s : MetalCommandList) : MetalCommandList :=
  if gViewports (dirtyGraphicsState s) then
    let s := emit (setViewports (viewportVector s)) s in
    let s := set_stateCache (cacheSetLastViewports (viewportVector s) (stateCache s)) s in
    set_dirtyGraphicsState (gSetViewports false (dirtyGraphicsState s)) s
  else s.

Definition flushDepthBias (s : MetalCommandList) : option MetalCommandList :=
  if gDepthBias (dirtyGraphicsState s) then
    state ← activeRenderState s;
    let s :=
      if dynamicDepthBiasEnabled state then
        emit (setDepthBias (depthBias (dynamicDepthBias s))
                (slopeScaledDepthBias (dynamicDepthBias s))
                (depthBiasClampValue (dynamicDepthBias s))) s
      else
        emit (setDepthBias (depthBiasConstantFactor state) (depthBiasSlopeFactor state)
                (depthBiasClamp state)) s in
    Some (set_dirtyGraphicsState (gSetDepthBias false (dirtyGraphicsState s)) s)
  else Some s.

Definition flushScissors (s : MetalCommandList) : MetalCommandList :=
  if gScissors (dirtyGraphicsState s) then
    let s := emit (setScissorRects (scissorVector s)) s in
    let s := set_stateCache (cacheSetLastScissors (scissorVector s) (stateCache s)) s in
    set_dirtyGraphicsState (gSetScissors false (dirtyGraphicsState s)) s
  else s.

Definition bindVertexBuffers (slots : list nat) (s : MetalCommandList) : MetalCommandList :=
  fold_left
    (fun s i =>
       emit (setVertexBuffer (default None (vertexBuffers s !! i))
               (default 0%Z (vertexBufferOffsets s !! i))
               (VERTEX_BUFFERS_BINDING_INDEX + i)) s)
    slots s.

Definition flushVertexBuffers (s : MetalCommandList) : MetalCommandList :=
  if negb (vertexBufferSlots (dirtyGraphicsState s) =? 0)%Z then
    let s := bindVertexBuffers (dirtySlots (vertexBufferSlots (dirtyGraphicsState s))) s in
    set_dirtyGraphicsState (gSetVertexBufferSlots 0 (dirtyGraphicsState s)) s
  else s.

Definition flushDescriptorSets (s : MetalCommandList) : MetalCommandList :=
  if gDescriptorSets (dirtyGraphicsState s) then
    let s :=
      match activeGraphicsPipelineLayout s with
      | Some layout =>
          bindDescriptorSets layout (renderDescriptorSets s) false
            (gDescriptorSetDirtyIndex (dirtyGraphicsState s)) s
      | None => s
      end in
    set_dirtyGraphicsState
      (gSetDescriptorSets false (MAX_DESCRIPTOR_SET_BINDINGS + 1) (dirtyGraphicsState s)) s
  else s.

Definition bindGraphicsPushConstants (s : MetalCommandList) : MetalCommandList :=
  fold_left
    (fun s pushConstant =>
       let bindIndex := PUSH_CONSTANTS_BINDING_INDEX + pcBinding pushConstant in
       let s :=
         if stageVERTEX (pcStageFlags pushConstant) then
           emit (setPushConstantBytes VertexStage (pcData pushConstant)
                   (pcSize pushConstant) bindIndex) s
         else s in
       if stagePIXEL (pcStageFlags pushConstant) then
         emit (setPushConstantBytes FragmentStage (pcData pushConstant)
                 (pcSize pushConstant) bindIndex) s
       else s)
    (pushConstants s) s.

Definition flushPushConstants (s : MetalCommandList) : MetalCommandList :=
  if gPushConstants (dirtyGraphicsState s) then
    let s := bindGraphicsPushConstants s in
    let s := set_stateCache (cacheSetLastPushConstants (pushConstants s) (stateCache s)) s in
    set_dirtyGraphicsState (gSetPushConstants false (dirtyGraphicsState s)) s
  else s.

(** [MetalCommandList::checkForUpdatesInGraphicsState],
    plume_metal.cpp:3019.  The two [return] statements, taken when a
    dirty vector is empty, skip the flushes that follow them. *)
Definition checkForUpdatesInGraphicsState (s : MetalCommandList) : option MetalCommandList :=
  let s := flushPipelineState s in
  if gViewports (dirtyGraphicsState s) && bool_decide (viewportVector s = []) then Some s
  else
    let s := flushViewports s in
    s ← flushDepthBias s;
    if gScissors (dirtyGraphicsState s) && bool_decide (scissorVector s = []) then Some s
    else
      let s := flushScissors s in
      let s := flushVertexBuffers s in
      let s := flushDescriptorSets s in
      Some (flushPushConstants s).

(** ** Recording operations *)

(** [MetalCommandList::begin], plume_metal.cpp:2090. *)
Definition begin (s : MetalCommandList) : option MetalCommandList :=
  guard (mtl s = false);;
  Some (set_mtl true (emit commandBuffer s)).

(** [MetalCommandList::end], plume_metal.cpp:2096 ([end] is a keyword). *)
Definition end_ (s : MetalCommandList) : option MetalCommandList :=
  let s := endActiveRenderEncoder s in
  s ← handlePendingClears s;
  let s := endActiveResolveTextureComputeEncoder s in
  let s := endActiveBlitEncoder s in
  let s := endActiveComputeEncoder s in
  let s := set_targetFramebuffer None s in
  Some (set_vertexBufferOffsets (replicate MAX_VERTEX_BUFFER_BINDINGS 0%Z)
          (set_vertexBuffers (replicate MAX_VERTEX_BUFFER_BINDINGS None) s)).

(** [MetalCommandList::commit], plume_metal.cpp:2112. *)
Definition commit (s : MetalCommandList) : option MetalCommandList :=
  guard (mtl s = true);;
  Some (set_mtl false (emit commitCommandBuffer s)).

(** [MetalCommandList::barriers], plume_metal.cpp:2118.  A barrier
    array is a pointer, [None] when null; only the counts are read. *)
Definition barriers {B T : Type} (bufferBarriers : option (list B)) (bufferBarriersCount : nat)
    (textureBarriers : option (list T)) (textureBarriersCount : nat)
    (s : MetalCommandList) : option MetalCommandList :=
  guard (bufferBarriersCount = 0 ∨ is_Some bufferBarriers);;
  guard (textureBarriersCount = 0 ∨ is_Some textureBarriers);;
  if decide (bufferBarriersCount = 0 ∧ textureBarriersCount = 0) then Some s
  else
    let s := endActiveRenderEncoder s in
    handlePendingClears s.

(** [MetalCommandList::dispatch], plume_metal.cpp:2131. *)
Definition dispatch (threadGroupCountX threadGroupCountY threadGroupCountZ : Z)
    (s : MetalCommandList) : option MetalCommandList :=
  s ← checkActiveComputeEncoder s;
  guard (activeComputeEncoder s = true);;
  state ← activeComputeState s;
  Some (emit (dispatchThreadgroups threadGroupCountX threadGroupCountY threadGroupCountZ
                (threadGroupSizeX state) (threadGroupSizeY state) (threadGroupSizeZ state)) s).

(** [MetalCommandList::drawInstanced], plume_metal.cpp:2170. *)
Definition drawInstanced
    (vertexCountPerInstance instanceCount startVertexLocation startInstanceLocation : Z)
    (s : MetalCommandList) : option MetalCommandList :=
  s ← checkActiveRenderEncoder s;
  s ← checkForUpdatesInGraphicsState s;
  state ← activeRenderState s;
  Some (emit (drawPrimitives (primitiveType state) startVertexLocation vertexCountPerInstance
                instanceCount startInstanceLocation) s).

(** [MetalCommandList::drawIndexedInstanced], plume_metal.cpp:2177. *)
Definition drawIndexedInstanced
    (indexCountPerInstance instanceCount startIndexLocation baseVertexLocation
       startInstanceLocation : Z)
    (s : MetalCommandList) : option MetalCommandList :=
  s ← checkActiveRenderEncoder s;
  s ← checkForUpdatesInGraphicsState s;
  Some (emit (drawIndexedPrimitives (currentPrimitiveType s) indexCountPerInstance
                (currentIndexType s) (indexBuffer s)
                (wrap32 (indexBufferOffset s + wrap32 (startIndexLocation * indexTypeSize s)))
                instanceCount baseVertexLocation startInstanceLocation) s).

(** [MetalCommandList::setPipeline], plume_metal.cpp:2184.  Pipeline
    states are compared by address. *)
Definition setPipeline (pipeline : option MetalPipeline) (s : MetalCommandList)
  : option MetalCommandList :=
  p ← pipeline;
  match p with
  | ComputePipeline state =>
      if decide (computeState <$> activeComputeState s = Some (computeState state)) then Some s
      else
        Some (set_dirtyComputeState (cSetPipelineState true (dirtyComputeState s))
                (set_activeComputeState (Some state) s))
  | GraphicsPipeline state =>
      let s := set_currentPrimitiveType (primitiveType state) s in
      if decide (renderState <$> activeRenderState s = Some (renderState state)) then Some s
      else
        Some (set_dirtyGraphicsState (gSetPipelineState true (dirtyGraphicsState s))
                (set_activeRenderState (Some state) s))
  | UnknownPipeline => None
  end.

(** [MetalCommandList::setComputePipelineLayout], plume_metal.cpp:2212.
    Layouts are compared by address. *)
Definition setComputePipelineLayout (layout : option MetalPipelineLayout)
    (s : MetalCommandList) : option MetalCommandList :=
  new ← layout;
  let oldLayout := activeComputePipelineLayout s in
  let s := set_activeComputePipelineLayout (Some new) s in
  if decide (pipelineLayout <$> oldLayout = Some (pipelineLayout new)) then Some s
  else
    let s := set_computeDescriptorSets (replicate MAX_DESCRIPTOR_SET_BINDINGS None) s in
    let s := set_pushConstants [] s in
    let s := set_stateCache (cacheSetLastPushConstants [] (stateCache s)) s in
    Some (set_dirtyComputeState
            (cSetPushConstants true (cSetDescriptorSets true 0 (dirtyComputeState s))) s).

(** [MetalCommandList::setGraphicsPipelineLayout], plume_metal.cpp:2265. *)
Definition setGraphicsPipelineLayout (layout : option MetalPipelineLayout)
    (s : MetalCommandList) : option MetalCommandList :=
  new ← layout;
  let oldLayout := activeGraphicsPipelineLayout s in
  let s := set_activeGraphicsPipelineLayout (Some new) s in
  if decide (pipelineLayout <$> oldLayout = Some (pipelineLayout new)) then Some s
  else
    let s := set_renderDescriptorSets (replicate MAX_DESCRIPTOR_SET_BINDINGS None) s in
    let s := set_pushConstants [] s in
    let s := set_stateCache (cacheSetLastPushConstants [] (stateCache s)) s in
    Some (set_dirtyGraphicsState
            (gSetPushConstants true (gSetDescriptorSets true 0 (dirtyGraphicsState s))) s).

(** The body shared by [setComputePushConstants] (plume_metal.cpp:2235)
    and [setGraphicsPushConstants] (plume_metal.cpp:2288) up to the
    dirty flag.  [data] is the memory behind the source pointer; the
    [memcpy] must stay inside both buffers. *)
Definition storePushConstants (layout : option MetalPipelineLayout) (rangeIndex : nat)
    (data : list Byte.byte) (offset size : nat) (s : MetalCommandList)
  : option MetalCommandList :=
  l ← layout;
  range ← pushConstantRanges l !! rangeIndex;
  guard (rangeBinding range < MAX_PUSH_CONSTANT_BINDINGS);;
  let constants :=
    resize_vector (length (pushConstantRanges l)) defaultPushConstantData (pushConstants s) in
  old ← constants !! rangeIndex;
  let bytes := resize_vector (rangeSize range) Byte.x00 (pcData old) in
  let n := if decide (size = 0) then rangeSize range else size in
  guard (offset + n ≤ rangeSize range ∧ n ≤ length data);;
  let bytes := take offset bytes ++ take n data ++ drop (offset + n) bytes in
  Some (set_pushConstants
          (<[rangeIndex :=
               {| pcBinding := rangeBinding range; pcSet := rangeSet range;
                  pcOffset := rangeOffset range;
                  pcSize := wrap32 (alignUp (Z.of_nat (rangeSize range)));
                  pcStageFlags := rangeStageFlags range; pcData := bytes |}]> constants) s).

Definition setComputePushConstants (rangeIndex : nat) (data : list Byte.byte)
    (offset size : nat) (s : MetalCommandList) : option MetalCommandList :=
  s ← storePushConstants (activeComputePipelineLayout s) rangeIndex data offset size s;
  Some (set_dirtyComputeState (cSetPushConstants true (dirtyComputeState s)) s).

Definition setGraphicsPushConstants (rangeIndex : nat) (data : list Byte.byte)
    (offset size : nat) (s : MetalCommandList) : option MetalCommandList :=
  s ← storePushConstants (activeGraphicsPipelineLayout s) rangeIndex data offset size s;
  Some (set_dirtyGraphicsState (gSetPushConstants true (dirtyGraphicsState s)) s).

(** [MetalCommandList::setComputeDescriptorSet], plume_metal.cpp:2254. *)
Definition setComputeDescriptorSet (descriptorSet : option ptr) (setIndex : nat)
    (s : MetalCommandList) : option MetalCommandList :=
  guard (setIndex < MAX_DESCRIPTOR_SET_BINDINGS);;
  old ← computeDescriptorSets s !! setIndex;
  if decide (old = descriptorSet) then Some s
  else
    Some (set_dirtyComputeState
            (cSetDescriptorSets true
               (Nat.min (cDescriptorSetDirtyIndex (dirtyComputeState s)) setIndex)
               (dirtyComputeState s))
            (set_computeDescriptorSets (<[setIndex := descriptorSet]> (computeDescriptorSets s)) s)).

(** [MetalCommandList::setGraphicsDescriptorSet], plume_metal.cpp:2307. *)
Definition setGraphicsDescriptorSet (descriptorSet : option ptr) (setIndex : nat)
    (s : MetalCommandList) : option MetalCommandList :=
  guard (setIndex < MAX_DESCRIPTOR_SET_BINDINGS);;
  old ← renderDescriptorSets s !! setIndex;
  if decide (old = descriptorSet) then Some s
  else
    Some (set_dirtyGraphicsState
            (gSetDescriptorSets true
               (Nat.min (gDescriptorSetDirtyIndex (dirtyGraphicsState s)) setIndex)
               (dirtyGraphicsState s))
            (set_renderDescriptorSets (<[setIndex := descriptorSet]> (renderDescriptorSets s)) s)).

(** [mapIndexFormat], plume_metal.cpp:538. *)
Definition mapIndexFormat (format : RenderFormat) : option IndexType :=
  match format with
  | R16_UINT => Some IndexTypeUInt16
  | R32_UINT => Some IndexTypeUInt32
  | _ => None
  end.

(** A [RenderBufferReference]: [ref] is the [mtl] handle of the buffer
    it points to, [None] for a null [ref]. *)
Record RenderBufferReference := {
  ref : option (option ptr);
  refOffset : Z
}.

Record RenderIndexBufferView := {
  indexViewBuffer : RenderBufferReference;
  indexViewFormat : RenderFormat
}.

(** [MetalCommandList::setIndexBuffer], plume_metal.cpp:2334. *)
Definition setIndexBuffer (view : option RenderIndexBufferView) (s : MetalCommandList)
  : option MetalCommandList :=
  match view with
  | None => Some s
  | Some v =>
      buffer ← ref (indexViewBuffer v);
      type ← mapIndexFormat (indexViewFormat v);
      let s := set_indexBuffer buffer s in
      let s := set_indexBufferOffset (wrap32 (refOffset (indexViewBuffer v))) s in
      let s := set_currentIndexType type s in
      Some (set_indexTypeSize (match type with IndexTypeUInt32 => 4 | IndexTypeUInt16 => 2 end)%Z s)
  end.

(** One iteration of the loop of [setVertexBuffers]: a null buffer is
    replaced by the device's null buffer at offset 0. *)
Definition storeVertexBuffer (startSlot : nat) (s : MetalCommandList)
    (iv : nat * RenderBufferReference) : MetalCommandList :=
  let '(buffer, newOffset) :=
    match ref iv.2 with
    | Some mtl => (BufferMtl mtl, refOffset iv.2)
    | None => (DeviceNullBuffer, 0%Z)
    end in
  let bufferIndex := startSlot + iv.1 in
  let s := set_vertexBuffers (<[bufferIndex := Some buffer]> (vertexBuffers s)) s in
  let s := set_vertexBufferOffsets
             (<[bufferIndex := wrap32 newOffset]> (vertexBufferOffsets s)) s in
  set_dirtyGraphicsState
    (gSetVertexBufferSlots
       (Z.land (Z.lor (vertexBufferSlots (dirtyGraphicsState s))
                  (Z.shiftl 1 (Z.of_nat bufferIndex)))
          (Z.shiftl 1 (Z.of_nat MAX_VERTEX_BUFFER_BINDINGS) - 1))
       (dirtyGraphicsState s)) s.

(** [MetalCommandList::setVertexBuffers], plume_metal.cpp:2344.  [views]
    and [inputSlots] are pointers; the elements of [inputSlots] are not
    read. *)
Definition setVertexBuffers {I : Type} (startSlot : nat)
    (views : option (list RenderBufferReference)) (viewCount : nat)
    (inputSlots : option (list I)) (s : MetalCommandList) : option MetalCommandList :=
  match views with
  | Some vs =>
      if decide (0 < viewCount) then
        guard (is_Some inputSlots);;
        guard (startSlot + viewCount ≤ MAX_VERTEX_BUFFER_BINDINGS);;
        guard (viewCount ≤ length vs);;
        Some (fold_left (storeVertexBuffer startSlot) (imap pair (take viewCount vs)) s)
      else Some s
  | None => Some s
  end.

(** [MetalCommandList::setViewports], plume_metal.cpp:2367. *)
Definition setViewportsOp (viewports : list Viewport) (count : nat) (s : MetalCommandList)
  : option MetalCommandList :=
  guard (count ≤ length viewports);;
  let s := set_viewportVector (take count viewports) s in
  if negb (vector_eqb Viewport_eqb (viewportVector s) (lastViewports (stateCache s))) then
    Some (set_dirtyGraphicsState (gSetViewports true (dirtyGraphicsState s)) s)
  else Some s.

(** [clampScissorRectIfNecessary], plume_metal.cpp:87. *)
Definition clampScissorRectIfNecessary (rect : RenderRect)
    (targetFramebuffer : option MetalFramebuffer) : ScissorRect :=
  let l := Z.max 0 (left rect) in
  let t := Z.max 0 (top rect) in
  let r := Z.max 0 (right rect) in
  let b := Z.max 0 (bottom rect) in
  if (r <=? l)%Z || (b <=? t)%Z then {| scX := 0; scY := 0; scWidth := 0; scHeight := 0 |}
  else
    let clampedRect := {| scX := l; scY := t; scWidth := r - l; scHeight := b - t |} in
    match targetFramebuffer with
    | None => clampedRect
    | Some fb =>
        let textures := omap attachmentTexture (colorAttachments fb) in
        match textures with
        | [] => clampedRect
        | _ =>
            let maxWidth := foldl (fun m tex => Z.min m (textureWidth tex)) 2147483647%Z textures in
            let maxHeight := foldl (fun m tex => Z.min m (textureHeight tex)) 2147483647%Z textures in
            let w := if (maxWidth <? l + (r - l))%Z
                     then (if (l <? maxWidth)%Z then maxWidth - l else 0)%Z
                     else (r - l)%Z in
            let h := if (maxHeight <? t + (b - t))%Z
                     then (if (t <? maxHeight)%Z then maxHeight - t else 0)%Z
                     else (b - t)%Z in
            {| scX := l; scY := t; scWidth := w; scHeight := h |}
        end
    end.

(** [MetalCommandList::setScissors], plume_metal.cpp:2381. *)
Definition setScissors (scissorRects : list RenderRect) (count : nat) (s : MetalCommandList)
  : option MetalCommandList :=
  guard (count ≤ length scissorRects);;
  let s :=
    set_scissorVector
      ((fun rect => clampScissorRectIfNecessary rect (targetFramebuffer s))
         <$> take count scissorRects) s in
  if negb (vector_eqb ScissorRect_eqb (scissorVector s) (lastScissors (stateCache s))) then
    Some (set_dirtyGraphicsState (gSetScissors true (dirtyGraphicsState s)) s)
  else Some s.

(** [MetalCommandList::setFramebuffer], plume_metal.cpp:2394. *)
Definition setFramebuffer (fb : option MetalFramebuffer) (s : MetalCommandList)
  : option MetalCommandList :=
  let s := endOtherEncoders Render s in
  let s := endActiveRenderEncoder s in
  s ← handlePendingClears s;
  let s := set_activeType Render s in
  match fb with
  | Some interfaceFramebuffer =>
      let s := set_targetFramebuffer (Some interfaceFramebuffer) s in
      let s := set_dirtyGraphicsState graphicsSetAll s in
      let totalAttachments := length (colorAttachments interfaceFramebuffer) + 2 in
      Some (set_pendingClears
              {| initialAction := replicate totalAttachments LoadActionLoad;
                 clearValues := replicate totalAttachments defaultClearValue;
                 active := false |} s)
  | None => Some (set_targetFramebuffer None s)
  end.

(** [MetalCommandList::setDepthBias], plume_metal.cpp:2419. *)
Definition setDepthBiasOp (bias clamp slope : float) (s : MetalCommandList)
  : option MetalCommandList :=
  Some (set_dynamicDepthBias
          {| depthBias := bias; depthBiasClampValue := clamp; slopeScaledDepthBias := slope |} s).

(** The partial clear shared by [clearColor] and [clearDepthStencil]
    once the render encoder is open: the state cache is saved and put
    back, and every graphics flag is set dirty.  [clearRects] is read at
    [0 .. clearRectsCount - 1]. *)
Definition clearQuadsOp (kind : ClearKind) (clearRects : option (list RenderRect))
    (clearRectsCount : nat) (s : MetalCommandList) : option MetalCommandList :=
  rects ← clearRects;
  guard (clearRectsCount ≤ length rects);;
  let previousCache := stateCache s in
  let s := emit (clearQuads kind clearRectsCount) s in
  let s := set_stateCache previousCache s in
  Some (set_dirtyGraphicsState graphicsSetAll s).

(** [MetalCommandList::clearColor], plume_metal.cpp:2442. *)
Definition clearColor (attachmentIndex : nat) (colorValue : RenderColor)
    (clearRects : option (list RenderRect)) (clearRectsCount : nat)
    (s : MetalCommandList) : option MetalCommandList :=
  fb ← targetFramebuffer s;
  guard (attachmentIndex < length (colorAttachments fb));;
  guard (clearRects = None ∨ clearRectsCount ≤ MAX_CLEAR_RECTS);;
  if decide (clearRectsCount = 0) then
    guard (attachmentIndex < length (initialAction (pendingClears s)));;
    guard (attachmentIndex < length (clearValues (pendingClears s)));;
    Some (set_pendingClears
            {| initialAction :=
                 <[attachmentIndex := LoadActionClear]> (initialAction (pendingClears s));
               clearValues :=
                 <[attachmentIndex := clearColorValue colorValue]> (clearValues (pendingClears s));
               active := true |} s)
  else
    s ← checkActiveRenderEncoder s;
    attachment ← colorAttachments fb !! attachmentIndex;
    _ ← attachmentTexture attachment;
    (if decide (attachmentFormat (depthAttachment fb) = UNKNOWN) then Some tt
     else _ ← attachmentTexture (depthAttachment fb); Some tt);;
    clearQuadsOp (ColorClear attachmentIndex) clearRects clearRectsCount s.

(** [MetalCommandList::clearDepthStencil], plume_metal.cpp:2534. *)
Definition clearDepthStencil (clearDepthFlag clearStencilFlag : bool) (depthValue : float)
    (stencilValue : Z) (clearRects : option (list RenderRect)) (clearRectsCount : nat)
    (s : MetalCommandList) : option MetalCommandList :=
  fb ← targetFramebuffer s;
  guard (attachmentFormat (depthAttachment fb) ≠ UNKNOWN);;
  guard (clearRects = None ∨ clearRectsCount ≤ MAX_CLEAR_RECTS);;
  if clearDepthFlag || clearStencilFlag then
    if decide (clearRectsCount = 0) then
      let depthIndex := length (colorAttachments fb) in
      pending ←
        (if clearDepthFlag then
           guard (depthIndex < length (initialAction (pendingClears s)));;
           guard (depthIndex < length (clearValues (pendingClears s)));;
           Some {| initialAction :=
                     <[depthIndex := LoadActionClear]> (initialAction (pendingClears s));
                   clearValues :=
                     <[depthIndex := clearDepth depthValue]> (clearValues (pendingClears s));
                   active := active (pendingClears s) |}
         else Some (pendingClears s));
      pending ←
        (if clearStencilFlag then
           guard (depthIndex + 1 < length (initialAction pending));;
           guard (depthIndex + 1 < length (clearValues pending));;
           Some {| initialAction := <[depthIndex + 1 := LoadActionClear]> (initialAction pending);
                   clearValues :=
                     <[depthIndex + 1 := clearStencil stencilValue]> (clearValues pending);
                   active := active pending |}
         else Some pending);
      Some (set_pendingClears
              {| initialAction := initialAction pending; clearValues := clearValues pending;
                 active := true |} s)
    else
      s ← checkActiveRenderEncoder s;
      _ ← attachmentTexture (depthAttachment fb);
      _ ← mapM attachmentTexture (colorAttachments fb);
      clearQuadsOp (DepthClear clearDepthFlag clearStencilFlag) clearRects clearRectsCount s
  else Some s.

(** The prologue of the four copy operations:
    [endOtherEncoders(Blit); checkActiveBlitEncoder(); activeType = Blit]. *)
Definition blitPrologue (s : MetalCommandList) : option MetalCommandList :=
  let s := endOtherEncoders Blit s in
  s ← checkActiveBlitEncoder s;
  Some (set_activeType Blit s).

(** [MetalCommandList::copyBufferRegion], plume_metal.cpp:2637. *)
Definition copyBufferRegion (dstBuffer srcBuffer : RenderBufferReference) (size : Z)
    (s : MetalCommandList) : option MetalCommandList :=
  dst ← ref dstBuffer;
  src ← ref srcBuffer;
  s ← blitPrologue s;
  Some (emit (copyFromBuffer src (refOffset srcBuffer) dst (refOffset dstBuffer) size) s).

Inductive RenderTextureCopyType := COPY_UNKNOWN | SUBRESOURCE | PLACED_FOOTPRINT.

#[global] Instance RenderTextureCopyType_eq_dec : EqDecision RenderTextureCopyType.
Proof. solve_decision. Defined.

(** A [RenderTextureCopyLocation]: the copy type and the native handles
    behind its [texture] and [buffer] pointers.  The footprint and
    subresource numbers, which only size the native copy, are left
    out. *)
Record RenderTextureCopyLocation := {
  locationType : RenderTextureCopyType;
  locationTexture : option (option ptr);
  locationBuffer : option (option ptr)
}.

(** [MetalCommandList::copyTextureRegion], plume_metal.cpp:2651. *)
Definition copyTextureRegion (dstLocation srcLocation : RenderTextureCopyLocation)
    (s : MetalCommandList) : option MetalCommandList :=
  guard (locationType dstLocation ≠ COPY_UNKNOWN);;
  guard (locationType srcLocation ≠ COPY_UNKNOWN);;
  s ← blitPrologue s;
  match locationType dstLocation, locationType srcLocation with
  | SUBRESOURCE, PLACED_FOOTPRINT =>
      dstTexture ← locationTexture dstLocation;
      srcBuffer ← locationBuffer srcLocation;
      Some (emit (copyFromBufferToTexture srcBuffer dstTexture) s)
  | _, _ =>
      dstTexture ← locationTexture dstLocation;
      srcTexture ← locationTexture srcLocation;
      Some (emit (copyFromTexture srcTexture dstTexture) s)
  end.

(** A [MetalBuffer] as [copyBuffer] sees it: its handle and [desc.size]. *)
Record MetalBuffer := { bufferMtl : option ptr; bufferSize : Z }.

(** [MetalCommandList::copyBuffer], plume_metal.cpp:2725. *)
Definition copyBuffer (dstBuffer srcBuffer : option MetalBuffer) (s : MetalCommandList)
  : option MetalCommandList :=
  dst ← dstBuffer;
  src ← srcBuffer;
  s ← blitPrologue s;
  Some (emit (copyFromBuffer (bufferMtl src) 0 (bufferMtl dst) 0 (bufferSize dst)) s).

(** A [MetalTexture] as the copy and resolve operations see it: its
    handle, [desc.width] and [desc.height], the size of the native
    texture, and whether its usage has [TextureUsageShaderWrite]. *)
Record MetalTexture := {
  textureMtl : option ptr;
  descWidth : Z;
  descHeight : Z;
  nativeWidth : Z;
  nativeHeight : Z;
  usageShaderWrite : bool
}.

(** [MetalCommandList::copyTexture], plume_metal.cpp:2741. *)
Definition copyTexture (dstTexture srcTexture : option MetalTexture) (s : MetalCommandList)
  : option MetalCommandList :=
  dst ← dstTexture;
  src ← srcTexture;
  s ← blitPrologue s;
  Some (emit (copyFromTexture (textureMtl src) (textureMtl dst)) s).

(** [MetalCommandList::resolveTexture], plume_metal.cpp:2755.  The
    render encoder made here is ended at once and never stored. *)
Definition resolveTexture (dstTexture srcTexture : option MetalTexture) (s : MetalCommandList)
  : option MetalCommandList :=
  dst ← dstTexture;
  src ← srcTexture;
  let s := endOtherEncoders Render s in
  let s := endActiveRenderEncoder s in
  s ← handlePendingClears s;
  let s := set_activeType Render s in
  guard (mtl s = true);;
  Some (emit (endEncoding Render) (emit (resolvePassEncoder (textureMtl src) (textureMtl dst)) s)).

(** [MetalCommandList::resolveTextureRegion], plume_metal.cpp:2785.
    [average] is [resolveMode == RenderResolveMode::AVERAGE]. *)
Definition resolveTextureRegion (dstTexture : option MetalTexture) (dstX dstY : Z)
    (srcTexture : option MetalTexture) (srcRect : option RenderRect) (average : bool)
    (s : MetalCommandList) : option MetalCommandList :=
  dst ← dstTexture;
  src ← srcTexture;
  guard (average = true);;
  guard (usageShaderWrite dst = true);;
  let canUseFullResolve :=
    (descWidth dst =? descWidth src)%Z && (descHeight dst =? descHeight src)%Z &&
    (dstX =? 0)%Z && (dstY =? 0)%Z &&
    match srcRect with
    | None => true
    | Some r =>
        (left r =? 0)%Z && (top r =? 0)%Z &&
        (wrap32 (right r) =? descWidth src)%Z && (wrap32 (bottom r) =? descHeight src)%Z
    end in
  if canUseFullResolve then resolveTexture dstTexture srcTexture s
  else
    let s := endOtherEncoders Resolve s in
    s ← checkActiveResolveTextureComputeEncoder s;
    let s := set_activeType Resolve s in
    let '(srcX, srcY, w, h) :=
      match srcRect with
      | Some r => (wrap32 (left r), wrap32 (top r),
                   wrap32 (right r - left r), wrap32 (bottom r - top r))
      | None => (0%Z, 0%Z, wrap32 (nativeWidth src), wrap32 (nativeHeight src))
      end in
    Some (emit (resolveDispatch (textureMtl src) (textureMtl dst) dstX dstY srcX srcY w h) s).

(** ** Recordings *)

(** The recording operations of a command list.  [traceRays], the two
    acceleration-structure builds, [discardTexture], the three
    raytracing setters and the two query operations have empty bodies
    and are gathered in [NoOperation]; [setGraphicsRootDescriptor] is
    [assert(false)]. *)
Inductive Command :=
| Begin
| End
| Commit
| Barriers (bufferBarriers : option (list unit)) (bufferBarriersCount : nat)
    (textureBarriers : option (list unit)) (textureBarriersCount : nat)
| Dispatch (threadGroupCountX threadGroupCountY threadGroupCountZ : Z)
| DrawInstanced
    (vertexCountPerInstance instanceCount startVertexLocation startInstanceLocation : Z)
| DrawIndexedInstanced
    (indexCountPerInstance instanceCount startIndexLocation baseVertexLocation
       startInstanceLocation : Z)
| SetPipeline (pipeline : option MetalPipeline)
| SetComputePipelineLayout (layout : option MetalPipelineLayout)
| SetComputePushConstants (rangeIndex : nat) (data : list Byte.byte) (offset size : nat)
| SetComputeDescriptorSet (descriptorSet : option ptr) (setIndex : nat)
| SetGraphicsPipelineLayout (layout : option MetalPipelineLayout)
| SetGraphicsPushConstants (rangeIndex : nat) (data : list Byte.byte) (offset size : nat)
| SetGraphicsDescriptorSet (descriptorSet : option ptr) (setIndex : nat)
| SetGraphicsRootDescriptor
| SetIndexBuffer (view : option RenderIndexBufferView)
| SetVertexBuffers (startSlot : nat) (views : option (list RenderBufferReference))
    (viewCount : nat) (inputSlots : option (list unit))
| SetViewports (viewports : list Viewport) (count : nat)
| SetScissors (scissorRects : list RenderRect) (count : nat)
| SetFramebuffer (fb : option MetalFramebuffer)
| SetDepthBias (bias clamp slope : float)
| ClearColor (attachmentIndex : nat) (colorValue : RenderColor)
    (clearRects : option (list RenderRect)) (clearRectsCount : nat)
| ClearDepthStencil (clearDepthFlag clearStencilFlag : bool) (depthValue : float)
    (stencilValue : Z) (clearRects : option (list RenderRect)) (clearRectsCount : nat)
| CopyBufferRegion (dstBuffer srcBuffer : RenderBufferReference) (size : Z)
| CopyTextureRegion (dstLocation srcLocation : RenderTextureCopyLocation)
| CopyBuffer (dstBuffer srcBuffer : option MetalBuffer)
| CopyTexture (dstTexture srcTexture : option MetalTexture)
| ResolveTexture (dstTexture srcTexture : option MetalTexture)
| ResolveTextureRegion (dstTexture : option MetalTexture) (dstX dstY : Z)
    (srcTexture : option MetalTexture) (srcRect : option RenderRect) (average : bool)
| NoOperation.

Definition record (c : Command) (s : MetalCommandList) : option MetalCommandList :=
  match c with
  | Begin => begin s
  | End => end_ s
  | Commit => commit s
  | Barriers bb bc tb tc => barriers bb bc tb tc s
  | Dispatch x y z => dispatch x y z s
  | DrawInstanced vc ic sv si => drawInstanced vc ic sv si s
  | DrawIndexedInstanced a b c d e => drawIndexedInstanced a b c d e s
  | SetPipeline p => setPipeline p s
  | SetComputePipelineLayout l => setComputePipelineLayout l s
  | SetComputePushConstants i d o n => setComputePushConstants i d o n s
  | SetComputeDescriptorSet d i => setComputeDescriptorSet d i s
  | SetGraphicsPipelineLayout l => setGraphicsPipelineLayout l s
  | SetGraphicsPushConstants i d o n => setGraphicsPushConstants i d o n s
  | SetGraphicsDescriptorSet d i => setGraphicsDescriptorSet d i s
  | SetGraphicsRootDescriptor => None
  | SetIndexBuffer v => setIndexBuffer v s
  | SetVertexBuffers a v n i => setVertexBuffers a v n i s
  | SetViewports v n => setViewportsOp v n s
  | SetScissors r n => setScissors r n s
  | SetFramebuffer fb => setFramebuffer fb s
  | SetDepthBias a b c => setDepthBiasOp a b c s
  | ClearColor i c r n => clearColor i c r n s
  | ClearDepthStencil d st dv sv r n => clearDepthStencil d st dv sv r n s
  | CopyBufferRegion d sr n => copyBufferRegion d sr n s
  | CopyTextureRegion d sr => copyTextureRegion d sr s
  | CopyBuffer d sr => copyBuffer d sr s
  | CopyTexture d sr => copyTexture d sr s
  | ResolveTexture d sr => resolveTexture d sr s
  | ResolveTextureRegion d x y sr r a => resolveTextureRegion d x y sr r a s
  | NoOperation => Some s
  end.

Fixpoint recordAll (cs : list Command) (s : MetalCommandList) : option MetalCommandList :=
  match cs with
  | [] => Some s
  | c :: rest => s' ← record c s; recordAll rest s'
  end.

(** ** Reading a trace *)

(** The encoder a native call opens or closes. *)
Definition opens (c : NativeCall) : option EncoderType :=
  match c with
  | renderCommandEncoder _ _ _ | resolvePassEncoder _ _ => Some Render
  | computeCommandEncoder => Some Compute
  | blitCommandEncoder => Some Blit
  | resolveComputeCommandEncoder => Some Resolve
  | _ => None
  end.

Definition closes (c : NativeCall) : option EncoderType :=
  match c with
  | endEncoding type => Some type
  | _ => None
  end.

(** Replays a trace from the encoder that is open at its start
    ([None]: no encoder open).  The result is the encoder open at the
    end, or [None] when the trace opens an encoder while another one is
    open, or ends one that is not open. *)
Fixpoint replay (open : option EncoderType) (t : list NativeCall)
  : option (option EncoderType) :=
  match t with
  | [] => Some open
  | c :: rest =>
      match opens c, closes c with
      | Some k, _ =>
          match open with
          | None => replay (Some k) rest
          | Some _ => None
          end
      | None, Some k =>
          if decide (open = Some k) then replay None rest else None
      | None, None => replay open rest
      end
  end.

(** The encoders a command list holds open, by its four pointers. *)
Definition openEncoders (s : MetalCommandList) : list EncoderType :=
  (if activeRenderEncoder s then [Render] else []) ++
  (if activeComputeEncoder s then [Compute] else []) ++
  (if activeBlitEncoder s then [Blit] else []) ++
  (if activeResolveComputeEncoder s then [Resolve] else []).

(** The encoder kind a command records into, for the commands that
    record into one. *)
Definition requiredEncoder (c : Command) : option EncoderType :=
  match c with
  | Dispatch _ _ _ => Some Compute
  | DrawInstanced _ _ _ _ | DrawIndexedInstanced _ _ _ _ _ => Some Render
  | CopyBufferRegion _ _ _ | CopyTextureRegion _ _ | CopyBuffer _ _ | CopyTexture _ _ => Some Blit
  | _ => None
  end.

(** ** Invariants of a recording *)

(** Whether the pointer of an encoder kind is non-null. *)
Definition encoderOpen (k : EncoderType) (s : MetalCommandList) : bool :=
  match k with
  | NoEncoder => false
  | Render => activeRenderEncoder s
  | Compute => activeComputeEncoder s
  | Blit => activeBlitEncoder s
  | Resolve => activeResolveComputeEncoder s
  end.

(** An open encoder is of the active kind. *)
Definition consistent (s : MetalCommandList) : Prop :=
  ∀ k, encoderOpen k s = true → activeType s = k.

(** The encoder the pointers show open, in the order of [end]. *)
Definition openEncoder (s : MetalCommandList) : option EncoderType :=
  if activeRenderEncoder s then Some Render
  else if activeComputeEncoder s then Some Compute
  else if activeBlitEncoder s then Some Blit
  else if activeResolveComputeEncoder s then Some Resolve
  else None.

(** The trace never has two encoders open, and ends with the encoder
    the pointers show. *)
Definition traced (s : MetalCommandList) : Prop :=
  replay None (trace s) = Some (openEncoder s).

(** With a framebuffer set, the two pending-clear vectors have one slot
    per color attachment and two more for depth and stencil. *)
Definition sized (s : MetalCommandList) : Prop :=
  ∀ fb, targetFramebuffer s = Some fb →
    length (initialAction (pendingClears s)) = length (colorAttachments fb) + 2 ∧
    length (clearValues (pendingClears s)) = length (colorAttachments fb) + 2.

(** Clears are pending only against a framebuffer. *)
Definition pendingTargeted (s : MetalCommandList) : Prop :=
  active (pendingClears s) = true → is_Some (targetFramebuffer s).

Definition invariant (s : MetalCommandList) : Prop :=
  consistent s ∧ traced s ∧ sized s ∧ pendingTargeted s.

(** A native call that neither opens nor closes an encoder. *)
Definition quietCall (c : NativeCall) : bool :=
  match opens c, closes c with
  | None, None => true
  | _, _ => false
  end.

(** [s'] comes from [s] by native calls only. *)
Definition extends (s s' : MetalCommandList) : Prop :=
  ∃ t, trace s' = trace s ++ t.

(** [s'] comes from [s] without touching the encoders, the pending
    clears or the framebuffer, by quiet calls. *)
Definition quiet (s s' : MetalCommandList) : Prop :=
  activeType s' = activeType s ∧
  (∀ k, encoderOpen k s' = encoderOpen k s) ∧
  pendingClears s' = pendingClears s ∧
  targetFramebuffer s' = targetFramebuffer s ∧
  ∃ t, trace s' = trace s ++ t ∧ Forall (fun c => quietCall c = true) t.

(** ** Encoders in the state and in the trace *)

Definition encoded (s : MetalCommandList) : Prop := consistent s ∧ traced s.

Definition keeps (s s' : MetalCommandList) : Prop :=
  mtl s' = mtl s ∧ pendingClears s' = pendingClears s ∧
  targetFramebuffer s' = targetFramebuffer s.

Definition endActive (k : EncoderType) (s : MetalCommandList) : MetalCommandList :=
  match k with
  | NoEncoder => s
  | Render => endActiveRenderEncoder s
  | Compute => endActiveComputeEncoder s
  | Blit => endActiveBlitEncoder s
  | Resolve => endActiveResolveTextureComputeEncoder s
  end.

Definition closingCalls (k : EncoderType) (s : MetalCommandList) : list NativeCall :=
  if encoderOpen k s then
    match k with
    | Render => [useResources false (currentEncoderDescriptorSets s); endEncoding Render]
    | Compute => [useResources true (currentEncoderDescriptorSets s); endEncoding Compute]
    | k => [endEncoding k]
    end
  else [].

Definition only (k : EncoderType) (s : MetalCommandList) : Prop :=
  ∀ k', encoderOpen k' s = bool_decide (k' = k).

Definition closingOthers (type : EncoderType) (s : MetalCommandList) : list NativeCall :=
  if decide (activeType s = type) then [] else closingCalls (activeType s) s.

(** The prologue of [checkActiveRenderEncoder]: other encoders are
    ended, and so is the render encoder when clears are pending. *)
Definition renderPrologue (s : MetalCommandList) : MetalCommandList :=
  let s := endOtherEncoders Render s in
  let s := if active (pendingClears s) then endActiveRenderEncoder s else s in
  set_activeType Render s.

Definition renderPrologueCalls (s : MetalCommandList) : list NativeCall :=
  closingOthers Render s ++
  (if active (pendingClears s) then closingCalls Render (endOtherEncoders Render s) else []).

(** The pending clears once a render encoder has taken them. *)
Definition clearsTaken (pending : PendingClears) : PendingClears :=
  if active pending then
    {| initialAction := (fun _ => LoadActionLoad) <$> initialAction pending;
       clearValues := clearValues pending;
       active := false |}
  else pending.

(** The statements that open [setFramebuffer] and [resolveTexture]. *)
Definition renderReset (s : MetalCommandList) : option MetalCommandList :=
  let s := endOtherEncoders Render s in
  let s := endActiveRenderEncoder s in
  s ← handlePendingClears s;
  Some (set_activeType Render s).

(** The call that opens the render pass of a draw, when one is opened. *)
Definition renderOpening (s : MetalCommandList) (o : list NativeCall) : Prop :=
  if activeRenderEncoder s && negb (active (pendingClears s)) then o = []
  else ∃ fb colors depth stencil,
         targetFramebuffer s = Some fb ∧ colorPasses (pendingClears s) fb = Some colors ∧
         depthPass (pendingClears s) fb = Some depth ∧
         stencilPass (pendingClears s) fb = Some stencil ∧
         o = [renderCommandEncoder colors depth stencil].

(** ** Sample objects *)

Definition sampleAttachment : MetalAttachment :=
  {| attachmentTexture := Some {| texture := 7; textureWidth := 640; textureHeight := 480 |};
     attachmentFormat := B8G8R8A8_UNORM; attachmentSampleCount := 1 |}.

Definition sampleNoDepth : MetalAttachment :=
  {| attachmentTexture := None; attachmentFormat := UNKNOWN; attachmentSampleCount := 0 |}.

Definition sampleFramebuffer : MetalFramebuffer :=
  {| framebuffer := 1; fbWidth := 640; fbHeight := 480;
     colorAttachments := [sampleAttachment]; depthAttachment := sampleNoDepth;
     depthIsStencil := false; fbSampleCount := 1 |}.

(** Opaque red, as the bit patterns of its four floats. *)
Definition sampleColor : RenderColor :=
  {| colorR := 1065353216; colorG := 0; colorB := 0; colorA := 1065353216 |}%Z.

Definition sampleRenderState : MetalRenderState :=
  {| renderState := 3; renderPipelineState := Some 4; depthStencilState := None;
     primitiveType := PrimitiveTypeTriangle; depthBiasConstantFactor := 0%Z;
     depthBiasClamp := 0%Z; depthBiasSlopeFactor := 0%Z; dynamicDepthBiasEnabled := false |}.

Definition sampleComputeState : MetalComputeState :=
  {| computeState := 5; computePipelineState := Some 6;
     threadGroupSizeX := 8%Z; threadGroupSizeY := 8%Z; threadGroupSizeZ := 1%Z |}.

Definition sampleBuffer : MetalBuffer := {| bufferMtl := Some 11; bufferSize := 16 |}.

(** A compute layout with one four-byte push constant range, and a
    graphics layout with none. *)
Definition sampleComputeLayout : MetalPipelineLayout :=
  {| pipelineLayout := 21;
     pushConstantRanges :=
       [{| rangeBinding := 0; rangeSet := 0; rangeOffset := 0; rangeSize := 4;
           rangeStageFlags :=
             {| stageVERTEX := false; stagePIXEL := false; stageCOMPUTE := true |} |}];
     setLayoutCount := 0 |}.

Definition sampleGraphicsLayout : MetalPipelineLayout :=
  {| pipelineLayout := 22; pushConstantRanges := []; setLayoutCount := 0 |}.

Definition sampleData : list Byte.byte := [Byte.x01; Byte.x02; Byte.x03; Byte.x04].

(** A recording that has drawn once: the render encoder is open. *)
Definition sampleDraw : list Command :=
  [Begin; SetFramebuffer (Some sampleFramebuffer);
   SetPipeline (Some (GraphicsPipeline sampleRenderState)); DrawInstanced 3 1 0 0].

(** A recording ready to draw: no encoder has been opened yet. *)
Definition sampleSetup : list Command :=
  [Begin; SetFramebuffer (Some sampleFramebuffer);
   SetPipeline (Some (GraphicsPipeline sampleRenderState))].

(** A recording with a compute pipeline, a compute layout and one
    compute push constant range written. *)
Definition sampleCompute : list Command :=
  [Begin; SetPipeline (Some (ComputePipeline sampleComputeState));
   SetComputePipelineLayout (Some sampleComputeLayout);
   SetComputePushConstants 0 sampleData 0 4].

(** The state of each domain that a change of the other domain's layout
    must leave alone. *)
Definition computeDomain (s : MetalCommandList) :=
  (activeComputePipelineLayout s, computeDescriptorSets s, dirtyComputeState s,
   activeComputeState s).

Definition graphicsDomain (s : MetalCommandList) :=
  (activeGraphicsPipelineLayout s, renderDescriptorSets s, dirtyGraphicsState s,
   activeRenderState s).

(** [alignUp(n, alignment)], plume_metal.cpp:37, for any alignment:
    [(n + alignment - 1) & ~(alignment - 1)] in uint64_t. *)
Definition alignUpTo (n alignment : Z) : Z :=
  Z.land ((n + alignment - 1) mod 18446744073709551616)
         (Z.lnot ((alignment - 1) mod 18446744073709551616)).

(** What a flush of the pending clears of [s] adds to the trace on the
    way to [s']: with clears pending, a render pass that takes them and
    is ended at once, after calls that open nothing; otherwise only
    calls that open nothing. *)
Definition clearsFlushed (s s' : MetalCommandList) : Prop :=
  if active (pendingClears s) then
    ∃ fb colors depth stencil closing sets,
      targetFramebuffer s = Some fb ∧
      colorPasses (pendingClears s) fb = Some colors ∧
      depthPass (pendingClears s) fb = Some depth ∧
      stencilPass (pendingClears s) fb = Some stencil ∧
      Forall (λ c, opens c = None) closing ∧
      trace s' = trace s ++ closing ++
        [renderCommandEncoder colors depth stencil; useResources false sets;
         endEncoding Render]
  else ∃ closing, trace s' = trace s ++ closing ∧ Forall (λ c, opens c = None) closing.

(** With no clear pending, every load action is Load. *)
Definition idleLoads (s : MetalCommandList) : Prop :=
  active (pendingClears s) = false →
  Forall (λ a, a = LoadActionLoad) (initialAction (pendingClears s)).

(** The pending clears after [clearDepthStencil] without rectangles. *)
Definition depthStencilPending (clearDepthFlag clearStencilFlag : bool) (depthValue : float)
    (stencilValue : Z) (depthIndex : nat) (pending : PendingClears) : PendingClears :=
  let ia1 := if clearDepthFlag then <[depthIndex := LoadActionClear]> (initialAction pending)
             else initialAction pending in
  let cv1 := if clearDepthFlag then <[depthIndex := clearDepth depthValue]> (clearValues pending)
             else clearValues pending in
  {| initialAction := if clearStencilFlag then <[depthIndex + 1 := LoadActionClear]> ia1 else ia1;
     clearValues :=
       if clearStencilFlag then <[depthIndex + 1 := clearStencil stencilValue]> cv1 else cv1;
     active := true |}.

(** A framebuffer with a depth attachment without stencil. *)
Definition sampleDepthFramebuffer : MetalFramebuffer :=
  {| framebuffer := 2; fbWidth := 640; fbHeight := 480;
     colorAttachments := [sampleAttachment];
     depthAttachment :=
       {| attachmentTexture :=
            Some {| texture := 8; textureWidth := 640; textureHeight := 480 |};
          attachmentFormat := D32_FLOAT; attachmentSampleCount := 1 |};
     depthIsStencil := false; fbSampleCount := 1 |}.

Definition sampleDepthSetup : list Command :=
  [Begin; SetFramebuffer (Some sampleDepthFramebuffer);
   SetPipeline (Some (GraphicsPipeline sampleRenderState))].

(** What [setVertexBuffers] stores for a view: a null buffer is
    replaced by the device's null buffer at offset 0. *)
Definition viewBuffer (v : RenderBufferReference) : BufferRef :=
  match ref v with Some mtl => BufferMtl mtl | None => DeviceNullBuffer end.

Definition viewOffset (v : RenderBufferReference) : Z :=
  match ref v with Some _ => refOffset v | None => 0%Z end.

(** The call that binds the vertex buffer of a slot. *)
Definition vertexBufferCall (s : MetalCommandList) (i : nat) : NativeCall :=
  setVertexBuffer (default None (vertexBuffers s !! i))
    (default 0%Z (vertexBufferOffsets s !! i)) (VERTEX_BUFFERS_BINDING_INDEX + i).

(** The vertex buffer state after the views [l] have been stored from
    [startSlot] on. *)
Definition viewsStored (startSlot : nat) (l : list RenderBufferReference)
    (s s' : MetalCommandList) : Prop :=
  length (vertexBuffers s') = length (vertexBuffers s) ∧
  length (vertexBufferOffsets s') = length (vertexBufferOffsets s) ∧
  trace s' = trace s ∧
  (∀ j v, l !! j = Some v →
     vertexBuffers s' !! (startSlot + j) = Some (Some (viewBuffer v)) ∧
     vertexBufferOffsets s' !! (startSlot + j) = Some (wrap32 (viewOffset v))) ∧
  (∀ i, ¬ (startSlot ≤ i < startSlot + length l) →
     vertexBuffers s' !! i = vertexBuffers s !! i ∧
     vertexBufferOffsets s' !! i = vertexBufferOffsets s !! i) ∧
  (∀ i, i < MAX_VERTEX_BUFFER_BINDINGS →
     Z.testbit (vertexBufferSlots (dirtyGraphicsState s')) (Z.of_nat i) =
     Z.testbit (vertexBufferSlots (dirtyGraphicsState s)) (Z.of_nat i) ||
     bool_decide (startSlot ≤ i < startSlot + length l)).

(** The calls that bind one push constant range on a render encoder. *)
Definition pushConstantCalls (pc : PushConstantData) : list NativeCall :=
  (if stageVERTEX (pcStageFlags pc)
   then [setPushConstantBytes VertexStage (pcData pc) (pcSize pc)
           (PUSH_CONSTANTS_BINDING_INDEX + pcBinding pc)]
   else []) ++
  (if stagePIXEL (pcStageFlags pc)
   then [setPushConstantBytes FragmentStage (pcData pc) (pcSize pc)
           (PUSH_CONSTANTS_BINDING_INDEX + pcBinding pc)]
   else []).

(** One iteration of the loop of [bindGraphicsPushConstants]. *)
Definition bindPushConstant (s : MetalCommandList) (pushConstant : PushConstantData)
  : MetalCommandList :=
  let bindIndex := PUSH_CONSTANTS_BINDING_INDEX + pcBinding pushConstant in
  let s :=
    if stageVERTEX (pcStageFlags pushConstant) then
      emit (setPushConstantBytes VertexStage (pcData pushConstant)
              (pcSize pushConstant) bindIndex) s
    else s in
  if stagePIXEL (pcStageFlags pushConstant) then
    emit (setPushConstantBytes FragmentStage (pcData pushConstant)
            (pcSize pushConstant) bindIndex) s
  else s.

(** A graphics layout with one push constant range of six bytes for
    the vertex and the fragment stage. *)
Definition samplePushLayout : MetalPipelineLayout :=
  {| pipelineLayout := 23;
     pushConstantRanges :=
       [{| rangeBinding := 1; rangeSet := 0; rangeOffset := 0; rangeSize := 6;
           rangeStageFlags :=
             {| stageVERTEX := true; stagePIXEL := true; stageCOMPUTE := false |} |}];
     setLayoutCount := 0 |}.

(** [s'] has the compute pipeline, the compute layout and the compute
    encoder of [s]. *)
Definition computeKept (s s' : MetalCommandList) : Prop :=
  activeComputeState s' = activeComputeState s ∧
  activeComputeEncoder s' = activeComputeEncoder s ∧
  activeComputePipelineLayout s' = activeComputePipelineLayout s.

(** One iteration of the loop of [bindDescriptorSets]. *)
Definition bindSetStep (descriptorSets : list (option ptr)) (isCompute : bool)
    (s : MetalCommandList) (i : nat) : MetalCommandList :=
  if decide (MAX_DESCRIPTOR_SET_BINDINGS ≤ i) then s
  else
    match descriptorSets !! i with
    | Some (Some descriptorSet) =>
        emit (bindDescriptorSet isCompute descriptorSet (DESCRIPTOR_SETS_BINDING_INDEX + i))
          (set_currentEncoderDescriptorSets
             (insertSet descriptorSet (currentEncoderDescriptorSets s)) s)
    | _ => s
    end.

(** The call that binds the descriptor set of an index, if there is one. *)
Definition bindSetCall (descriptorSets : list (option ptr)) (isCompute : bool) (i : nat)
  : option NativeCall :=
  if decide (MAX_DESCRIPTOR_SET_BINDINGS ≤ i) then None
  else
    match descriptorSets !! i with
    | Some (Some descriptorSet) =>
        Some (bindDescriptorSet isCompute descriptorSet (DESCRIPTOR_SETS_BINDING_INDEX + i))
    | _ => None
    end.

(** A graphics layout with two descriptor sets. *)
Definition sampleSetsLayout : MetalPipelineLayout :=
  {| pipelineLayout := 24; pushConstantRanges := []; setLayoutCount := 2 |}.

(** The calls that bind a vertex buffer, a descriptor set or a push
    constant range. *)
Definition isVertexBufferCall (c : NativeCall) : bool :=
  match c with setVertexBuffer _ _ _ => true | _ => false end.

Definition isDescriptorSetCall (c : NativeCall) : bool :=
  match c with bindDescriptorSet _ _ _ => true | _ => false end.

Definition isPushConstantCall (c : NativeCall) : bool :=
  match c with setPushConstantBytes _ _ _ _ => true | _ => false end.

Definition isBindingCall (c : NativeCall) : bool :=
  isVertexBufferCall c || isDescriptorSetCall c || isPushConstantCall c.

(** Whether [checkForUpdatesInGraphicsState] takes one of its two
    [return] statements: a dirty vector that is empty. *)
Definition returnsEarly (s : MetalCommandList) : bool :=
  gViewports (dirtyGraphicsState s) && bool_decide (viewportVector s = []) ||
  gScissors (dirtyGraphicsState s) && bool_decide (scissorVector s = []).

(** The binding calls the last three blocks of
    [checkForUpdatesInGraphicsState] make from a state. *)
Definition vertexBufferCalls (s : MetalCommandList) : list NativeCall :=
  vertexBufferCall s <$> dirtySlots (vertexBufferSlots (dirtyGraphicsState s)).

Definition descriptorSetCalls (s : MetalCommandList) : list NativeCall :=
  if gDescriptorSets (dirtyGraphicsState s) then
    match activeGraphicsPipelineLayout s with
    | Some layout =>
        let start := gDescriptorSetDirtyIndex (dirtyGraphicsState s) in
        omap (bindSetCall (renderDescriptorSets s) false)
          (seq start (setLayoutCount layout - start))
    | None => []
    end
  else [].

Definition pushConstantBindings (s : MetalCommandList) : list NativeCall :=
  if gPushConstants (dirtyGraphicsState s) then flat_map pushConstantCalls (pushConstants s)
  else [].

(** [s'] has the vertex buffers, the vectors, the push constants, the
    graphics layout and the descriptor sets of [s], and comes from it
    by calls that bind none of them. *)
Definition graphicsKept (s s' : MetalCommandList) : Prop :=
  vertexBuffers s' = vertexBuffers s ∧
  vertexBufferOffsets s' = vertexBufferOffsets s ∧
  viewportVector s' = viewportVector s ∧
  scissorVector s' = scissorVector s ∧
  pushConstants s' = pushConstants s ∧
  activeGraphicsPipelineLayout s' = activeGraphicsPipelineLayout s ∧
  renderDescriptorSets s' = renderDescriptorSets s ∧
  ∃ t, trace s' = trace s ++ t ∧ Forall (λ c, isBindingCall c = false) t.

(** [graphicsKept], and every graphics flag and the sets bound on the
    encoder are as they were or as a new encoder starts with them. *)
Definition renderOpened (s s' : MetalCommandList) : Prop :=
  graphicsKept s s' ∧
  (dirtyGraphicsState s' = dirtyGraphicsState s ∨ dirtyGraphicsState s' = graphicsSetAll) ∧
  (currentEncoderDescriptorSets s' = currentEncoderDescriptorSets s ∨
   currentEncoderDescriptorSets s' = []).

(** [graphicsKept], with the flags of the last three blocks and the
    sets bound on the encoder untouched. *)
Definition bindingsPending (s s' : MetalCommandList) : Prop :=
  graphicsKept s s' ∧
  vertexBufferSlots (dirtyGraphicsState s') = vertexBufferSlots (dirtyGraphicsState s) ∧
  gDescriptorSets (dirtyGraphicsState s') = gDescriptorSets (dirtyGraphicsState s) ∧
  gDescriptorSetDirtyIndex (dirtyGraphicsState s') =
    gDescriptorSetDirtyIndex (dirtyGraphicsState s) ∧
  gPushConstants (dirtyGraphicsState s') = gPushConstants (dirtyGraphicsState s) ∧
  currentEncoderDescriptorSets s' = currentEncoderDescriptorSets s.

(** A recording ready to draw, with a viewport and a scissor rectangle. *)
Definition sampleViewport : Viewport :=
  {| originX := 0; originY := 0; vpWidth := 1142947840; vpHeight := 1139802112;
     znear := 0; zfar := 1065353216 |}%Z.

Definition sampleReady : list Command :=
  sampleSetup ++
  [SetViewports [sampleViewport] 1;
   SetScissors [{| left := 0; top := 0; right := 640; bottom := 480 |}%Z] 1].

End CommandList.

(* ===================================================================== *)
(** * Command queue, semaphores and presentation                         *)
(* ===================================================================== *)

Module CommandQueue.
Import CommandList.

(** uint64_t arithmetic wraps modulo 2^64. *)
Definition wrap64 (z : Z) : Z := (z mod 18446744073709551616)%Z.

(** [MetalCommandSemaphore::MetalCommandSemaphore], plume_metal.cpp:3186;
    [event] is the object [newEvent] returns. *)
Definition newMetalCommandSemaphore (event : ptr) : SwapChain.MetalCommandSemaphore :=
  {| SwapChain.semMtl := event; SwapChain.mtlEventValue := 1 |}.

(** The command buffers the queue's methods make calls on: the "Wait
    Command Buffer" of [executeCommandLists], the buffer of a command
    list (by the address of the list) and the "Present Command Buffer". *)
Inductive Buffer := WaitBuffer | ListBuffer (commandList : nat) | PresentBuffer.

(** The native calls of [executeCommandLists], of [present] and of the
    completed handler [present] installs, in the order they are made. *)
Inductive QueueCall :=
| newCommandBuffer (buffer : Buffer)
| enqueue (buffer : Buffer)
| encodeWait (buffer : Buffer) (event : ptr) (value : Z)
| encodeSignalEvent (buffer : Buffer) (event : ptr) (value : Z)
| addCompletedHandler (buffer : Buffer) (fence : ptr)
| commitBuffer (buffer : Buffer)
| retainPresented (drawable : ptr)
| addScheduledHandler (drawable : ptr)
| addPresentCompletedHandler (drawable : ptr)
| releasePresented (drawable : ptr).

(** The objects the methods reach through pointers.  A semaphore or a
    command list pointer is an address, the index of the object in its
    list; [submitted] is the trace of the native calls. *)
Record Objects := {
  semaphores : list SwapChain.MetalCommandSemaphore;
  commandLists : list MetalCommandList;
  submitted : list QueueCall
}.

Definition submit (cs : list QueueCall) (o : Objects) : Objects :=
  {| semaphores := semaphores o; commandLists := commandLists o;
     submitted := submitted o ++ cs |}.

(** The loop
    [encodeWait(interfaceSemaphore->mtl, interfaceSemaphore->mtlEventValue++)]
    over the wait semaphores (plume_metal.cpp:1833 and 3227): the call
    gets the value before the increment. *)
Fixpoint encodeWaits (buffer : Buffer) (waitSemaphores : list nat) (o : Objects)
  : option Objects :=
  match waitSemaphores with
  | [] => Some o
  | sem :: rest =>
      s ← semaphores o !! sem;
      encodeWaits buffer rest
        {| semaphores :=
             <[sem := {| SwapChain.semMtl := SwapChain.semMtl s;
                         SwapChain.mtlEventValue := wrap64 (SwapChain.mtlEventValue s + 1) |}]>
               (semaphores o);
           commandLists := commandLists o;
           submitted :=
             submitted o ++
               [encodeWait buffer (SwapChain.semMtl s) (SwapChain.mtlEventValue s)] |}
  end.

(** The loop over the signal semaphores (plume_metal.cpp:3255). *)
Fixpoint encodeSignals (buffer : Buffer) (signalSemaphores : list nat) (o : Objects)
  : option Objects :=
  match signalSemaphores with
  | [] => Some o
  | sem :: rest =>
      s ← semaphores o !! sem;
      encodeSignals buffer rest
        (submit [encodeSignalEvent buffer (SwapChain.semMtl s) (SwapChain.mtlEventValue s)] o)
  end.

(** The loop over all command lists but the last
    (plume_metal.cpp:3236): a null entry fails the assertion, and
    [mtl->enqueue()] needs the command buffer [begin] creates. *)
Fixpoint commitLists (lists : list (option nat)) (o : Objects) : option Objects :=
  match lists with
  | [] => Some o
  | entry :: rest =>
      i ← entry;
      l ← commandLists o !! i;
      guard (mtl l = true);;
      l' ← commit l;
      commitLists rest
        {| semaphores := semaphores o;
           commandLists := <[i := l']> (commandLists o);
           submitted := submitted o ++ [enqueue (ListBuffer i); commitBuffer (ListBuffer i)] |}
  end.

(** [MetalCommandQueue::executeCommandLists], plume_metal.cpp:3218.
    [commandLists] is the array pointer, [None] when null, and an entry
    of the array is [None] when null; the last entry is dereferenced
    without an assertion. *)
Definition executeCommandLists (lists : option (list (option nat)))
    (waitSemaphores signalSemaphores : list nat) (signalFence : option ptr) (o : Objects)
  : option Objects :=
  lists ← lists;
  guard (0 < length lists);;
  o ← encodeWaits WaitBuffer waitSemaphores
         (submit [newCommandBuffer WaitBuffer; enqueue WaitBuffer] o);
  let o := submit [commitBuffer WaitBuffer] o in
  o ← commitLists (take (length lists - 1) lists) o;
  entry ← lists !! (length lists - 1);
  i ← entry;
  l ← commandLists o !! i;
  guard (mtl l = true);;
  let o := submit [enqueue (ListBuffer i)] o in
  let o :=
    match signalFence with
    | Some fence => submit [addCompletedHandler (ListBuffer i) fence] o
    | None => o
    end in
  o ← encodeSignals (ListBuffer i) signalSemaphores o;
  l' ← commit l;
  Some {| semaphores := semaphores o;
          commandLists := <[i := l']> (commandLists o);
          submitted := submitted o ++ [commitBuffer (ListBuffer i)] |}.

(** [MetalSwapChain::present], plume_metal.cpp:1821.  The swap chain is
    read, not written; the two handlers run later. *)
Definition present (textureIndex : nat) (waitSemaphores : list nat)
    (sc : SwapChain.MetalSwapChain) (o : Objects) : option (bool * Objects) :=
  drawable ← SwapChain.drawables sc !! textureIndex;
  drawableMtl ← SwapChain.drawableMtl drawable;
  o ← encodeWaits PresentBuffer waitSemaphores
         (submit [newCommandBuffer PresentBuffer; enqueue PresentBuffer] o);
  Some (true,
        submit [retainPresented drawableMtl; addScheduledHandler drawableMtl;
                addPresentCompletedHandler drawableMtl; commitBuffer PresentBuffer] o).

(** The completed handler of [present] (plume_metal.cpp:1845), run as
    one step: the sum is a uint32_t, the remainder is taken in size_t. *)
Definition presentCompleted (drawableMtl : ptr) (sc : SwapChain.MetalSwapChain) (o : Objects)
  : SwapChain.MetalSwapChain * Objects :=
  ({| SwapChain.layerDrawableSize := SwapChain.layerDrawableSize sc;
      SwapChain.width := SwapChain.width sc;
      SwapChain.height := SwapChain.height sc;
      SwapChain.drawables := SwapChain.drawables sc;
      SwapChain.currentAvailableDrawableIndex :=
        Z.to_nat (wrap32 (Z.of_nat (SwapChain.currentAvailableDrawableIndex sc) + 1))
          mod SwapChain.MAX_DRAWABLES;
      SwapChain.calls := SwapChain.calls sc |},
   submit [releasePresented drawableMtl] o).

(** [acquireTexture] on a semaphore given by its address. *)
Definition acquireTexture (signalSemaphore : option nat) (textureIndex : option Z)
    (next : option SwapChain.NativeDrawable) (sc : SwapChain.MetalSwapChain) (o : Objects)
  : option (bool * Z * SwapChain.MetalSwapChain) :=
  match signalSemaphore with
  | None => SwapChain.acquireTexture None textureIndex next sc
  | Some sem =>
      s ← semaphores o !! sem;
      SwapChain.acquireTexture (Some s) textureIndex next sc
  end.






(** The queue, its objects and the swap chain, and the calls a program
    makes on them. *)
Record System := {
  objects : Objects;
  swapChain : SwapChain.MetalSwapChain
}.

Inductive Operation :=
| Record_ (commandList : nat) (c : Command)
| ExecuteCommandLists (lists : option (list (option nat)))
    (waitSemaphores signalSemaphores : list nat) (signalFence : option ptr)
| Present (textureIndex : nat) (waitSemaphores : list nat)
| PresentCompleted (drawableMtl : ptr)
| AcquireTexture (signalSemaphore : option nat) (textureIndex : option Z)
    (next : option SwapChain.NativeDrawable)
| Resize (attributes : SwapChain.CocoaWindowAttributes).

Definition step (op : Operation) (sys : System) : option System :=
  match op with
  | Record_ i c =>
      l ← commandLists (objects sys) !! i;
      l' ← record c l;
      Some {| objects :=
                {| semaphores := semaphores (objects sys);
                   commandLists := <[i := l']> (commandLists (objects sys));
                   submitted := submitted (objects sys) |};
              swapChain := swapChain sys |}
  | ExecuteCommandLists lists waits signals fence =>
      o ← executeCommandLists lists waits signals fence (objects sys);
      Some {| objects := o; swapChain := swapChain sys |}
  | Present textureIndex waits =>
      r ← present textureIndex waits (swapChain sys) (objects sys);
      Some {| objects := r.2; swapChain := swapChain sys |}
  | PresentCompleted drawableMtl =>
      let r := presentCompleted drawableMtl (swapChain sys) (objects sys) in
      Some {| objects := r.2; swapChain := r.1 |}
  | AcquireTexture sem textureIndex next =>
      r ← acquireTexture sem textureIndex next (swapChain sys) (objects sys);
      Some {| objects := objects sys; swapChain := r.2 |}
  | Resize attributes =>
      Some {| objects := objects sys;
              swapChain := (SwapChain.resize attributes (swapChain sys)).2 |}
  end.

Fixpoint run (ops : list Operation) (sys : System) : option System :=
  match ops with
  | [] => Some sys
  | op :: rest => sys' ← step op sys; run rest sys'
  end.

(** The waits encoded on an event in a trace. *)
Definition isWaitOn (event : ptr) (c : QueueCall) : bool :=
  match c with
  | encodeWait _ e _ => bool_decide (e = event)
  | _ => false
  end.

Definition waitsOn (event : ptr) (t : list QueueCall) : nat :=
  length (filter (λ c, isWaitOn event c = true) t).

(** The value a wait or a signal carries in a trace: one more than the
    number of the waits encoded on its event before it. *)
Definition valuesCounted (t : list QueueCall) : Prop :=
  ∀ t1 c t2, t = t1 ++ c :: t2 →
    ∀ b e v, c = encodeWait b e v ∨ c = encodeSignalEvent b e v →
      v = wrap64 (1 + Z.of_nat (waitsOn e t1)).

(** Every semaphore is at one more than the number of the waits encoded
    on its event, and no two semaphores share an event. *)
Definition counted (o : Objects) : Prop :=
  NoDup (SwapChain.semMtl <$> semaphores o) ∧
  (∀ i s, semaphores o !! i = Some s →
     SwapChain.mtlEventValue s =
       wrap64 (1 + Z.of_nat (waitsOn (SwapChain.semMtl s) (submitted o)))) ∧
  valuesCounted (submitted o).

(** The completed handlers a sequence of operations has run. *)
Definition isCompletion (op : Operation) : bool :=
  match op with PresentCompleted _ => true | _ => false end.

Definition completions (ops : list Operation) : nat :=
  length (filter (λ op, isCompletion op = true) ops).

(** A command list between [begin] and [commit]: it has a command
    buffer. *)
Definition begun (o : Objects) (i : nat) : Prop :=
  ∃ l, commandLists o !! i = Some l ∧ mtl l = true.

(** What [commit] leaves of a command list. *)
Definition committed (l : MetalCommandList) : MetalCommandList :=
  set_mtl false (emit commitCommandBuffer l).

(** The calls of the loop over the command lists. *)
Definition listCalls (ids : list nat) : list QueueCall :=
  flat_map (λ i, [enqueue (ListBuffer i); commitBuffer (ListBuffer i)]) ids.

(** The calls one [executeCommandLists] makes: [W] are the waits and
    [S] the signals. *)
Definition executeCalls (init : list nat) (last : nat) (signalFence : option ptr)
    (W S : list QueueCall) : list QueueCall :=
  [newCommandBuffer WaitBuffer; enqueue WaitBuffer] ++ W ++ [commitBuffer WaitBuffer] ++
  listCalls init ++ [enqueue (ListBuffer last)] ++
  match signalFence with
  | Some fence => [addCompletedHandler (ListBuffer last) fence]
  | None => []
  end ++ S ++ [commitBuffer (ListBuffer last)].

(** A system of two semaphores and two command lists, and one frame of
    a program on it. *)
Definition sampleSystem : System :=
  {| objects :=
       {| semaphores := newMetalCommandSemaphore <$> [100; 101];
          commandLists := [newMetalCommandList; newMetalCommandList];
          submitted := [] |};
     swapChain :=
       SwapChain.newMetalSwapChain (SwapChain.CGSizeMake 640 480)
         {| SwapChain.attrX := 0; SwapChain.attrY := 0;
            SwapChain.attrWidth := 640; SwapChain.attrHeight := 480 |}
         Formats.B8G8R8A8_UNORM |}.

Definition sampleNativeDrawable : SwapChain.NativeDrawable :=
  {| SwapChain.handle := 50; SwapChain.pixelFormat := Formats.PixelFormatBGRA8Unorm |}.

Definition sampleFrame : list Operation :=
  [ Record_ 0 Begin; Record_ 0 End;
    AcquireTexture (Some 0) (Some 0%Z) (Some sampleNativeDrawable);
    ExecuteCommandLists (Some [Some 0]) [0] [1] None;
    Present 0 [1];
    PresentCompleted 50 ].

(** The drawable slots of a swap chain after [n] completed presents. *)
Definition slotsAt (sc : SwapChain.MetalSwapChain) (n : nat) : Prop :=
  length (SwapChain.drawables sc) = SwapChain.MAX_DRAWABLES ∧
  SwapChain.currentAvailableDrawableIndex sc = n mod SwapChain.MAX_DRAWABLES.

End CommandQueue.

(* ===================================================================== *)
(** * Properties of the format mapper                                    *)
(* ===================================================================== *)

Section FormatsProperties.
Import Formats.

(** Every native format that [mapRenderFormat] knows maps back to
    itself: the native side of the table has no collisions. *)
Lemma mapPixelFormat_mapRenderFormat (p : PixelFormat) (f : RenderFormat) :
  mapRenderFormat p = Some f → mapPixelFormat f = Some p.
Proof. destruct p; simpl; intros [= <-]; reflexivity. Qed.

(** The typeless formats are sent to a typed one. *)
Lemma roundTrip_typeless (f : RenderFormat) :
  isTypeless f = true → roundTrip f ≠ Some f.
Proof. destruct f; simpl; intros [=]; discriminate. Qed.

(** C8, as stated, fails: [R32G32B32_FLOAT] is in the supported list and
    is not a TYPELESS variant, yet it maps to [PixelFormatRGBA32Float]
    and comes back as [R32G32B32A32_FLOAT]. *)
Lemma C8_roundtrip_counterexample :
  supported R32G32B32_FLOAT = true ∧
  isTypeless R32G32B32_FLOAT = false ∧
  roundTrip R32G32B32_FLOAT = Some R32G32B32A32_FLOAT ∧
  roundTrip R32G32B32_FLOAT ≠ Some R32G32B32_FLOAT.
Proof. repeat split; discriminate. Qed.

(** C8, amended: for every format of the supported list that is neither
    a TYPELESS variant nor one of the three-component 32-bit formats
    [R32G32B32_FLOAT], [R32G32B32_UINT], [R32G32B32_SINT], mapping to the
    native pixel format and back yields the format itself. *)
Theorem C8_roundtrip (f : RenderFormat) :
  supported f = true →
  isTypeless f = false →
  isThreeComponent32 f = false →
  roundTrip f = Some f.
Proof. destruct f; simpl; intros; first [reflexivity | discriminate]. Qed.

Lemma C8_roundtrip_witness :
  supported B8G8R8A8_UNORM = true ∧
  isTypeless B8G8R8A8_UNORM = false ∧
  isThreeComponent32 B8G8R8A8_UNORM = false ∧
  roundTrip B8G8R8A8_UNORM = Some B8G8R8A8_UNORM.
Proof.
  split; [reflexivity|]. split; [reflexivity|]. split; [reflexivity|].
  apply (C8_roundtrip B8G8R8A8_UNORM); reflexivity.
Defined.

(** The amendment is tight: the three-component formats are exactly the
    non-typeless supported formats that do not come back. *)
Lemma roundTrip_three_component (f : RenderFormat) :
  supported f = true → isTypeless f = false →
  (roundTrip f ≠ Some f ↔ isThreeComponent32 f = true).
Proof.
  destruct f; simpl; intros; split; intros; try reflexivity; try discriminate;
    exfalso; auto.
Qed.

End FormatsProperties.

(* ===================================================================== *)
(** * Properties of the descriptor set layout                            *)
(* ===================================================================== *)

Section LayoutProperties.
Import Layout.

Lemma insertRange_Permutation r l : insertRange r l ≡ₚ r :: l.
Proof.
  induction l as [|x l IH]; simpl; [done|].
  destruct (binding r <? binding x); [done|].
  rewrite IH. apply Permutation_swap.
Qed.

Lemma sortRanges_Permutation ranges : sortRanges ranges ≡ₚ ranges.
Proof.
  unfold sortRanges.
  assert (H : ∀ acc, fold_left (λ acc r, insertRange r acc) ranges acc ≡ₚ acc ++ ranges).
  { induction ranges as [|r rest IH]; intros acc; simpl.
    - by rewrite app_nil_r.
    - rewrite IH, insertRange_Permutation.
      by rewrite (Permutation_middle acc rest r). }
  apply (H []).
Qed.

Lemma insertRange_Sorted r l :
  Sorted bindingLe l → Sorted bindingLe (insertRange r l).
Proof.
  induction 1 as [|x l Hs IH Hhd]; simpl.
  - repeat constructor.
  - destruct (binding r <? binding x) eqn:E.
    + apply Nat.ltb_lt in E. constructor; [by constructor|].
      constructor. unfold bindingLe. lia.
    + apply Nat.ltb_ge in E. constructor; [done|].
      destruct Hhd as [|y l' Hxy]; simpl.
      * constructor. done.
      * destruct (binding r <? binding y); constructor; done.
Qed.

Lemma sortRanges_Sorted ranges : Sorted bindingLe (sortRanges ranges).
Proof.
  unfold sortRanges.
  assert (H : ∀ acc, Sorted bindingLe acc →
                Sorted bindingLe (fold_left (λ acc r, insertRange r acc) ranges acc)).
  { induction ranges as [|r rest IH]; intros acc Hacc; simpl; [done|].
    apply IH, insertRange_Sorted, Hacc. }
  apply H. constructor.
Qed.

Lemma paddingLoop_spec fuel cur target :
  target - cur ≤ fuel →
  paddingLoop fuel cur target =
    (paddingDescriptor <$> seq cur (target - cur), Nat.max cur target).
Proof.
  revert cur. induction fuel as [|fuel IH]; intros cur Hf; simpl.
  - replace (target - cur) with 0 by lia. simpl. f_equal. lia.
  - destruct (cur <? target) eqn:E.
    + apply Nat.ltb_lt in E. rewrite IH by lia.
      replace (target - cur) with (S (target - S cur)) by lia. simpl.
      f_equal. lia.
    + apply Nat.ltb_ge in E. replace (target - cur) with 0 by lia. simpl.
      f_equal. lia.
Qed.

Lemma padding_spec cur target :
  padding cur target = (paddingDescriptor <$> seq cur (target - cur), Nat.max cur target).
Proof. apply paddingLoop_spec. lia. Qed.

Lemma firstPass_length ranges :
  length (fst (firstPass ranges)) = length (snd (firstPass ranges)).
Proof.
  unfold firstPass.
  assert (H : ∀ acc : list nat * list nat, length (fst acc) = length (snd acc) →
     let r := fold_left
       (λ (acc : list nat * list nat) range,
          (fst acc ++ replicate (count range) (length (fst acc)),
           snd acc ++ replicate (count range) (binding range))) ranges acc in
     length (fst r) = length (snd r)).
  { induction ranges as [|r rest IH]; intros acc Hacc; simpl; [done|].
    apply IH. simpl. rewrite !length_app, !length_replicate. lia. }
  apply (H ([], [])). done.
Qed.

Lemma secondPassStep_Some b range dt :
  binding range < MAX_BINDING_NUMBER →
  mapDataType (type range) = Some dt →
  secondPassStep b range =
    Some {| bSetBindings :=
              bSetBindings b ++
                [ {| lbBinding := binding range; descriptorCount := count range;
                     descriptorType := type range;
                     immutableSamplers :=
                       match immutableSampler range with
                       | Some samplers => take (count range) samplers
                       | None => []
                       end |} ];
            bBindingToIndex :=
              <[binding range := Z.of_nat (length (bSetBindings b))]> (bBindingToIndex b);
            bArgumentDescriptors :=
              bArgumentDescriptors b ++
                (paddingDescriptor <$> seq (bCurBinding b) (binding range - bCurBinding b)) ++
                [ {| dataType := dt; index := binding range;
                     arrayLength := if 1 <? count range then count range else 0;
                     textureType := textureTypeFor (type range) |} ];
            bDescriptorTypeMaxIndex :=
              wrap32 (bDescriptorTypeMaxIndex b + Z.of_nat (count range));
            bCurBinding := S (Nat.max (bCurBinding b) (binding range)) |}.
Proof.
  intros Hb Hd. unfold secondPassStep, createBinding.
  rewrite decide_True by done. simpl. rewrite Hd. simpl.
  by rewrite padding_spec.
Qed.

(** C3: a layout built from three non-boundless ranges of count 1 with
    the bindings 0, 2 and 5, given in any order, emits six argument
    descriptors in ascending binding order: the entries of the three
    ranges at 0, 2 and 5, and a zero-length placeholder for each of the
    skipped bindings 1, 3 and 4. *)
Theorem C3_gap_padding (device : MetalDevice) (ranges : list RenderDescriptorRange)
    (t0 t2 t5 : RenderDescriptorRangeType) (d0 d2 d5 : DataType)
    (s0 s2 s5 : option (list ptr)) (size : nat) :
  mapDataType t0 = Some d0 → mapDataType t2 = Some d2 → mapDataType t5 = Some d5 →
  ranges ≡ₚ [unitRange t0 0 s0; unitRange t2 2 s2; unitRange t5 5 s5] →
  ∃ layout,
    newMetalDescriptorSetLayout device
      {| descriptorRanges := ranges; lastRangeIsBoundless := false;
         boundlessRangeSize := size |} = Some layout ∧
    argumentDescriptors layout =
      [ unitDescriptor d0 t0 0; paddingDescriptor 1; unitDescriptor d2 t2 2;
        paddingDescriptor 3; paddingDescriptor 4; unitDescriptor d5 t5 5 ] ∧
    length (argumentDescriptors layout) = 6 ∧
    index <$> argumentDescriptors layout = [0; 1; 2; 3; 4; 5].
Proof.
  intros H0 H2 H5 Hp.
  apply Permutation_sym, permutations_Permutation in Hp.
  cbv [permutations unitRange] in Hp. simpl in Hp.
  repeat (apply elem_of_cons in Hp as [-> | Hp]); [..|by apply elem_of_nil in Hp];
    unfold newMetalDescriptorSetLayout; cbn -[secondPassStep replicate];
    do 3 (erewrite secondPassStep_Some by (first [simpl; eassumption | unfold MAX_BINDING_NUMBER; simpl; lia]);
          cbn -[secondPassStep replicate]);
    (eexists; split; [reflexivity|]); cbn; done.
Qed.

Lemma C3_gap_padding_witness :
  ∃ layout,
    newMetalDescriptorSetLayout boundlessDevice
      {| descriptorRanges :=
           [unitRange TEXTURE 5 None; unitRange SAMPLER 0 None;
            unitRange CONSTANT_BUFFER 2 None];
         lastRangeIsBoundless := false; boundlessRangeSize := 0 |} = Some layout ∧
    argumentDescriptors layout =
      [ unitDescriptor DataTypeSampler SAMPLER 0; paddingDescriptor 1;
        unitDescriptor DataTypePointer CONSTANT_BUFFER 2;
        paddingDescriptor 3; paddingDescriptor 4;
        unitDescriptor DataTypeTexture TEXTURE 5 ] ∧
    length (argumentDescriptors layout) = 6 ∧
    index <$> argumentDescriptors layout = [0; 1; 2; 3; 4; 5].
Proof.
  apply (C3_gap_padding boundlessDevice _ SAMPLER CONSTANT_BUFFER TEXTURE
           DataTypeSampler DataTypePointer DataTypeTexture None None None 0);
    [reflexivity | reflexivity | reflexivity |].
  etrans; [apply Permutation_swap|]. apply Permutation_skip, Permutation_swap.
Defined.

Lemma insertRange_last r l :
  Forall (λ x, binding x < binding r) l → insertRange r l = l ++ [r].
Proof.
  induction 1 as [|x l Hx _ IH]; simpl; [done|].
  rewrite (proj2 (Nat.ltb_ge _ _)) by lia. by rewrite IH.
Qed.

Lemma sortRanges_snoc init r :
  Forall (λ x, binding x < binding r) init →
  sortRanges (init ++ [r]) = sortRanges init ++ [r].
Proof.
  intros H. unfold sortRanges. rewrite fold_left_app. simpl.
  apply insertRange_last.
  fold (sortRanges init). by rewrite sortRanges_Permutation.
Qed.

(** The entries of the second pass carry indices bounded by the
    bindings of the ranges it has gone through. *)
Lemma secondPass_indices (bound : nat) ranges : ∀ b b',
  secondPass b ranges = Some b' →
  Forall (λ r, binding r < bound) ranges →
  Forall (λ d, index d < bound) (bArgumentDescriptors b) →
  Forall (λ d, index d < bound) (bArgumentDescriptors b').
Proof.
  induction ranges as [|r rest IH]; intros b b' Hrun Hr Hb; simpl in Hrun.
  - by injection Hrun as <-.
  - destruct (secondPassStep b r) as [b1|] eqn:Hstep; [|done]. simpl in Hrun.
    inversion_clear Hr as [|?? Hr1 Hr2].
    apply (IH _ _ Hrun Hr2).
    unfold secondPassStep in Hstep.
    destruct (createBinding r) as [nb|]; [|done]. simpl in Hstep.
    destruct (mapDataType (type r)) as [dt|]; [|done]. simpl in Hstep.
    rewrite padding_spec in Hstep. injection Hstep as <-. simpl.
    rewrite !Forall_app. split; [done|]. split.
    + apply Forall_fmap, Forall_forall. intros i Hi. simpl.
      apply elem_of_seq in Hi. lia.
    + by repeat constructor.
Qed.

(** The boundless branch never reads [boundlessRangeSize]. *)
Lemma layout_ignores_boundlessRangeSize device ranges boundless size1 size2 :
  newMetalDescriptorSetLayout device
    {| descriptorRanges := ranges; lastRangeIsBoundless := boundless;
       boundlessRangeSize := size1 |} =
  newMetalDescriptorSetLayout device
    {| descriptorRanges := ranges; lastRangeIsBoundless := boundless;
       boundlessRangeSize := size2 |}.
Proof. reflexivity. Qed.

(** X25: when the range marked boundless has the highest binding of
    the description, the argument descriptors end with its entry, of
    the array length the device allows, and no entry before it has its
    index. *)
Lemma boundless_entry_when_highest device init lastRange size layout :
  Forall (λ r, binding r < binding lastRange) init →
  newMetalDescriptorSetLayout device
    {| descriptorRanges := init ++ [lastRange]; lastRangeIsBoundless := true;
       boundlessRangeSize := size |} = Some layout →
  ∃ dt before,
    mapDataType (type lastRange) = Some dt ∧
    argumentDescriptors layout =
      before ++ [ {| dataType := dt; index := binding lastRange;
                     arrayLength := maxTextureSize device;
                     textureType := textureTypeFor (type lastRange) |} ] ∧
    Forall (λ d, index d ≠ binding lastRange) before.
Proof.
  intros Hmax Hnew. unfold newMetalDescriptorSetLayout in Hnew.
  destruct (firstPass _) as [bases bindings]. cbn -[secondPass sortRanges] in Hnew.
  unfold descriptorRangesCount in Hnew. cbn -[secondPass sortRanges] in Hnew.
  rewrite sortRanges_snoc in Hnew by done.
  rewrite length_app in Hnew. simpl in Hnew.
  replace (length init + 1 - 1) with (length (sortRanges init)) in Hnew
    by (rewrite (Permutation_length (sortRanges_Permutation init)); lia).
  rewrite take_app_length in Hnew.
  destruct (secondPass _ (sortRanges init)) as [b|] eqn:Hpass; [|done].
  cbn -[secondPass sortRanges] in Hnew.
  rewrite lookup_app_r, Nat.sub_diag in Hnew by done. simpl in Hnew.
  rewrite option_guard_True in Hnew by lia.
  unfold boundlessStep in Hnew.
  destruct (createBinding lastRange) as [nb|]; [|done]. simpl in Hnew.
  destruct (mapDataType (type lastRange)) as [dt|]; [|done]. simpl in Hnew.
  rewrite option_guard_True in Hnew by (rewrite length_app; simpl; lia).
  injection Hnew as <-. simpl.
  exists dt, (bArgumentDescriptors b). split; [done|]. split; [done|].
  eapply Forall_impl.
  - eapply (secondPass_indices (binding lastRange)); [exact Hpass| |constructor].
    by rewrite sortRanges_Permutation.
  - simpl. intros; lia.
Qed.

(** C4, at a description the constructor mishandles: the last range
    (binding 1) is marked boundless, but the constructor takes the last
    range of the sorted copy (binding 3) for it.  The boundless range
    gets an ordinary entry of array length 0 and the range at binding 3
    gets the device capacity. *)
Theorem C4_boundless_not_highest :
  argumentDescriptors <$> newMetalDescriptorSetLayout boundlessDevice boundlessNotHighest =
  Some [ paddingDescriptor 0;
         {| dataType := DataTypeSampler; index := 1; arrayLength := 0; textureType := None |};
         {| dataType := DataTypeTexture; index := 3; arrayLength := 4096;
            textureType := Some TextureType2D |} ].
Proof. vm_compute. reflexivity. Qed.

End LayoutProperties.

(* ===================================================================== *)
(** * Properties of the descriptor set                                   *)
(* ===================================================================== *)

Section DescriptorSetProperties.
Import Layout DescriptorSet.

(** A bind writes one slot of the table and nothing else of it. *)
Lemma setDescriptor_table i d ds ds' :
  setDescriptor i d ds = Some ds' →
  setLayout ds' = setLayout ds ∧
  length (resourceEntries ds') = length (resourceEntries ds) ∧
  (d = None → resource <$> resourceEntries ds' !! i = Some None) ∧
  (∀ j, j ≠ i → resourceEntries ds' !! j = resourceEntries ds !! j).
Proof.
  unfold setDescriptor. intros H.
  repeat (apply bind_Some in H as (? & ? & H)).
  match goal with x : (option ptr * list EncoderCall)%type |- _ => destruct x as [native calls] end.
  injection H as <-. simpl.
  split; [done|]. split; [by rewrite length_insert|]. split.
  - intros ->.
    match goal with E : Some (None, []) = Some _ |- _ => injection E as <- <- end.
    rewrite list_lookup_insert_eq; [done|].
    eapply lookup_lt_Some; eassumption.
  - intros j Hj. by rewrite list_lookup_insert_ne.
Qed.

Lemma runCall_table c ds ds' :
  runCall c ds = Some ds' →
  setLayout ds' = setLayout ds ∧
  length (resourceEntries ds') = length (resourceEntries ds) ∧
  (callIsNull c = true → resource <$> resourceEntries ds' !! callIndex c = Some None).
Proof.
  intros H.
  assert (∃ d, setDescriptor (callIndex c) d ds = Some ds' ∧ (callIsNull c = true → d = None))
    as (d & Hd & Hnull).
  { destruct c as [i b size sv fv | i t tv | i sm]; simpl in *.
    - unfold setBuffer in H. destruct b as [mtl|]; [|by exists None].
      destruct fv as [tex|].
      + apply bind_Some in H as (? & ? & H). eexists; split; [exact H|done].
      + apply bind_Some in H as (off & ? & H). eexists; split; [exact H|done].
    - unfold setTexture in H. destruct t as [mtl|]; [|by exists None].
      destruct tv; eexists; (split; [exact H|done]).
    - unfold setSampler in H. destruct sm; eexists; (split; [exact H|done]). }
  apply setDescriptor_table in Hd as (? & ? & Hn & _). auto.
Qed.

Lemma newMetalDescriptorSet_table device desc ds :
  newMetalDescriptorSet device desc = Some ds →
  length (resourceEntries ds) = length (descriptorBindingIndices (setLayout ds)) ∧
  length (descriptorIndexBases (setLayout ds)) =
    length (descriptorBindingIndices (setLayout ds)).
Proof.
  unfold newMetalDescriptorSet. intros H.
  repeat (apply bind_Some in H as (? & ? & H)). injection H as <-. simpl.
  split; [by rewrite length_replicate|].
  match goal with E : newMetalDescriptorSetLayout _ _ = Some _ |- _ => rename E into Hl end.
  unfold newMetalDescriptorSetLayout in Hl.
  pose proof (firstPass_length (descriptorRanges desc)) as Hlen.
  destruct (firstPass _) as [bases bindings]. simpl in Hlen.
  repeat (apply bind_Some in Hl as (? & ? & Hl)). injection Hl as <-. done.
Qed.

(** A bind writes its resource into its slot of the table and nothing
    else of the table. *)
Lemma setDescriptor_records i d ds ds' :
  setDescriptor i d ds = Some ds' →
  resource <$> resourceEntries ds' !! i = Some (descriptorResource d) ∧
  (∀ j, j ≠ i → resourceEntries ds' !! j = resourceEntries ds !! j).
Proof.
  unfold setDescriptor. intros H.
  apply bind_Some in H as (_ & _ & H). apply bind_Some in H as (indexBase & _ & H).
  apply bind_Some in H as (bindingIndex & _ & H). apply bind_Some in H as (slb & _ & H).
  apply bind_Some in H as (dtype & _ & H). apply bind_Some in H as (dty & _ & H).
  apply bind_Some in H as (old & Hold & H).
  apply bind_Some in H as ([native calls] & Hd & H). injection H as <-. simpl.
  split; [|intros j Hj; by rewrite list_lookup_insert_ne].
  rewrite list_lookup_insert_eq by (by eapply lookup_lt_Some). simpl. f_equal.
  destruct d as [d0|]; [|by injection Hd as <- _].
  by destruct dtype, d0; try done; injection Hd as <- _.
Qed.

Lemma runCall_callDescriptor c ds ds' :
  runCall c ds = Some ds' → setDescriptor (callIndex c) (callDescriptor c) ds = Some ds'.
Proof.
  intros H. destruct c as [i b size sv fv | i t tv | i sm]; simpl in *.
  - unfold setBuffer in H. destruct b as [mtl|]; [|done]. destruct fv as [tex|].
    + by apply bind_Some in H as (_ & _ & H).
    + apply bind_Some in H as (off & Hoff & H). destruct sv as [view|].
      * apply bind_Some in Hoff as (_ & _ & Hoff). by injection Hoff as <-.
      * by injection Hoff as <-.
  - unfold setTexture in H. destruct t as [mtl|]; [|done]. by destruct tv.
  - unfold setSampler in H. by destruct sm.
Qed.

Lemma runCall_records c ds ds' :
  runCall c ds = Some ds' →
  resource <$> resourceEntries ds' !! callIndex c = Some (callResource c) ∧
  (∀ j, j ≠ callIndex c → resourceEntries ds' !! j = resourceEntries ds !! j).
Proof. intros H. by apply setDescriptor_records, runCall_callDescriptor. Qed.

Lemma callIsNull_resource c : callIsNull c = true → callResource c = None.
Proof. by destruct c as [i [b|] size sv fv | i [t|] tv | i [sm|]]. Qed.

Lemma runCalls_records calls : ∀ ds ds' (f : nat → option ptr),
  runCalls calls ds = Some ds' →
  (∀ i, i < length (resourceEntries ds) → resource <$> resourceEntries ds !! i = Some (f i)) →
  ∀ i, i < length (resourceEntries ds') →
    resource <$> resourceEntries ds' !! i =
      Some (from_option callResource (f i) (last (filter (λ c, callIndex c = i) calls))).
Proof.
  induction calls as [|c rest IH]; intros ds ds' f H Hf i Hi; simpl in H.
  - injection H as <-. by apply Hf.
  - apply bind_Some in H as (ds1 & Hc & H).
    pose proof (runCall_table _ _ _ Hc) as (_ & Hlen & _).
    destruct (runCall_records _ _ _ Hc) as [Hrec Hother].
    rewrite (IH ds1 ds' (λ j, if decide (callIndex c = j) then callResource c else f j) H);
      [|intros j Hj; case_decide as E;
        [subst j; exact Hrec|rewrite Hother by done; apply Hf; lia]|done].
    f_equal. rewrite filter_cons. case_decide as E.
    + rewrite last_cons.
      by destruct (last (filter (λ c0, callIndex c0 = i) rest)).
    + done.
Qed.

(** C5: after any sequence of [setBuffer], [setTexture] and [setSampler]
    calls (null resources included) on a descriptor set, the resource
    table has one entry per flat descriptor index of the layout, and
    the entry of an index holds the resource of the last call on the
    index, null when there was none.  On any descriptor set, a call
    leaves the resource it passes in the entry of its index, a null
    resource when it passes a null one, whatever the entry held before,
    and leaves the other entries as they are. *)
Theorem C5_resource_table device desc ds0 calls ds :
  newMetalDescriptorSet device desc = Some ds0 →
  runCalls calls ds0 = Some ds →
  length (resourceEntries ds) = length (descriptorIndexBases (setLayout ds)) ∧
  length (resourceEntries ds) = length (descriptorBindingIndices (setLayout ds)) ∧
  (∀ i, i < length (resourceEntries ds) →
     resource <$> resourceEntries ds !! i = Some (lastResource calls i)) ∧
  ∀ (c : SetCall) (before after : MetalDescriptorSet),
    runCall c before = Some after →
    length (resourceEntries after) = length (resourceEntries before) ∧
    resource <$> resourceEntries after !! callIndex c = Some (callResource c) ∧
    (callIsNull c = true →
       resource <$> resourceEntries after !! callIndex c = Some None) ∧
    (∀ j, j ≠ callIndex c → resourceEntries after !! j = resourceEntries before !! j).
Proof.
  intros Hnew Hrun.
  pose proof (newMetalDescriptorSet_table _ _ _ Hnew) as [H1 H2].
  assert (length (resourceEntries ds) = length (resourceEntries ds0) ∧
          setLayout ds = setLayout ds0) as [Hlen Hlay].
  { clear H1 H2 Hnew. revert ds0 Hrun.
    induction calls as [|c rest IH]; intros ds0 Hrun; simpl in Hrun.
    - by injection Hrun as <-.
    - apply bind_Some in Hrun as (ds1 & Hc & Hrun).
      apply runCall_table in Hc as (Hl & Hn & _).
      destruct (IH _ Hrun) as [IH1 IH2]. split; congruence. }
  rewrite Hlay, Hlen. split; [congruence|]. split; [done|]. split.
  - intros i Hi. rewrite <- Hlen in Hi.
    apply (runCalls_records calls ds0 ds (λ _, None) Hrun); [|done].
    intros j Hj. unfold newMetalDescriptorSet in Hnew.
    apply bind_Some in Hnew as (_ & _ & Hnew). apply bind_Some in Hnew as (layout & _ & Hnew).
    injection Hnew as <-. simpl in *. rewrite length_replicate in Hj.
    by rewrite lookup_replicate_2.
  - intros c before after Hc.
    pose proof (runCall_table _ _ _ Hc) as (_ & Hn & _).
    destruct (runCall_records _ _ _ Hc) as [Hrec Hother].
    split; [done|]. split; [done|]. split; [|done].
    intros Hnull. by rewrite Hrec, callIsNull_resource.
Qed.

Lemma C5_resource_table_witness :
  ∃ ds0 ds1 ds2,
    newMetalDescriptorSet boundlessDevice
      {| descriptorRanges := [unitRange TEXTURE 0 None; unitRange SAMPLER 1 None];
         lastRangeIsBoundless := false; boundlessRangeSize := 0 |} = Some ds0 ∧
    runCalls [CallSetTexture 0 (Some (Some 42)) None; CallSetSampler 1 (Some (Some 7))] ds0
      = Some ds1 ∧
    runCall (CallSetTexture 0 None None) ds1 = Some ds2 ∧
    length (resourceEntries ds1) = length (descriptorIndexBases (setLayout ds1)) ∧
    resource <$> resourceEntries ds1 !! 0 = Some (Some 42) ∧
    resource <$> resourceEntries ds2 !! 0 = Some None ∧
    resourceEntries ds2 !! 1 = resourceEntries ds1 !! 1.
Proof.
  eassert (E0 : newMetalDescriptorSet boundlessDevice
                  {| descriptorRanges := [unitRange TEXTURE 0 None; unitRange SAMPLER 1 None];
                     lastRangeIsBoundless := false; boundlessRangeSize := 0 |} = Some _)
    by (vm_compute; reflexivity).
  match type of E0 with
  | _ = Some ?ds0 =>
      eassert (E1 : runCalls [CallSetTexture 0 (Some (Some 42)) None;
                              CallSetSampler 1 (Some (Some 7))] ds0 = Some _)
        by (vm_compute; reflexivity)
  end.
  match type of E1 with
  | _ = Some ?ds1 =>
      eassert (E2 : runCall (CallSetTexture 0 None None) ds1 = Some _)
        by (vm_compute; reflexivity)
  end.
  destruct (C5_resource_table _ _ _ _ _ E0 E1) as (Hlen & _ & Hlast & Hcall).
  destruct (Hcall (CallSetTexture 0 None None) _ _ E2) as (_ & _ & Hnull & Hother).
  eexists _, _, _.
  split; [exact E0|]. split; [exact E1|]. split; [exact E2|]. split; [exact Hlen|].
  split; [apply (Hlast 0); simpl; lia|]. split; [exact (Hnull eq_refl)|].
  apply (Hother 1). discriminate.
Defined.

End DescriptorSetProperties.

(* ===================================================================== *)
(** * Properties of the swap chain                                       *)
(* ===================================================================== *)

Section SwapChainProperties.
Import Formats SwapChain.


(** A size that differs from the layer's is passed on to the layer and
    to the drawables. *)
Lemma resize_updates attributes sc :
  let w := wrap32 (attrWidth attributes) in
  let h := wrap32 (attrHeight attributes) in
  w ≠ 0%Z → h ≠ 0%Z →
  CGSizeEqualToSize (layerDrawableSize sc) (CGSizeMake (inject_Z w) (inject_Z h)) = false →
  (resize attributes sc).1 = true ∧
  layerDrawableSize (resize attributes sc).2 = CGSizeMake (inject_Z w) (inject_Z h) ∧
  calls (resize attributes sc).2 =
    calls sc ++ [setDrawableSize (CGSizeMake (inject_Z w) (inject_Z h))].
Proof.
  intros w h Hw Hh Hne. unfold resize, getWindowSize. fold w h.
  rewrite (proj2 (Z.eqb_neq w 0)), (proj2 (Z.eqb_neq h 0)) by done. simpl.
  rewrite Hne. done.
Qed.

(** C9: [resize] returns false when the queried width or height is
    zero; when both are non-zero and equal to the drawable size of the
    native layer, it returns true and neither the layer nor the
    drawables are touched. *)
Theorem C9_resize attributes sc :
  let w := wrap32 (attrWidth attributes) in
  let h := wrap32 (attrHeight attributes) in
  ((w = 0%Z ∨ h = 0%Z) →
     (resize attributes sc).1 = false ∧
     layerDrawableSize (resize attributes sc).2 = layerDrawableSize sc ∧
     calls (resize attributes sc).2 = calls sc) ∧
  (w ≠ 0%Z → h ≠ 0%Z →
   CGSizeEqualToSize (layerDrawableSize sc) (CGSizeMake (inject_Z w) (inject_Z h)) = true →
     (resize attributes sc).1 = true ∧
     layerDrawableSize (resize attributes sc).2 = layerDrawableSize sc ∧
     calls (resize attributes sc).2 = calls sc ∧
     drawables (resize attributes sc).2 = drawables sc).
Proof.
  intros w h. unfold resize, getWindowSize. fold w h. split.
  - intros Hz.
    assert ((w =? 0)%Z || (h =? 0)%Z = true) as ->; [|done].
    destruct Hz as [-> | ->]; [done|]. apply orb_true_r.
  - intros Hw Hh Heq.
    rewrite (proj2 (Z.eqb_neq w 0)), (proj2 (Z.eqb_neq h 0)) by done. simpl.
    rewrite Heq. done.
Qed.

Lemma C9_resize_witness :
  let sc := newMetalSwapChain (CGSizeMake 800 600)
              {| attrX := 0; attrY := 0; attrWidth := 800; attrHeight := 600 |}
              B8G8R8A8_UNORM in
  let zero := {| attrX := 0; attrY := 0; attrWidth := 0; attrHeight := 600 |} in
  let same := {| attrX := 5; attrY := 5; attrWidth := 800; attrHeight := 600 |} in
  ((resize zero sc).1 = false ∧
   layerDrawableSize (resize zero sc).2 = layerDrawableSize sc ∧
   calls (resize zero sc).2 = calls sc) ∧
  ((resize same sc).1 = true ∧
   layerDrawableSize (resize same sc).2 = layerDrawableSize sc ∧
   calls (resize same sc).2 = calls sc ∧
   drawables (resize same sc).2 = drawables sc).
Proof.
  intros sc zero same. split.
  - apply (proj1 (C9_resize zero sc)). left. reflexivity.
  - apply (proj2 (C9_resize same sc)); [discriminate | discriminate | reflexivity].
Defined.

(** C10: [acquireTexture] commits the command buffer that signals the
    semaphore before it asks the layer for a drawable, whatever the
    layer answers; when the layer has no drawable the call returns
    false, the value behind [textureIndex], the drawables and
    [currentAvailableDrawableIndex] are unchanged, and the signal has
    been committed all the same. *)
Theorem C10_acquire_commits_first sem index sc :
  (index < Z.of_nat MAX_DRAWABLES)%Z →
  (∀ next r index' sc',
     acquireTexture (Some sem) (Some index) next sc = Some (r, index', sc') →
     ∃ rest,
       calls sc' =
         calls sc ++ commitAcquireBuffer (semMtl sem) (mtlEventValue sem)
                  :: nextDrawable (handle <$> next) :: rest) ∧
  ∃ sc',
    acquireTexture (Some sem) (Some index) None sc = Some (false, index, sc') ∧
    drawables sc' = drawables sc ∧
    currentAvailableDrawableIndex sc' = currentAvailableDrawableIndex sc ∧
    calls sc' =
      calls sc ++ [commitAcquireBuffer (semMtl sem) (mtlEventValue sem);
                   nextDrawable None; printNoMoreDrawables].
Proof.
  intros Hindex. split.
  - intros next r index' sc' H. unfold acquireTexture in H. simpl in H.
    rewrite option_guard_True in H by done. simpl in H.
    destruct next as [d|].
    + repeat (apply bind_Some in H as (? & ? & H)). injection H as <- <- <-. simpl.
      eexists. rewrite <- app_assoc. reflexivity.
    + injection H as <- <- <-. simpl. eexists. rewrite <- app_assoc. reflexivity.
  - unfold acquireTexture. simpl. rewrite option_guard_True by done. simpl.
    eexists. split; [reflexivity|]. simpl. rewrite <- app_assoc. done.
Qed.

Lemma C10_acquire_commits_first_witness :
  let sc := newMetalSwapChain (CGSizeMake 800 600)
              {| attrX := 0; attrY := 0; attrWidth := 800; attrHeight := 600 |}
              B8G8R8A8_UNORM in
  let sem := {| semMtl := 9; mtlEventValue := 1 |} in
  ∃ sc',
    acquireTexture (Some sem) (Some 0%Z) None sc = Some (false, 0%Z, sc') ∧
    drawables sc' = drawables sc ∧
    currentAvailableDrawableIndex sc' = currentAvailableDrawableIndex sc ∧
    calls sc' = calls sc ++ [commitAcquireBuffer 9 1; nextDrawable None; printNoMoreDrawables].
Proof.
  intros sc sem.
  apply (proj2 (C10_acquire_commits_first sem 0%Z sc ltac:(reflexivity))).
Defined.

End SwapChainProperties.

(* ===================================================================== *)
(** * Properties of the command list                                     *)
(* ===================================================================== *)

Section CommandListProperties.
Import Formats CommandList.

Lemma replay_app o t1 t2 :
  replay o (t1 ++ t2) = replay o t1 ≫= λ o', replay o' t2.
Proof.
  revert o. induction t1 as [|c t1 IH]; intros o; simpl; [done|].
  destruct (opens c), (closes c), o; try done; try case_decide; done.
Qed.

Lemma replay_quiet o t :
  Forall (λ c, quietCall c = true) t → replay o t = Some o.
Proof.
  induction 1 as [|c t Hc _ IH]; simpl; [done|].
  unfold quietCall in Hc. destruct (opens c), (closes c); done.
Qed.

Lemma encoderOpen_openEncoder s s' :
  (∀ k, encoderOpen k s' = encoderOpen k s) → openEncoder s' = openEncoder s.
Proof.
  intros H. unfold openEncoder.
  pose proof (H Render) as H1. pose proof (H Compute) as H2.
  pose proof (H Blit) as H3. pose proof (H Resolve) as H4.
  simpl in *. rewrite H1, H2, H3, H4. done.
Qed.

Lemma quiet_refl s : quiet s s.
Proof. do 4 (split; [done|]). exists []. by rewrite app_nil_r. Qed.

Lemma quiet_trans s1 s2 s3 : quiet s1 s2 → quiet s2 s3 → quiet s1 s3.
Proof.
  intros (A2 & A3 & A4 & A5 & t1 & A6 & A7) (B2 & B3 & B4 & B5 & t2 & B6 & B7).
  split; [congruence|]. split; [intros k; by rewrite B3|].
  split; [congruence|]. split; [congruence|].
  exists (t1 ++ t2). split; [by rewrite B6, A6, app_assoc|]. by apply Forall_app.
Qed.

Lemma quiet_extends s s' : quiet s s' → extends s s'.
Proof. intros (_ & _ & _ & _ & t & H & _). by exists t. Qed.

Lemma quiet_invariant s s' : quiet s s' → invariant s → invariant s'.
Proof.
  intros (A2 & A3 & A4 & A5 & t & A6 & A7) (Hc & Ht & Hs & Hp).
  split; [|split; [|split]].
  - intros k Hk. rewrite A3 in Hk. rewrite A2. by apply Hc.
  - unfold traced in *. rewrite A6, replay_app, Ht. simpl.
    rewrite (encoderOpen_openEncoder _ _ A3). by apply replay_quiet.
  - intros fb Hfb. rewrite A4. apply Hs. congruence.
  - unfold pendingTargeted in *. by rewrite A4, A5.
Qed.

(** Goals [quiet s T] where [T] is [s] under field updates and calls
    that are quiet. *)
Ltac quiet_tac :=
  split; [reflexivity|];
  split; [intros []; reflexivity|];
  split; [reflexivity|]; split; [reflexivity|];
  cbn; eexists; split;
  [ rewrite <- ?app_assoc; first [reflexivity | symmetry; apply app_nil_r]
  | repeat constructor ].

Lemma quiet_emit c s : quietCall c = true → quiet s (emit c s).
Proof.
  intros H. split; [reflexivity|].
  split; [intros []; reflexivity|]. split; [reflexivity|]. split; [reflexivity|].
  exists [c]. split; [done|]. by constructor.
Qed.

Lemma quiet_fold_left {A} (f : MetalCommandList → A → MetalCommandList) l s :
  (∀ s x, quiet s (f s x)) → quiet s (fold_left f l s).
Proof.
  intros H. revert s. induction l as [|x l IH]; intros s; simpl; [apply quiet_refl|].
  eapply quiet_trans; [apply H|apply IH].
Qed.

Lemma bindDescriptorSets_quiet layout sets isCompute start s :
  quiet s (bindDescriptorSets layout sets isCompute start s).
Proof.
  unfold bindDescriptorSets. apply quiet_fold_left. intros s1 i.
  case_decide; [apply quiet_refl|].
  destruct (sets !! i) as [[p|]|]; try apply quiet_refl. quiet_tac.
Qed.

Lemma flushComputePipelineState_quiet s s' :
  flushComputePipelineState s = Some s' → quiet s s'.
Proof.
  unfold flushComputePipelineState. destruct (cPipelineState _).
  - intros H. apply bind_Some in H as (st & _ & H). injection H as <-. quiet_tac.
  - intros [= <-]. apply quiet_refl.
Qed.

Lemma flushComputeDescriptorSets_quiet s s' :
  flushComputeDescriptorSets s = Some s' → quiet s s'.
Proof.
  unfold flushComputeDescriptorSets. destruct (cDescriptorSets _).
  - intros H. apply bind_Some in H as (layout & _ & H). injection H as <-.
    eapply quiet_trans; [apply (bindDescriptorSets_quiet layout)|]. quiet_tac.
  - intros [= <-]. apply quiet_refl.
Qed.

Lemma bindComputePushConstants_quiet s : quiet s (bindComputePushConstants s).
Proof.
  unfold bindComputePushConstants. apply quiet_fold_left. intros s1 pc.
  destruct (stageCOMPUTE _); [quiet_tac|apply quiet_refl].
Qed.

Lemma flushComputePushConstants_quiet s : quiet s (flushComputePushConstants s).
Proof.
  unfold flushComputePushConstants. destruct (cPushConstants _); [|apply quiet_refl].
  eapply quiet_trans; [apply bindComputePushConstants_quiet|]. quiet_tac.
Qed.

Lemma flushPipelineState_quiet s : quiet s (flushPipelineState s).
Proof.
  unfold flushPipelineState. destruct (gPipelineState _); [|apply quiet_refl].
  destruct (activeRenderState s); quiet_tac.
Qed.

Lemma flushViewports_quiet s : quiet s (flushViewports s).
Proof. unfold flushViewports. destruct (gViewports _); [quiet_tac|apply quiet_refl]. Qed.

Lemma flushDepthBias_quiet s s' : flushDepthBias s = Some s' → quiet s s'.
Proof.
  unfold flushDepthBias. destruct (gDepthBias _).
  - intros H. apply bind_Some in H as (st & _ & H). injection H as <-.
    destruct (dynamicDepthBiasEnabled st); quiet_tac.
  - intros [= <-]. apply quiet_refl.
Qed.

Lemma flushScissors_quiet s : quiet s (flushScissors s).
Proof. unfold flushScissors. destruct (gScissors _); [quiet_tac|apply quiet_refl]. Qed.

Lemma bindVertexBuffers_quiet slots s : quiet s (bindVertexBuffers slots s).
Proof. unfold bindVertexBuffers. apply quiet_fold_left. intros; quiet_tac. Qed.

Lemma flushVertexBuffers_quiet s : quiet s (flushVertexBuffers s).
Proof.
  unfold flushVertexBuffers. destruct (negb _); [|apply quiet_refl].
  set (m := bindVertexBuffers _ s).
  apply quiet_trans with m; [apply bindVertexBuffers_quiet|].
  clearbody m. quiet_tac.
Qed.

Lemma flushDescriptorSets_quiet s : quiet s (flushDescriptorSets s).
Proof.
  unfold flushDescriptorSets. destruct (gDescriptorSets _); [|apply quiet_refl].
  destruct (activeGraphicsPipelineLayout s) as [layout|]; [|quiet_tac].
  eapply quiet_trans; [apply (bindDescriptorSets_quiet layout)|]. quiet_tac.
Qed.

Lemma bindGraphicsPushConstants_quiet s : quiet s (bindGraphicsPushConstants s).
Proof.
  unfold bindGraphicsPushConstants. apply quiet_fold_left. intros s1 pc.
  destruct (stageVERTEX _), (stagePIXEL _); quiet_tac.
Qed.

Lemma flushPushConstants_quiet s : quiet s (flushPushConstants s).
Proof.
  unfold flushPushConstants. destruct (gPushConstants _); [|apply quiet_refl].
  eapply quiet_trans; [apply bindGraphicsPushConstants_quiet|]. quiet_tac.
Qed.

Lemma checkForUpdatesInGraphicsState_quiet s s' :
  checkForUpdatesInGraphicsState s = Some s' → quiet s s'.
Proof.
  unfold checkForUpdatesInGraphicsState. intros H.
  eapply quiet_trans; [apply flushPipelineState_quiet|].
  destruct (_ && _); [injection H as <-; apply quiet_refl|].
  eapply quiet_trans; [apply flushViewports_quiet|].
  apply bind_Some in H as (s1 & H1 & H).
  eapply quiet_trans; [apply (flushDepthBias_quiet _ _ H1)|].
  destruct (_ && _); injection H as <-; [apply quiet_refl|].
  eapply quiet_trans; [apply flushScissors_quiet|].
  eapply quiet_trans; [apply flushVertexBuffers_quiet|].
  eapply quiet_trans; [apply flushDescriptorSets_quiet|].
  apply flushPushConstants_quiet.
Qed.

Lemma consistent_openEncoder s k :
  consistent s → encoderOpen k s = true → openEncoder s = Some k.
Proof.
  intros Hc Hk. pose proof (Hc _ Hk) as Ha.
  assert (∀ k', encoderOpen k' s = true → k' = k) as Hu.
  { intros k' Hk'. rewrite <- Ha. symmetry. by apply Hc. }
  unfold openEncoder.
  pose proof (Hu Render) as H1. pose proof (Hu Compute) as H2.
  pose proof (Hu Blit) as H3. pose proof (Hu Resolve) as H4. simpl in *.
  destruct (activeRenderEncoder s) eqn:E1; [by rewrite H1|].
  destruct (activeComputeEncoder s) eqn:E2; [by rewrite H2|].
  destruct (activeBlitEncoder s) eqn:E3; [by rewrite H3|].
  destruct (activeResolveComputeEncoder s) eqn:E4; [by rewrite H4|].
  destruct k; simpl in Hk; congruence.
Qed.

Lemma closed_openEncoder s :
  (∀ k, encoderOpen k s = false) → openEncoder s = None.
Proof.
  intros H. unfold openEncoder.
  pose proof (H Render) as H1. pose proof (H Compute) as H2.
  pose proof (H Blit) as H3. pose proof (H Resolve) as H4. simpl in *.
  by rewrite H1, H2, H3, H4.
Qed.

Lemma endActive_trace k s : trace (endActive k s) = trace s ++ closingCalls k s.
Proof.
  unfold closingCalls.
  destruct k; simpl; [by rewrite app_nil_r|..].
  - unfold endActiveRenderEncoder. destruct (activeRenderEncoder s); cbn;
      [by rewrite <- app_assoc|by rewrite app_nil_r].
  - unfold endActiveComputeEncoder. destruct (activeComputeEncoder s); cbn;
      [by rewrite <- app_assoc|by rewrite app_nil_r].
  - unfold endActiveBlitEncoder. destruct (activeBlitEncoder s); cbn;
      [done|by rewrite app_nil_r].
  - unfold endActiveResolveTextureComputeEncoder.
    destruct (activeResolveComputeEncoder s); cbn; [done|by rewrite app_nil_r].
Qed.

Lemma endActive_fields k s :
  activeType (endActive k s) = activeType s ∧
  (∀ k', encoderOpen k' (endActive k s) =
         if decide (k' = k) then false else encoderOpen k' s) ∧
  keeps s (endActive k s).
Proof.
  destruct k; simpl.
  - split; [done|]. split; [|done]. intros k'. case_decide; [by subst|done].
  - unfold endActiveRenderEncoder. destruct (activeRenderEncoder s) eqn:E; cbn.
    + split; [done|]. split; [|done]. by intros [].
    + split; [done|]. split; [|done]. intros []; simpl; try done.
  - unfold endActiveComputeEncoder. destruct (activeComputeEncoder s) eqn:E; cbn.
    + split; [done|]. split; [|done]. by intros [].
    + split; [done|]. split; [|done]. intros []; simpl; try done.
  - unfold endActiveBlitEncoder. destruct (activeBlitEncoder s) eqn:E; cbn.
    + split; [done|]. split; [|done]. by intros [].
    + split; [done|]. split; [|done]. intros []; simpl; try done.
  - unfold endActiveResolveTextureComputeEncoder.
    destruct (activeResolveComputeEncoder s) eqn:E; cbn.
    + split; [done|]. split; [|done]. by intros [].
    + split; [done|]. split; [|done]. intros []; simpl; try done.
Qed.

Lemma replay_closingCalls k s :
  consistent s →
  replay (openEncoder s) (closingCalls k s) =
    Some (if encoderOpen k s then None else openEncoder s).
Proof.
  intros Hc. unfold closingCalls. destruct (encoderOpen k s) eqn:E; [|done].
  rewrite (consistent_openEncoder _ _ Hc E).
  destruct k; simpl in *; try done; by rewrite decide_True.
Qed.

Lemma endActive_encoded k s : encoded s → encoded (endActive k s).
Proof.
  intros [Hc Ht]. destruct (endActive_fields k s) as (Ha & Ho & _). split.
  - intros k' Hk'. rewrite Ho in Hk'. rewrite Ha. case_decide; [done|]. by apply Hc.
  - unfold traced in *. rewrite endActive_trace, replay_app, Ht. simpl.
    rewrite replay_closingCalls by done. f_equal.
    destruct (encoderOpen k s) eqn:E.
    + symmetry. apply closed_openEncoder. intros k'. rewrite Ho.
      case_decide; [done|]. destruct (encoderOpen k' s) eqn:E'; [|done].
      pose proof (Hc _ E). pose proof (Hc _ E'). congruence.
    + symmetry. apply encoderOpen_openEncoder. intros k'. rewrite Ho.
      case_decide; [by subst|done].
Qed.

Lemma endOtherEncoders_endActive type s :
  endOtherEncoders type s =
    if decide (activeType s = type) then s else endActive (activeType s) s.
Proof. unfold endOtherEncoders. case_decide; [done|]. by destruct (activeType s). Qed.

(** After [endOtherEncoders type] no encoder of another kind is open. *)
Lemma endOtherEncoders_spec type s :
  encoded s →
  let s' := endOtherEncoders type s in
  encoded s' ∧ activeType s' = activeType s ∧ keeps s s' ∧
  (∀ k, encoderOpen k s' = if decide (k = type) then encoderOpen k s else false) ∧
  trace s' = trace s ++
    (if decide (activeType s = type) then [] else closingCalls (activeType s) s).
Proof.
  intros He s'. subst s'. rewrite endOtherEncoders_endActive.
  destruct He as [Hc Ht]. case_decide as Hty.
  - split; [done|]. split; [done|]. split; [done|]. split; [|by rewrite app_nil_r].
    intros k. case_decide; [done|].
    destruct (encoderOpen k s) eqn:E; [|done]. apply Hc in E. congruence.
  - destruct (endActive_fields (activeType s) s) as (Ha & Ho & Hk).
    split; [by apply endActive_encoded|]. split; [done|]. split; [done|].
    split; [|apply endActive_trace].
    intros k. rewrite Ho. case_decide as E1; case_decide as E2; try done; try congruence.
    destruct (encoderOpen k s) eqn:E; [|done]. apply Hc in E. congruence.
Qed.

Lemma only_openEncoder k s : k ≠ NoEncoder → only k s → openEncoder s = Some k.
Proof.
  intros Hk H. unfold openEncoder.
  pose proof (H Render) as H1. pose proof (H Compute) as H2.
  pose proof (H Blit) as H3. pose proof (H Resolve) as H4. simpl in *.
  rewrite H1, H2, H3, H4. destruct k; done.
Qed.

Lemma only_consistent k s : activeType s = k → only k s → consistent s.
Proof.
  intros Ha H k' Hk'. rewrite H in Hk'. apply bool_decide_eq_true in Hk'. congruence.
Qed.

(** The common prologue of the [checkActive...] functions. *)
Lemma retype_spec type s :
  encoded s →
  let s' := set_activeType type (endOtherEncoders type s) in
  encoded s' ∧ activeType s' = type ∧ keeps s s' ∧
  (∀ k, encoderOpen k s' = if decide (k = type) then encoderOpen k s else false) ∧
  trace s' = trace s ++ closingOthers type s.
Proof.
  intros He s'.
  destruct (endOtherEncoders_spec type s He) as ([Hc Ht] & Ha & Hk & Ho & Htr).
  subst s'. split; [split|].
  - intros k Hk'. cbn. change (encoderOpen k (endOtherEncoders type s) = true) in Hk'.
    rewrite Ho in Hk'. by case_decide.
  - exact Ht.
  - split; [done|]. split; [exact Hk|]. split; [|exact Htr].
    intros k. apply (Ho k).
Qed.

Lemma checkActiveBlitEncoder_spec s s' :
  encoded s → checkActiveBlitEncoder s = Some s' →
  encoded s' ∧ activeType s' = Blit ∧ only Blit s' ∧ keeps s s' ∧
  trace s' = trace s ++ closingOthers Blit s ++
             (if activeBlitEncoder s then [] else [blitCommandEncoder]).
Proof.
  intros He H. unfold checkActiveBlitEncoder in H.
  destruct (retype_spec Blit s He) as ([Hc Ht] & Ha & (K1 & K2 & K3) & Ho & Htr).
  set (s1 := set_activeType Blit (endOtherEncoders Blit s)) in *. clearbody s1.
  pose proof (Ho Blit) as Hb. simpl in Hb.
  destruct (activeBlitEncoder s1) eqn:E; rewrite <- Hb.
  - injection H as <-. rewrite app_nil_r.
    assert (only Blit s1) as Hon.
    { intros k. rewrite Ho. case_decide; [subst; simpl; by rewrite <- Hb|].
      by rewrite bool_decide_eq_false_2. }
    done.
  - apply bind_Some in H as (Hm & _ & H). injection H as <-.
    assert (only Blit (set_activeBlitEncoder true (emit blitCommandEncoder s1))) as Hon.
    { intros k. destruct k; try done; cbn.
      - exact (Ho Render).
      - exact (Ho Compute).
      - exact (Ho Resolve). }
    split; [split|].
    + by apply (only_consistent Blit).
    + unfold traced in *. rewrite (only_openEncoder Blit) by done.
      change (replay None (trace s1 ++ [blitCommandEncoder]) = Some (Some Blit)).
      rewrite replay_app, Ht. rewrite closed_openEncoder; [done|].
      intros k. rewrite Ho. case_decide; [by subst|done].
    + split; [done|]. split; [done|]. split; [done|].
      cbn. rewrite Htr. by rewrite <- app_assoc.
Qed.

Lemma checkActiveResolveTextureComputeEncoder_spec s s' :
  encoded s → checkActiveResolveTextureComputeEncoder s = Some s' →
  encoded s' ∧ activeType s' = Resolve ∧ only Resolve s' ∧ keeps s s' ∧
  trace s' = trace s ++ closingOthers Resolve s ++
             (if activeResolveComputeEncoder s then [] else [resolveComputeCommandEncoder]).
Proof.
  intros He H. unfold checkActiveResolveTextureComputeEncoder in H.
  apply bind_Some in H as (_ & _ & H).
  destruct (retype_spec Resolve s He) as ([Hc Ht] & Ha & (K1 & K2 & K3) & Ho & Htr).
  set (s1 := set_activeType Resolve (endOtherEncoders Resolve s)) in *. clearbody s1.
  pose proof (Ho Resolve) as Hb. simpl in Hb.
  destruct (activeResolveComputeEncoder s1) eqn:E; rewrite <- Hb.
  - injection H as <-. rewrite app_nil_r.
    assert (only Resolve s1) as Hon.
    { intros k. rewrite Ho. case_decide; [subst; simpl; by rewrite <- Hb|].
      by rewrite bool_decide_eq_false_2. }
    done.
  - apply bind_Some in H as (Hm & _ & H). injection H as <-.
    assert (only Resolve
              (set_activeResolveComputeEncoder true (emit resolveComputeCommandEncoder s1)))
      as Hon.
    { intros k. destruct k; try done; cbn.
      - exact (Ho Render).
      - exact (Ho Compute).
      - exact (Ho Blit). }
    split; [split|].
    + by apply (only_consistent Resolve).
    + unfold traced in *. rewrite (only_openEncoder Resolve) by done.
      change (replay None (trace s1 ++ [resolveComputeCommandEncoder]) = Some (Some Resolve)).
      rewrite replay_app, Ht. rewrite closed_openEncoder; [done|].
      intros k. rewrite Ho. case_decide; [by subst|done].
    + split; [done|]. split; [done|]. split; [done|].
      cbn. rewrite Htr. by rewrite <- app_assoc.
Qed.

Lemma quiet_encoded s s' : quiet s s' → encoded s → encoded s'.
Proof.
  intros (A2 & A3 & A4 & A5 & t & A6 & A7) (Hc & Ht). split.
  - intros k Hk. rewrite A3 in Hk. rewrite A2. by apply Hc.
  - unfold traced in *. rewrite A6, replay_app, Ht. simpl.
    rewrite (encoderOpen_openEncoder _ _ A3). by apply replay_quiet.
Qed.

Lemma quiet_only k s s' : quiet s s' → only k s → only k s'.
Proof. intros (_ & A3 & _) H k'. by rewrite A3. Qed.

Lemma invariant_encoded s : invariant s → encoded s.
Proof. by intros (? & ? & _). Qed.

(** What an invariant needs besides [encoded]. *)
Lemma invariant_intro s :
  encoded s → sized s → pendingTargeted s → invariant s.
Proof. by intros [? ?] ? ?. Qed.

Lemma keeps_refl s : keeps s s.
Proof. done. Qed.

Lemma keeps_trans s1 s2 s3 : keeps s1 s2 → keeps s2 s3 → keeps s1 s3.
Proof. intros (?&?&?) (?&?&?). repeat split; congruence. Qed.

Lemma keeps_sized s s' : keeps s s' → sized s → sized s'.
Proof. intros (_ & K2 & K3) Hs fb Hfb. rewrite K2. apply Hs. congruence. Qed.

Lemma keeps_pendingTargeted s s' : keeps s s' → pendingTargeted s → pendingTargeted s'.
Proof. intros (_ & K2 & K3) Hp. unfold pendingTargeted. by rewrite K2, K3. Qed.

Lemma extends_refl s : extends s s.
Proof. exists []. by rewrite app_nil_r. Qed.

Lemma extends_trans s1 s2 s3 : extends s1 s2 → extends s2 s3 → extends s1 s3.
Proof. intros [t1 H1] [t2 H2]. exists (t1 ++ t2). by rewrite H2, H1, app_assoc. Qed.

Lemma checkActiveComputeEncoder_spec s s' :
  encoded s → checkActiveComputeEncoder s = Some s' →
  encoded s' ∧ activeType s' = Compute ∧ only Compute s' ∧
  pendingClears s' = pendingClears s ∧ targetFramebuffer s' = targetFramebuffer s ∧
  ∃ t, trace s' = trace s ++ closingOthers Compute s ++
                  (if activeComputeEncoder s then [] else [computeCommandEncoder]) ++ t ∧
       Forall (λ c, quietCall c = true) t.
Proof.
  intros He H. unfold checkActiveComputeEncoder in H.
  destruct (retype_spec Compute s He) as ([Hc Ht] & Ha & (K1 & K2 & K3) & Ho & Htr).
  set (s1 := set_activeType Compute (endOtherEncoders Compute s)) in *. clearbody s1.
  pose proof (Ho Compute) as Hb. simpl in Hb.
  apply bind_Some in H as (s2 & H2 & H).
  assert (encoded s2 ∧ activeType s2 = Compute ∧ only Compute s2 ∧
          pendingClears s2 = pendingClears s ∧ targetFramebuffer s2 = targetFramebuffer s ∧
          trace s2 = trace s ++ closingOthers Compute s ++
                     (if activeComputeEncoder s then [] else [computeCommandEncoder]))
    as (He2 & Ha2 & Hon2 & P2 & T2 & Htr2).
  { destruct (activeComputeEncoder s1) eqn:E; rewrite <- Hb.
    - injection H2 as <-. rewrite app_nil_r.
      assert (only Compute s1) as Hon.
      { intros k. rewrite Ho. case_decide; [subst; simpl; by rewrite <- Hb|].
        by rewrite bool_decide_eq_false_2. }
      done.
    - apply bind_Some in H2 as (Hm & _ & H2). injection H2 as <-.
      set (s2 := set_dirtyComputeState _ _).
      assert (only Compute s2) as Hon.
      { intros k. destruct k; try done; cbn.
        - exact (Ho Render).
        - exact (Ho Blit).
        - exact (Ho Resolve). }
      split; [split|].
      + by apply (only_consistent Compute).
      + unfold traced in *. rewrite (only_openEncoder Compute) by done.
        change (replay None (trace s1 ++ [computeCommandEncoder]) = Some (Some Compute)).
        rewrite replay_app, Ht. rewrite closed_openEncoder; [done|].
        intros k. rewrite Ho. case_decide; [by subst|done].
      + split; [done|]. split; [done|]. split; [done|]. split; [done|].
        change (trace s1 ++ [computeCommandEncoder] = trace s ++ closingOthers Compute s ++
                  [computeCommandEncoder]).
        rewrite Htr. by rewrite <- app_assoc. }
  clear H2 Hc Ht Ha K1 K2 K3 Ho Htr Hb.
  apply bind_Some in H as (s3 & H3 & H). apply flushComputePipelineState_quiet in H3.
  apply bind_Some in H as (s4 & H4 & H). apply flushComputeDescriptorSets_quiet in H4.
  injection H as <-.
  pose proof (flushComputePushConstants_quiet s4) as H5.
  pose proof (quiet_trans _ _ _ (quiet_trans _ _ _ H3 H4) H5) as Hq.
  split; [by apply (quiet_encoded _ _ Hq)|].
  destruct Hq as (A2 & A3 & A4 & A5 & t & A6 & A7).
  split; [congruence|]. split; [intros k; by rewrite A3|].
  split; [congruence|]. split; [congruence|].
  exists t. split; [|done]. rewrite A6, Htr2. by rewrite <- !app_assoc.
Qed.

(** ** The render pass descriptor *)

Lemma mapM_imap_Some {A B} (f : nat → A → option B) (l : list A) (r : list B) :
  mapM (λ x : option B, x) (imap f l) = Some r →
  length r = length l ∧ ∀ i a, l !! i = Some a → Some <$> r !! i = Some (f i a).
Proof.
  revert f r. induction l as [|a l IH]; intros f r H; simpl in H.
  - injection H as <-. split; [done|]. intros i a. by rewrite lookup_nil.
  - apply bind_Some in H as (b & Hb & H). apply bind_Some in H as (r' & Hr & H).
    injection H as <-. apply IH in Hr as [Hlen Hr]. split; [simpl; by rewrite Hlen|].
    intros [|i] a'; simpl.
    + intros [= <-]. by rewrite Hb.
    + intros Hi. by apply Hr.
Qed.

Lemma colorPasses_lookup pending fb colors i a :
  colorPasses pending fb = Some colors →
  colorAttachments fb !! i = Some a →
  ∃ action value,
    initialAction pending !! i = Some action ∧ clearValues pending !! i = Some value ∧
    colors !! i =
      Some {| passTexture := attachmentTexture a; loadAction := action; clearValue := value |}.
Proof.
  unfold colorPasses. intros H Hi.
  apply mapM_imap_Some in H as [_ H]. specialize (H _ _ Hi).
  destruct (colors !! i) as [p|]; [|done]. simpl in H. injection H as H.
  unfold attachmentPass in H. symmetry in H.
  apply bind_Some in H as (action & Ha & H). apply bind_Some in H as (value & Hv & H).
  injection H as <-. by exists action, value.
Qed.

Lemma attachmentPass_is_Some pending i a :
  i < length (initialAction pending) → i < length (clearValues pending) →
  is_Some (attachmentPass pending i a).
Proof.
  intros H1 H2. unfold attachmentPass.
  apply lookup_lt_is_Some in H1 as [x ->]. apply lookup_lt_is_Some in H2 as [y ->].
  by eexists.
Qed.

Lemma mapM_imap_is_Some {A B} (f : nat → A → option B) (l : list A) :
  (∀ i a, l !! i = Some a → is_Some (f i a)) →
  is_Some (mapM (λ x : option B, x) (imap f l)).
Proof.
  revert f. induction l as [|a l IH]; intros f H; simpl; [by eexists|].
  destruct (H 0 a eq_refl) as [b ->]. simpl.
  destruct (IH (f ∘ S)) as [r ->]; [|by eexists].
  intros i a' Hi. by apply (H (S i)).
Qed.

Lemma passes_is_Some pending fb :
  length (initialAction pending) = length (colorAttachments fb) + 2 →
  length (clearValues pending) = length (colorAttachments fb) + 2 →
  is_Some (colorPasses pending fb) ∧ is_Some (depthPass pending fb) ∧
  is_Some (stencilPass pending fb).
Proof.
  intros H1 H2. split; [|split].
  - unfold colorPasses. apply mapM_imap_is_Some. intros i a Hi.
    apply lookup_lt_Some in Hi. apply attachmentPass_is_Some; lia.
  - unfold depthPass. case_decide; [by eexists|].
    destruct (attachmentPass_is_Some pending (length (colorAttachments fb)) (depthAttachment fb))
      as [p ->]; [lia|lia|]. by eexists.
  - unfold stencilPass. case_decide; [by eexists|]. destruct (depthIsStencil fb); [|by eexists].
    destruct (attachmentPass_is_Some pending (length (colorAttachments fb) + 1)
                (depthAttachment fb)) as [p ->]; [lia|lia|]. by eexists.
Qed.

Lemma renderPrologue_spec s :
  encoded s →
  let s' := renderPrologue s in
  encoded s' ∧ activeType s' = Render ∧ keeps s s' ∧
  (∀ k, encoderOpen k s' =
        if decide (k = Render)
        then activeRenderEncoder s && negb (active (pendingClears s)) else false) ∧
  trace s' = trace s ++ renderPrologueCalls s.
Proof.
  intros He. unfold renderPrologue, renderPrologueCalls.
  destruct (endOtherEncoders_spec Render s He) as (He1 & Ha1 & (K1 & K2 & K3) & Ho1 & Htr1).
  set (s1 := endOtherEncoders Render s) in *. clearbody s1.
  rewrite K2.
  assert (∃ s2, (if active (pendingClears s) then endActiveRenderEncoder s1 else s1) = s2 ∧
     encoded s2 ∧ keeps s s2 ∧
     (∀ k, encoderOpen k s2 =
        if decide (k = Render)
        then activeRenderEncoder s && negb (active (pendingClears s)) else false) ∧
     trace s2 = trace s ++ closingOthers Render s ++
       (if active (pendingClears s) then closingCalls Render s1 else []))
    as (s2 & Es2 & He2 & (L1 & L2 & L3) & Ho2 & Htr2).
  { destruct (active (pendingClears s)) eqn:Eact.
    - eexists; split; [done|].
      destruct (endActive_fields Render s1) as (Ha & Ho & (M1 & M2 & M3)).
      split; [apply (endActive_encoded Render _ He1)|].
      split; [repeat split; simpl in *; congruence|]. split.
      + intros k. change (endActiveRenderEncoder s1) with (endActive Render s1).
        rewrite Ho, Ho1. rewrite andb_false_r.
        destruct (decide (k = Render)) as [->|]; done.
      + change (endActiveRenderEncoder s1) with (endActive Render s1).
        rewrite endActive_trace, Htr1. by rewrite <- app_assoc.
    - eexists; split; [done|]. split; [done|]. split; [done|]. split.
      + intros k. rewrite Ho1. rewrite andb_true_r.
        destruct (decide (k = Render)) as [->|]; done.
      + by rewrite Htr1, app_nil_r. }
  rewrite Es2. clear Es2. destruct He2 as [Hc2 Ht2].
  split; [split|].
  - intros k Hk. change (encoderOpen k s2 = true) in Hk. rewrite Ho2 in Hk.
    by case_decide.
  - exact Ht2.
  - split; [done|]. split; [done|]. split; [exact Ho2|]. exact Htr2.
Qed.

Lemma checkActiveRenderEncoder_unfold s :
  checkActiveRenderEncoder s =
    fb ← targetFramebuffer s;
    let s := renderPrologue s in
    if activeRenderEncoder s then Some s
    else
      colors ← colorPasses (pendingClears s) fb;
      depth ← depthPass (pendingClears s) fb;
      stencil ← stencilPass (pendingClears s) fb;
      guard (mtl s = true);;
      let s := set_activeRenderEncoder true (emit (renderCommandEncoder colors depth stencil) s) in
      if active (pendingClears s) then
        Some (set_pendingClears
                {| initialAction := (fun _ => LoadActionLoad) <$> initialAction (pendingClears s);
                   clearValues := clearValues (pendingClears s);
                   active := false |} s)
      else Some s.
Proof. reflexivity. Qed.

Lemma checkActiveRenderEncoder_spec s s' :
  encoded s → checkActiveRenderEncoder s = Some s' →
  ∃ fb, targetFramebuffer s = Some fb ∧
  encoded s' ∧ activeType s' = Render ∧ only Render s' ∧ mtl s' = mtl s ∧
  targetFramebuffer s' = targetFramebuffer s ∧
  active (pendingClears s') = false ∧
  ((activeRenderEncoder s && negb (active (pendingClears s)) = true ∧
    pendingClears s' = pendingClears s ∧
    trace s' = trace s ++ renderPrologueCalls s) ∨
   (activeRenderEncoder s && negb (active (pendingClears s)) = false ∧
    pendingClears s' = clearsTaken (pendingClears s) ∧
    ∃ colors depth stencil,
      colorPasses (pendingClears s) fb = Some colors ∧
      depthPass (pendingClears s) fb = Some depth ∧
      stencilPass (pendingClears s) fb = Some stencil ∧
      trace s' = trace s ++ renderPrologueCalls s ++
                 [renderCommandEncoder colors depth stencil])).
Proof.
  intros He H. rewrite checkActiveRenderEncoder_unfold in H.
  apply bind_Some in H as (fb & Hfb & H). exists fb. split; [done|].
  destruct (renderPrologue_spec s He) as (He1 & Ha1 & (K1 & K2 & K3) & Ho1 & Htr1).
  cbv zeta in H. set (s1 := renderPrologue s) in *. clearbody s1.
  pose proof (Ho1 Render) as Hr. simpl in Hr.
  destruct (activeRenderEncoder s1) eqn:E.
  - injection H as <-.
    assert (active (pendingClears s) = false) as Hact.
    { symmetry in Hr. apply andb_true_iff in Hr as [_ Hr]. by apply negb_true_iff in Hr. }
    split; [done|]. split; [done|]. split.
    { intros k. rewrite Ho1. case_decide; [subst; by rewrite <- Hr|].
      by rewrite bool_decide_eq_false_2. }
    split; [done|]. split; [done|]. split; [congruence|].
    left. by rewrite <- Hr.
  - apply bind_Some in H as (colors & Hcol & H). apply bind_Some in H as (depth & Hd & H).
    apply bind_Some in H as (stencil & Hst & H). apply bind_Some in H as (Hm & _ & H).
    set (s2 := set_activeRenderEncoder true (emit (renderCommandEncoder colors depth stencil) s1))
      in *.
    assert (only Render s2) as Hon.
    { intros k. destruct k; try done; cbn.
      - exact (Ho1 Compute).
      - exact (Ho1 Blit).
      - exact (Ho1 Resolve). }
    assert (encoded s2) as He2.
    { split; [by apply (only_consistent Render)|].
      destruct He1 as [_ Ht1].
      unfold traced in *. rewrite (only_openEncoder Render) by done.
      change (replay None (trace s1 ++ [renderCommandEncoder colors depth stencil]) =
              Some (Some Render)).
      rewrite replay_app, Ht1. rewrite closed_openEncoder; [done|].
      intros k. rewrite Ho1. case_decide; [by subst|done]. }
    assert (trace s2 = trace s ++ renderPrologueCalls s ++
                       [renderCommandEncoder colors depth stencil]) as Htr2.
    { change (trace s1 ++ [renderCommandEncoder colors depth stencil] = trace s ++
                renderPrologueCalls s ++ [renderCommandEncoder colors depth stencil]).
      rewrite Htr1. by rewrite <- app_assoc. }
    assert (pendingClears s2 = pendingClears s) as P2 by exact K2.
    assert (mtl s2 = mtl s ∧ targetFramebuffer s2 = targetFramebuffer s ∧
            activeType s2 = Render) as (M2 & T2 & A2) by done.
    rewrite K2 in Hcol, Hd, Hst. clearbody s2. unfold clearsTaken.
    destruct (active (pendingClears s2)) eqn:Eact; injection H as <-; rewrite P2 in *.
    + split; [done|]. split; [done|]. split; [done|]. split; [done|]. split; [done|].
      split; [done|]. right. split; [by rewrite <- Hr|]. rewrite Eact.
      split; [done|]. by exists colors, depth, stencil.
    + split; [done|]. split; [done|]. split; [done|]. split; [done|]. split; [done|].
      split; [done|]. right. split; [by rewrite <- Hr|]. rewrite Eact.
      split; [done|]. by exists colors, depth, stencil.
Qed.

Lemma clearsTaken_spec pending :
  length (initialAction (clearsTaken pending)) = length (initialAction pending) ∧
  clearValues (clearsTaken pending) = clearValues pending ∧
  active (clearsTaken pending) = false.
Proof.
  unfold clearsTaken. destruct (active pending) eqn:E; simpl; [|done].
  by rewrite length_fmap.
Qed.

Lemma checkActiveRenderEncoder_invariant s s' :
  invariant s → checkActiveRenderEncoder s = Some s' →
  invariant s' ∧ activeType s' = Render ∧ only Render s' ∧ mtl s' = mtl s ∧
  targetFramebuffer s' = targetFramebuffer s ∧ active (pendingClears s') = false ∧
  length (initialAction (pendingClears s')) = length (initialAction (pendingClears s)) ∧
  clearValues (pendingClears s') = clearValues (pendingClears s) ∧
  extends s s'.
Proof.
  intros (Hc & Ht & Hs & Hp) H.
  destruct (checkActiveRenderEncoder_spec s s' (conj Hc Ht) H)
    as (fb & Hfb & He' & Ha' & Hon & Hm & Htg & Hact & Hcase).
  assert (length (initialAction (pendingClears s')) = length (initialAction (pendingClears s)) ∧
          clearValues (pendingClears s') = clearValues (pendingClears s) ∧ extends s s')
    as (L1 & L2 & Hex).
  { destruct Hcase as [(_ & -> & Htr) | (_ & -> & colors & depth & stencil & _ & _ & _ & Htr)].
    - split; [done|]. split; [done|]. by eexists.
    - destruct (clearsTaken_spec (pendingClears s)) as (? & ? & _).
      split; [done|]. split; [done|]. by eexists. }
  split; [|done].
  apply invariant_intro; [done| |].
  - intros fb' Hfb'. rewrite L1, L2. apply Hs. congruence.
  - intros Hx. congruence.
Qed.

Lemma checkActiveRenderEncoder_is_Some s :
  invariant s → mtl s = true → is_Some (targetFramebuffer s) →
  is_Some (checkActiveRenderEncoder s).
Proof.
  intros (Hc & Ht & Hs & Hp) Hm [fb Hfb]. rewrite checkActiveRenderEncoder_unfold, Hfb.
  cbn [mbind option_bind]. cbv zeta.
  destruct (renderPrologue_spec s (conj Hc Ht)) as (_ & _ & (K1 & K2 & K3) & _ & _).
  set (s1 := renderPrologue s) in *. clearbody s1.
  destruct (activeRenderEncoder s1); [by eexists|].
  destruct (Hs _ Hfb) as [L1 L2]. rewrite K2.
  destruct (passes_is_Some (pendingClears s) fb L1 L2) as ([c ->] & [d ->] & [st ->]).
  cbn [mbind option_bind]. rewrite option_guard_True by congruence.
  cbn [mbind option_bind].
  change (pendingClears (set_activeRenderEncoder true (emit (renderCommandEncoder c d st) s1)))
    with (pendingClears s1).
  rewrite K2. destruct (active (pendingClears s)); by eexists.
Qed.

Lemma handlePendingClears_spec s s' :
  invariant s → handlePendingClears s = Some s' →
  invariant s' ∧ active (pendingClears s') = false ∧ mtl s' = mtl s ∧
  targetFramebuffer s' = targetFramebuffer s ∧ extends s s' ∧
  (if active (pendingClears s)
   then activeType s' = Render ∧ (∀ k, encoderOpen k s' = false) ∧
        ∃ fb colors depth stencil sets,
          targetFramebuffer s = Some fb ∧
          colorPasses (pendingClears s) fb = Some colors ∧
          depthPass (pendingClears s) fb = Some depth ∧
          stencilPass (pendingClears s) fb = Some stencil ∧
          trace s' = trace s ++ renderPrologueCalls s ++
            [renderCommandEncoder colors depth stencil; useResources false sets;
             endEncoding Render]
   else s' = s).
Proof.
  intros Hinv H. unfold handlePendingClears in H.
  destruct (active (pendingClears s)) eqn:Eact.
  - apply bind_Some in H as (s1 & H1 & H). injection H as <-.
    pose proof (checkActiveRenderEncoder_invariant _ _ Hinv H1)
      as (Hinv1 & Ha1 & Hon1 & Hm1 & Ht1 & Hact1 & L1 & L2 & Hex1).
    destruct (checkActiveRenderEncoder_spec s s1 (invariant_encoded _ Hinv) H1)
      as (fb & Hfb & _ & _ & _ & _ & _ & _ & Hcase).
    destruct (endActive_fields Render s1) as (Ha & Ho & (M1 & M2 & M3)).
    pose proof (endActive_trace Render s1) as Htr.
    change (endActive Render s1) with (endActiveRenderEncoder s1) in *.
    destruct Hinv1 as (Hc1 & Htd1 & Hs1 & Hp1).
    split.
    { apply invariant_intro.
      - apply (endActive_encoded Render). by split.
      - apply (keeps_sized s1); [done|done].
      - apply (keeps_pendingTargeted s1); [done|done]. }
    split; [congruence|]. split; [congruence|]. split; [congruence|].
    split.
    { eapply extends_trans; [exact Hex1|]. eexists. exact Htr. }
    split; [congruence|]. split.
    { intros k. rewrite Ho. case_decide; [done|]. rewrite Hon1.
      by apply bool_decide_eq_false_2. }
    destruct Hcase
      as [(Hx & _) | (_ & _ & colors & depth & stencil & Hcol & Hd & Hst & Htr1)].
    { rewrite Eact, andb_false_r in Hx. done. }
    exists fb, colors, depth, stencil, (currentEncoderDescriptorSets s1).
    split; [done|]. split; [done|]. split; [done|]. split; [done|].
    assert (activeRenderEncoder s1 = true) as Hr1 by exact (Hon1 Render).
    rewrite Htr, Htr1. unfold closingCalls. simpl. rewrite Hr1.
    by rewrite <- !app_assoc.
  - injection H as <-. split; [done|]. split; [done|]. split; [done|]. split; [done|].
    split; [apply extends_refl|done].
Qed.

Lemma handlePendingClears_is_Some s :
  invariant s → mtl s = true → is_Some (handlePendingClears s).
Proof.
  intros Hinv Hm. unfold handlePendingClears.
  destruct (active (pendingClears s)) eqn:Eact; [|by eexists].
  destruct (checkActiveRenderEncoder_is_Some s Hinv Hm) as [s1 ->]; [|by eexists].
  destruct Hinv as (_ & _ & _ & Hp). by apply Hp.
Qed.

(** ** State-setting operations are quiet *)

Ltac option_inv H :=
  repeat match type of H with
  | (_ ≫= _) = Some _ =>
      let x := fresh "x" in let E := fresh "E" in apply bind_Some in H as (x & E & H)
  | Some _ = Some _ => injection H as <-
  | None = Some _ => discriminate H
  | (if ?c then _ else _) = Some _ => destruct c eqn:?
  | match ?c with _ => _ end = Some _ => destruct c eqn:?
  end.

Lemma setPipeline_quiet p s s' : setPipeline p s = Some s' → quiet s s'.
Proof. unfold setPipeline. intros H. option_inv H; quiet_tac. Qed.

Lemma setComputePipelineLayout_quiet l s s' :
  setComputePipelineLayout l s = Some s' → quiet s s'.
Proof. unfold setComputePipelineLayout. intros H. option_inv H; quiet_tac. Qed.

Lemma setGraphicsPipelineLayout_quiet l s s' :
  setGraphicsPipelineLayout l s = Some s' → quiet s s'.
Proof. unfold setGraphicsPipelineLayout. intros H. option_inv H; quiet_tac. Qed.

Lemma storePushConstants_quiet l i d o n s s' :
  storePushConstants l i d o n s = Some s' → quiet s s'.
Proof. unfold storePushConstants. intros H. option_inv H; quiet_tac. Qed.

Lemma setComputePushConstants_quiet i d o n s s' :
  setComputePushConstants i d o n s = Some s' → quiet s s'.
Proof.
  unfold setComputePushConstants. intros H. apply bind_Some in H as (s1 & H1 & H).
  apply storePushConstants_quiet in H1. injection H as <-.
  eapply quiet_trans; [exact H1|]. clear H1. quiet_tac.
Qed.

Lemma setGraphicsPushConstants_quiet i d o n s s' :
  setGraphicsPushConstants i d o n s = Some s' → quiet s s'.
Proof.
  unfold setGraphicsPushConstants. intros H. apply bind_Some in H as (s1 & H1 & H).
  apply storePushConstants_quiet in H1. injection H as <-.
  eapply quiet_trans; [exact H1|]. clear H1. quiet_tac.
Qed.

Lemma setComputeDescriptorSet_quiet d i s s' :
  setComputeDescriptorSet d i s = Some s' → quiet s s'.
Proof. unfold setComputeDescriptorSet. intros H. option_inv H; quiet_tac. Qed.

Lemma setGraphicsDescriptorSet_quiet d i s s' :
  setGraphicsDescriptorSet d i s = Some s' → quiet s s'.
Proof. unfold setGraphicsDescriptorSet. intros H. option_inv H; quiet_tac. Qed.

Lemma setIndexBuffer_quiet v s s' : setIndexBuffer v s = Some s' → quiet s s'.
Proof. unfold setIndexBuffer. intros H. option_inv H; quiet_tac. Qed.

Lemma storeVertexBuffer_quiet start s iv : quiet s (storeVertexBuffer start s iv).
Proof. unfold storeVertexBuffer. destruct (ref iv.2); quiet_tac. Qed.

Lemma setVertexBuffers_quiet {I} start views n (slots : option (list I)) s s' :
  setVertexBuffers start views n slots s = Some s' → quiet s s'.
Proof.
  unfold setVertexBuffers. intros H. destruct views as [vs|]; [|injection H as <-; quiet_tac].
  case_decide; [|injection H as <-; quiet_tac].
  do 3 (apply bind_Some in H as (? & _ & H)). injection H as <-.
  apply quiet_fold_left. intros. apply storeVertexBuffer_quiet.
Qed.

Lemma setViewportsOp_quiet v n s s' : setViewportsOp v n s = Some s' → quiet s s'.
Proof. unfold setViewportsOp. intros H. option_inv H; quiet_tac. Qed.

Lemma setScissors_quiet r n s s' : setScissors r n s = Some s' → quiet s s'.
Proof. unfold setScissors. intros H. option_inv H; quiet_tac. Qed.

Lemma setDepthBiasOp_quiet a b c s s' : setDepthBiasOp a b c s = Some s' → quiet s s'.
Proof. unfold setDepthBiasOp. intros H. option_inv H; quiet_tac. Qed.

Lemma clearQuadsOp_quiet kind rects n s s' : clearQuadsOp kind rects n s = Some s' → quiet s s'.
Proof. unfold clearQuadsOp. intros H. option_inv H; quiet_tac. Qed.

(** ** Prologues shared by several operations *)

Lemma closed_retype type s :
  encoded s → (∀ k, encoderOpen k s = false) → encoded (set_activeType type s).
Proof.
  intros [Hc Ht] Hclosed. split.
  - intros k Hk. change (encoderOpen k s = true) in Hk. by rewrite Hclosed in Hk.
  - exact Ht.
Qed.

Lemma renderReset_spec s s' :
  invariant s → renderReset s = Some s' →
  invariant s' ∧ activeType s' = Render ∧ (∀ k, encoderOpen k s' = false) ∧
  active (pendingClears s') = false ∧ mtl s' = mtl s ∧
  targetFramebuffer s' = targetFramebuffer s ∧ extends s s'.
Proof.
  intros (Hc & Ht & Hs & Hp) H. unfold renderReset in H. cbv zeta in H.
  destruct (endOtherEncoders_spec Render s (conj Hc Ht)) as (He1 & Ha1 & K1 & Ho1 & Htr1).
  set (s1 := endOtherEncoders Render s) in *. clearbody s1.
  destruct (endActive_fields Render s1) as (Ha2 & Ho2 & K2).
  pose proof (endActive_encoded Render s1 He1) as He2.
  pose proof (endActive_trace Render s1) as Htr2.
  change (endActive Render s1) with (endActiveRenderEncoder s1) in *.
  set (s2 := endActiveRenderEncoder s1) in *. clearbody s2.
  assert (∀ k, encoderOpen k s2 = false) as Hclosed2.
  { intros k. rewrite Ho2. destruct (decide (k = Render)) as [|Hk]; [done|].
    rewrite Ho1. by rewrite decide_False. }
  pose proof (keeps_trans _ _ _ K1 K2) as K12.
  assert (invariant s2) as Hinv2.
  { apply invariant_intro; [done|by apply (keeps_sized s)|by apply (keeps_pendingTargeted s)]. }
  apply bind_Some in H as (s3 & H3 & H). injection H as <-.
  destruct (handlePendingClears_spec _ _ Hinv2 H3) as (Hinv3 & Hact3 & Hm3 & Ht3 & Hex3 & Hcase).
  assert (∀ k, encoderOpen k s3 = false) as Hclosed3.
  { destruct (active (pendingClears s2)); [by destruct Hcase as (_ & ? & _)|by subst]. }
  destruct K12 as (M1 & M2 & M3). destruct Hinv3 as (Hc3 & Htd3 & Hs3 & Hp3).
  split.
  { apply invariant_intro; [by apply closed_retype|exact Hs3|exact Hp3]. }
  split; [done|]. split; [exact Hclosed3|]. split; [exact Hact3|].
  split; [cbn; congruence|]. split; [cbn; congruence|].
  eapply extends_trans; [|exact Hex3].
  eapply extends_trans; eexists; eassumption.
Qed.

Lemma closingOthers_closed type s :
  (∀ k, k ≠ type → encoderOpen k s = false) → closingOthers type s = [].
Proof.
  intros H. unfold closingOthers. case_decide; [done|].
  unfold closingCalls. by rewrite H.
Qed.

Lemma blitPrologue_spec s s' :
  encoded s → blitPrologue s = Some s' →
  encoded s' ∧ activeType s' = Blit ∧ only Blit s' ∧ keeps s s' ∧
  trace s' = trace s ++ closingOthers Blit s ++
             (if activeBlitEncoder s then [] else [blitCommandEncoder]).
Proof.
  intros He H. unfold blitPrologue in H. cbv zeta in H.
  destruct (endOtherEncoders_spec Blit s He) as (He1 & Ha1 & K1 & Ho1 & Htr1).
  fold (closingOthers Blit s) in Htr1.
  set (s1 := endOtherEncoders Blit s) in *. clearbody s1.
  apply bind_Some in H as (s2 & H2 & H). injection H as <-.
  destruct (checkActiveBlitEncoder_spec _ _ He1 H2) as ([Hc2 Ht2] & Ha2 & Hon2 & K2 & Htr2).
  rewrite closingOthers_closed in Htr2
    by (intros k Hk; rewrite Ho1; by rewrite decide_False).
  pose proof (Ho1 Blit) as Hb. simpl in Hb. rewrite Hb in Htr2.
  split; [split|].
  - intros k Hk. change (encoderOpen k s2 = true) in Hk. rewrite Hon2 in Hk.
    apply bool_decide_eq_true in Hk. by subst.
  - exact Ht2.
  - split; [done|]. split; [exact Hon2|]. split; [exact (keeps_trans _ _ _ K1 K2)|].
    change (trace s2 = trace s ++ closingOthers Blit s ++
              (if activeBlitEncoder s then [] else [blitCommandEncoder])).
    rewrite Htr2, Htr1. by rewrite <- app_assoc.
Qed.

(** ** Every recording operation keeps the invariant *)

Lemma invariant_new : invariant newMetalCommandList.
Proof.
  split; [|split; [|split]].
  - by intros [].
  - reflexivity.
  - by intros fb.
  - by intros ?.
Qed.

Lemma quiet_trace s s' :
  quiet s s' → ∃ t, trace s' = trace s ++ t ∧ Forall (λ c, quietCall c = true) t.
Proof. by intros (_ & _ & _ & _ & H). Qed.

Lemma begin_quiet s s' : begin s = Some s' → quiet s s'.
Proof. unfold begin. intros H. option_inv H; quiet_tac. Qed.

Lemma commit_quiet s s' : commit s = Some s' → quiet s s'.
Proof. unfold commit. intros H. option_inv H; quiet_tac. Qed.

Lemma endActive_invariant k s : invariant s → invariant (endActive k s).
Proof.
  intros (Hc & Ht & Hs & Hp). destruct (endActive_fields k s) as (_ & _ & K).
  apply invariant_intro.
  - by apply endActive_encoded.
  - by apply (keeps_sized s).
  - by apply (keeps_pendingTargeted s).
Qed.

Lemma end_invariant s s' :
  invariant s → end_ s = Some s' →
  invariant s' ∧ (∀ k, encoderOpen k s' = false) ∧ active (pendingClears s') = false.
Proof.
  intros Hinv H. unfold end_ in H. cbv zeta in H.
  pose proof (endActive_invariant Render s Hinv) as Hinv1.
  destruct (endActive_fields Render s) as (_ & Ho1 & _).
  change (endActive Render s) with (endActiveRenderEncoder s) in *.
  set (s1 := endActiveRenderEncoder s) in *. clearbody s1.
  apply bind_Some in H as (s2 & H2 & H). injection H as <-.
  destruct (handlePendingClears_spec _ _ Hinv1 H2) as (Hinv2 & Hact2 & _ & _ & _ & Hcase).
  assert (encoderOpen Render s2 = false) as Hr2.
  { destruct (active (pendingClears s1)).
    - destruct Hcase as (_ & Hcl & _). apply Hcl.
    - subst s2. rewrite Ho1. by rewrite decide_True. }
  clear Hcase H2.
  pose proof (endActive_invariant Resolve s2 Hinv2) as Hinv3.
  destruct (endActive_fields Resolve s2) as (_ & Ho3 & (_ & K3 & _)).
  change (endActive Resolve s2) with (endActiveResolveTextureComputeEncoder s2) in *.
  set (s3 := endActiveResolveTextureComputeEncoder s2) in *. clearbody s3.
  pose proof (endActive_invariant Blit s3 Hinv3) as Hinv4.
  destruct (endActive_fields Blit s3) as (_ & Ho4 & (_ & K4 & _)).
  change (endActive Blit s3) with (endActiveBlitEncoder s3) in *.
  set (s4 := endActiveBlitEncoder s3) in *. clearbody s4.
  pose proof (endActive_invariant Compute s4 Hinv4) as Hinv5.
  destruct (endActive_fields Compute s4) as (_ & Ho5 & (_ & K5 & _)).
  change (endActive Compute s4) with (endActiveComputeEncoder s4) in *.
  set (s5 := endActiveComputeEncoder s4) in *. clearbody s5.
  assert (∀ k, encoderOpen k s5 = false) as Hclosed.
  { intros k. rewrite Ho5. destruct (decide (k = Compute)); [done|].
    rewrite Ho4. destruct (decide (k = Blit)); [done|].
    rewrite Ho3. destruct (decide (k = Resolve)); [done|].
    destruct k; try done. }
  assert (active (pendingClears s5) = false) as Hact5 by congruence.
  destruct Hinv5 as (Hc5 & Ht5 & _ & _).
  split; [|split].
  - split; [|split; [|split]].
    + exact Hc5.
    + exact Ht5.
    + by intros fb.
    + intros Hx. cbn in Hx. congruence.
  - exact Hclosed.
  - exact Hact5.
Qed.

Lemma barriers_invariant {B T} (bb : option (list B)) bc (tb : option (list T)) tc s s' :
  invariant s → barriers bb bc tb tc s = Some s' → invariant s'.
Proof.
  intros Hinv H. unfold barriers in H. cbv zeta in H.
  apply bind_Some in H as (_ & _ & H). apply bind_Some in H as (_ & _ & H).
  case_decide; [by injection H as <-|].
  pose proof (endActive_invariant Render s Hinv) as Hinv1.
  by destruct (handlePendingClears_spec _ _ Hinv1 H).
Qed.

Lemma dispatch_spec x y z s s' :
  invariant s → dispatch x y z s = Some s' →
  invariant s' ∧ only Compute s' ∧
  ∃ t, trace s' = trace s ++ closingOthers Compute s ++
                  (if activeComputeEncoder s then [] else [computeCommandEncoder]) ++ t ∧
       Forall (λ c, quietCall c = true) t.
Proof.
  intros (Hc & Ht & Hs & Hp) H. unfold dispatch in H.
  apply bind_Some in H as (s1 & H1 & H). apply bind_Some in H as (_ & _ & H).
  apply bind_Some in H as (st & _ & H). injection H as <-.
  destruct (checkActiveComputeEncoder_spec _ _ (conj Hc Ht) H1)
    as (He1 & Ha1 & Hon1 & Hp1 & Hf1 & t & Htr & Hq).
  assert (invariant s1) as Hinv1.
  { apply invariant_intro; [done| |].
    - intros fb Hfb. rewrite Hp1. apply Hs. congruence.
    - unfold pendingTargeted. by rewrite Hp1, Hf1. }
  set (ev := dispatchThreadgroups _ _ _ _ _ _).
  assert (quiet s1 (emit ev s1)) as Hq1 by by apply quiet_emit.
  split; [by apply (quiet_invariant s1)|]. split; [by apply (quiet_only _ s1)|].
  exists (t ++ [ev]). split.
  - change (trace s1 ++ [ev] = trace s ++ closingOthers Compute s ++
      (if activeComputeEncoder s then [] else [computeCommandEncoder]) ++ t ++ [ev]).
    rewrite Htr. by rewrite <- !app_assoc.
  - apply Forall_app. split; [done|]. by repeat constructor.
Qed.

Lemma render_quiet_spec s s1 s' :
  invariant s → checkActiveRenderEncoder s = Some s1 → quiet s1 s' →
  invariant s' ∧ activeType s' = Render ∧ only Render s' ∧
  active (pendingClears s') = false ∧ targetFramebuffer s' = targetFramebuffer s ∧
  ∃ o t, renderOpening s o ∧ trace s' = trace s ++ renderPrologueCalls s ++ o ++ t ∧
         Forall (λ c, quietCall c = true) t.
Proof.
  intros Hinv H1 Hq.
  destruct (checkActiveRenderEncoder_invariant _ _ Hinv H1)
    as (Hinv1 & Ha1 & Hon1 & _ & Hf1 & Hact1 & _).
  destruct (checkActiveRenderEncoder_spec _ _ (invariant_encoded _ Hinv) H1)
    as (fb & Hfb & _ & _ & _ & _ & _ & _ & Hcase).
  pose proof Hq as (Q1 & _ & Q3 & Q4 & t & Htr & Hall).
  split; [by apply (quiet_invariant s1)|]. split; [congruence|].
  split; [by apply (quiet_only _ s1)|]. split; [congruence|]. split; [congruence|].
  unfold renderOpening.
  destruct Hcase
    as [(Hb & _ & Htr1) | (Hb & _ & colors & depth & stencil & Hcol & Hd & Hst & Htr1)];
    rewrite Hb.
  - exists [], t. split; [done|]. split; [|done]. rewrite Htr, Htr1. by rewrite <- !app_assoc.
  - exists [renderCommandEncoder colors depth stencil], t. split; [by eauto 12|].
    split; [|done]. rewrite Htr, Htr1. by rewrite <- !app_assoc.
Qed.

Lemma drawInstanced_quiet a b c d s s1 s' :
  checkActiveRenderEncoder s = Some s1 →
  drawInstanced a b c d s = Some s' → quiet s1 s'.
Proof.
  intros H1 H. unfold drawInstanced in H. rewrite H1 in H. cbn [mbind option_bind] in H.
  apply bind_Some in H as (s2 & H2 & H). apply bind_Some in H as (st & _ & H).
  injection H as <-. apply checkForUpdatesInGraphicsState_quiet in H2.
  eapply quiet_trans; [exact H2|]. by apply quiet_emit.
Qed.

Lemma drawIndexedInstanced_quiet a b c d e s s1 s' :
  checkActiveRenderEncoder s = Some s1 →
  drawIndexedInstanced a b c d e s = Some s' → quiet s1 s'.
Proof.
  intros H1 H. unfold drawIndexedInstanced in H. rewrite H1 in H.
  cbn [mbind option_bind] in H.
  apply bind_Some in H as (s2 & H2 & H).
  injection H as <-. apply checkForUpdatesInGraphicsState_quiet in H2.
  eapply quiet_trans; [exact H2|]. by apply quiet_emit.
Qed.

Lemma draw_checks c s s' :
  requiredEncoder c = Some Render → record c s = Some s' →
  ∃ s1, checkActiveRenderEncoder s = Some s1 ∧ quiet s1 s'.
Proof.
  intros Hk H. destruct c; try discriminate Hk; simpl in H.
  - destruct (checkActiveRenderEncoder s) as [s1|] eqn:E1; [|by unfold drawInstanced in H; rewrite E1 in H].
    exists s1. split; [done|]. by eapply drawInstanced_quiet.
  - destruct (checkActiveRenderEncoder s) as [s1|] eqn:E1;
      [|by unfold drawIndexedInstanced in H; rewrite E1 in H].
    exists s1. split; [done|]. by eapply drawIndexedInstanced_quiet.
Qed.

Lemma setFramebuffer_unfold fb s :
  setFramebuffer fb s =
    s ← renderReset s;
    match fb with
    | Some interfaceFramebuffer =>
        let s := set_targetFramebuffer (Some interfaceFramebuffer) s in
        let s := set_dirtyGraphicsState graphicsSetAll s in
        let totalAttachments := length (colorAttachments interfaceFramebuffer) + 2 in
        Some (set_pendingClears
                {| initialAction := replicate totalAttachments LoadActionLoad;
                   clearValues := replicate totalAttachments defaultClearValue;
                   active := false |} s)
    | None => Some (set_targetFramebuffer None s)
    end.
Proof.
  unfold setFramebuffer, renderReset. cbv zeta.
  by destruct (handlePendingClears _).
Qed.

Lemma setFramebuffer_spec fb s s' :
  invariant s → setFramebuffer fb s = Some s' →
  invariant s' ∧ (∀ k, encoderOpen k s' = false) ∧ active (pendingClears s') = false ∧
  targetFramebuffer s' = fb ∧ mtl s' = mtl s ∧ extends s s'.
Proof.
  intros Hinv H. rewrite setFramebuffer_unfold in H.
  apply bind_Some in H as (s1 & H1 & H).
  destruct (renderReset_spec _ _ Hinv H1)
    as ((Hc1 & Ht1 & _ & _) & _ & Hcl1 & Hact1 & Hm1 & _ & Hex1).
  destruct fb as [f|]; cbv zeta in H; injection H as <-.
  - split; [|done]. split; [exact Hc1|]. split; [exact Ht1|]. split.
    + intros fb' Hfb'. cbn in Hfb'. injection Hfb' as ->. cbn.
      by rewrite !length_replicate.
    + by intros Hx.
  - split; [|done]. split; [exact Hc1|]. split; [exact Ht1|]. split.
    + by intros fb'.
    + intros Hx. cbn in Hx. congruence.
Qed.

Lemma clearColor_invariant i color rects n s s' :
  invariant s → clearColor i color rects n s = Some s' → invariant s'.
Proof.
  intros Hinv H. unfold clearColor in H.
  apply bind_Some in H as (fb & Hfb & H).
  apply bind_Some in H as (_ & _ & H). apply bind_Some in H as (_ & _ & H).
  case_decide.
  - apply bind_Some in H as (_ & _ & H). apply bind_Some in H as (_ & _ & H).
    injection H as <-. destruct Hinv as (Hc & Ht & Hs & Hp).
    split; [exact Hc|]. split; [exact Ht|]. split.
    + intros fb' Hfb'. cbn. rewrite !length_insert. by apply Hs.
    + intros _. change (is_Some (targetFramebuffer s)). by rewrite Hfb.
  - apply bind_Some in H as (s1 & H1 & H).
    apply bind_Some in H as (? & _ & H). apply bind_Some in H as (? & _ & H).
    apply bind_Some in H as (? & _ & H). apply clearQuadsOp_quiet in H.
    by destruct (render_quiet_spec _ _ _ Hinv H1 H).
Qed.

Lemma clearDepthStencil_invariant d st dv sv rects n s s' :
  invariant s → clearDepthStencil d st dv sv rects n s = Some s' → invariant s'.
Proof.
  intros Hinv H. unfold clearDepthStencil in H.
  apply bind_Some in H as (fb & Hfb & H).
  apply bind_Some in H as (_ & _ & H). apply bind_Some in H as (_ & _ & H).
  destruct (d || st); [|by injection H as <-].
  case_decide.
  - cbv zeta in H. apply bind_Some in H as (p1 & Hp1 & H).
    apply bind_Some in H as (p2 & Hp2 & H). injection H as <-.
    destruct Hinv as (Hc & Ht & Hs & Hp).
    assert (length (initialAction p1) = length (initialAction (pendingClears s)) ∧
            length (clearValues p1) = length (clearValues (pendingClears s))) as [L1 L2].
    { destruct d; [|by injection Hp1 as <-].
      apply bind_Some in Hp1 as (_ & _ & Hp1). apply bind_Some in Hp1 as (_ & _ & Hp1).
      injection Hp1 as <-. cbn. by rewrite !length_insert. }
    assert (length (initialAction p2) = length (initialAction p1) ∧
            length (clearValues p2) = length (clearValues p1)) as [L3 L4].
    { destruct st; [|by injection Hp2 as <-].
      apply bind_Some in Hp2 as (_ & _ & Hp2). apply bind_Some in Hp2 as (_ & _ & Hp2).
      injection Hp2 as <-. cbn. by rewrite !length_insert. }
    split; [exact Hc|]. split; [exact Ht|]. split.
    + intros fb' Hfb'. cbn. rewrite L3, L4, L1, L2. by apply Hs.
    + intros _. change (is_Some (targetFramebuffer s)). by rewrite Hfb.
  - apply bind_Some in H as (s1 & H1 & H).
    apply bind_Some in H as (? & _ & H). apply bind_Some in H as (? & _ & H).
    apply clearQuadsOp_quiet in H.
    by destruct (render_quiet_spec _ _ _ Hinv H1 H).
Qed.

Lemma blit_emit_spec s s1 ev :
  invariant s → blitPrologue s = Some s1 → quietCall ev = true →
  invariant (emit ev s1) ∧ only Blit (emit ev s1) ∧
  trace (emit ev s1) = trace s ++ closingOthers Blit s ++
    (if activeBlitEncoder s then [] else [blitCommandEncoder]) ++ [ev].
Proof.
  intros (Hc & Ht & Hs & Hp) H1 Hev.
  destruct (blitPrologue_spec _ _ (conj Hc Ht) H1) as (He1 & _ & Hon1 & K1 & Htr1).
  assert (invariant s1) as Hinv1.
  { apply invariant_intro; [done|by apply (keeps_sized s)|by apply (keeps_pendingTargeted s)]. }
  pose proof (quiet_emit ev s1 Hev) as Hq.
  split; [by apply (quiet_invariant s1)|]. split; [by apply (quiet_only _ s1)|].
  change (trace s1 ++ [ev] = trace s ++ closingOthers Blit s ++
    (if activeBlitEncoder s then [] else [blitCommandEncoder]) ++ [ev]).
  rewrite Htr1. by rewrite <- !app_assoc.
Qed.

Ltac copy_done s1 :=
  exists s1; eexists; split; [eassumption|]; split; [|reflexivity]; reflexivity.

Lemma copy_checks c s s' :
  requiredEncoder c = Some Blit → record c s = Some s' →
  ∃ s1 ev, blitPrologue s = Some s1 ∧ quietCall ev = true ∧ s' = emit ev s1.
Proof.
  intros Hk H. destruct c; try discriminate Hk; simpl in H.
  - unfold copyBufferRegion in H. apply bind_Some in H as (? & _ & H).
    apply bind_Some in H as (? & _ & H). apply bind_Some in H as (s1 & H1 & H).
    injection H as <-. copy_done s1.
  - unfold copyTextureRegion in H. apply bind_Some in H as (? & _ & H).
    apply bind_Some in H as (? & _ & H). apply bind_Some in H as (s1 & H1 & H).
    destruct (locationType dstLocation), (locationType srcLocation);
      apply bind_Some in H as (? & _ & H); apply bind_Some in H as (? & _ & H);
      injection H as <-; copy_done s1.
  - unfold copyBuffer in H. apply bind_Some in H as (? & _ & H).
    apply bind_Some in H as (? & _ & H). apply bind_Some in H as (s1 & H1 & H).
    injection H as <-. copy_done s1.
  - unfold copyTexture in H. apply bind_Some in H as (? & _ & H).
    apply bind_Some in H as (? & _ & H). apply bind_Some in H as (s1 & H1 & H).
    injection H as <-. copy_done s1.
Qed.

Lemma resolveTexture_invariant d sr s s' :
  invariant s → resolveTexture d sr s = Some s' → invariant s'.
Proof.
  intros Hinv H. unfold resolveTexture in H.
  apply bind_Some in H as (dst & _ & H). apply bind_Some in H as (src & _ & H).
  cbv zeta in H. apply bind_Some in H as (s3 & H3 & H).
  assert (renderReset s = Some (set_activeType Render s3)) as H1.
  { unfold renderReset. cbv zeta. by rewrite H3. }
  apply bind_Some in H as (_ & _ & H). injection H as <-.
  destruct (renderReset_spec _ _ Hinv H1) as ((Hc1 & Ht1 & Hs1 & Hp1) & _ & Hcl1 & _).
  set (s1 := set_activeType Render s3) in *. clearbody s1.
  split; [exact Hc1|]. split; [|split; [exact Hs1|exact Hp1]].
  unfold traced in *.
  change (replay None ((trace s1 ++ [resolvePassEncoder (textureMtl src) (textureMtl dst)]) ++
                         [endEncoding Render]) = Some (openEncoder s1)).
  rewrite <- app_assoc, replay_app, Ht1. rewrite (closed_openEncoder s1 Hcl1). reflexivity.
Qed.

Lemma resolveTextureRegion_invariant d x y sr r a s s' :
  invariant s → resolveTextureRegion d x y sr r a s = Some s' → invariant s'.
Proof.
  intros Hinv H. unfold resolveTextureRegion in H.
  apply bind_Some in H as (dst & Ed & H). apply bind_Some in H as (src & Es & H).
  apply bind_Some in H as (_ & _ & H). apply bind_Some in H as (_ & _ & H).
  cbv zeta in H. subst d sr.
  match type of H with (if ?c then _ else _) = _ => destruct c end;
    [by apply resolveTexture_invariant in H|].
  apply bind_Some in H as (s2 & H2 & H).
  destruct Hinv as (Hc & Ht & Hs & Hp).
  destruct (endOtherEncoders_spec Resolve s (conj Hc Ht)) as (He1 & _ & K1 & _).
  destruct (checkActiveResolveTextureComputeEncoder_spec _ _ He1 H2)
    as ([Hc2 Ht2] & Ha2 & Hon2 & K2 & _).
  pose proof (keeps_trans _ _ _ K1 K2) as K.
  assert (invariant (set_activeType Resolve s2)) as Hinv2.
  { split; [|split; [exact Ht2|split]].
    - intros k Hk. change (encoderOpen k s2 = true) in Hk. rewrite Hon2 in Hk.
      apply bool_decide_eq_true in Hk. by subst.
    - by apply (keeps_sized s).
    - by apply (keeps_pendingTargeted s). }
  set (s3 := set_activeType Resolve s2) in *. clearbody s3.
  destruct r; injection H as <-; (eapply quiet_invariant; [|exact Hinv2]);
    by apply quiet_emit.
Qed.

Theorem record_invariant c s s' : invariant s → record c s = Some s' → invariant s'.
Proof.
  intros Hinv H.
  destruct (requiredEncoder c) as [[]|] eqn:Hk.
  - destruct c; discriminate Hk.
  - destruct (draw_checks _ _ _ Hk H) as (s1 & H1 & Hq).
    by destruct (render_quiet_spec _ _ _ Hinv H1 Hq).
  - destruct c; try discriminate Hk. by destruct (dispatch_spec _ _ _ _ _ Hinv H).
  - destruct (copy_checks _ _ _ Hk H) as (s1 & ev & H1 & Hev & ->).
    by destruct (blit_emit_spec _ _ _ Hinv H1 Hev).
  - destruct c; discriminate Hk.
  - destruct c; try discriminate Hk; simpl in H.
    + eapply quiet_invariant; [by apply begin_quiet|done].
    + by destruct (end_invariant _ _ Hinv H).
    + eapply quiet_invariant; [by apply commit_quiet|done].
    + by eapply barriers_invariant.
    + eapply quiet_invariant; [by eapply setPipeline_quiet|done].
    + eapply quiet_invariant; [by eapply setComputePipelineLayout_quiet|done].
    + eapply quiet_invariant; [by eapply setComputePushConstants_quiet|done].
    + eapply quiet_invariant; [by eapply setComputeDescriptorSet_quiet|done].
    + eapply quiet_invariant; [by eapply setGraphicsPipelineLayout_quiet|done].
    + eapply quiet_invariant; [by eapply setGraphicsPushConstants_quiet|done].
    + eapply quiet_invariant; [by eapply setGraphicsDescriptorSet_quiet|done].
    + discriminate H.
    + eapply quiet_invariant; [by eapply setIndexBuffer_quiet|done].
    + eapply quiet_invariant; [by eapply setVertexBuffers_quiet|done].
    + eapply quiet_invariant; [by eapply setViewportsOp_quiet|done].
    + eapply quiet_invariant; [by eapply setScissors_quiet|done].
    + by destruct (setFramebuffer_spec _ _ _ Hinv H).
    + eapply quiet_invariant; [by eapply setDepthBiasOp_quiet|done].
    + by eapply clearColor_invariant.
    + by eapply clearDepthStencil_invariant.
    + by eapply resolveTexture_invariant.
    + by eapply resolveTextureRegion_invariant.
    + by injection H as <-.
Qed.

Lemma recordAll_from cs s s' :
  invariant s → recordAll cs s = Some s' → invariant s'.
Proof.
  revert s. induction cs as [|c cs IH]; intros s Hinv H; simpl in H.
  - by injection H as <-.
  - apply bind_Some in H as (s1 & H1 & H). eapply IH; [|exact H].
    by eapply record_invariant.
Qed.

Lemma recordAll_invariant cs s :
  recordAll cs newMetalCommandList = Some s → invariant s.
Proof. apply recordAll_from, invariant_new. Qed.

(** ** The render state across a draw, and when a draw succeeds *)

Lemma fold_left_renderState {A} (f : MetalCommandList → A → MetalCommandList) l s :
  (∀ s x, activeRenderState (f s x) = activeRenderState s) →
  activeRenderState (fold_left f l s) = activeRenderState s.
Proof.
  intros H. revert s. induction l as [|x l IH]; intros s; simpl; [done|].
  by rewrite IH, H.
Qed.

Lemma endActive_renderState k s :
  activeRenderState (endActive k s) = activeRenderState s.
Proof.
  destruct k; simpl; [done|..].
  - unfold endActiveRenderEncoder. by destruct (activeRenderEncoder s).
  - unfold endActiveComputeEncoder. by destruct (activeComputeEncoder s).
  - unfold endActiveBlitEncoder. by destruct (activeBlitEncoder s).
  - unfold endActiveResolveTextureComputeEncoder. by destruct (activeResolveComputeEncoder s).
Qed.

Lemma endOtherEncoders_renderState type s :
  activeRenderState (endOtherEncoders type s) = activeRenderState s.
Proof.
  rewrite endOtherEncoders_endActive. destruct (decide (activeType s = type)); [done|].
  apply endActive_renderState.
Qed.

Lemma renderPrologue_renderState s :
  activeRenderState (renderPrologue s) = activeRenderState s.
Proof.
  unfold renderPrologue. cbv zeta.
  change (activeRenderState
            (if active (pendingClears (endOtherEncoders Render s))
             then endActive Render (endOtherEncoders Render s)
             else endOtherEncoders Render s) = activeRenderState s).
  destruct (active _); rewrite ?endActive_renderState; apply endOtherEncoders_renderState.
Qed.

Lemma checkActiveRenderEncoder_renderState s s' :
  checkActiveRenderEncoder s = Some s' → activeRenderState s' = activeRenderState s.
Proof.
  rewrite checkActiveRenderEncoder_unfold. intros H.
  apply bind_Some in H as (fb & _ & H). cbv zeta in H.
  pose proof (renderPrologue_renderState s) as R.
  set (s1 := renderPrologue s) in *. clearbody s1.
  destruct (activeRenderEncoder s1); [by injection H as <-|].
  apply bind_Some in H as (colors & _ & H). apply bind_Some in H as (depth & _ & H).
  apply bind_Some in H as (stencil & _ & H). apply bind_Some in H as (_ & _ & H).
  match type of H with (if ?c then _ else _) = _ => destruct c end;
    by injection H as <-.
Qed.

Lemma bindDescriptorSets_renderState layout sets isCompute start s :
  activeRenderState (bindDescriptorSets layout sets isCompute start s) = activeRenderState s.
Proof.
  unfold bindDescriptorSets. apply fold_left_renderState. intros s0 i.
  case_decide; [done|]. by destruct (sets !! i) as [[|]|].
Qed.

Lemma checkForUpdatesInGraphicsState_renderState s s' :
  checkForUpdatesInGraphicsState s = Some s' → activeRenderState s' = activeRenderState s.
Proof.
  unfold checkForUpdatesInGraphicsState. cbv zeta. intros H.
  assert (activeRenderState (flushPipelineState s) = activeRenderState s) as R1.
  { unfold flushPipelineState. destruct (gPipelineState _); [|done].
    by destruct (activeRenderState s) eqn:E. }
  set (s1 := flushPipelineState s) in *. clearbody s1.
  match type of H with (if ?c then _ else _) = _ => destruct c end;
    [by injection H as <-|].
  assert (activeRenderState (flushViewports s1) = activeRenderState s) as R2.
  { unfold flushViewports. by destruct (gViewports _). }
  set (s2 := flushViewports s1) in *. clearbody s2.
  apply bind_Some in H as (s3 & H3 & H).
  assert (activeRenderState s3 = activeRenderState s) as R3.
  { unfold flushDepthBias in H3. destruct (gDepthBias _); [|by injection H3 as <-].
    apply bind_Some in H3 as (st & _ & H3). injection H3 as <-.
    by destruct (dynamicDepthBiasEnabled st). }
  clear H3.
  match type of H with (if ?c then _ else _) = _ => destruct c end;
    [by injection H as <-|].
  injection H as <-.
  assert (activeRenderState (flushScissors s3) = activeRenderState s) as R4.
  { unfold flushScissors. by destruct (gScissors _). }
  set (s4 := flushScissors s3) in *. clearbody s4.
  assert (activeRenderState (flushVertexBuffers s4) = activeRenderState s) as R5.
  { unfold flushVertexBuffers. destruct (negb _); [|done]. cbv zeta.
    change (activeRenderState
              (bindVertexBuffers (dirtySlots (vertexBufferSlots (dirtyGraphicsState s4))) s4)
            = activeRenderState s).
    unfold bindVertexBuffers. by rewrite fold_left_renderState. }
  set (s5 := flushVertexBuffers s4) in *. clearbody s5.
  assert (activeRenderState (flushDescriptorSets s5) = activeRenderState s) as R6.
  { unfold flushDescriptorSets. destruct (gDescriptorSets _); [|done]. cbv zeta.
    destruct (activeGraphicsPipelineLayout s5) as [l|]; [|done].
    change (activeRenderState
              (bindDescriptorSets l (renderDescriptorSets s5) false
                 (gDescriptorSetDirtyIndex (dirtyGraphicsState s5)) s5) = activeRenderState s).
    by rewrite bindDescriptorSets_renderState. }
  set (s6 := flushDescriptorSets s5) in *. clearbody s6.
  unfold flushPushConstants. destruct (gPushConstants _); [|done]. cbv zeta.
  change (activeRenderState (bindGraphicsPushConstants s6) = activeRenderState s).
  unfold bindGraphicsPushConstants. rewrite fold_left_renderState; [done|].
  intros s0 x. cbv zeta. by destruct (stageVERTEX _), (stagePIXEL _).
Qed.

Lemma checkForUpdatesInGraphicsState_is_Some s :
  is_Some (activeRenderState s) → is_Some (checkForUpdatesInGraphicsState s).
Proof.
  intros Hrs. unfold checkForUpdatesInGraphicsState. cbv zeta.
  assert (is_Some (activeRenderState (flushPipelineState s))) as R1.
  { unfold flushPipelineState. destruct (gPipelineState _); [|done].
    by destruct (activeRenderState s) eqn:E. }
  set (s1 := flushPipelineState s) in *. clearbody s1.
  match goal with |- is_Some (if ?c then _ else _) => destruct c end; [by eexists|].
  assert (is_Some (activeRenderState (flushViewports s1))) as R2.
  { unfold flushViewports. by destruct (gViewports _). }
  set (s2 := flushViewports s1) in *. clearbody s2.
  assert (is_Some (flushDepthBias s2)) as [s3 ->].
  { unfold flushDepthBias. destruct (gDepthBias _); [|by eexists].
    destruct R2 as [st ->]. by eexists. }
  cbn [mbind option_bind].
  match goal with |- is_Some (if ?c then _ else _) => destruct c end; by eexists.
Qed.

Lemma drawInstanced_is_Some vc ic sv si s :
  invariant s → mtl s = true → is_Some (targetFramebuffer s) → is_Some (activeRenderState s) →
  is_Some (drawInstanced vc ic sv si s).
Proof.
  intros Hinv Hm Hfb Hrs. unfold drawInstanced.
  destruct (checkActiveRenderEncoder_is_Some s Hinv Hm Hfb) as [s1 H1]. rewrite H1.
  cbn [mbind option_bind].
  pose proof (checkActiveRenderEncoder_renderState _ _ H1) as R1.
  destruct (checkForUpdatesInGraphicsState_is_Some s1) as [s2 H2]; [by rewrite R1|].
  rewrite H2. cbn [mbind option_bind].
  pose proof (checkForUpdatesInGraphicsState_renderState _ _ H2) as R2.
  rewrite R2, R1. destruct Hrs as [st ->]. by eexists.
Qed.

(** ** C1: one encoder at a time *)

Lemma consistent_openEncoders s : consistent s → length (openEncoders s) ≤ 1.
Proof.
  intros Hc. pose proof (Hc Render) as H1. pose proof (Hc Compute) as H2.
  pose proof (Hc Blit) as H3. pose proof (Hc Resolve) as H4.
  unfold openEncoders. simpl in *.
  destruct (activeRenderEncoder s), (activeComputeEncoder s), (activeBlitEncoder s),
    (activeResolveComputeEncoder s); simpl; try lia;
    repeat match goal with H : true = true → _ |- _ => specialize (H eq_refl) end;
    congruence.
Qed.

Lemma only_openEncoders k s : k ≠ NoEncoder → only k s → openEncoders s = [k].
Proof.
  intros Hk H. unfold openEncoders.
  pose proof (H Render) as H1. pose proof (H Compute) as H2.
  pose proof (H Blit) as H3. pose proof (H Resolve) as H4. simpl in *.
  rewrite H1, H2, H3, H4. destruct k; done.
Qed.

Lemma elem_openEncoders k s : k ∈ openEncoders s → encoderOpen k s = true.
Proof.
  intros H. unfold openEncoders in H.
  apply elem_of_app in H as [H|H].
  { destruct (activeRenderEncoder s) eqn:E; [|by apply elem_of_nil in H].
    by apply list_elem_of_singleton in H as ->. }
  apply elem_of_app in H as [H|H].
  { destruct (activeComputeEncoder s) eqn:E; [|by apply elem_of_nil in H].
    by apply list_elem_of_singleton in H as ->. }
  apply elem_of_app in H as [H|H].
  { destruct (activeBlitEncoder s) eqn:E; [|by apply elem_of_nil in H].
    by apply list_elem_of_singleton in H as ->. }
  destruct (activeResolveComputeEncoder s) eqn:E; [|by apply elem_of_nil in H].
  by apply list_elem_of_singleton in H as ->.
Qed.

Lemma closingCalls_open k s :
  encoderOpen k s = true →
  ∃ before, closingCalls k s = before ++ [endEncoding k] ∧
            Forall (λ c, quietCall c = true) before.
Proof.
  intros H. unfold closingCalls. rewrite H. destruct k.
  - discriminate H.
  - eexists [_]. split; [done|]. by repeat constructor.
  - eexists [_]. split; [done|]. by repeat constructor.
  - by exists [].
  - by exists [].
Qed.

Lemma closingOthers_open k k' s :
  consistent s → encoderOpen k' s = true → k' ≠ k →
  encoderOpen k s = false ∧
  ∃ before, closingOthers k s = before ++ [endEncoding k'] ∧
            Forall (λ c, quietCall c = true) before.
Proof.
  intros Hc Hk' Hne. pose proof (Hc _ Hk') as Ha. split.
  - destruct (encoderOpen k s) eqn:E; [|done]. apply Hc in E. congruence.
  - unfold closingOthers. rewrite Ha. rewrite decide_False by done.
    by apply closingCalls_open.
Qed.

(** What a command that records into an encoder of kind [k] appends
    when that encoder is not open. *)
Lemma required_spec c k s s' :
  invariant s → requiredEncoder c = Some k → record c s = Some s' →
  k ≠ NoEncoder ∧ only k s' ∧
  (encoderOpen k s = false →
   ∃ ev t, opens ev = Some k ∧ trace s' = trace s ++ closingOthers k s ++ ev :: t ∧
           Forall (λ c, quietCall c = true) t).
Proof.
  intros Hinv Hk H. destruct k.
  - destruct c; discriminate Hk.
  - destruct (draw_checks _ _ _ Hk H) as (s1 & H1 & Hq).
    destruct (render_quiet_spec _ _ _ Hinv H1 Hq)
      as (_ & _ & Hon & _ & _ & o & t & Ho & Htr & Hall).
    split; [done|]. split; [done|]. intros Hcl. simpl in Hcl.
    unfold renderOpening in Ho. rewrite Hcl in Ho. simpl in Ho.
    destruct Ho as (fb & colors & depth & stencil & _ & _ & _ & _ & ->).
    exists (renderCommandEncoder colors depth stencil), t.
    split; [done|]. split; [|done]. rewrite Htr. unfold renderPrologueCalls.
    destruct (endOtherEncoders_spec Render s (invariant_encoded _ Hinv))
      as (_ & _ & _ & Hoo & _).
    assert (closingCalls Render (endOtherEncoders Render s) = []) as ->.
    { unfold closingCalls. rewrite Hoo. rewrite decide_True by done. simpl.
      by rewrite Hcl. }
    destruct (active (pendingClears s)); by rewrite <- ?app_assoc, ?app_nil_r.
  - destruct c; try discriminate Hk. simpl in H.
    destruct (dispatch_spec _ _ _ _ _ Hinv H) as (_ & Hon & t & Htr & Hall).
    split; [done|]. split; [done|]. intros Hcl. simpl in Hcl. rewrite Hcl in Htr.
    by exists computeCommandEncoder, t.
  - destruct (copy_checks _ _ _ Hk H) as (s1 & ev & H1 & Hev & ->).
    destruct (blit_emit_spec _ _ _ Hinv H1 Hev) as (_ & Hon & Htr).
    split; [done|]. split; [done|]. intros Hcl. simpl in Hcl. rewrite Hcl in Htr.
    exists blitCommandEncoder, [ev]. split; [done|]. split; [done|]. by repeat constructor.
  - destruct c; discriminate Hk.
Qed.

(** C1: in every recording at most one of the four encoders is open,
    between commands and at every point of the native calls made; a
    command that records into an encoder of a kind other than the open
    one ends the open encoder and only then opens its own; a copy
    recorded while the render encoder is open ends the render encoder
    and then opens the blit encoder. *)
Theorem C1_one_encoder_open (cs : list Command) (s : MetalCommandList) :
  recordAll cs newMetalCommandList = Some s →
  length (openEncoders s) ≤ 1 ∧
  (∀ t1 t2, trace s = t1 ++ t2 → is_Some (replay None t1)) ∧
  (∀ c k s', requiredEncoder c = Some k → record c s = Some s' →
     openEncoders s' = [k] ∧
     ∀ k', k' ∈ openEncoders s → k' ≠ k →
       ∃ before ev after,
         trace s' = trace s ++ before ++ endEncoding k' :: ev :: after ∧
         Forall (λ c, quietCall c = true) before ∧ opens ev = Some k ∧
         Forall (λ c, quietCall c = true) after) ∧
  (∀ c s', requiredEncoder c = Some Blit → activeRenderEncoder s = true →
     record c s = Some s' →
     ∃ ev, quietCall ev = true ∧
       trace s' = trace s ++ [useResources false (currentEncoderDescriptorSets s);
                              endEncoding Render; blitCommandEncoder; ev]).
Proof.
  intros Hrec. pose proof (recordAll_invariant _ _ Hrec) as Hinv.
  pose proof Hinv as (Hc & Ht & _ & _).
  split; [by apply consistent_openEncoders|]. split.
  { intros t1 t2 E. unfold traced in Ht. rewrite E, replay_app in Ht.
    destruct (replay None t1); [by eexists|done]. }
  split.
  - intros c k s' Hk H.
    destruct (required_spec _ _ _ _ Hinv Hk H) as (Hne & Hon & Htr).
    split; [by apply only_openEncoders|]. intros k' Hin Hkk.
    apply elem_openEncoders in Hin.
    destruct (closingOthers_open k k' s Hc Hin Hkk) as (Hcl & before & Eb & Hq).
    destruct (Htr Hcl) as (ev & t & Hev & E & Hall).
    exists before, ev, t. split; [|done]. rewrite E, Eb. by rewrite <- !app_assoc.
  - intros c s' Hk Hr H.
    destruct (copy_checks _ _ _ Hk H) as (s1 & ev & H1 & Hev & ->).
    destruct (blit_emit_spec _ _ _ Hinv H1 Hev) as (_ & _ & Htr).
    exists ev. split; [done|]. rewrite Htr.
    pose proof (Hc Render Hr) as Ha.
    assert (activeBlitEncoder s = false) as ->.
    { destruct (activeBlitEncoder s) eqn:E; [|done].
      pose proof (Hc Blit E). congruence. }
    unfold closingOthers, closingCalls. rewrite Ha. simpl. by rewrite Hr.
Qed.

(** ** C2: a full clear is deferred to the next render pass *)

Lemma closingCalls_opens k s : Forall (λ c, opens c = None) (closingCalls k s).
Proof. unfold closingCalls. destruct (encoderOpen k s), k; by repeat constructor. Qed.

Lemma renderPrologueCalls_opens s : Forall (λ c, opens c = None) (renderPrologueCalls s).
Proof.
  unfold renderPrologueCalls, closingOthers. apply Forall_app. split.
  - destruct (decide (activeType s = Render)); [constructor|apply closingCalls_opens].
  - destruct (active _); [apply closingCalls_opens|constructor].
Qed.

Lemma clearColor_deferred idx color rects fb s :
  sized s → targetFramebuffer s = Some fb → idx < length (colorAttachments fb) →
  clearColor idx color rects 0 s =
    Some (set_pendingClears
            {| initialAction := <[idx := LoadActionClear]> (initialAction (pendingClears s));
               clearValues := <[idx := clearColorValue color]> (clearValues (pendingClears s));
               active := true |} s).
Proof.
  intros Hs Hfb Hidx. destruct (Hs fb Hfb) as [L1 L2].
  unfold clearColor. rewrite Hfb. cbn [mbind option_bind].
  rewrite option_guard_True by done. cbn [mbind option_bind].
  rewrite option_guard_True by (right; lia). cbn [mbind option_bind].
  rewrite decide_True by done.
  rewrite option_guard_True by lia. cbn [mbind option_bind].
  rewrite option_guard_True by lia. reflexivity.
Qed.

(** C2: in a recording with a framebuffer and a graphics pipeline set,
    [clearColor] without rectangles succeeds, makes no native call and
    leaves the encoders as they are, and stores load action Clear and
    the clear value at the attachment's index of the pending clears;
    the draw that follows succeeds and opens one render pass, whose
    color attachment at that index has load action Clear and that clear
    value; up to the draw itself no other pass is opened and the pass
    is not ended. *)
Theorem C2_deferred_clear (cs : list Command) (s : MetalCommandList)
    (fb : MetalFramebuffer) (state : MetalRenderState) (idx : nat) (color : RenderColor)
    (rects : option (list RenderRect)) (vc ic sv si : Z) :
  recordAll cs newMetalCommandList = Some s →
  mtl s = true → targetFramebuffer s = Some fb → activeRenderState s = Some state →
  idx < length (colorAttachments fb) →
  ∃ s1 s2,
    clearColor idx color rects 0 s = Some s1 ∧
    drawInstanced vc ic sv si s1 = Some s2 ∧
    trace s1 = trace s ∧ openEncoders s1 = openEncoders s ∧
    initialAction (pendingClears s1) !! idx = Some LoadActionClear ∧
    clearValues (pendingClears s1) !! idx = Some (clearColorValue color) ∧
    active (pendingClears s1) = true ∧
    ∃ closing colors depth stencil pass flushes,
      trace s2 = trace s1 ++ closing ++ [renderCommandEncoder colors depth stencil] ++
                 flushes ++ [drawPrimitives (primitiveType state) sv vc ic si] ∧
      Forall (λ c, opens c = None) closing ∧
      Forall (λ c, quietCall c = true) flushes ∧
      colors !! idx = Some pass ∧
      loadAction pass = LoadActionClear ∧ clearValue pass = clearColorValue color ∧
      openEncoders s2 = [Render] ∧ active (pendingClears s2) = false.
Proof.
  intros Hrec Hm Hfb Hrs Hidx.
  pose proof (recordAll_invariant _ _ Hrec) as Hinv.
  pose proof Hinv as (Hc & Ht & Hs & Hp). destruct (Hs fb Hfb) as [L1 L2].
  pose proof (clearColor_deferred idx color rects fb s Hs Hfb Hidx) as H1.
  pose proof (clearColor_invariant _ _ _ _ _ _ Hinv H1) as Hinv1.
  set (s1 := set_pendingClears _ s) in *.
  assert (mtl s1 = true ∧ targetFramebuffer s1 = Some fb ∧ activeRenderState s1 = Some state ∧
          trace s1 = trace s ∧ openEncoders s1 = openEncoders s ∧
          active (pendingClears s1) = true) as (Hm1 & Hfb1 & Hrs1 & Htr1 & Hoe1 & Hact1) by done.
  assert (initialAction (pendingClears s1) !! idx = Some LoadActionClear) as Hia.
  { apply list_lookup_insert_eq. lia. }
  assert (clearValues (pendingClears s1) !! idx = Some (clearColorValue color)) as Hcv.
  { apply list_lookup_insert_eq. lia. }
  clearbody s1.
  destruct (drawInstanced_is_Some vc ic sv si s1 Hinv1 Hm1) as [s2 H2];
    [by rewrite Hfb1|by rewrite Hrs1|].
  exists s1, s2. do 7 (split; [done|]).
  unfold drawInstanced in H2.
  apply bind_Some in H2 as (sa & Ha & H2). apply bind_Some in H2 as (sb & Hb & H2).
  apply bind_Some in H2 as (st & Hst & H2). injection H2 as <-.
  pose proof (checkActiveRenderEncoder_renderState _ _ Ha) as Ra.
  pose proof (checkForUpdatesInGraphicsState_renderState _ _ Hb) as Rb.
  assert (st = state) as -> by congruence.
  apply checkForUpdatesInGraphicsState_quiet in Hb.
  destruct (render_quiet_spec _ _ _ Hinv1 Ha Hb)
    as (_ & _ & Hon & Hactb & _ & o & t & Ho & Htr & Hall).
  unfold renderOpening in Ho. rewrite Hact1, andb_false_r in Ho.
  destruct Ho as (fb' & colors & depth & stencil & Hfb' & Hcol & _ & _ & ->).
  assert (fb' = fb) as -> by congruence.
  destruct (lookup_lt_is_Some_2 (colorAttachments fb) idx Hidx) as [a Hlook].
  destruct (colorPasses_lookup _ _ _ _ _ Hcol Hlook) as (action & value & E1 & E2 & E3).
  exists (renderPrologueCalls s1), colors, depth, stencil,
    {| passTexture := attachmentTexture a; loadAction := action; clearValue := value |}, t.
  split.
  { change (trace sb ++ [drawPrimitives (primitiveType state) sv vc ic si] =
            trace s1 ++ renderPrologueCalls s1 ++ [renderCommandEncoder colors depth stencil] ++
              t ++ [drawPrimitives (primitiveType state) sv vc ic si]).
    rewrite Htr. by rewrite <- !app_assoc. }
  split; [apply renderPrologueCalls_opens|]. split; [done|].
  split; [exact E3|]. split; [simpl; congruence|]. split; [simpl; congruence|].
  split; [|exact Hactb].
  apply only_openEncoders; [done|]. intros k. exact (Hon k).
Qed.

Lemma C1_one_encoder_open_witness :
  ∃ s s', recordAll sampleDraw newMetalCommandList = Some s ∧
    record (CopyBuffer (Some sampleBuffer) (Some sampleBuffer)) s = Some s' ∧
    openEncoders s = [Render] ∧ openEncoders s' = [Blit] ∧
    ∃ ev, quietCall ev = true ∧
      trace s' = trace s ++ [useResources false (currentEncoderDescriptorSets s);
                             endEncoding Render; blitCommandEncoder; ev].
Proof.
  eassert (E0 : recordAll sampleDraw newMetalCommandList = Some _)
    by (vm_compute; reflexivity).
  match type of E0 with
  | _ = Some ?s0 =>
      eassert (E1 : record (CopyBuffer (Some sampleBuffer) (Some sampleBuffer)) s0 = Some _)
        by (vm_compute; reflexivity)
  end.
  destruct (C1_one_encoder_open _ _ E0) as (_ & _ & Hstep & Hblit).
  destruct (Hstep (CopyBuffer (Some sampleBuffer) (Some sampleBuffer)) Blit _ eq_refl E1)
    as [Hopen _].
  eexists _, _. split; [exact E0|]. split; [exact E1|]. split; [reflexivity|].
  split; [exact Hopen|].
  exact (Hblit (CopyBuffer (Some sampleBuffer) (Some sampleBuffer)) _ eq_refl eq_refl E1).
Defined.

Lemma C2_deferred_clear_witness :
  ∃ s s1 s2, recordAll sampleSetup newMetalCommandList = Some s ∧
    clearColor 0 sampleColor None 0 s = Some s1 ∧
    drawInstanced 3 1 0 0 s1 = Some s2 ∧
    trace s1 = trace s ∧ active (pendingClears s1) = true ∧
    ∃ closing colors depth stencil pass flushes,
      trace s2 = trace s1 ++ closing ++ [renderCommandEncoder colors depth stencil] ++
                 flushes ++ [drawPrimitives PrimitiveTypeTriangle 0 3 1 0] ∧
      Forall (λ c, opens c = None) closing ∧
      Forall (λ c, quietCall c = true) flushes ∧
      colors !! 0 = Some pass ∧
      loadAction pass = LoadActionClear ∧ clearValue pass = clearColorValue sampleColor.
Proof.
  eassert (E0 : recordAll sampleSetup newMetalCommandList = Some _)
    by (vm_compute; reflexivity).
  match type of E0 with
  | _ = Some ?s0 =>
      destruct (C2_deferred_clear sampleSetup s0 sampleFramebuffer sampleRenderState 0
                  sampleColor None 3 1 0 0 E0 eq_refl eq_refl eq_refl)
        as (s1 & s2 & H1 & H2 & Ht & _ & _ & _ & Ha & c & colors & d & st & p & f &
            Htr & Hc & Hf & Hl & Hla & Hcv & _);
        [simpl; lia|]
  end.
  eexists _, s1, s2. split; [exact E0|]. split; [exact H1|]. split; [exact H2|].
  split; [exact Ht|]. split; [exact Ha|].
  exists c, colors, d, st, p, f.
  split; [exact Htr|]. split; [exact Hc|]. split; [exact Hf|]. split; [exact Hl|].
  split; [exact Hla|exact Hcv].
Defined.

(** ** C6: barriers *)

(** C6, as stated, fails: a [barriers] call with both counts zero
    returns at once.  After a draw and a deferred clear it leaves the
    render encoder open and the clear pending. *)
Lemma C6_barriers_counterexample :
  ∃ s s', recordAll (sampleDraw ++ [ClearColor 0 sampleColor None 0]) newMetalCommandList
            = Some s ∧
    barriers (None : option (list unit)) 0 (None : option (list unit)) 0 s = Some s' ∧
    activeRenderEncoder s' = true ∧ active (pendingClears s') = true.
Proof. eexists _, _. split; [vm_compute; reflexivity|]. by vm_compute. Qed.

(** C6, amended: in a recording between [begin] and [commit], a
    [barriers] call with at least one buffer or texture barrier
    succeeds and leaves no render encoder open and no clear pending;
    clears that were pending have been applied by a render pass opened
    with them and ended.  A call with both counts zero changes
    nothing. *)
Theorem C6_barriers_flush {B T : Type} (cs : list Command) (s : MetalCommandList)
    (bb : option (list B)) (bc : nat) (tb : option (list T)) (tc : nat) :
  recordAll cs newMetalCommandList = Some s → mtl s = true →
  bc = 0 ∨ is_Some bb → tc = 0 ∨ is_Some tb →
  (bc ≠ 0 ∨ tc ≠ 0 →
   ∃ s', barriers bb bc tb tc s = Some s' ∧
     activeRenderEncoder s' = false ∧ active (pendingClears s') = false ∧
     if active (pendingClears s) then
       ∃ fb colors depth stencil closing sets,
         targetFramebuffer s = Some fb ∧
         colorPasses (pendingClears s) fb = Some colors ∧
         depthPass (pendingClears s) fb = Some depth ∧
         stencilPass (pendingClears s) fb = Some stencil ∧
         Forall (λ c, opens c = None) closing ∧
         trace s' = trace s ++ closing ++
           [renderCommandEncoder colors depth stencil; useResources false sets;
            endEncoding Render]
     else trace s' = trace s ++ closingCalls Render s) ∧
  (bc = 0 ∧ tc = 0 → barriers bb bc tb tc s = Some s).
Proof.
  intros Hrec Hm Hb Htb. pose proof (recordAll_invariant _ _ Hrec) as Hinv.
  unfold barriers. rewrite option_guard_True by done. cbn [mbind option_bind].
  rewrite option_guard_True by done. cbn [mbind option_bind]. split.
  - intros Hcount. rewrite decide_False by lia. cbv zeta.
    pose proof (endActive_invariant Render s Hinv) as Hinv1.
    destruct (endActive_fields Render s) as (_ & Ho1 & (K1 & K2 & K3)).
    pose proof (endActive_trace Render s) as Htr1.
    change (endActive Render s) with (endActiveRenderEncoder s) in *.
    set (s1 := endActiveRenderEncoder s) in *. clearbody s1.
    destruct (handlePendingClears_is_Some s1 Hinv1) as [s' H]; [congruence|].
    destruct (handlePendingClears_spec _ _ Hinv1 H) as (_ & Hact & _ & _ & _ & Hcase).
    exists s'. split; [done|]. rewrite K2 in Hcase.
    destruct (active (pendingClears s)).
    + destruct Hcase as (_ & Hcl & fb & colors & depth & stencil & sets &
                         Hfb & Hcol & Hd & Hst & Htr).
      split; [exact (Hcl Render)|]. split; [done|].
      exists fb, colors, depth, stencil, (closingCalls Render s ++ renderPrologueCalls s1), sets.
      split; [congruence|]. do 3 (split; [done|]). split.
      * apply Forall_app. split; [apply closingCalls_opens|apply renderPrologueCalls_opens].
      * rewrite Htr, Htr1. by rewrite <- !app_assoc.
    + subst s'. split; [|done]. pose proof (Ho1 Render) as Hr.
      by rewrite decide_True in Hr.
  - intros [-> ->]. by rewrite decide_True.
Qed.

Lemma C6_barriers_flush_witness :
  ∃ s s', recordAll (sampleDraw ++ [ClearColor 0 sampleColor None 0]) newMetalCommandList
            = Some s ∧
    barriers (Some [()]) 1 (None : option (list unit)) 0 s = Some s' ∧
    activeRenderEncoder s' = false ∧ active (pendingClears s') = false.
Proof.
  eassert (E0 : recordAll (sampleDraw ++ [ClearColor 0 sampleColor None 0])
                  newMetalCommandList = Some _) by (vm_compute; reflexivity).
  match type of E0 with
  | _ = Some ?s0 =>
      destruct (C6_barriers_flush _ s0 (Some [()]) 1 (None : option (list unit)) 0 E0 eq_refl)
        as [Hflush _];
        [right; by eexists|by left|];
        destruct Hflush as (s' & H & Hr & Ha & _); [by left|]
  end.
  eexists _, s'. split; [exact E0|]. split; [exact H|]. split; [exact Hr|exact Ha].
Defined.

(** ** C7: changing the pipeline layout *)

(** C7, as stated, fails: the two domains share one push constant
    vector.  A graphics layout set after the compute push constants
    were written empties it, and the dispatch that follows binds no
    push constants. *)
Lemma C7_layout_change_counterexample :
  ∃ s s', recordAll sampleCompute newMetalCommandList = Some s ∧
    setGraphicsPipelineLayout (Some sampleGraphicsLayout) s = Some s' ∧
    pcData <$> pushConstants s = [sampleData] ∧ pushConstants s' = [] ∧
    trace <$> dispatch 1 1 1 s =
      Some [commandBuffer; computeCommandEncoder; setComputePipelineState (Some 6);
            setPushConstantBytes ComputeStage sampleData 16 8;
            dispatchThreadgroups 1 1 1 8 8 1] ∧
    trace <$> dispatch 1 1 1 s' =
      Some [commandBuffer; computeCommandEncoder; setComputePipelineState (Some 6);
            dispatchThreadgroups 1 1 1 8 8 1].
Proof. eexists _, _. split; [vm_compute; reflexivity|]. by vm_compute. Qed.

(** C7, amended: setting a layout other than the active one of a
    domain stores it, nulls every descriptor set slot of that domain,
    empties the push constant vector, which both domains share, and the
    cached copy of it, and sets that domain's descriptor set and push
    constant dirty bits and its dirty set index to 0; the layout,
    descriptor sets, dirty bits and pipeline of the other domain, the
    encoders and the native calls made are untouched. *)
Theorem C7_layout_change (s : MetalCommandList) (l : MetalPipelineLayout) :
  (pipelineLayout <$> activeGraphicsPipelineLayout s ≠ Some (pipelineLayout l) →
   ∃ s', setGraphicsPipelineLayout (Some l) s = Some s' ∧
     activeGraphicsPipelineLayout s' = Some l ∧
     length (renderDescriptorSets s') = MAX_DESCRIPTOR_SET_BINDINGS ∧
     (∀ i, i < MAX_DESCRIPTOR_SET_BINDINGS → renderDescriptorSets s' !! i = Some None) ∧
     pushConstants s' = [] ∧ lastPushConstants (stateCache s') = [] ∧
     gDescriptorSets (dirtyGraphicsState s') = true ∧
     gPushConstants (dirtyGraphicsState s') = true ∧
     gDescriptorSetDirtyIndex (dirtyGraphicsState s') = 0 ∧
     computeDomain s' = computeDomain s ∧
     openEncoders s' = openEncoders s ∧ trace s' = trace s) ∧
  (pipelineLayout <$> activeComputePipelineLayout s ≠ Some (pipelineLayout l) →
   ∃ s', setComputePipelineLayout (Some l) s = Some s' ∧
     activeComputePipelineLayout s' = Some l ∧
     length (computeDescriptorSets s') = MAX_DESCRIPTOR_SET_BINDINGS ∧
     (∀ i, i < MAX_DESCRIPTOR_SET_BINDINGS → computeDescriptorSets s' !! i = Some None) ∧
     pushConstants s' = [] ∧ lastPushConstants (stateCache s') = [] ∧
     cDescriptorSets (dirtyComputeState s') = true ∧
     cPushConstants (dirtyComputeState s') = true ∧
     cDescriptorSetDirtyIndex (dirtyComputeState s') = 0 ∧
     graphicsDomain s' = graphicsDomain s ∧
     openEncoders s' = openEncoders s ∧ trace s' = trace s).
Proof.
  split; intros Hne.
  - unfold setGraphicsPipelineLayout. cbn [mbind option_bind]. cbv zeta.
    change (activeGraphicsPipelineLayout (set_activeGraphicsPipelineLayout (Some l) s))
      with (Some l).
    rewrite decide_False by done. eexists. split; [reflexivity|].
    split; [reflexivity|]. split; [apply length_replicate|]. split.
    { intros i Hi. by apply lookup_replicate_2. }
    by repeat (split; [reflexivity|]).
  - unfold setComputePipelineLayout. cbn [mbind option_bind]. cbv zeta.
    rewrite decide_False by done. eexists. split; [reflexivity|].
    split; [reflexivity|]. split; [apply length_replicate|]. split.
    { intros i Hi. by apply lookup_replicate_2. }
    by repeat (split; [reflexivity|]).
Qed.

Lemma C7_layout_change_witness :
  ∃ s s', recordAll sampleCompute newMetalCommandList = Some s ∧
    setGraphicsPipelineLayout (Some sampleGraphicsLayout) s = Some s' ∧
    pushConstants s' = [] ∧ computeDomain s' = computeDomain s.
Proof.
  eassert (E0 : recordAll sampleCompute newMetalCommandList = Some _)
    by (vm_compute; reflexivity).
  match type of E0 with
  | _ = Some ?s0 =>
      destruct (C7_layout_change s0 sampleGraphicsLayout) as [Hg _];
        destruct Hg as (s' & H & _ & _ & _ & Hpc & _ & _ & _ & _ & Hcd & _);
        [by vm_compute|]
  end.
  eexists _, s'. split; [exact E0|]. split; [exact H|]. split; [exact Hpc|exact Hcd].
Defined.

End CommandListProperties.

(* ===================================================================== *)
(** * Further properties of the descriptor set layout                   *)
(* ===================================================================== *)

Section LayoutMore.
Import Layout.

Lemma mapDataType_is_Some t : is_Some (mapDataType t) ↔ t ≠ UNKNOWN.
Proof.
  destruct t; simpl; split; intros H; try done; try (by eexists); by destruct H.
Qed.

Lemma secondPassStep_is_Some b r : is_Some (secondPassStep b r) ↔ rangeOk r.
Proof.
  unfold rangeOk. rewrite <- mapDataType_is_Some. split.
  - intros [b' H]. unfold secondPassStep, createBinding in H.
    case_decide; [|done]. cbn [mbind option_bind] in H.
    destruct (mapDataType (type r)); [|done]. split; [done|by eexists].
  - intros [Hb [dt Hdt]]. rewrite (secondPassStep_Some b r dt Hb Hdt). by eexists.
Qed.

Lemma secondPassStep_bindingOf b r b' :
  secondPassStep b r = Some b' →
  bSetBindings b' = bSetBindings b ++ [bindingOf r] ∧
  bBindingToIndex b' = <[binding r := Z.of_nat (length (bSetBindings b))]> (bBindingToIndex b) ∧
  bArgumentDescriptors b' =
    bArgumentDescriptors b ++
      (paddingDescriptor <$> seq (bCurBinding b) (binding r - bCurBinding b)) ++
      [ {| dataType := default DataTypeNone (mapDataType (type r)); index := binding r;
           arrayLength := if 1 <? count r then count r else 0;
           textureType := textureTypeFor (type r) |} ] ∧
  bCurBinding b' = S (Nat.max (bCurBinding b) (binding r)).
Proof.
  intros H. assert (rangeOk r) as [Hb Ht] by (apply (secondPassStep_is_Some b); by eexists).
  apply mapDataType_is_Some in Ht as [dt Hdt].
  rewrite (secondPassStep_Some b r dt Hb Hdt) in H. injection H as <-. simpl.
  by rewrite Hdt.
Qed.

Lemma secondPass_is_Some rs : ∀ b, is_Some (secondPass b rs) ↔ Forall rangeOk rs.
Proof.
  induction rs as [|r rs IH]; intros b; simpl.
  - split; [constructor|by eexists].
  - rewrite Forall_cons, <- (secondPassStep_is_Some b). split.
    + intros [b' H]. apply bind_Some in H as (b1 & H1 & H).
      split; [by eexists|]. apply (IH b1). by eexists.
    + intros [[b1 H1] Hrs]. rewrite H1. cbn [mbind option_bind]. by apply IH.
Qed.

Lemma secondPass_snoc rs r b :
  secondPass b (rs ++ [r]) = secondPass b rs ≫= λ b', secondPassStep b' r.
Proof.
  revert b. induction rs as [|x rs IH]; intros b; simpl.
  - by destruct (secondPassStep b r).
  - destruct (secondPassStep b x) as [b1|]; [|done]. cbn [mbind option_bind]. apply IH.
Qed.

Lemma secondPass_descriptors rs : ∀ b b',
  secondPass b rs = Some b' →
  length (bArgumentDescriptors b) + length rs ≤ length (bArgumentDescriptors b').
Proof.
  induction rs as [|r rs IH]; intros b b' H; simpl in H.
  - injection H as <-. simpl. lia.
  - apply bind_Some in H as (b1 & H1 & H). apply IH in H.
    apply secondPassStep_bindingOf in H1 as (_ & _ & Hd & _). rewrite Hd in H.
    rewrite !length_app in H. simpl in *. lia.
Qed.

Lemma boundlessStep_is_Some device b r : is_Some (boundlessStep device b r) ↔ rangeOk r.
Proof.
  unfold rangeOk. rewrite <- mapDataType_is_Some. unfold boundlessStep, createBinding. split.
  - intros [b' H]. case_decide; [|done]. cbn [mbind option_bind] in H.
    destruct (mapDataType (type r)); [|done]. split; [done|by eexists].
  - intros [Hb [dt Hdt]]. rewrite decide_True by done. cbn [mbind option_bind].
    rewrite Hdt. by eexists.
Qed.

Lemma take_pred_snoc {A} (l : list A) x :
  l !! (length l - 1) = Some x → 0 < length l → l = take (length l - 1) l ++ [x].
Proof.
  intros Hx Hl. rewrite <- (take_drop (length l - 1) l) at 1. f_equal.
  apply list_eq. intros [|i].
  - by rewrite lookup_drop, Nat.add_0_r.
  - rewrite lookup_drop. simpl. apply lookup_ge_None. lia.
Qed.

(** The assertions of the constructor, as conditions on the
    description. *)
Lemma newMetalDescriptorSetLayout_is_Some (device : MetalDevice) (desc : RenderDescriptorSetDesc) :
  is_Some (newMetalDescriptorSetLayout device desc) ↔
  descriptorRanges desc ≠ [] ∧ Forall rangeOk (descriptorRanges desc).
Proof.
  unfold newMetalDescriptorSetLayout.
  destruct (firstPass _) as [bases bindings].
  set (start := {| bSetBindings := []; bBindingToIndex := _; bArgumentDescriptors := [];
                   bDescriptorTypeMaxIndex := 0; bCurBinding := 0 |}).
  unfold descriptorRangesCount.
  pose proof (sortRanges_Permutation (descriptorRanges desc)) as Hperm.
  pose proof (Permutation_length Hperm) as Hlen.
  set (sorted := sortRanges (descriptorRanges desc)) in *.
  assert (Forall rangeOk (descriptorRanges desc) ↔ Forall rangeOk sorted) as ->
    by (by rewrite Hperm).
  assert (descriptorRanges desc ≠ [] ↔ 0 < length sorted) as ->.
  { rewrite Hlen. destruct (descriptorRanges desc); simpl; split; try done; lia. }
  rewrite <- Hlen. clearbody sorted. clear Hperm Hlen.
  destruct (lastRangeIsBoundless desc).
  - split.
    + intros [l H]. apply bind_Some in H as (b & Hb & H).
      apply bind_Some in H as (b' & Hb' & H).
      apply bind_Some in Hb' as (lastRange & Hlast & Hb').
      apply bind_Some in Hb' as (Hpos & _ & Hb').
      split; [done|]. rewrite (take_pred_snoc sorted lastRange Hlast Hpos).
      apply Forall_app. split.
      * apply (secondPass_is_Some _ start). by eexists.
      * constructor; [|constructor]. apply (boundlessStep_is_Some device b). by eexists.
    + intros [Hpos Hall].
      destruct (lookup_lt_is_Some_2 sorted (length sorted - 1)) as [lastRange Hlast]; [lia|].
      rewrite (take_pred_snoc sorted lastRange Hlast Hpos) in Hall.
      apply Forall_app in Hall as [Hinit Hl]. inversion_clear Hl as [|?? Hl1 _].
      apply (secondPass_is_Some _ start) in Hinit as [b Hb]. rewrite Hb.
      cbn [mbind option_bind]. rewrite Hlast. cbn [mbind option_bind].
      rewrite option_guard_True by done. cbn [mbind option_bind].
      apply (boundlessStep_is_Some device b) in Hl1 as [b' Hb']. rewrite Hb'.
      cbn [mbind option_bind]. rewrite option_guard_True; [by eexists|].
      unfold boundlessStep in Hb'. apply bind_Some in Hb' as (? & _ & Hb').
      apply bind_Some in Hb' as (? & _ & Hb'). injection Hb' as <-. simpl.
      rewrite length_app. simpl. lia.
  - rewrite firstn_all. split.
    + intros [l H]. apply bind_Some in H as (b & Hb & H).
      cbn [mbind option_bind] in H. apply bind_Some in H as (Hpos & _ & _).
      split; [|apply (secondPass_is_Some _ start); by eexists].
      destruct sorted; [|simpl; lia]. simpl in Hb. injection Hb as <-. simpl in Hpos. lia.
    + intros [Hpos Hall]. apply (secondPass_is_Some _ start) in Hall as [b Hb].
      rewrite Hb. cbn [mbind option_bind].
      rewrite option_guard_True; [by eexists|].
      apply secondPass_descriptors in Hb. simpl in Hb. lia.
Qed.


(** ** The binding table *)

Lemma tableOf_step setBindings table rs r :
  tableOf setBindings table rs →
  binding r ∉ binding <$> rs → binding r < MAX_BINDING_NUMBER →
  tableOf (setBindings ++ [bindingOf r])
          (<[binding r := Z.of_nat (length setBindings)]> table) (rs ++ [r]).
Proof.
  intros (Hs & Hlen & Hin & Hout) Hnew Hb. split; [|split; [|split]].
  - by rewrite Hs, fmap_snoc.
  - by rewrite length_insert.
  - intros i r' Hi. apply lookup_snoc_Some in Hi as [[Hlt Hi]|[-> ->]].
    + rewrite list_lookup_insert_ne; [by apply Hin|].
      intros E. apply Hnew. rewrite E. apply list_elem_of_fmap. exists r'.
      split; [done|]. by eapply list_elem_of_lookup_2.
    + rewrite Hs, length_fmap. apply list_lookup_insert_eq. lia.
  - intros k Hk Hnot. rewrite fmap_snoc in Hnot.
    apply not_elem_of_app in Hnot as [Hnot Hne].
    rewrite list_lookup_insert_ne; [by apply Hout|].
    intros E. subst k. apply Hne. by left.
Qed.

Lemma secondPass_table rs : ∀ rs0 b b',
  tableOf (bSetBindings b) (bBindingToIndex b) rs0 →
  NoDup (binding <$> (rs0 ++ rs)) →
  secondPass b rs = Some b' →
  tableOf (bSetBindings b') (bBindingToIndex b') (rs0 ++ rs).
Proof.
  induction rs as [|r rs IH]; intros rs0 b b' Ht Hnd H; simpl in H.
  - injection H as <-. by rewrite app_nil_r.
  - apply bind_Some in H as (b1 & H1 & H).
    assert (rangeOk r) as [Hb _] by (apply (secondPassStep_is_Some b); by eexists).
    apply secondPassStep_bindingOf in H1 as (Hs1 & Ht1 & _).
    replace (rs0 ++ r :: rs) with ((rs0 ++ [r]) ++ rs) in * by by rewrite <- app_assoc.
    apply (IH (rs0 ++ [r]) b1 b'); [|done|done].
    rewrite Hs1, Ht1. apply tableOf_step; [done| |done].
    rewrite !fmap_app in Hnd. apply NoDup_app in Hnd as [Hnd _].
    apply NoDup_app in Hnd as (_ & Hnd & _). intros Hin. apply (Hnd _ Hin). by left.
Qed.

Lemma layout_table device desc layout :
  newMetalDescriptorSetLayout device desc = Some layout →
  NoDup (binding <$> descriptorRanges desc) →
  tableOf (setBindings layout) (bindingToIndex layout) (sortRanges (descriptorRanges desc)).
Proof.
  intros H Hnd. unfold newMetalDescriptorSetLayout in H.
  destruct (firstPass _) as [bases bindings].
  set (start := {| bSetBindings := []; bBindingToIndex := _; bArgumentDescriptors := [];
                   bDescriptorTypeMaxIndex := 0; bCurBinding := 0 |}) in H.
  assert (tableOf (bSetBindings start) (bBindingToIndex start) []) as Hstart.
  { split; [done|]. split; [apply length_replicate|]. split; [done|].
    intros k Hk _. by apply lookup_replicate_2. }
  unfold descriptorRangesCount in H.
  pose proof (sortRanges_Permutation (descriptorRanges desc)) as Hperm.
  assert (NoDup (binding <$> sortRanges (descriptorRanges desc))) as Hnds by by rewrite Hperm.
  pose proof (Permutation_length Hperm) as Hlen. rewrite <- Hlen in H.
  set (sorted := sortRanges (descriptorRanges desc)) in *. clearbody sorted.
  apply bind_Some in H as (b & Hb & H). apply bind_Some in H as (b' & Hb' & H).
  apply bind_Some in H as (_ & _ & H). injection H as <-. simpl.
  destruct (lastRangeIsBoundless desc).
  - apply bind_Some in Hb' as (lastRange & Hlast & Hb').
    apply bind_Some in Hb' as (Hpos & _ & Hb').
    rewrite (take_pred_snoc sorted lastRange Hlast Hpos) in Hnds |- *.
    set (init := take (length sorted - 1) sorted) in *. clearbody init.
    assert (NoDup (binding <$> init)) as Hndi.
    { rewrite fmap_snoc in Hnds. by apply NoDup_app in Hnds as [? _]. }
    pose proof (secondPass_table init [] start b Hstart Hndi Hb) as Ht. simpl in Ht.
    assert (rangeOk lastRange) as [Hok _]
      by (apply (boundlessStep_is_Some device b); by eexists).
    unfold boundlessStep, createBinding in Hb'. rewrite decide_True in Hb' by done.
    cbn [mbind option_bind] in Hb'. apply bind_Some in Hb' as (dt & _ & Hb').
    injection Hb' as <-. simpl. apply (tableOf_step _ _ init lastRange Ht); [|done].
    rewrite fmap_snoc in Hnds. apply NoDup_app in Hnds as (_ & Hnds & _).
    intros Hin. apply (Hnds _ Hin). by left.
  - injection Hb' as <-. rewrite firstn_all in Hb.
    apply (secondPass_table sorted [] start b Hstart Hnds Hb).
Qed.

Lemma NoDup_bounded_length (l : list nat) (n : nat) :
  NoDup l → Forall (λ x, x < n) l → length l ≤ n.
Proof.
  intros Hnd Hall. transitivity (length (seq 0 n)); [|by rewrite length_seq].
  apply submseteq_length.
  apply NoDup_submseteq; [done|]. intros x Hx. apply elem_of_seq.
  rewrite Forall_forall in Hall. specialize (Hall x Hx). lia.
Qed.

(** What [getBinding] answers on a layout built from ranges with
    distinct bindings. *)
Lemma getBinding_lookup (device : MetalDevice) (desc : RenderDescriptorSetDesc)
    (layout : MetalDescriptorSetLayout) :
  newMetalDescriptorSetLayout device desc = Some layout →
  NoDup (binding <$> descriptorRanges desc) →
  (∀ r, r ∈ descriptorRanges desc → getBinding layout (binding r) 0 = Some (bindingOf r)) ∧
  (∀ k, k < MAX_BINDING_NUMBER → k ∉ binding <$> descriptorRanges desc →
        getBinding layout k 0 = None).
Proof.
  intros H Hnd. pose proof (layout_table _ _ _ H Hnd) as (Hs & Hlen & Hin & Hout).
  assert (Forall rangeOk (descriptorRanges desc)) as Hok.
  { apply (newMetalDescriptorSetLayout_is_Some device desc). by eexists. }
  pose proof (sortRanges_Permutation (descriptorRanges desc)) as Hperm.
  assert (length (setBindings layout) ≤ MAX_BINDING_NUMBER) as Hbound.
  { rewrite Hs, length_fmap, (Permutation_length Hperm).
    rewrite <- (length_fmap binding). apply NoDup_bounded_length; [done|].
    apply Forall_fmap. eapply Forall_impl; [exact Hok|]. by intros r [? _]. }
  unfold MAX_BINDING_NUMBER in Hbound. split.
  - intros r Hr. rewrite <- Hperm in Hr. apply list_elem_of_lookup in Hr as [i Hi].
    unfold getBinding. rewrite (Hin i r Hi). cbn [mbind option_bind].
    assert (i < length (setBindings layout)) as Hlt.
    { rewrite Hs, length_fmap. by eapply lookup_lt_Some. }
    unfold wrap32. rewrite Z.add_0_r, Z.mod_small by lia.
    rewrite decide_True by lia. rewrite Nat2Z.id, Hs, list_lookup_fmap, Hi. done.
  - intros k Hk Hnot. unfold getBinding. rewrite Hout; [|done|by rewrite Hperm].
    cbn [mbind option_bind]. unfold wrap32. simpl.
    rewrite decide_False; [done|].
    change ((-1 + Z.of_nat 0) mod 4294967296)%Z with 4294967295%Z. lia.
Qed.

(** X11: in a layout built from ranges with distinct bindings,
    [getBinding] finds every range by its binding number, with its
    count and type, and answers null for a binding number of the table
    that no range has. *)
Theorem getBinding_finds_ranges (device : MetalDevice) (desc : RenderDescriptorSetDesc)
    (layout : MetalDescriptorSetLayout) :
  newMetalDescriptorSetLayout device desc = Some layout →
  NoDup (binding <$> descriptorRanges desc) →
  (∀ r, r ∈ descriptorRanges desc → getBinding layout (binding r) 0 = Some (bindingOf r)) ∧
  (∀ k, k < MAX_BINDING_NUMBER → k ∉ binding <$> descriptorRanges desc →
        getBinding layout k 0 = None).
Proof. apply getBinding_lookup. Qed.

Lemma getBinding_finds_ranges_witness :
  ∃ layout,
    newMetalDescriptorSetLayout boundlessDevice
      {| descriptorRanges := [unitRange TEXTURE 5 None; unitRange SAMPLER 2 None];
         lastRangeIsBoundless := false; boundlessRangeSize := 0 |} = Some layout ∧
    getBinding layout 5 0 = Some (bindingOf (unitRange TEXTURE 5 None)) ∧
    getBinding layout 3 0 = None.
Proof.
  eassert (E0 : newMetalDescriptorSetLayout boundlessDevice
                  {| descriptorRanges := [unitRange TEXTURE 5 None; unitRange SAMPLER 2 None];
                     lastRangeIsBoundless := false; boundlessRangeSize := 0 |} = Some _)
    by (vm_compute; reflexivity).
  destruct (getBinding_finds_ranges _ _ _ E0) as [Hin Hout].
  { apply (bool_decide_unpack _). vm_compute. exact I. }
  eexists. split; [exact E0|]. split.
  - apply (Hin (unitRange TEXTURE 5 None)). simpl. left.
  - apply Hout; [unfold MAX_BINDING_NUMBER; lia|].
    apply (bool_decide_unpack _). vm_compute. exact I.
Defined.

Lemma denseFor_step args cur rs r :
  denseFor args cur rs →
  Forall (λ x, binding x < binding r) rs →
  denseFor (args ++ (paddingDescriptor <$> seq cur (binding r - cur)) ++ [entryOf r])
           (S (Nat.max cur (binding r))) (rs ++ [r]).
Proof.
  intros (Hlen & Hidx & Hin & Hout & Hmax) Hlt.
  assert (cur ≤ binding r) as Hle.
  { destruct (decide (cur ≤ binding r)) as [|Hn]; [done|].
    destruct (Hmax (binding r)) as (r' & Hr' & Hb); [lia|].
    rewrite Forall_forall in Hlt. specialize (Hlt r' Hr'). lia. }
  set (pads := paddingDescriptor <$> seq cur (binding r - cur)).
  assert (length pads = binding r - cur) as Hpads
    by (unfold pads; by rewrite length_fmap, length_seq).
  assert (∀ k, cur ≤ k → k < binding r →
               (args ++ pads ++ [entryOf r]) !! k = Some (paddingDescriptor k)) as Hpad.
  { intros k H1 H2. rewrite lookup_app_r by lia. rewrite lookup_app_l by lia.
    unfold pads. rewrite list_lookup_fmap, lookup_seq_lt by lia. simpl.
    f_equal. f_equal. lia. }
  assert ((args ++ pads ++ [entryOf r]) !! binding r = Some (entryOf r)) as Hent.
  { rewrite lookup_app_r by lia. rewrite lookup_app_r by lia.
    replace (binding r - length args - length pads) with 0 by lia. done. }
  assert (∀ k, k < cur → (args ++ pads ++ [entryOf r]) !! k = args !! k) as Hold.
  { intros k Hk. by rewrite lookup_app_l by lia. }
  split; [rewrite !length_app, Hpads; simpl; lia|]. split; [|split; [|split]].
  - intros i d Hd. destruct (decide (i < cur)) as [Hi|Hi].
    + rewrite Hold in Hd by done. by apply Hidx.
    + destruct (decide (i < binding r)) as [Hi'|Hi'].
      * rewrite Hpad in Hd by lia. by injection Hd as <-.
      * assert (i < S (binding r)) as Hi''.
        { apply lookup_lt_Some in Hd. rewrite !length_app, Hpads in Hd. simpl in Hd. lia. }
        replace i with (binding r) in * by lia. rewrite Hent in Hd. by injection Hd as <-.
  - intros r' Hr'. apply elem_of_app in Hr' as [Hr'|Hr'].
    + rewrite Hold; [by apply Hin|]. rewrite <- Hlen. eapply lookup_lt_Some. by apply Hin.
    + apply list_elem_of_singleton in Hr'. by subst r'.
  - intros k Hk Hnot. rewrite fmap_app, not_elem_of_app in Hnot. destruct Hnot as [Hn1 Hn2].
    simpl in Hn2. rewrite list_elem_of_singleton in Hn2.
    destruct (decide (k < cur)) as [Hi|Hi].
    + rewrite Hold by done. by apply Hout.
    + apply Hpad; lia.
  - intros k Hk. exists r. split; [apply elem_of_app; right; by left|lia].
Qed.

Lemma secondPass_dense ranges : ∀ rs b b',
  denseFor (bArgumentDescriptors b) (bCurBinding b) rs →
  Forall (λ r, Forall (λ x, binding x < binding r) rs) ranges →
  StronglySorted (λ x y, binding x < binding y) ranges →
  secondPass b ranges = Some b' →
  denseFor (bArgumentDescriptors b') (bCurBinding b') (rs ++ ranges).
Proof.
  induction ranges as [|r rest IH]; intros rs b b' Hd Hall Hs H; simpl in H.
  - injection H as <-. by rewrite app_nil_r.
  - apply bind_Some in H as (b1 & Hstep & H).
    apply secondPassStep_bindingOf in Hstep as (_ & _ & Ha & Hc).
    inversion_clear Hall as [|?? Hr Hrest]. inversion_clear Hs as [|?? Hs1 Hs2].
    change (r :: rest) with ([r] ++ rest). rewrite (assoc_L (++) rs [r] rest). apply (IH (rs ++ [r]) b1 b'); [| |done|done].
    + rewrite Ha, Hc. by apply denseFor_step.
    + rewrite Forall_forall in Hrest, Hs2 |- *. intros x Hx.
      apply Forall_app. split; [by apply Hrest|]. constructor; [by apply Hs2|constructor].
Qed.

Lemma sortRanges_strict ranges :
  NoDup (binding <$> ranges) →
  StronglySorted (λ x y, binding x < binding y) (sortRanges ranges).
Proof.
  intros Hnd. rewrite <- (sortRanges_Permutation ranges) in Hnd.
  pose proof (sortRanges_Sorted ranges) as Hs.
  apply Sorted_StronglySorted in Hs; [|intros x y z; unfold bindingLe; lia].
  induction Hs as [|x l Hs IH Hx]; [constructor|].
  rewrite fmap_cons in Hnd. apply NoDup_cons in Hnd as [Hx' Hnd].
  constructor; [by apply IH|]. rewrite Forall_forall in Hx |- *. intros y Hy.
  specialize (Hx y Hy). unfold bindingLe in Hx.
  assert (binding x ≠ binding y); [|lia].
  intros E. apply Hx'. rewrite E. apply list_elem_of_fmap. by exists y.
Qed.

(** X12: a layout without a boundless range, built from ranges with
    distinct bindings, has exactly one argument descriptor for every
    binding number from 0 to the highest binding of the description, at
    the position of that number: the entry of the range that has the
    binding, or a zero-length pointer placeholder where no range has it. *)
Theorem layout_one_entry_per_binding (device : MetalDevice) (desc : RenderDescriptorSetDesc)
    (layout : MetalDescriptorSetLayout) :
  newMetalDescriptorSetLayout device desc = Some layout →
  lastRangeIsBoundless desc = false →
  NoDup (binding <$> descriptorRanges desc) →
  index <$> argumentDescriptors layout = seq 0 (length (argumentDescriptors layout)) ∧
  (∃ r, r ∈ descriptorRanges desc ∧ length (argumentDescriptors layout) = S (binding r)) ∧
  (∀ r, r ∈ descriptorRanges desc →
     binding r < length (argumentDescriptors layout) ∧
     ∃ dt, mapDataType (type r) = Some dt ∧
       argumentDescriptors layout !! binding r =
         Some {| dataType := dt; index := binding r;
                 arrayLength := if 1 <? count r then count r else 0;
                 textureType := textureTypeFor (type r) |}) ∧
  (∀ k, k < length (argumentDescriptors layout) → k ∉ binding <$> descriptorRanges desc →
     argumentDescriptors layout !! k = Some (paddingDescriptor k)).
Proof.
  intros H Hb Hnd.
  assert (Forall rangeOk (descriptorRanges desc)) as Hok.
  { apply (newMetalDescriptorSetLayout_is_Some device desc). by eexists. }
  pose proof (sortRanges_Permutation (descriptorRanges desc)) as Hperm.
  unfold newMetalDescriptorSetLayout in H. rewrite Hb in H.
  destruct (firstPass _) as [bases bindings]. unfold descriptorRangesCount in H.
  rewrite <- (Permutation_length Hperm), firstn_all in H.
  apply bind_Some in H as (b & Hpass & H). cbn [mbind option_bind] in H.
  apply bind_Some in H as (Hpos & _ & H). injection H as <-. simpl in *.
  apply (secondPass_dense _ []) in Hpass; [| |by apply Forall_true|by apply sortRanges_strict].
  2:{ split; [done|]. split; [done|]. split; [by intros ? ?%elem_of_nil|].
      split; intros; simpl in *; lia. }
  simpl in Hpass. destruct Hpass as (Hlen & Hidx & Hin & Hout & Hmax).
  split; [|split; [|split]].
  - apply list_eq. intros i. rewrite list_lookup_fmap.
    destruct (bArgumentDescriptors b !! i) as [d|] eqn:E; simpl.
    + rewrite (Hidx i d E). symmetry. apply lookup_seq_lt. by eapply lookup_lt_Some.
    + symmetry. apply lookup_ge_None. rewrite length_seq. by apply lookup_ge_None.
  - destruct (Hmax (bCurBinding b - 1)) as (r & Hr & Hle); [lia|].
    exists r. rewrite <- Hperm. split; [done|].
    pose proof (lookup_lt_Some _ _ _ (Hin r Hr)). lia.
  - intros r Hr. rewrite <- Hperm in Hr. split; [by eapply lookup_lt_Some, Hin|].
    rewrite Forall_forall in Hok. rewrite Hperm in Hr. destruct (Hok r Hr) as [_ Ht].
    apply mapDataType_is_Some in Ht as [dt Hdt]. exists dt. split; [done|].
    rewrite <- Hperm in Hr. rewrite (Hin r Hr). unfold entryOf. by rewrite Hdt.
  - intros k Hk Hnot. apply Hout; [lia|]. by rewrite Hperm.
Qed.

Lemma layout_one_entry_per_binding_witness :
  ∃ layout,
    newMetalDescriptorSetLayout boundlessDevice
      {| descriptorRanges :=
           [ {| type := TEXTURE; binding := 4; count := 3; immutableSampler := None |};
             unitRange SAMPLER 1 None ];
         lastRangeIsBoundless := false; boundlessRangeSize := 0 |} = Some layout ∧
    index <$> argumentDescriptors layout = seq 0 (length (argumentDescriptors layout)) ∧
    argumentDescriptors layout !! 3 = Some (paddingDescriptor 3).
Proof.
  eassert (E0 : newMetalDescriptorSetLayout boundlessDevice
                  {| descriptorRanges :=
                       [ {| type := TEXTURE; binding := 4; count := 3;
                            immutableSampler := None |};
                         unitRange SAMPLER 1 None ];
                     lastRangeIsBoundless := false; boundlessRangeSize := 0 |} = Some _)
    by (vm_compute; reflexivity).
  destruct (layout_one_entry_per_binding _ _ _ E0) as (Hidx & _ & _ & Hout);
    [reflexivity|apply (bool_decide_unpack _); vm_compute; exact I|].
  eexists. split; [exact E0|]. split; [exact Hidx|].
  apply Hout; [simpl; lia|]. apply (bool_decide_unpack _). vm_compute. exact I.
Defined.

Lemma firstPass_snoc init r :
  firstPass (init ++ [r]) =
    (fst (firstPass init) ++ replicate (count r) (length (fst (firstPass init))),
     snd (firstPass init) ++ replicate (count r) (binding r)).
Proof. unfold firstPass. by rewrite fold_left_app. Qed.

Lemma rangeBase_app_l init rest k :
  k ≤ length init → rangeBase (init ++ rest) k = rangeBase init k.
Proof. intros Hk. unfold rangeBase. by rewrite take_app_le. Qed.

Lemma rangeBase_snoc init r :
  rangeBase (init ++ [r]) (S (length init)) = rangeBase init (length init) + count r.
Proof.
  unfold rangeBase. rewrite firstn_all.
  replace (S (length init)) with (length (init ++ [r])) by (rewrite length_app; simpl; lia).
  rewrite firstn_all, fmap_app, sum_list_with_app. simpl. lia.
Qed.

Lemma firstPass_decode ranges :
  length (fst (firstPass ranges)) = rangeBase ranges (length ranges) ∧
  ∀ k r j, ranges !! k = Some r → j < count r →
    fst (firstPass ranges) !! (rangeBase ranges k + j) = Some (rangeBase ranges k) ∧
    snd (firstPass ranges) !! (rangeBase ranges k + j) = Some (binding r).
Proof.
  induction ranges as [|r init (IHlen & IH)] using rev_ind.
  - split; [done|]. intros k r j Hk. by rewrite lookup_nil in Hk.
  - rewrite firstPass_snoc. cbn [fst snd]. split.
    + rewrite !length_app, length_replicate, IHlen. simpl.
      replace (length init + 1) with (S (length init)) by lia. by rewrite rangeBase_snoc.
    + intros k r' j Hk Hj. apply lookup_snoc_Some in Hk as [[Hk Hr]|[-> ->]].
      * rewrite rangeBase_app_l by lia. destruct (IH k r' j Hr Hj) as [H1 H2].
        by rewrite !lookup_app_l by (by eapply lookup_lt_Some).
      * rewrite rangeBase_app_l by lia.
        rewrite !lookup_app_r by (rewrite <- ?firstPass_length, IHlen; lia).
        rewrite <- firstPass_length, IHlen.
        replace (rangeBase init (length init) + j - rangeBase init (length init)) with j by lia.
        by rewrite !lookup_replicate_2.
Qed.

(** The flat tables of a layout, slot by slot. *)
Lemma layout_flat_lookup (device : MetalDevice) (desc : RenderDescriptorSetDesc)
    (layout : MetalDescriptorSetLayout) :
  newMetalDescriptorSetLayout device desc = Some layout →
  length (descriptorIndexBases layout) = sum_list (count <$> descriptorRanges desc) ∧
  length (descriptorBindingIndices layout) = sum_list (count <$> descriptorRanges desc) ∧
  ∀ k r j, descriptorRanges desc !! k = Some r → j < count r →
    descriptorIndexBases layout !! (rangeBase (descriptorRanges desc) k + j) =
      Some (rangeBase (descriptorRanges desc) k) ∧
    descriptorBindingIndices layout !! (rangeBase (descriptorRanges desc) k + j) =
      Some (binding r).
Proof.
  intros H. unfold newMetalDescriptorSetLayout in H.
  pose proof (firstPass_decode (descriptorRanges desc)) as [Hlen Hdec].
  pose proof (firstPass_length (descriptorRanges desc)) as Hlen'.
  destruct (firstPass _) as [bases bindings].
  apply bind_Some in H as (b & _ & H). apply bind_Some in H as (b' & _ & H).
  apply bind_Some in H as (_ & _ & H). injection H as <-. simpl in *.
  unfold rangeBase in Hlen at 1. rewrite firstn_all in Hlen.
  split; [done|]. split; [by rewrite <- Hlen'|]. exact Hdec.
Qed.

(** X13: the two flat tables of a layout have one slot per descriptor,
    in the order of the description.  The slots of a range start at the
    sum of the counts of the ranges before it; each of them holds that
    start in [descriptorIndexBases] and the binding number of the range
    in [descriptorBindingIndices]. *)
Theorem layout_flat_tables (device : MetalDevice) (desc : RenderDescriptorSetDesc)
    (layout : MetalDescriptorSetLayout) :
  newMetalDescriptorSetLayout device desc = Some layout →
  length (descriptorIndexBases layout) = sum_list (count <$> descriptorRanges desc) ∧
  length (descriptorBindingIndices layout) = sum_list (count <$> descriptorRanges desc) ∧
  ∀ k r j, descriptorRanges desc !! k = Some r → j < count r →
    descriptorIndexBases layout !! (rangeBase (descriptorRanges desc) k + j) =
      Some (rangeBase (descriptorRanges desc) k) ∧
    descriptorBindingIndices layout !! (rangeBase (descriptorRanges desc) k + j) =
      Some (binding r).
Proof. apply layout_flat_lookup. Qed.

Lemma layout_flat_tables_witness :
  ∃ layout,
    newMetalDescriptorSetLayout boundlessDevice
      {| descriptorRanges :=
           [ {| type := TEXTURE; binding := 4; count := 3; immutableSampler := None |};
             unitRange SAMPLER 1 None ];
         lastRangeIsBoundless := false; boundlessRangeSize := 0 |} = Some layout ∧
    length (descriptorIndexBases layout) = 4 ∧
    descriptorIndexBases layout !! 3 = Some 3 ∧
    descriptorBindingIndices layout !! 3 = Some 1.
Proof.
  eassert (E0 : newMetalDescriptorSetLayout boundlessDevice
                  {| descriptorRanges :=
                       [ {| type := TEXTURE; binding := 4; count := 3;
                            immutableSampler := None |};
                         unitRange SAMPLER 1 None ];
                     lastRangeIsBoundless := false; boundlessRangeSize := 0 |} = Some _)
    by (vm_compute; reflexivity).
  destruct (layout_flat_tables _ _ _ E0) as (Hlen & _ & Hdec).
  eexists. split; [exact E0|]. split; [exact Hlen|].
  exact (Hdec 1 (unitRange SAMPLER 1 None) 0 eq_refl (le_n 1)).
Defined.

End LayoutMore.

(* ===================================================================== *)
(** * Further properties of the command list                            *)
(* ===================================================================== *)

Section CommandListMore.
Import Formats CommandList.

(** ** [alignUp] *)

Lemma land_lnot_ones (m k : Z) :
  (0 ≤ k)%Z → Z.land m (Z.lnot (Z.ones k)) = (2 ^ k * (m / 2 ^ k))%Z.
Proof.
  intros Hk. rewrite <- Z.ldiff_land, Z.ldiff_ones_r by lia.
  rewrite Z.shiftr_div_pow2, Z.shiftl_mul_pow2 by lia. lia.
Qed.

Lemma alignUp_default (n : Z) : alignUp n = alignUpTo n 16.
Proof. unfold alignUp, alignUpTo. do 2 f_equal. lia. Qed.

(** X1: for an alignment that is a power of two, [alignUp] rounds up to
    the next multiple of it: the result is a multiple of the alignment,
    not below [n] and less than one alignment above it, and [n] itself
    when [n] is aligned.  When [n + alignment - 1] passes 2^64 the sum
    wraps and the result is 0. *)
Theorem alignUp_rounds_up (n k : Z) :
  (0 ≤ k < 64 → 0 ≤ n < 18446744073709551616 →
   (n ≤ 18446744073709551616 - 2 ^ k →
    alignUpTo n (2 ^ k) mod 2 ^ k = 0 ∧
    n ≤ alignUpTo n (2 ^ k) < n + 2 ^ k ∧
    (n mod 2 ^ k = 0 → alignUpTo n (2 ^ k) = n)) ∧
   (18446744073709551616 - 2 ^ k < n → alignUpTo n (2 ^ k) = 0))%Z.
Proof.
  intros Hk Hn. unfold alignUpTo.
  assert (0 < 2 ^ k ≤ 2 ^ 63)%Z as Hp.
  { split; [apply Z.pow_pos_nonneg; lia|apply Z.pow_le_mono_r; lia]. }
  change (2 ^ 63)%Z with 9223372036854775808%Z in Hp.
  rewrite (Z.mod_small (2 ^ k - 1)) by lia.
  replace (2 ^ k - 1)%Z with (Z.ones k) by (rewrite Z.ones_equiv; lia).
  rewrite land_lnot_ones by lia.
  replace (n + 2 ^ k - 1)%Z with (n + (2 ^ k - 1))%Z by lia.
  set (a := (2 ^ k)%Z) in *.
  split; intros Hle.
  - rewrite (Z.mod_small (n + (a - 1))) by lia.
    pose proof (Z.div_mod (n + (a - 1)) a ltac:(lia)) as Hd.
    pose proof (Z.mod_pos_bound (n + (a - 1)) a ltac:(lia)) as Hb.
    split; [|split].
    + rewrite Z.mul_comm. apply Z.mod_mul. lia.
    + lia.
    + intros Hmod.
      pose proof (Z.div_mod n a ltac:(lia)) as Hna. rewrite Hmod in Hna.
      assert ((n + (a - 1)) / a = n / a)%Z as ->; [|lia].
      symmetry. apply (Z.div_unique (n + (a - 1)) a (n / a) (a - 1)); lia.
  - assert ((n + (a - 1)) mod 18446744073709551616
            = n + (a - 1) - 18446744073709551616)%Z as ->.
    { symmetry. apply (Z.mod_unique (n + (a - 1)) 18446744073709551616 1); lia. }
    rewrite Z.div_small by lia. lia.
Qed.

Lemma alignUp_rounds_up_witness :
  (alignUpTo 20 (2 ^ 4) mod 2 ^ 4 = 0 ∧ 20 ≤ alignUpTo 20 (2 ^ 4) < 20 + 2 ^ 4 ∧
   (20 mod 2 ^ 4 = 0 → alignUpTo 20 (2 ^ 4) = 20))%Z.
Proof.
  apply (proj1 (alignUp_rounds_up 20 4 ltac:(lia) ltac:(lia))). simpl. lia.
Defined.

(** ** [clampScissorRectIfNecessary] *)

Lemma foldl_min_le {A} (f : A → Z) (l : list A) (init : Z) :
  (foldl (λ m x, Z.min m (f x)) init l ≤ init)%Z ∧
  ∀ x, x ∈ l → (foldl (λ m x, Z.min m (f x)) init l ≤ f x)%Z.
Proof.
  revert init. induction l as [|y l IH]; intros init; simpl.
  - split; [lia|]. intros x Hx. by apply elem_of_nil in Hx.
  - destruct (IH (Z.min init (f y))) as [H1 H2]. split; [lia|].
    intros x Hx. apply elem_of_cons in Hx as [->|Hx]; [lia|by apply H2].
Qed.

Lemma foldl_min_ge {A} (f : A → Z) (l : list A) (init v : Z) :
  (v ≤ init)%Z → (∀ x, x ∈ l → (v ≤ f x)%Z) →
  (v ≤ foldl (λ m x, Z.min m (f x)) init l)%Z.
Proof.
  revert init. induction l as [|y l IH]; intros init Hi Hl; simpl; [done|].
  apply IH.
  - pose proof (Hl y ltac:(left)). lia.
  - intros x Hx. apply Hl. by right.
Qed.

(** X2: a clamped scissor rectangle has no negative member; it is the
    zero rectangle or starts at the requested corner, moved into the
    positive quadrant, and ends inside the requested rectangle; and
    where it has a width (a height) it ends inside every color
    attachment texture of the framebuffer. *)
Theorem clampScissorRect_within (rect : RenderRect) (fb : option MetalFramebuffer) :
  let r := clampScissorRectIfNecessary rect fb in
  ((0 ≤ scX r ∧ 0 ≤ scY r ∧ 0 ≤ scWidth r ∧ 0 ≤ scHeight r) ∧
   (r = {| scX := 0; scY := 0; scWidth := 0; scHeight := 0 |} ∨
    scX r = Z.max 0 (left rect) ∧ scY r = Z.max 0 (top rect) ∧
    scX r + scWidth r ≤ right rect ∧ scY r + scHeight r ≤ bottom rect) ∧
   ∀ f a tex, fb = Some f → a ∈ colorAttachments f → attachmentTexture a = Some tex →
     (0 < scWidth r → scX r + scWidth r ≤ textureWidth tex) ∧
     (0 < scHeight r → scY r + scHeight r ≤ textureHeight tex))%Z.
Proof.
  unfold clampScissorRectIfNecessary. cbv zeta.
  destruct (_ || _) eqn:Hdeg.
  { simpl. split; [lia|]. split; [by left|]. intros; lia. }
  apply orb_false_iff in Hdeg as [H1 H2].
  apply Z.leb_gt in H1, H2.
  destruct fb as [f|]; [|simpl; split; [lia|]; split; [right; lia|]; by intros].
  destruct (omap attachmentTexture (colorAttachments f)) as [|t0 ts] eqn:Hts.
  { simpl. split; [lia|]. split; [right; lia|]. intros f' a tex [= <-] Ha Hat.
    assert (tex ∈ omap attachmentTexture (colorAttachments f)) as Hin.
    { apply list_elem_of_omap. by exists a. }
    rewrite Hts in Hin. by apply elem_of_nil in Hin. }
  rewrite <- Hts. clear Hts t0 ts.
  set (textures := omap attachmentTexture (colorAttachments f)).
  destruct (foldl_min_le textureWidth textures 2147483647) as [_ Hw].
  destruct (foldl_min_le textureHeight textures 2147483647) as [_ Hh].
  set (maxWidth := foldl (λ m x, Z.min m (textureWidth x)) _ textures) in *.
  set (maxHeight := foldl (λ m x, Z.min m (textureHeight x)) _ textures) in *.
  assert (∀ a tex, a ∈ colorAttachments f → attachmentTexture a = Some tex →
          (maxWidth ≤ textureWidth tex ∧ maxHeight ≤ textureHeight tex)%Z) as Hmax.
  { intros a tex Ha Hat.
    assert (tex ∈ textures) as Hin by (apply list_elem_of_omap; by exists a).
    split; [by apply Hw|by apply Hh]. }
  clearbody maxWidth maxHeight. clear Hw Hh.
  simpl. split; [|split].
  - repeat match goal with |- context [if ?c then _ else _] => destruct c eqn:? end;
      rewrite ?Z.ltb_lt, ?Z.ltb_ge in *; lia.
  - right.
    repeat match goal with |- context [if ?c then _ else _] => destruct c eqn:? end;
      rewrite ?Z.ltb_lt, ?Z.ltb_ge in *; lia.
  - intros f' a tex [= <-] Ha Hat. destruct (Hmax a tex Ha Hat).
    repeat match goal with |- context [if ?c then _ else _] => destruct c eqn:? end;
      rewrite ?Z.ltb_lt, ?Z.ltb_ge in *; lia.
Qed.

(** X3: a rectangle that lies in the positive quadrant and inside every
    color attachment texture is passed on as it is. *)
Theorem clampScissorRect_inside (rect : RenderRect) (f : MetalFramebuffer) :
  (0 ≤ left rect < right rect → 0 ≤ top rect < bottom rect →
   right rect ≤ 2147483647 → bottom rect ≤ 2147483647 →
   (∀ a tex, a ∈ colorAttachments f → attachmentTexture a = Some tex →
      right rect ≤ textureWidth tex ∧ bottom rect ≤ textureHeight tex) →
   clampScissorRectIfNecessary rect (Some f) =
     {| scX := left rect; scY := top rect;
        scWidth := right rect - left rect; scHeight := bottom rect - top rect |})%Z.
Proof.
  intros Hx Hy Hr Hb Hin. unfold clampScissorRectIfNecessary. cbv zeta.
  rewrite !Z.max_r by lia.
  assert ((right rect <=? left rect)%Z = false) as -> by (apply Z.leb_gt; lia).
  assert ((bottom rect <=? top rect)%Z = false) as -> by (apply Z.leb_gt; lia).
  simpl.
  set (textures := omap attachmentTexture (colorAttachments f)).
  assert (∀ tex, tex ∈ textures →
          (right rect ≤ textureWidth tex ∧ bottom rect ≤ textureHeight tex)%Z) as Hall.
  { intros tex Ht. apply list_elem_of_omap in Ht as (a & Ha & Hat). by eapply Hin. }
  pose proof (foldl_min_ge textureWidth textures 2147483647 (right rect) Hr
                (λ x Hx', proj1 (Hall x Hx'))) as Hw.
  pose proof (foldl_min_ge textureHeight textures 2147483647 (bottom rect) Hb
                (λ x Hx', proj2 (Hall x Hx'))) as Hh.
  destruct textures as [|t0 ts]; [done|].
  set (maxWidth := foldl (λ m x, Z.min m (textureWidth x)) _ _) in *.
  set (maxHeight := foldl (λ m x, Z.min m (textureHeight x)) _ _) in *.
  assert ((maxWidth <? left rect + (right rect - left rect))%Z = false) as ->
    by (apply Z.ltb_ge; lia).
  assert ((maxHeight <? top rect + (bottom rect - top rect))%Z = false) as ->
    by (apply Z.ltb_ge; lia).
  done.
Qed.

Lemma clampScissorRect_inside_witness :
  clampScissorRectIfNecessary {| left := 10; top := 20; right := 300; bottom := 200 |}
    (Some sampleFramebuffer) =
  {| scX := 10; scY := 20; scWidth := 290; scHeight := 180 |}.
Proof.
  apply (clampScissorRect_inside {| left := 10; top := 20; right := 300; bottom := 200 |}
           sampleFramebuffer); simpl; try lia.
  intros a tex Ha Hat. apply list_elem_of_singleton in Ha as ->.
  injection Hat as <-. simpl. lia.
Defined.

(** ** Flushing the pending clears *)

Lemma closed_openEncoders s : (∀ k, encoderOpen k s = false) → openEncoders s = [].
Proof.
  intros H. unfold openEncoders.
  pose proof (H Render) as H1. pose proof (H Compute) as H2.
  pose proof (H Blit) as H3. pose proof (H Resolve) as H4. simpl in *.
  by rewrite H1, H2, H3, H4.
Qed.

Lemma closed_endActive k s : encoderOpen k s = false → endActive k s = s.
Proof.
  destruct k; simpl; intros H; [done|..].
  - unfold endActiveRenderEncoder. by rewrite H.
  - unfold endActiveComputeEncoder. by rewrite H.
  - unfold endActiveBlitEncoder. by rewrite H.
  - unfold endActiveResolveTextureComputeEncoder. by rewrite H.
Qed.

Lemma handlePendingClears_pending s s' :
  invariant s → handlePendingClears s = Some s' →
  pendingClears s' = clearsTaken (pendingClears s).
Proof.
  intros Hinv H. unfold handlePendingClears in H. unfold clearsTaken.
  destruct (active (pendingClears s)) eqn:Eact; [|by injection H as <-].
  apply bind_Some in H as (s1 & H1 & H). injection H as <-.
  destruct (checkActiveRenderEncoder_spec s s1 (invariant_encoded _ Hinv) H1)
    as (fb & _ & _ & _ & _ & _ & _ & _ & Hcase).
  destruct (endActive_fields Render s1) as (_ & _ & (_ & K & _)).
  change (endActive Render s1) with (endActiveRenderEncoder s1) in K. rewrite K.
  destruct Hcase as [(Hx & _)|(_ & -> & _)].
  - by rewrite Eact, andb_false_r in Hx.
  - unfold clearsTaken. by rewrite Eact.
Qed.

(** A flush that starts by ending the encoders in [closing]. *)
Lemma handlePendingClears_flushed s0 s s' closing :
  invariant s → handlePendingClears s = Some s' →
  trace s = trace s0 ++ closing → Forall (λ c, opens c = None) closing →
  pendingClears s = pendingClears s0 → targetFramebuffer s = targetFramebuffer s0 →
  clearsFlushed s0 s'.
Proof.
  intros Hinv H Htr Hcl Hp Hf.
  destruct (handlePendingClears_spec _ _ Hinv H) as (_ & _ & _ & _ & _ & Hcase).
  unfold clearsFlushed. rewrite Hp in Hcase. destruct (active (pendingClears s0)).
  - destruct Hcase as (_ & _ & fb & colors & depth & stencil & sets &
                       Hfb & Hcol & Hd & Hst & Htr').
    exists fb, colors, depth, stencil, (closing ++ renderPrologueCalls s), sets.
    rewrite <- Hf. do 4 (split; [done|]). split.
    + apply Forall_app. split; [done|apply renderPrologueCalls_opens].
    + rewrite Htr', Htr. by rewrite <- !app_assoc.
  - subst s'. by exists closing.
Qed.

Lemma renderReset_flushed s s' :
  invariant s → renderReset s = Some s' →
  clearsFlushed s s' ∧ pendingClears s' = clearsTaken (pendingClears s).
Proof.
  intros Hinv H. unfold renderReset in H. cbv zeta in H.
  pose proof Hinv as (Hc & Ht & Hs & Hp).
  destruct (endOtherEncoders_spec Render s (conj Hc Ht)) as (He1 & _ & K1 & _ & Htr1).
  fold (closingOthers Render s) in Htr1.
  set (s1 := endOtherEncoders Render s) in *. clearbody s1.
  assert (invariant s1) as Hinv1.
  { apply invariant_intro; [done|by apply (keeps_sized s)|by apply (keeps_pendingTargeted s)]. }
  pose proof (endActive_invariant Render s1 Hinv1) as Hinv2.
  destruct (endActive_fields Render s1) as (_ & _ & K2).
  pose proof (endActive_trace Render s1) as Htr2.
  change (endActive Render s1) with (endActiveRenderEncoder s1) in *.
  set (s2 := endActiveRenderEncoder s1) in *. clearbody s2.
  apply bind_Some in H as (s3 & H3 & H). injection H as <-.
  destruct (keeps_trans _ _ _ K1 K2) as (_ & Kp & Kf).
  split.
  - change (clearsFlushed s s3) .
    apply (handlePendingClears_flushed s s2 s3
             (closingOthers Render s ++ closingCalls Render s1)); try done.
    + rewrite Htr2, Htr1. by rewrite <- app_assoc.
    + apply Forall_app. split; [|apply closingCalls_opens].
      unfold closingOthers. case_decide; [constructor|apply closingCalls_opens].
  - change (pendingClears s3 = clearsTaken (pendingClears s)).
    rewrite (handlePendingClears_pending _ _ Hinv2 H3). by rewrite Kp.
Qed.

(** ** [end] *)

(** X4: in a recording between [begin] and [commit], [end] succeeds,
    flushes the pending clears and leaves no encoder open, in the
    pointers and in the native calls made; the framebuffer and the
    vertex buffer bindings are forgotten. *)
Theorem end_closes_all (cs : list Command) (s : MetalCommandList) :
  recordAll cs newMetalCommandList = Some s → mtl s = true →
  ∃ s', end_ s = Some s' ∧
    openEncoders s' = [] ∧ replay None (trace s') = Some None ∧
    active (pendingClears s') = false ∧ clearsFlushed s s' ∧
    targetFramebuffer s' = None ∧
    vertexBuffers s' = replicate MAX_VERTEX_BUFFER_BINDINGS None.
Proof.
  intros Hrec Hm. pose proof (recordAll_invariant _ _ Hrec) as Hinv.
  pose proof (endActive_invariant Render s Hinv) as Hinv1.
  destruct (endActive_fields Render s) as (_ & Ho1 & (Km & Kp & Kf)).
  pose proof (endActive_trace Render s) as Htr1.
  destruct (handlePendingClears_is_Some (endActive Render s) Hinv1) as [s2 H2];
    [congruence|].
  assert (end_ s = Some (set_vertexBufferOffsets (replicate MAX_VERTEX_BUFFER_BINDINGS 0%Z)
            (set_vertexBuffers (replicate MAX_VERTEX_BUFFER_BINDINGS None)
               (set_targetFramebuffer None
                  (endActive Compute (endActive Blit (endActive Resolve s2))))))) as Hend.
  { unfold end_. cbv zeta. change (endActiveRenderEncoder s) with (endActive Render s).
    by rewrite H2. }
  destruct (end_invariant _ _ Hinv Hend) as ((_ & Ht & _) & Hclosed & Hact).
  eexists. split; [exact Hend|].
  split; [by apply closed_openEncoders|].
  split; [unfold traced in Ht; by rewrite Ht, closed_openEncoder|].
  split; [exact Hact|]. split; [|done].
  pose proof (handlePendingClears_flushed s _ s2 (closingCalls Render s) Hinv1 H2 Htr1
                (closingCalls_opens _ _) Kp Kf) as Hfl.
  unfold clearsFlushed in *.
  destruct (handlePendingClears_spec _ _ Hinv1 H2) as (_ & _ & _ & _ & _ & Hcase).
  rewrite Kp in Hcase. destruct (active (pendingClears s)).
  - destruct Hcase as (_ & Hcl & _).
    assert (endActive Compute (endActive Blit (endActive Resolve s2)) = s2) as E.
    { rewrite (closed_endActive Resolve s2) by apply Hcl.
      rewrite (closed_endActive Blit s2) by apply Hcl.
      by rewrite (closed_endActive Compute s2) by apply Hcl. }
    destruct Hfl as (fb & colors & depth & stencil & closing & sets & Hfl).
    exists fb, colors, depth, stencil, closing, sets.
    destruct Hfl as (? & ? & ? & ? & ? & Htr). do 5 (split; [done|]).
    change (trace (endActive Compute (endActive Blit (endActive Resolve s2))) =
            trace s ++ closing ++
              [renderCommandEncoder colors depth stencil; useResources false sets;
               endEncoding Render]).
    by rewrite E.
  - destruct Hfl as (closing & Htr & Hcl).
    exists (closing ++ closingCalls Resolve s2 ++ closingCalls Blit (endActive Resolve s2)
              ++ closingCalls Compute (endActive Blit (endActive Resolve s2))).
    split.
    + change (trace (endActive Compute (endActive Blit (endActive Resolve s2))) = 
              trace s ++ closing ++ closingCalls Resolve s2 ++
                closingCalls Blit (endActive Resolve s2) ++
                closingCalls Compute (endActive Blit (endActive Resolve s2))).
      rewrite !endActive_trace, Htr. by rewrite <- !app_assoc.
    + repeat (apply Forall_app; split); try done; apply closingCalls_opens.
Qed.

Lemma end_closes_all_witness :
  ∃ s s', recordAll (sampleDraw ++ [ClearColor 0 sampleColor None 0]) newMetalCommandList
            = Some s ∧
    end_ s = Some s' ∧ openEncoders s' = [] ∧ replay None (trace s') = Some None ∧
    active (pendingClears s') = false ∧ targetFramebuffer s' = None.
Proof.
  eassert (E0 : recordAll (sampleDraw ++ [ClearColor 0 sampleColor None 0])
                  newMetalCommandList = Some _) by (vm_compute; reflexivity).
  destruct (end_closes_all _ _ E0 eq_refl) as (s' & H & Ho & Hr & Ha & _ & Hf & _).
  eexists _, s'. split; [exact E0|]. split; [exact H|]. split; [exact Ho|].
  split; [exact Hr|]. split; [exact Ha|exact Hf].
Defined.

(** ** [setFramebuffer] *)

Lemma renderReset_is_Some s :
  invariant s → mtl s = true → is_Some (renderReset s).
Proof.
  intros Hinv Hm. unfold renderReset. cbv zeta.
  pose proof Hinv as (Hc & Ht & Hs & Hp).
  destruct (endOtherEncoders_spec Render s (conj Hc Ht)) as (He1 & _ & K1 & _ & _).
  set (s1 := endOtherEncoders Render s) in *. clearbody s1.
  assert (invariant s1) as Hinv1.
  { apply invariant_intro; [done|by apply (keeps_sized s)|by apply (keeps_pendingTargeted s)]. }
  pose proof (endActive_invariant Render s1 Hinv1) as Hinv2.
  destruct (endActive_fields Render s1) as (_ & _ & K2).
  destruct (keeps_trans _ _ _ K1 K2) as (Km & _ & _).
  change (endActiveRenderEncoder s1) with (endActive Render s1).
  destruct (handlePendingClears_is_Some (endActive Render s1) Hinv2) as [s3 ->];
    [congruence|by eexists].
Qed.

Lemma clearsFlushed_trace s s' s'' :
  trace s'' = trace s' → clearsFlushed s s' → clearsFlushed s s''.
Proof. unfold clearsFlushed. intros ->. done. Qed.

(** X5: in a recording between [begin] and [commit], [setFramebuffer]
    succeeds; it first flushes the pending clears, against the
    framebuffer that was set until then, and leaves no encoder open.
    With a framebuffer it starts afresh: nothing is pending, every load
    action is Load, there is one slot per color attachment and two
    more, and every graphics flag is dirty. *)
Theorem setFramebuffer_switches (cs : list Command) (s : MetalCommandList)
    (fb : option MetalFramebuffer) :
  recordAll cs newMetalCommandList = Some s → mtl s = true →
  ∃ s', setFramebuffer fb s = Some s' ∧
    targetFramebuffer s' = fb ∧ openEncoders s' = [] ∧
    clearsFlushed s s' ∧ active (pendingClears s') = false ∧
    ∀ f, fb = Some f →
      initialAction (pendingClears s') =
        replicate (length (colorAttachments f) + 2) LoadActionLoad ∧
      length (clearValues (pendingClears s')) = length (colorAttachments f) + 2 ∧
      dirtyGraphicsState s' = graphicsSetAll.
Proof.
  intros Hrec Hm. pose proof (recordAll_invariant _ _ Hrec) as Hinv.
  destruct (renderReset_is_Some s Hinv Hm) as [sR HR].
  destruct (renderReset_flushed _ _ Hinv HR) as [Hfl _].
  destruct (renderReset_spec _ _ Hinv HR) as (_ & _ & Hcl & Hact & _).
  rewrite setFramebuffer_unfold, HR. cbn [mbind option_bind].
  destruct fb as [f|]; cbv zeta; eexists; (split; [reflexivity|]).
  - split; [done|]. split; [by apply closed_openEncoders|].
    split; [by apply (clearsFlushed_trace s sR)|]. split; [done|].
    intros f' [= <-]. split; [done|]. split; [|done]. cbn. by rewrite length_replicate.
  - split; [done|]. split; [by apply closed_openEncoders|].
    split; [by apply (clearsFlushed_trace s sR)|]. split; [exact Hact|]. by intros f'.
Qed.

Lemma setFramebuffer_switches_witness :
  ∃ s s', recordAll (sampleDraw ++ [ClearColor 0 sampleColor None 0]) newMetalCommandList
            = Some s ∧
    setFramebuffer None s = Some s' ∧ targetFramebuffer s' = None ∧
    openEncoders s' = [] ∧ clearsFlushed s s'.
Proof.
  eassert (E0 : recordAll (sampleDraw ++ [ClearColor 0 sampleColor None 0])
                  newMetalCommandList = Some _) by (vm_compute; reflexivity).
  destruct (setFramebuffer_switches _ _ None E0 eq_refl) as (s' & H & Hf & Ho & Hfl & _).
  eexists _, s'. split; [exact E0|]. split; [exact H|]. split; [exact Hf|].
  split; [exact Ho|exact Hfl].
Defined.

(** ** Clears are applied once *)

Lemma checkActiveRenderEncoder_pending s s' :
  encoded s → checkActiveRenderEncoder s = Some s' →
  pendingClears s' = clearsTaken (pendingClears s).
Proof.
  intros He H.
  destruct (checkActiveRenderEncoder_spec s s' He H)
    as (fb & _ & _ & _ & _ & _ & _ & _ & [(Hb & -> & _)|(_ & -> & _)]); [|done].
  apply andb_true_iff in Hb as [_ Hb]. apply negb_true_iff in Hb.
  unfold clearsTaken. by rewrite Hb.
Qed.

Lemma idleLoads_taken s s' :
  idleLoads s → pendingClears s' = clearsTaken (pendingClears s) → idleLoads s'.
Proof.
  unfold idleLoads, clearsTaken. intros IH ->.
  destruct (active (pendingClears s)) eqn:E; [|intros _; by apply IH].
  intros _. cbn. apply Forall_fmap, Forall_true. done.
Qed.

Lemma idleLoads_same s s' :
  idleLoads s → pendingClears s' = pendingClears s → idleLoads s'.
Proof. unfold idleLoads. by intros IH ->. Qed.

Lemma quiet_pending s s' : quiet s s' → pendingClears s' = pendingClears s.
Proof. by intros (_ & _ & H & _). Qed.

Lemma resolveTexture_unfold d sr s s' :
  resolveTexture d sr s = Some s' →
  ∃ dst src sR, d = Some dst ∧ sr = Some src ∧ renderReset s = Some sR ∧ mtl sR = true ∧
    s' = emit (endEncoding Render)
           (emit (resolvePassEncoder (textureMtl src) (textureMtl dst)) sR).
Proof.
  intros H. unfold resolveTexture in H.
  apply bind_Some in H as (dst & -> & H). apply bind_Some in H as (src & -> & H).
  cbv zeta in H. apply bind_Some in H as (s3 & H3 & H).
  apply bind_Some in H as (Hm & _ & H). injection H as <-.
  exists dst, src, (set_activeType Render s3). do 2 (split; [done|]).
  split; [|done]. unfold renderReset. cbv zeta. by rewrite H3.
Qed.

Lemma resolveTextureRegion_cases d x y sr r a s s' :
  invariant s → resolveTextureRegion d x y sr r a s = Some s' →
  resolveTexture d sr s = Some s' ∨
  pendingClears s' = pendingClears s.
Proof.
  intros Hinv H. unfold resolveTextureRegion in H.
  apply bind_Some in H as (dst & Ed & H). apply bind_Some in H as (src & Es & H).
  apply bind_Some in H as (_ & _ & H). apply bind_Some in H as (_ & _ & H).
  cbv zeta in H. subst d sr.
  match type of H with (if ?c then _ else _) = _ => destruct c end; [by left|].
  right. apply bind_Some in H as (s2 & H2 & H).
  destruct (endOtherEncoders_spec Resolve s (invariant_encoded _ Hinv))
    as (He1 & _ & (_ & K1 & _) & _).
  destruct (checkActiveResolveTextureComputeEncoder_spec _ _ He1 H2)
    as (_ & _ & _ & (_ & K2 & _) & _).
  destruct r; injection H as <-; cbn; congruence.
Qed.

Lemma record_idleLoads c s s' :
  invariant s → idleLoads s → record c s = Some s' → idleLoads s'.
Proof.
  intros Hinv IH H. pose proof (invariant_encoded _ Hinv) as He.
  destruct (requiredEncoder c) as [[]|] eqn:Hk.
  - destruct c; discriminate Hk.
  - destruct (draw_checks _ _ _ Hk H) as (s1 & H1 & Hq).
    apply (idleLoads_taken s); [done|].
    rewrite (quiet_pending _ _ Hq). by apply checkActiveRenderEncoder_pending.
  - destruct c; try discriminate Hk. simpl in H. unfold dispatch in H.
    apply bind_Some in H as (s1 & H1 & H). apply bind_Some in H as (_ & _ & H).
    apply bind_Some in H as (st & _ & H). injection H as <-.
    destruct (checkActiveComputeEncoder_spec _ _ He H1) as (_ & _ & _ & Hp & _).
    by apply (idleLoads_same s).
  - destruct (copy_checks _ _ _ Hk H) as (s1 & ev & H1 & Hev & ->).
    destruct (blitPrologue_spec _ _ He H1) as (_ & _ & _ & (_ & Hp & _) & _).
    by apply (idleLoads_same s).
  - destruct c; discriminate Hk.
  - destruct c; try discriminate Hk; simpl in H;
      try (apply (idleLoads_same s); [done|]; apply quiet_pending;
           first [ by apply begin_quiet | by apply commit_quiet
                 | by eapply setPipeline_quiet | by eapply setComputePipelineLayout_quiet
                 | by eapply setComputePushConstants_quiet
                 | by eapply setComputeDescriptorSet_quiet
                 | by eapply setGraphicsPipelineLayout_quiet
                 | by eapply setGraphicsPushConstants_quiet
                 | by eapply setGraphicsDescriptorSet_quiet
                 | by eapply setIndexBuffer_quiet | by eapply setVertexBuffers_quiet
                 | by eapply setViewportsOp_quiet | by eapply setScissors_quiet
                 | by eapply setDepthBiasOp_quiet ]).
    + (* end *)
      unfold end_ in H. cbv zeta in H. apply bind_Some in H as (s2 & H2 & H).
      injection H as <-.
      pose proof (handlePendingClears_pending _ _ (endActive_invariant Render s Hinv) H2) as Hp.
      destruct (endActive_fields Render s) as (_ & _ & (_ & K & _)).
      rewrite K in Hp.
      apply (idleLoads_taken s); [done|]. rewrite <- Hp.
      destruct (endActive_fields Resolve s2) as (_ & _ & (_ & K3 & _)).
      destruct (endActive_fields Blit (endActive Resolve s2)) as (_ & _ & (_ & K4 & _)).
      destruct (endActive_fields Compute (endActive Blit (endActive Resolve s2)))
        as (_ & _ & (_ & K5 & _)).
      change (pendingClears (endActive Compute (endActive Blit (endActive Resolve s2))) =
              pendingClears s2). congruence.
    + (* barriers *)
      unfold barriers in H. apply bind_Some in H as (_ & _ & H).
      apply bind_Some in H as (_ & _ & H). case_decide; [by injection H as <-|].
      cbv zeta in H.
      pose proof (handlePendingClears_pending _ _ (endActive_invariant Render s Hinv) H) as Hp.
      destruct (endActive_fields Render s) as (_ & _ & (_ & K & _)).
      rewrite K in Hp.
      by apply (idleLoads_taken s).
    + (* setFramebuffer *)
      rewrite setFramebuffer_unfold in H. apply bind_Some in H as (sR & HR & H).
      destruct (renderReset_flushed _ _ Hinv HR) as [_ Hp].
      destruct fb as [f|]; cbv zeta in H; injection H as <-.
      * intros _. cbn. apply Forall_replicate. done.
      * by apply (idleLoads_taken s).
    + (* clearColor *)
      unfold clearColor in H. apply bind_Some in H as (fb & Hfb & H).
      apply bind_Some in H as (_ & _ & H). apply bind_Some in H as (_ & _ & H).
      case_decide.
      * apply bind_Some in H as (_ & _ & H). apply bind_Some in H as (_ & _ & H).
        injection H as <-. intros Hx. discriminate Hx.
      * apply bind_Some in H as (s1 & H1 & H).
        apply bind_Some in H as (? & _ & H). apply bind_Some in H as (? & _ & H).
        apply bind_Some in H as (? & _ & H). apply clearQuadsOp_quiet in H.
        apply (idleLoads_taken s); [done|].
        rewrite (quiet_pending _ _ H). by apply checkActiveRenderEncoder_pending.
    + (* clearDepthStencil *)
      unfold clearDepthStencil in H. apply bind_Some in H as (fb & Hfb & H).
      apply bind_Some in H as (_ & _ & H). apply bind_Some in H as (_ & _ & H).
      destruct (_ || _); [|by injection H as <-].
      case_decide.
      * cbv zeta in H. apply bind_Some in H as (p1 & _ & H).
        apply bind_Some in H as (p2 & _ & H). injection H as <-.
        intros Hx. discriminate Hx.
      * apply bind_Some in H as (s1 & H1 & H).
        apply bind_Some in H as (? & _ & H). apply bind_Some in H as (? & _ & H).
        apply clearQuadsOp_quiet in H.
        apply (idleLoads_taken s); [done|].
        rewrite (quiet_pending _ _ H). by apply checkActiveRenderEncoder_pending.
    + (* resolveTexture *)
      apply resolveTexture_unfold in H as (dst & src & sR & _ & _ & HR & _ & ->).
      destruct (renderReset_flushed _ _ Hinv HR) as [_ Hp].
      by apply (idleLoads_taken s).
    + destruct (resolveTextureRegion_cases _ _ _ _ _ _ _ _ Hinv H) as [H'|Hp].
      * apply resolveTexture_unfold in H' as (dst & src & sR & _ & _ & HR & _ & ->).
        destruct (renderReset_flushed _ _ Hinv HR) as [_ Hp].
        by apply (idleLoads_taken s).
      * by apply (idleLoads_same s).
    + by injection H as <-.
Qed.

Lemma recordAll_idleLoads cs s :
  recordAll cs newMetalCommandList = Some s → idleLoads s.
Proof.
  assert (∀ cs s0 s, invariant s0 → idleLoads s0 → recordAll cs s0 = Some s → idleLoads s)
    as Hgen.
  { clear. induction cs as [|c cs IH]; intros s0 s Hinv Hidle H; simpl in H.
    - by injection H as <-.
    - apply bind_Some in H as (s1 & H1 & H).
      apply (IH s1); [by eapply record_invariant|by eapply record_idleLoads|done]. }
  apply Hgen; [apply invariant_new|]. intros _. constructor.
Qed.

Lemma colorPasses_loads pending fb colors :
  Forall (λ a, a = LoadActionLoad) (initialAction pending) →
  colorPasses pending fb = Some colors →
  Forall (λ p, loadAction p = LoadActionLoad) colors.
Proof.
  intros Hall H. apply Forall_lookup. intros i p Hp.
  unfold colorPasses in H. apply mapM_imap_Some in H as [Hlen H].
  destruct (lookup_lt_is_Some_2 (colorAttachments fb) i) as [a Ha].
  { rewrite <- Hlen. by eapply lookup_lt_Some. }
  specialize (H i a Ha). rewrite Hp in H. simpl in H. injection H as H.
  unfold attachmentPass in H. symmetry in H.
  apply bind_Some in H as (action & Hact & H). apply bind_Some in H as (value & _ & H).
  injection H as <-. simpl. by eapply (Forall_lookup_1 _ _ _ _ Hall).
Qed.

Lemma attachmentPass_loads pending i a p :
  Forall (λ a, a = LoadActionLoad) (initialAction pending) →
  attachmentPass pending i a = Some p → loadAction p = LoadActionLoad.
Proof.
  intros Hall H. unfold attachmentPass in H.
  apply bind_Some in H as (action & Hact & H). apply bind_Some in H as (value & _ & H).
  injection H as <-. simpl. by eapply (Forall_lookup_1 _ _ _ _ Hall).
Qed.

Lemma depthPass_loads pending fb p :
  Forall (λ a, a = LoadActionLoad) (initialAction pending) →
  depthPass pending fb = Some (Some p) → loadAction p = LoadActionLoad.
Proof.
  intros Hall H. unfold depthPass in H. case_decide; [done|].
  destruct (attachmentPass _ _ _) as [q|] eqn:E; [|done]. injection H as <-.
  by eapply attachmentPass_loads.
Qed.

Lemma stencilPass_loads pending fb p :
  Forall (λ a, a = LoadActionLoad) (initialAction pending) →
  stencilPass pending fb = Some (Some p) → loadAction p = LoadActionLoad.
Proof.
  intros Hall H. unfold stencilPass in H. case_decide; [done|].
  destruct (depthIsStencil fb); [|done].
  destruct (attachmentPass _ _ _) as [q|] eqn:E; [|done]. injection H as <-.
  by eapply attachmentPass_loads.
Qed.

(** X6: a clear is applied once.  In every recording, a draw made
    while no clear is pending either goes on in the open render pass or
    opens one pass that loads every attachment: no load action of it is
    Clear. *)
Theorem draw_without_clear_loads (cs : list Command) (s s' : MetalCommandList)
    (c : Command) :
  recordAll cs newMetalCommandList = Some s →
  requiredEncoder c = Some Render → active (pendingClears s) = false →
  record c s = Some s' →
  ∃ closing o rest,
    trace s' = trace s ++ closing ++ o ++ rest ∧
    Forall (λ c, opens c = None) closing ∧ Forall (λ c, quietCall c = true) rest ∧
    if activeRenderEncoder s then closing = [] ∧ o = []
    else ∃ colors depth stencil,
      o = [renderCommandEncoder colors depth stencil] ∧
      Forall (λ p, loadAction p = LoadActionLoad) colors ∧
      (∀ p, depth = Some p → loadAction p = LoadActionLoad) ∧
      (∀ p, stencil = Some p → loadAction p = LoadActionLoad).
Proof.
  intros Hrec Hk Hidle H.
  pose proof (recordAll_invariant _ _ Hrec) as Hinv.
  pose proof (recordAll_idleLoads _ _ Hrec Hidle) as Hloads.
  destruct (draw_checks _ _ _ Hk H) as (s1 & H1 & Hq).
  destruct (render_quiet_spec _ _ _ Hinv H1 Hq)
    as (_ & _ & _ & _ & _ & o & t & Ho & Htr & Hall).
  exists (renderPrologueCalls s), o, t.
  split; [done|]. split; [apply renderPrologueCalls_opens|]. split; [done|].
  unfold renderOpening in Ho. rewrite Hidle in Ho.
  destruct (activeRenderEncoder s) eqn:Er; simpl in Ho.
  - split; [|done]. unfold renderPrologueCalls. rewrite Hidle, app_nil_r.
    apply closingOthers_closed. intros k Hne.
    destruct (encoderOpen k s) eqn:E; [|done].
    destruct Hinv as (Hc & _). pose proof (Hc _ E). pose proof (Hc Render Er). congruence.
  - destruct Ho as (fb & colors & depth & stencil & _ & Hcol & Hd & Hst & ->).
    exists colors, depth, stencil. split; [done|].
    split; [by eapply colorPasses_loads|].
    split; intros p ->; [by eapply depthPass_loads|by eapply stencilPass_loads].
Qed.

Lemma draw_without_clear_loads_witness :
  ∃ s s' closing o rest,
    recordAll sampleSetup newMetalCommandList = Some s ∧
    record (DrawInstanced 3 1 0 0) s = Some s' ∧
    trace s' = trace s ++ closing ++ o ++ rest ∧
    ∃ colors depth stencil,
      o = [renderCommandEncoder colors depth stencil] ∧
      Forall (λ p, loadAction p = LoadActionLoad) colors.
Proof.
  eassert (E0 : recordAll sampleSetup newMetalCommandList = Some _)
    by (vm_compute; reflexivity).
  match type of E0 with
  | _ = Some ?s0 =>
      eassert (E1 : record (DrawInstanced 3 1 0 0) s0 = Some _) by (vm_compute; reflexivity)
  end.
  destruct (draw_without_clear_loads _ _ _ (DrawInstanced 3 1 0 0) E0 eq_refl eq_refl E1)
    as (closing & o & rest & Htr & _ & _ & colors & depth & stencil & Ho & Hl & _).
  eexists _, _, closing, o, rest. split; [exact E0|]. split; [exact E1|].
  split; [exact Htr|]. exists colors, depth, stencil. split; [exact Ho|exact Hl].
Defined.

(** ** Encoders are reused *)

(** X7: a draw, dispatch or copy recorded while the encoder of its kind
    is open (for a draw, with no clear pending) goes into that encoder:
    the native calls it makes open and end no encoder. *)
Theorem same_kind_reuses_encoder (cs : list Command) (s s' : MetalCommandList)
    (c : Command) (k : EncoderType) :
  recordAll cs newMetalCommandList = Some s →
  requiredEncoder c = Some k → encoderOpen k s = true →
  (k = Render → active (pendingClears s) = false) →
  record c s = Some s' →
  openEncoders s' = [k] ∧
  ∃ t, trace s' = trace s ++ t ∧ Forall (λ c, quietCall c = true) t.
Proof.
  intros Hrec Hk Hopen Hidle H.
  pose proof (recordAll_invariant _ _ Hrec) as Hinv.
  pose proof Hinv as (Hc & _).
  assert (closingOthers k s = []) as Hco.
  { apply closingOthers_closed. intros k' Hne.
    destruct (encoderOpen k' s) eqn:E; [|done].
    pose proof (Hc _ E). pose proof (Hc _ Hopen). congruence. }
  destruct (required_spec _ _ _ _ Hinv Hk H) as (Hne & Hon & _).
  split; [by apply only_openEncoders|].
  destruct k; simpl in Hopen.
  - done.
  - specialize (Hidle eq_refl).
    destruct (draw_checks _ _ _ Hk H) as (s1 & H1 & Hq).
    destruct (render_quiet_spec _ _ _ Hinv H1 Hq)
      as (_ & _ & _ & _ & _ & o & t & Ho & Htr & Hall).
    unfold renderOpening in Ho. rewrite Hopen, Hidle in Ho. simpl in Ho. subst o.
    exists t. split; [|done]. rewrite Htr. unfold renderPrologueCalls.
    by rewrite Hco, Hidle.
  - destruct c; try discriminate Hk. simpl in H.
    destruct (dispatch_spec _ _ _ _ _ Hinv H) as (_ & _ & t & Htr & Hall).
    exists t. split; [|done]. by rewrite Htr, Hco, Hopen.
  - destruct (copy_checks _ _ _ Hk H) as (s1 & ev & H1 & Hev & ->).
    destruct (blit_emit_spec _ _ _ Hinv H1 Hev) as (_ & _ & Htr).
    exists [ev]. split; [|by repeat constructor]. by rewrite Htr, Hco, Hopen.
  - destruct c; discriminate Hk.
Qed.

Lemma same_kind_reuses_encoder_witness :
  ∃ s s' t, recordAll sampleDraw newMetalCommandList = Some s ∧
    record (DrawInstanced 3 1 3 0) s = Some s' ∧
    trace s' = trace s ++ t ∧ Forall (λ c, quietCall c = true) t.
Proof.
  eassert (E0 : recordAll sampleDraw newMetalCommandList = Some _)
    by (vm_compute; reflexivity).
  match type of E0 with
  | _ = Some ?s0 =>
      eassert (E1 : record (DrawInstanced 3 1 3 0) s0 = Some _) by (vm_compute; reflexivity)
  end.
  destruct (same_kind_reuses_encoder _ _ _ (DrawInstanced 3 1 3 0) Render E0 eq_refl eq_refl
              (λ _, eq_refl) E1) as (_ & t & Htr & Hall).
  eexists _, _, t. split; [exact E0|]. split; [exact E1|]. split; [exact Htr|exact Hall].
Defined.

(** ** [clearDepthStencil] *)

Lemma drawInstanced_opens_pass vc ic sv si fb state s :
  invariant s → mtl s = true → targetFramebuffer s = Some fb →
  activeRenderState s = Some state → active (pendingClears s) = true →
  ∃ s2 colors depth stencil flushes,
    drawInstanced vc ic sv si s = Some s2 ∧
    colorPasses (pendingClears s) fb = Some colors ∧
    depthPass (pendingClears s) fb = Some depth ∧
    stencilPass (pendingClears s) fb = Some stencil ∧
    trace s2 = trace s ++ renderPrologueCalls s ++
                 [renderCommandEncoder colors depth stencil] ++ flushes ++
                 [drawPrimitives (primitiveType state) sv vc ic si] ∧
    Forall (λ c, quietCall c = true) flushes ∧
    openEncoders s2 = [Render] ∧ active (pendingClears s2) = false.
Proof.
  intros Hinv Hm Hfb Hrs Hact.
  destruct (drawInstanced_is_Some vc ic sv si s Hinv Hm) as [s2 H2];
    [by rewrite Hfb|by rewrite Hrs|].
  exists s2. unfold drawInstanced in H2.
  apply bind_Some in H2 as (sa & Ha & H2). apply bind_Some in H2 as (sb & Hb & H2).
  apply bind_Some in H2 as (st & Hst & H2). injection H2 as <-.
  pose proof (checkActiveRenderEncoder_renderState _ _ Ha) as Ra.
  pose proof (checkForUpdatesInGraphicsState_renderState _ _ Hb) as Rb.
  assert (st = state) as -> by congruence.
  pose proof Hb as Hb'. apply checkForUpdatesInGraphicsState_quiet in Hb'.
  destruct (render_quiet_spec _ _ _ Hinv Ha Hb')
    as (_ & _ & Hon & Hactb & _ & o & t & Ho & Htr & Hall).
  unfold renderOpening in Ho. rewrite Hact, andb_false_r in Ho.
  destruct Ho as (fb' & colors & depth & stencil & Hfb' & Hcol & Hd & Hs & ->).
  assert (fb' = fb) as -> by congruence.
  exists colors, depth, stencil, t.
  split; [unfold drawInstanced; by rewrite Ha; cbn [mbind option_bind]; rewrite Hb;
          cbn [mbind option_bind]; rewrite Hst|].
  do 3 (split; [done|]). split.
  { change (trace sb ++ [drawPrimitives (primitiveType state) sv vc ic si] =
            trace s ++ renderPrologueCalls s ++ [renderCommandEncoder colors depth stencil] ++
              t ++ [drawPrimitives (primitiveType state) sv vc ic si]).
    rewrite Htr. by rewrite <- !app_assoc. }
  split; [done|]. split; [|exact Hactb].
  apply only_openEncoders; [done|]. intros k. exact (Hon k).
Qed.

Lemma clearDepthStencil_deferred_eq d st dv sv rects fb s :
  sized s → targetFramebuffer s = Some fb →
  attachmentFormat (depthAttachment fb) ≠ UNKNOWN → d || st = true →
  clearDepthStencil d st dv sv rects 0 s =
    Some (set_pendingClears
            (depthStencilPending d st dv sv (length (colorAttachments fb)) (pendingClears s)) s).
Proof.
  intros Hs Hfb Hfmt Hflags. destruct (Hs fb Hfb) as [L1 L2].
  unfold clearDepthStencil. rewrite Hfb. cbn [mbind option_bind].
  rewrite option_guard_True by done. cbn [mbind option_bind].
  rewrite option_guard_True by (right; lia). cbn [mbind option_bind].
  rewrite Hflags. rewrite decide_True by done. cbv zeta.
  unfold depthStencilPending.
  destruct d, st; try discriminate Hflags;
    repeat (cbn [mbind option_bind initialAction clearValues];
            rewrite option_guard_True by (rewrite ?length_insert; lia));
    reflexivity.
Qed.

(** X8: in a recording with a framebuffer that has a depth attachment
    and with a graphics pipeline set, [clearDepthStencil] without
    rectangles succeeds and makes no native call; the draw that follows
    succeeds and opens one render pass.  If depth was to be cleared, its
    depth attachment has load action Clear and the depth value; if
    stencil was to be cleared and the format has stencil, its stencil
    attachment has load action Clear and the stencil value.  The
    stencil value is below 2^24: it goes through a float, which holds
    such a value exactly. *)
Theorem clearDepthStencil_deferred (cs : list Command) (s : MetalCommandList)
    (fb : MetalFramebuffer) (state : MetalRenderState) (d st : bool) (dv : float) (stv : Z)
    (rects : option (list RenderRect)) (vc ic sv si : Z) :
  recordAll cs newMetalCommandList = Some s →
  mtl s = true → targetFramebuffer s = Some fb → activeRenderState s = Some state →
  attachmentFormat (depthAttachment fb) ≠ UNKNOWN → d || st = true →
  (0 ≤ stv < 16777216)%Z →
  ∃ s1 s2,
    clearDepthStencil d st dv stv rects 0 s = Some s1 ∧
    drawInstanced vc ic sv si s1 = Some s2 ∧
    trace s1 = trace s ∧ openEncoders s1 = openEncoders s ∧
    active (pendingClears s1) = true ∧
    ∃ closing colors depth stencil flushes,
      trace s2 = trace s1 ++ closing ++ [renderCommandEncoder colors depth stencil] ++
                 flushes ++ [drawPrimitives (primitiveType state) sv vc ic si] ∧
      Forall (λ c, opens c = None) closing ∧
      Forall (λ c, quietCall c = true) flushes ∧
      (d = true → ∃ p, depth = Some p ∧ loadAction p = LoadActionClear ∧
                       clearValue p = clearDepth dv) ∧
      (st = true → depthIsStencil fb = true →
         ∃ p, stencil = Some p ∧ loadAction p = LoadActionClear ∧
              clearValue p = clearStencil stv).
Proof.
  intros Hrec Hm Hfb Hrs Hfmt Hflags _.
  pose proof (recordAll_invariant _ _ Hrec) as Hinv.
  pose proof Hinv as (Hc & Ht & Hs & Hp). destruct (Hs fb Hfb) as [L1 L2].
  pose proof (clearDepthStencil_deferred_eq d st dv stv rects fb s Hs Hfb Hfmt Hflags) as H1.
  pose proof (clearDepthStencil_invariant _ _ _ _ _ _ _ _ Hinv H1) as Hinv1.
  set (n := length (colorAttachments fb)) in *.
  set (s1 := set_pendingClears _ s) in *.
  assert (mtl s1 = true ∧ targetFramebuffer s1 = Some fb ∧ activeRenderState s1 = Some state ∧
          trace s1 = trace s ∧ openEncoders s1 = openEncoders s ∧
          active (pendingClears s1) = true ∧
          pendingClears s1 = depthStencilPending d st dv stv n (pendingClears s))
    as (Hm1 & Hfb1 & Hrs1 & Htr1 & Hoe1 & Hact1 & Hpend) by done.
  clearbody s1.
  destruct (drawInstanced_opens_pass vc ic sv si fb state s1 Hinv1 Hm1 Hfb1 Hrs1 Hact1)
    as (s2 & colors & depth & stencil & flushes & H2 & Hcol & Hd & Hst & Htr & Hall & _).
  exists s1, s2. do 5 (split; [done|]).
  exists (renderPrologueCalls s1), colors, depth, stencil, flushes.
  split; [done|]. split; [apply renderPrologueCalls_opens|]. split; [done|].
  rewrite Hpend in Hd, Hst. split.
  - intros ->. unfold depthPass in Hd. rewrite decide_False in Hd by done.
    fold n in Hd. unfold attachmentPass, depthStencilPending in Hd. cbn in Hd.
    assert (∀ l : list LoadAction, n < length l →
            (if st then <[n + 1 := LoadActionClear]> (<[n := LoadActionClear]> l)
             else <[n := LoadActionClear]> l) !! n = Some LoadActionClear) as E1.
    { intros l Hl. destruct st; [rewrite list_lookup_insert_ne by lia|];
        by apply list_lookup_insert_eq. }
    assert (∀ l : list ClearValue, n < length l →
            (if st then <[n + 1 := clearStencil stv]> (<[n := clearDepth dv]> l)
             else <[n := clearDepth dv]> l) !! n = Some (clearDepth dv)) as E2.
    { intros l Hl. destruct st; [rewrite list_lookup_insert_ne by lia|];
        by apply list_lookup_insert_eq. }
    rewrite E1, E2 in Hd by lia. cbn in Hd. injection Hd as <-. by eexists.
  - intros -> Hsten. unfold stencilPass in Hst. rewrite decide_False in Hst by done.
    rewrite Hsten in Hst. fold n in Hst.
    unfold attachmentPass, depthStencilPending in Hst. cbn in Hst.
    rewrite !list_lookup_insert_eq in Hst by (destruct d; rewrite ?length_insert; lia).
    cbn in Hst. injection Hst as <-. by eexists.
Qed.

Lemma clearDepthStencil_deferred_witness :
  ∃ s s1 s2, recordAll sampleDepthSetup newMetalCommandList = Some s ∧
    clearDepthStencil true false 1065353216%Z 0 None 0 s = Some s1 ∧
    drawInstanced 3 1 0 0 s1 = Some s2 ∧ trace s1 = trace s ∧
    ∃ closing colors depth stencil flushes p,
      trace s2 = trace s1 ++ closing ++ [renderCommandEncoder colors depth stencil] ++
                 flushes ++ [drawPrimitives PrimitiveTypeTriangle 0 3 1 0] ∧
      depth = Some p ∧ loadAction p = LoadActionClear ∧
      clearValue p = clearDepth 1065353216%Z.
Proof.
  eassert (E0 : recordAll sampleDepthSetup newMetalCommandList = Some _)
    by (vm_compute; reflexivity).
  match type of E0 with
  | _ = Some ?s0 =>
      destruct (clearDepthStencil_deferred sampleDepthSetup s0 sampleDepthFramebuffer
                  sampleRenderState true false 1065353216%Z 0 None 3 1 0 0
                  E0 eq_refl eq_refl eq_refl)
        as (s1 & s2 & H1 & H2 & Ht & _ & _ & c & colors & d & st & f & Htr & _ & _ & Hd & _);
        [discriminate|reflexivity|lia|]
  end.
  destruct (Hd eq_refl) as (p & Hp & Hl & Hv).
  eexists _, s1, s2. split; [exact E0|]. split; [exact H1|]. split; [exact H2|].
  split; [exact Ht|]. exists c, colors, d, st, f, p.
  split; [exact Htr|]. split; [exact Hp|]. split; [exact Hl|exact Hv].
Defined.

(** ** [resolveTexture] *)

(** X9: in a recording between [begin] and [commit], [resolveTexture]
    succeeds.  It flushes the pending clears and ends every encoder;
    then, with no encoder open, it opens a render pass of its own for
    the resolve and ends it at once, so that no encoder is open
    afterwards. *)
Theorem resolveTexture_own_pass (cs : list Command) (s : MetalCommandList)
    (dst src : MetalTexture) :
  recordAll cs newMetalCommandList = Some s → mtl s = true →
  ∃ s' sR,
    resolveTexture (Some dst) (Some src) s = Some s' ∧
    clearsFlushed s sR ∧ replay None (trace sR) = Some None ∧
    trace s' = trace sR ++ [resolvePassEncoder (textureMtl src) (textureMtl dst);
                            endEncoding Render] ∧
    openEncoders s' = [] ∧ active (pendingClears s') = false.
Proof.
  intros Hrec Hm. pose proof (recordAll_invariant _ _ Hrec) as Hinv.
  destruct (renderReset_is_Some s Hinv Hm) as [sR HR].
  destruct (renderReset_flushed _ _ Hinv HR) as [Hfl _].
  destruct (renderReset_spec _ _ Hinv HR) as ((_ & Ht & _) & _ & Hcl & Hact & HmR & _).
  assert (resolveTexture (Some dst) (Some src) s =
          Some (emit (endEncoding Render)
                  (emit (resolvePassEncoder (textureMtl src) (textureMtl dst)) sR))) as H.
  { unfold resolveTexture. cbn [mbind option_bind]. cbv zeta.
    unfold renderReset in HR. cbv zeta in HR.
    apply bind_Some in HR as (s3 & -> & HR). injection HR as <-.
    cbn [mbind option_bind]. by rewrite option_guard_True by congruence. }
  eexists _, sR. split; [exact H|]. split; [done|].
  split; [unfold traced in Ht; by rewrite Ht, closed_openEncoder|].
  split; [cbn; by rewrite <- app_assoc|].
  split; [by apply closed_openEncoders|exact Hact].
Qed.

Lemma resolveTexture_own_pass_witness :
  ∃ s s', recordAll sampleDraw newMetalCommandList = Some s ∧
    resolveTexture
      (Some {| textureMtl := Some 31; descWidth := 64; descHeight := 64;
               nativeWidth := 64; nativeHeight := 64; usageShaderWrite := false |})
      (Some {| textureMtl := Some 32; descWidth := 64; descHeight := 64;
               nativeWidth := 64; nativeHeight := 64; usageShaderWrite := false |}) s
      = Some s' ∧
    openEncoders s' = [] ∧ active (pendingClears s') = false.
Proof.
  eassert (E0 : recordAll sampleDraw newMetalCommandList = Some _)
    by (vm_compute; reflexivity).
  destruct (resolveTexture_own_pass _ _
              {| textureMtl := Some 31; descWidth := 64; descHeight := 64;
                 nativeWidth := 64; nativeHeight := 64; usageShaderWrite := false |}
              {| textureMtl := Some 32; descWidth := 64; descHeight := 64;
                 nativeWidth := 64; nativeHeight := 64; usageShaderWrite := false |}
              E0 eq_refl) as (s' & sR & H & _ & _ & _ & Ho & Ha).
  eexists _, s'. split; [exact E0|]. split; [exact H|]. split; [exact Ho|exact Ha].
Defined.

End CommandListMore.

(* ===================================================================== *)
(** * Further properties of the descriptor set                          *)
(* ===================================================================== *)

Section DescriptorSetMore.
Import Layout DescriptorSet.

Lemma omap_insert_Permutation {A B} (f : A → option B) (l : list A) i old new :
  l !! i = Some old →
  from_option (λ x, [x]) [] (f old) ++ omap f (<[i := new]> l) ≡ₚ
  from_option (λ x, [x]) [] (f new) ++ omap f l.
Proof.
  intros Hi. rewrite (insert_take_drop l i new) by (by eapply lookup_lt_Some).
  rewrite <- (take_drop_middle l i old Hi) at 3.
  rewrite !omap_app. simpl.
  destruct (f old) as [x|], (f new) as [y|]; simpl.
  - rewrite <- !Permutation_middle. apply Permutation_swap.
  - by rewrite <- Permutation_middle.
  - by rewrite <- Permutation_middle.
  - done.
Qed.

Lemma retained_app a b : retained (a ++ b) = retained a ++ retained b.
Proof. apply omap_app. Qed.

Lemma retained_bindImmutableSamplers layout : retained (bindImmutableSamplers layout) = [].
Proof.
  unfold bindImmutableSamplers, retained.
  induction (setBindings layout) as [|b rest IH]; simpl; [done|].
  rewrite omap_app, IH, app_nil_r.
  assert (∀ (l : list ptr) (f : nat → ptr → EncoderCall),
            (∀ i s, callSlot (f i s) ≠ None) →
            omap (λ c, match c with retain r => r | _ => None end) (imap f l) = []) as Him.
  { induction l as [|s l IHl]; intros f Hf; simpl; [done|].
    specialize (Hf 0 s) as Hf0. destruct (f 0 s) eqn:E; try done;
      apply IHl; intros i s'; apply Hf. }
  apply Him. done.
Qed.

(** What one [setDescriptor] does, read off its body. *)
Lemma setDescriptor_unfold i d ds ds' :
  setDescriptor i d ds = Some ds' →
  ∃ indexBase bindingIndex dtype descriptorType old native calls,
    descriptorIndexBases (setLayout ds) !! i = Some indexBase ∧
    descriptorBindingIndices (setLayout ds) !! i = Some bindingIndex ∧
    slotDataType (setLayout ds) i = Some dtype ∧
    getDescriptorType ds bindingIndex = Some descriptorType ∧
    resourceEntries ds !! i = Some old ∧
    match d with
    | None => native = None ∧ calls = []
    | Some d0 =>
        descriptorFits dtype d0 = true ∧
        ∃ c rest, calls = c :: rest ∧
          callSlot c =
            Some (wrap32 (Z.of_nat i - Z.of_nat indexBase + Z.of_nat bindingIndex)) ∧
          Forall (λ c, callSlot c = None) rest ∧
          (dtype = DataTypeSampler → native = None) ∧
          retained calls = from_option (λ x, [x]) [] native
    end ∧
    ds' = {| setLayout := setLayout ds;
             resourceEntries :=
               <[i := {| resource := native; entryType := descriptorType |}]>
                 (resourceEntries ds);
             toReleaseOnDestruction :=
               toReleaseOnDestruction ds ++
                 (if decide (dtype = DataTypeSampler) then []
                  else from_option (λ x, [x]) [] (resource old));
             encoded := encoded ds ++ calls |}.
Proof.
  unfold setDescriptor. intros H.
  apply bind_Some in H as (_ & _ & H).
  apply bind_Some in H as (indexBase & Hbase & H).
  apply bind_Some in H as (bindingIndex & Hbi & H).
  apply bind_Some in H as (slb & Hslb & H).
  apply bind_Some in H as (dtype & Hdt & H).
  apply bind_Some in H as (descriptorType & Hty & H).
  apply bind_Some in H as (old & Hold & H).
  apply bind_Some in H as ([native calls] & Hd & H). injection H as <-.
  exists indexBase, bindingIndex, dtype, descriptorType, old, native, calls.
  split; [done|]. split; [done|].
  split; [unfold slotDataType; rewrite Hbase; simpl; rewrite Hslb; done|].
  split; [done|]. split; [done|]. split.
  - destruct d as [d0|]; [|by injection Hd as <- <-].
    destruct dtype, d0; try done; injection Hd as <- <-; (split; [done|]);
      eexists _, _; (split; [reflexivity|]); (split; [reflexivity|]);
      (split; [repeat (constructor; try done)|]); (split; [done|]);
      unfold retained; simpl;
      first [done | match goal with |- context [from_option _ _ ?o] => by destruct o end].
  - f_equal. destruct (resource old), (decide (dtype = DataTypeSampler));
      simpl; by rewrite ?app_nil_r.
Qed.

Lemma setDescriptor_balanced i d ds ds' :
  setDescriptor i d ds = Some ds' → balanced ds → balanced ds'.
Proof.
  intros H [Hbal Hsam].
  apply setDescriptor_unfold in H
    as (indexBase & bindingIndex & dtype & dty & old & native & calls &
        Hbase & Hbi & Hdt & Hty & Hold & Hd & ->).
  assert (retained calls = from_option (λ x, [x]) [] native ∧
          (dtype = DataTypeSampler → native = None)) as [Hret Hnat].
  { destruct d as [d0|].
    - by destruct Hd as (_ & c & rest & _ & _ & _ & Hn & Hr).
    - by destruct Hd as [-> ->]. }
  split; simpl.
  - unfold releasedOnDestruction in *. simpl. rewrite retained_app, Hbal, Hret.
    pose proof (omap_insert_Permutation resource (resourceEntries ds) i old
                  {| resource := native; entryType := dty |} Hold) as Hp.
    simpl in Hp. destruct (decide (dtype = DataTypeSampler)) as [Hs|Hs].
    + rewrite (Hnat Hs) in Hp |- *. rewrite (Hsam i old Hold) in Hp by congruence.
      simpl in Hp. rewrite !app_nil_r. by rewrite Hp.
    + rewrite <- !(assoc_L (++)). apply Permutation_app_head.
      rewrite Hp. apply Permutation_app_comm.
  - intros j e Hj Hs. destruct (decide (j = i)) as [->|Hne].
    + rewrite list_lookup_insert_eq in Hj by (by eapply lookup_lt_Some).
      injection Hj as <-. simpl. apply Hnat. congruence.
    + rewrite list_lookup_insert_ne in Hj by done. by eapply Hsam.
Qed.

Lemma runCall_setDescriptor c ds ds' :
  runCall c ds = Some ds' → ∃ d, setDescriptor (callIndex c) d ds = Some ds'.
Proof.
  intros H. destruct c as [i b size sv fv | i t tv | i sm]; simpl in *.
  - unfold setBuffer in H. destruct b as [mtl|]; [|by exists None].
    destruct fv as [tex|].
    + apply bind_Some in H as (? & ? & H). by eexists.
    + apply bind_Some in H as (off & ? & H). by eexists.
  - unfold setTexture in H. destruct t as [mtl|]; [|by exists None].
    destruct tv; by eexists.
  - unfold setSampler in H. destruct sm; by eexists.
Qed.

Lemma runCalls_balanced calls : ∀ ds ds',
  runCalls calls ds = Some ds' → balanced ds → balanced ds' ∧ setLayout ds' = setLayout ds.
Proof.
  induction calls as [|c rest IH]; intros ds ds' H Hb; simpl in H.
  - by injection H as <-.
  - apply bind_Some in H as (ds1 & Hc & H).
    pose proof (runCall_table _ _ _ Hc) as (Hl & _).
    apply runCall_setDescriptor in Hc as [d Hd].
    destruct (IH _ _ H (setDescriptor_balanced _ _ _ _ Hd Hb)) as [? ?].
    split; [done|congruence].
Qed.

Lemma newMetalDescriptorSet_balanced device desc ds :
  newMetalDescriptorSet device desc = Some ds → balanced ds.
Proof.
  unfold newMetalDescriptorSet. intros H.
  apply bind_Some in H as (_ & _ & H). apply bind_Some in H as (layout & _ & H).
  injection H as <-. split; simpl.
  - unfold releasedOnDestruction. simpl.
    change (retained (setArgumentBuffer :: bindImmutableSamplers layout))
      with (retained (bindImmutableSamplers layout)).
    rewrite retained_bindImmutableSamplers.
    induction (length (descriptorBindingIndices layout)); simpl; done.
  - intros i e He _. apply lookup_replicate in He as [-> _]. done.
Qed.

(** X14: whatever sequence of [setBuffer], [setTexture] and
    [setSampler] calls a descriptor set has gone through, the resources
    it has retained are, as a multiset, the resources its destructor
    releases: each retain is matched by one release. *)
Theorem retains_match_releases (device : MetalDevice) (desc : RenderDescriptorSetDesc)
    (ds0 : MetalDescriptorSet) (calls : list SetCall) (ds : MetalDescriptorSet) :
  newMetalDescriptorSet device desc = Some ds0 →
  runCalls calls ds0 = Some ds →
  retained (encoded ds) ≡ₚ releasedOnDestruction ds.
Proof.
  intros Hnew Hrun. apply newMetalDescriptorSet_balanced in Hnew.
  by destruct (runCalls_balanced _ _ _ Hrun Hnew) as [[? _] _].
Qed.

Lemma retains_match_releases_witness :
  ∃ ds0 ds,
    newMetalDescriptorSet boundlessDevice
      {| descriptorRanges := [unitRange TEXTURE 0 None; unitRange SAMPLER 1 None];
         lastRangeIsBoundless := false; boundlessRangeSize := 0 |} = Some ds0 ∧
    runCalls [CallSetTexture 0 (Some (Some 42)) None; CallSetSampler 1 (Some (Some 7));
              CallSetTexture 0 (Some (Some 43)) None] ds0 = Some ds ∧
    retained (encoded ds) = [42; 43] ∧
    retained (encoded ds) ≡ₚ releasedOnDestruction ds.
Proof.
  eassert (E0 : newMetalDescriptorSet boundlessDevice
                  {| descriptorRanges := [unitRange TEXTURE 0 None; unitRange SAMPLER 1 None];
                     lastRangeIsBoundless := false; boundlessRangeSize := 0 |} = Some _)
    by (vm_compute; reflexivity).
  match type of E0 with
  | _ = Some ?ds0 =>
      eassert (E1 : runCalls [CallSetTexture 0 (Some (Some 42)) None;
                              CallSetSampler 1 (Some (Some 7));
                              CallSetTexture 0 (Some (Some 43)) None] ds0 = Some _)
        by (vm_compute; reflexivity)
  end.
  eexists _, _. split; [exact E0|]. split; [exact E1|]. split; [reflexivity|].
  exact (retains_match_releases _ _ _ _ _ E0 E1).
Defined.

Lemma newMetalDescriptorSet_layout device desc ds :
  newMetalDescriptorSet device desc = Some ds →
  newMetalDescriptorSetLayout device desc = Some (setLayout ds).
Proof.
  unfold newMetalDescriptorSet. intros H.
  apply bind_Some in H as (_ & _ & H). apply bind_Some in H as (layout & Hl & H).
  by injection H as <-.
Qed.

Lemma runCalls_table calls : ∀ ds ds',
  runCalls calls ds = Some ds' →
  setLayout ds' = setLayout ds ∧ length (resourceEntries ds') = length (resourceEntries ds).
Proof.
  induction calls as [|c rest IH]; intros ds ds' H; simpl in H.
  - by injection H as <-.
  - apply bind_Some in H as (ds1 & Hc & H).
    apply runCall_table in Hc as (Hl & Hn & _).
    destruct (IH _ _ H) as [? ?]. split; congruence.
Qed.

(** What [setDescriptor] encodes and records for a descriptor of the
    struct the data type of its slot calls for. *)
Lemma setDescriptor_fits i d ds ds' :
  setDescriptor i d ds = Some ds' →
  ∃ indexBase bindingIndex descriptorType,
    descriptorIndexBases (setLayout ds) !! i = Some indexBase ∧
    descriptorBindingIndices (setLayout ds) !! i = Some bindingIndex ∧
    getDescriptorType ds bindingIndex = Some descriptorType ∧
    encoded ds' =
      encoded ds ++
        descriptorCalls d (wrap32 (Z.of_nat i - Z.of_nat indexBase + Z.of_nat bindingIndex)) ∧
    resourceEntries ds' =
      <[i := {| resource := descriptorResource d; entryType := descriptorType |}]>
        (resourceEntries ds).
Proof.
  unfold setDescriptor. intros H.
  apply bind_Some in H as (_ & _ & H). apply bind_Some in H as (indexBase & Hbase & H).
  apply bind_Some in H as (bindingIndex & Hbi & H). apply bind_Some in H as (slb & _ & H).
  apply bind_Some in H as (dtype & _ & H). apply bind_Some in H as (dty & Hty & H).
  apply bind_Some in H as (old & Hold & H).
  apply bind_Some in H as ([native calls] & Hd & H). injection H as <-. simpl.
  exists indexBase, bindingIndex, dty. split; [done|]. split; [done|]. split; [done|].
  destruct d as [d0|]; [|by injection Hd as <- <-].
  by destruct dtype, d0; try done; injection Hd as <- <-.
Qed.

(** X15: on a descriptor set built from ranges with distinct bindings,
    a descriptor written at the flat index of the [j]-th descriptor of
    a range, of the struct the data type of the slot calls for, goes to
    the argument slot [binding + j] of that range: a texture and a
    buffer with [setTexture] and [setBuffer] and a [retain], a sampler
    with [setSamplerState], a null descriptor with no call.  The entry
    of the index then holds the texture or the buffer of the
    descriptor, null for a sampler and for a null descriptor, and the
    type of the range; the other entries are as they were. *)
Theorem setDescriptor_slot (device : MetalDevice) (desc : RenderDescriptorSetDesc)
    (ds0 : MetalDescriptorSet) (calls : list SetCall) (ds ds' : MetalDescriptorSet)
    (k j : nat) (r : RenderDescriptorRange) (d : option Descriptor) :
  newMetalDescriptorSet device desc = Some ds0 →
  runCalls calls ds0 = Some ds →
  NoDup (binding <$> descriptorRanges desc) →
  descriptorRanges desc !! k = Some r → j < count r →
  (∀ d0 dtype, d = Some d0 →
     slotDataType (setLayout ds) (rangeBase (descriptorRanges desc) k + j) = Some dtype →
     descriptorFits dtype d0 = true) →
  setDescriptor (rangeBase (descriptorRanges desc) k + j) d ds = Some ds' →
  encoded ds' = encoded ds ++ descriptorCalls d (wrap32 (Z.of_nat (binding r + j))) ∧
  resourceEntries ds' !! (rangeBase (descriptorRanges desc) k + j) =
    Some {| resource := descriptorResource d; entryType := type r |} ∧
  (∀ i, i ≠ rangeBase (descriptorRanges desc) k + j →
     resourceEntries ds' !! i = resourceEntries ds !! i).
Proof.
  intros Hnew Hrun Hnd Hk Hj _ Hset.
  pose proof (newMetalDescriptorSet_layout _ _ _ Hnew) as Hlay.
  destruct (newMetalDescriptorSet_table _ _ _ Hnew) as [Hlen0 _].
  destruct (runCalls_table _ _ _ Hrun) as [Hl Hlen]. rewrite <- Hl in Hlay, Hlen0.
  rewrite <- Hlen in Hlen0.
  destruct (layout_flat_lookup _ _ _ Hlay) as (_ & _ & Hdec).
  destruct (Hdec k r j Hk Hj) as [Hb1 Hb2].
  destruct (getBinding_lookup _ _ _ Hlay Hnd) as [Hget _].
  apply setDescriptor_fits in Hset
    as (indexBase & bindingIndex & dty & Hbase & Hbi & Hty & Henc & Hent).
  rewrite Hb1 in Hbase. injection Hbase as <-. rewrite Hb2 in Hbi. injection Hbi as <-.
  unfold getDescriptorType in Hty.
  rewrite (Hget r) in Hty by (by eapply list_elem_of_lookup_2). injection Hty as <-.
  rewrite Henc, Hent. split; [do 3 f_equal; lia|]. split.
  - apply list_lookup_insert_eq. rewrite Hlen0. by eapply lookup_lt_Some.
  - intros i Hi. by rewrite list_lookup_insert_ne.
Qed.

Lemma setDescriptor_slot_witness :
  ∃ ds0 ds' ds'',
    newMetalDescriptorSet boundlessDevice
      {| descriptorRanges :=
           [ unitRange SAMPLER 1 None;
             {| type := TEXTURE; binding := 4; count := 3; immutableSampler := None |} ];
         lastRangeIsBoundless := false; boundlessRangeSize := 0 |} = Some ds0 ∧
    setDescriptor 3 (Some (TextureDescriptor (Some 9))) ds0 = Some ds' ∧
    setDescriptor 3 None ds' = Some ds'' ∧
    encoded ds' = encoded ds0 ++ [encSetTexture (Some 9) 6; retain (Some 9)] ∧
    resourceEntries ds' !! 3 = Some {| resource := Some 9; entryType := TEXTURE |} ∧
    encoded ds'' = encoded ds' ∧
    resourceEntries ds'' !! 3 = Some {| resource := None; entryType := TEXTURE |}.
Proof.
  eassert (E0 : newMetalDescriptorSet boundlessDevice
                  {| descriptorRanges :=
                       [ unitRange SAMPLER 1 None;
                         {| type := TEXTURE; binding := 4; count := 3;
                            immutableSampler := None |} ];
                     lastRangeIsBoundless := false; boundlessRangeSize := 0 |} = Some _)
    by (vm_compute; reflexivity).
  match type of E0 with
  | _ = Some ?ds0 =>
      eassert (E1 : setDescriptor 3 (Some (TextureDescriptor (Some 9))) ds0 = Some _)
        by (vm_compute; reflexivity)
  end.
  match type of E1 with
  | _ = Some ?ds1 =>
      eassert (E2 : setDescriptor 3 None ds1 = Some _) by (vm_compute; reflexivity)
  end.
  assert (NoDup [1; 4]) as Hnd by (apply (bool_decide_unpack _); vm_compute; exact I).
  match type of E1 with
  | setDescriptor _ _ ?ds0 = Some ?ds1 =>
      destruct (setDescriptor_slot _ _ ds0 [] ds0 ds1 1 2
                  {| type := TEXTURE; binding := 4; count := 3; immutableSampler := None |}
                  (Some (TextureDescriptor (Some 9))) E0 eq_refl Hnd eq_refl (le_n 3))
        as (A1 & A2 & _);
        [intros d0 dtype [= <-] [= <-]; reflexivity|exact E1|]
  end.
  match type of E2 with
  | setDescriptor _ _ ?ds1 = Some ?ds2 =>
      destruct (setDescriptor_slot _ _ _
                  [CallSetTexture 3 (Some (Some 9)) None] ds1 ds2 1 2
                  {| type := TEXTURE; binding := 4; count := 3; immutableSampler := None |}
                  None E0 eq_refl Hnd eq_refl (le_n 3))
        as (B1 & B2 & _); [discriminate|exact E2|]
  end.
  eexists _, _, _. split; [exact E0|]. split; [exact E1|]. split; [exact E2|].
  split; [exact A1|]. split; [exact A2|]. split; [|exact B2].
  rewrite B1. apply app_nil_r.
Defined.

Lemma StronglySorted_snoc_inv {A} (R : A → A → Prop) l x :
  StronglySorted R (l ++ [x]) → StronglySorted R l ∧ Forall (λ y, R y x) l.
Proof.
  induction l as [|y l IH]; simpl; intros H; [by split; constructor|].
  inversion_clear H as [|?? Hs Hy]. destruct (IH Hs) as [IH1 IH2].
  apply Forall_app in Hy as [Hy1 Hy2]. inversion_clear Hy2.
  split; by constructor.
Qed.

Lemma sortRanges_sorted_id ranges :
  StronglySorted (λ x y, binding x < binding y) ranges → sortRanges ranges = ranges.
Proof.
  induction ranges as [|r init IH] using rev_ind; intros Hs; [done|].
  apply StronglySorted_snoc_inv in Hs as [Hinit Hlt].
  by rewrite sortRanges_snoc, IH.
Qed.

Lemma rangeBase_unit ranges k :
  Forall (λ x, count x = 1) (take k ranges) → k ≤ length ranges → rangeBase ranges k = k.
Proof.
  unfold rangeBase. revert ranges. induction k as [|k IH]; intros [|r rest] H Hk;
    simpl in *; try done; try lia.
  inversion_clear H as [|?? H1 H2]. rewrite H1. rewrite IH; [done|done|lia].
Qed.

(** The data type [setDescriptor] works with on a set built from ranges
    with distinct bindings, and when the call goes through. *)
Lemma setDescriptor_type device desc ds0 calls ds k j r :
  newMetalDescriptorSet device desc = Some ds0 →
  runCalls calls ds0 = Some ds →
  NoDup (binding <$> descriptorRanges desc) →
  descriptorRanges desc !! k = Some r → j < count r →
  let i := rangeBase (descriptorRanges desc) k + j in
  slotDataType (setLayout ds) i =
    sortRanges (descriptorRanges desc) !! rangeBase (descriptorRanges desc) k ≫=
      (λ r', mapDataType (type r')) ∧
  (is_Some (setDescriptor i None ds) ↔ is_Some (slotDataType (setLayout ds) i)) ∧
  (∀ d0 dt, slotDataType (setLayout ds) i = Some dt → descriptorFits dt d0 = true →
     ∃ ds', setDescriptor i (Some d0) ds = Some ds' ∧
       encoded ds' =
         encoded ds ++ descriptorCalls (Some d0) (wrap32 (Z.of_nat (binding r + j))) ∧
       resourceEntries ds' !! i =
         Some {| resource := descriptorResource (Some d0); entryType := type r |}).
Proof.
  intros Hnew Hrun Hnd Hk Hj i.
  pose proof (newMetalDescriptorSet_layout _ _ _ Hnew) as Hlay.
  destruct (newMetalDescriptorSet_table _ _ _ Hnew) as [Hlen0 _].
  destruct (runCalls_table _ _ _ Hrun) as [Hl Hlen]. rewrite <- Hl in Hlay, Hlen0.
  rewrite <- Hlen in Hlen0. clear Hlen.
  destruct (layout_flat_lookup _ _ _ Hlay) as (_ & _ & Hdec).
  destruct (Hdec k r j Hk Hj) as [Hb1 Hb2]. fold i in Hb1, Hb2.
  destruct (getBinding_lookup _ _ _ Hlay Hnd) as [Hget _].
  destruct (layout_table _ _ _ Hlay Hnd) as (Hsb & _).
  set (base := rangeBase (descriptorRanges desc) k) in *.
  assert (i < length (descriptorBindingIndices (setLayout ds))) as Hi
    by (by eapply lookup_lt_Some).
  destruct (lookup_lt_is_Some_2 (resourceEntries ds) i) as [old Hold]; [lia|].
  assert (slotDataType (setLayout ds) i =
            sortRanges (descriptorRanges desc) !! base ≫= (λ r', mapDataType (type r')))
    as Hsdt.
  { unfold slotDataType. rewrite Hb1. cbn [mbind option_bind].
    rewrite Hsb, list_lookup_fmap. by destruct (sortRanges (descriptorRanges desc) !! base). }
  assert (∀ d, setDescriptor i d ds =
               dtype ← slotDataType (setLayout ds) i;
               '(nativeResource, calls) ←
                 match d with
                 | None => Some (None, [])
                 | Some d0 =>
                     if descriptorFits dtype d0
                     then Some (descriptorResource d,
                                descriptorCalls d (wrap32 (Z.of_nat (binding r + j))))
                     else None
                 end;
               Some {| setLayout := setLayout ds;
                       resourceEntries :=
                         <[i := {| resource := nativeResource; entryType := type r |}]>
                           (resourceEntries ds);
                       toReleaseOnDestruction :=
                         match resource old with
                         | Some x => if decide (dtype = DataTypeSampler)
                                     then toReleaseOnDestruction ds
                                     else toReleaseOnDestruction ds ++ [x]
                         | None => toReleaseOnDestruction ds
                         end;
                       encoded := encoded ds ++ calls |}) as Hset.
  { intros d. unfold setDescriptor, slotDataType.
    rewrite option_guard_True by done. cbn [mbind option_bind].
    rewrite Hb1. cbn [mbind option_bind]. rewrite Hb2. cbn [mbind option_bind].
    destruct (setBindings (setLayout ds) !! base) as [slb|]; [|done].
    cbn [mbind option_bind].
    destruct (mapDataType (descriptorType slb)) as [dtype|]; [|done].
    cbn [mbind option_bind].
    unfold getDescriptorType. rewrite (Hget r) by (by eapply list_elem_of_lookup_2).
    cbn [mbind option_bind]. rewrite Hold. cbn [mbind option_bind].
    replace (Z.of_nat i - Z.of_nat base + Z.of_nat (binding r))%Z
      with (Z.of_nat (binding r + j)) by (unfold i; lia).
    destruct d as [d0|]; [|done]. by destruct dtype, d0. }
  split; [exact Hsdt|]. split.
  - rewrite Hset. destruct (slotDataType (setLayout ds) i) as [dt|]; cbn [mbind option_bind].
    + split; by eexists.
    + split; by intros [? ?].
  - intros d0 dt Hdt Hfit. rewrite Hset, Hdt. cbn [mbind option_bind]. rewrite Hfit.
    cbn [mbind option_bind]. eexists. split; [done|]. cbn. split; [done|].
    apply list_lookup_insert_eq. lia.
Qed.

(** X16: on a descriptor set built from ranges with distinct bindings,
    a descriptor written into a range is bound with the native data
    type of the range that stands, in binding order, at the position
    given by the flat start index of the written range, which need not
    be the written range.  A null descriptor goes through exactly when
    there is such a range; a descriptor of the struct of that data type
    goes through, is encoded at the argument slot [binding + j] of the
    written range and is recorded with the type of the written range. *)
Theorem setDescriptor_type_source (device : MetalDevice) (desc : RenderDescriptorSetDesc)
    (ds0 : MetalDescriptorSet) (calls : list SetCall) (ds : MetalDescriptorSet)
    (k j : nat) (r : RenderDescriptorRange) :
  newMetalDescriptorSet device desc = Some ds0 →
  runCalls calls ds0 = Some ds →
  NoDup (binding <$> descriptorRanges desc) →
  descriptorRanges desc !! k = Some r → j < count r →
  let i := rangeBase (descriptorRanges desc) k + j in
  slotDataType (setLayout ds) i =
    sortRanges (descriptorRanges desc) !! rangeBase (descriptorRanges desc) k ≫=
      (λ r', mapDataType (type r')) ∧
  (is_Some (setDescriptor i None ds) ↔ is_Some (slotDataType (setLayout ds) i)) ∧
  (∀ d0 dt, slotDataType (setLayout ds) i = Some dt → descriptorFits dt d0 = true →
     ∃ ds', setDescriptor i (Some d0) ds = Some ds' ∧
       encoded ds' =
         encoded ds ++ descriptorCalls (Some d0) (wrap32 (Z.of_nat (binding r + j))) ∧
       resourceEntries ds' !! i =
         Some {| resource := descriptorResource (Some d0); entryType := type r |}).
Proof. apply setDescriptor_type. Qed.

Lemma setDescriptor_type_source_witness :
  ∃ ds0,
    newMetalDescriptorSet boundlessDevice
      {| descriptorRanges :=
           [ {| type := TEXTURE; binding := 4; count := 3; immutableSampler := None |};
             unitRange SAMPLER 1 None ];
         lastRangeIsBoundless := false; boundlessRangeSize := 0 |} = Some ds0 ∧
    mapDataType TEXTURE = Some DataTypeTexture ∧
    slotDataType (setLayout ds0) 0 = Some DataTypeSampler ∧
    slotDataType (setLayout ds0) 3 = None ∧
    ¬ is_Some (setDescriptor 3 None ds0) ∧
    ∃ ds', setDescriptor 0 (Some (SamplerDescriptor (Some 7))) ds0 = Some ds' ∧
           encoded ds' = encoded ds0 ++ [encSetSamplerState (Some 7) 4] ∧
           resourceEntries ds' !! 0 = Some {| resource := None; entryType := TEXTURE |}.
Proof.
  eassert (E0 : newMetalDescriptorSet boundlessDevice
                  {| descriptorRanges :=
                       [ {| type := TEXTURE; binding := 4; count := 3;
                            immutableSampler := None |};
                         unitRange SAMPLER 1 None ];
                     lastRangeIsBoundless := false; boundlessRangeSize := 0 |} = Some _)
    by (vm_compute; reflexivity).
  assert (NoDup [4; 1]) as Hnd by (apply (bool_decide_unpack _); vm_compute; exact I).
  match type of E0 with
  | _ = Some ?ds0 =>
      destruct (setDescriptor_type_source _ _ ds0 [] ds0 0 0
                  {| type := TEXTURE; binding := 4; count := 3; immutableSampler := None |}
                  E0 eq_refl Hnd eq_refl) as (A1 & _ & A3); [simpl; lia|];
      destruct (setDescriptor_type_source _ _ ds0 [] ds0 1 0
                  (unitRange SAMPLER 1 None) E0 eq_refl Hnd eq_refl) as (B1 & B2 & _);
        [simpl; lia|]
  end.
  eexists. split; [exact E0|]. split; [reflexivity|]. split; [exact A1|].
  split; [exact B1|]. split.
  - intros H. apply B2 in H. rewrite B1 in H. by destruct H.
  - apply (A3 (SamplerDescriptor (Some 7)) DataTypeSampler A1 eq_refl).
Defined.

(** X17: when the ranges of the description are in strictly ascending
    binding order and every range before the written one has one
    descriptor, a descriptor is bound with the data type of its own
    range: a descriptor of the struct of that type goes through, is
    encoded at the argument slot [binding + j] of the range and is
    recorded with its resource and the type of the range. *)
Theorem setDescriptor_ascending (device : MetalDevice) (desc : RenderDescriptorSetDesc)
    (ds0 : MetalDescriptorSet) (calls : list SetCall) (ds : MetalDescriptorSet)
    (k j : nat) (r : RenderDescriptorRange) :
  newMetalDescriptorSet device desc = Some ds0 →
  runCalls calls ds0 = Some ds →
  StronglySorted (λ x y, binding x < binding y) (descriptorRanges desc) →
  Forall (λ x, count x = 1) (take k (descriptorRanges desc)) →
  descriptorRanges desc !! k = Some r → j < count r →
  slotDataType (setLayout ds) (k + j) = mapDataType (type r) ∧
  is_Some (setDescriptor (k + j) None ds) ∧
  (∀ d0 dt, mapDataType (type r) = Some dt → descriptorFits dt d0 = true →
     ∃ ds', setDescriptor (k + j) (Some d0) ds = Some ds' ∧
       encoded ds' =
         encoded ds ++ descriptorCalls (Some d0) (wrap32 (Z.of_nat (binding r + j))) ∧
       resourceEntries ds' !! (k + j) =
         Some {| resource := descriptorResource (Some d0); entryType := type r |}).
Proof.
  intros Hnew Hrun Hs Hunit Hk Hj.
  assert (NoDup (binding <$> descriptorRanges desc)) as Hnd.
  { clear -Hs. induction Hs as [|x l Hs IH Hx]; simpl; [constructor|].
    apply NoDup_cons. split; [|done]. intros Hin.
    apply list_elem_of_fmap in Hin as (y & Hy & Hin).
    rewrite Forall_forall in Hx. specialize (Hx y Hin). lia. }
  destruct (setDescriptor_type _ _ _ _ _ k j r Hnew Hrun Hnd Hk Hj) as (H1 & H2 & H3).
  cbv zeta in H1, H2, H3.
  rewrite sortRanges_sorted_id in H1 by done.
  rewrite rangeBase_unit in H1, H2, H3 by (try done; apply lookup_lt_Some in Hk; lia).
  rewrite Hk in H1. cbn [mbind option_bind] in H1.
  split; [exact H1|]. split.
  - apply H2. rewrite H1.
    pose proof (newMetalDescriptorSet_layout _ _ _ Hnew) as Hlay.
    destruct (newMetalDescriptorSetLayout_is_Some device desc) as [Hok _].
    destruct (Hok (ex_intro _ _ Hlay)) as (_ & Hall).
    rewrite Forall_forall in Hall.
    specialize (Hall r (list_elem_of_lookup_2 _ _ _ Hk)). destruct Hall as [_ Hty].
    by destruct (type r).
  - intros d0 dt Hdt Hfit. apply (H3 d0 dt); [by rewrite H1|done].
Qed.

Lemma setDescriptor_ascending_witness :
  ∃ ds0 ds',
    newMetalDescriptorSet boundlessDevice
      {| descriptorRanges :=
           [ unitRange SAMPLER 1 None;
             {| type := TEXTURE; binding := 4; count := 3; immutableSampler := None |} ];
         lastRangeIsBoundless := false; boundlessRangeSize := 0 |} = Some ds0 ∧
    slotDataType (setLayout ds0) 3 = Some DataTypeTexture ∧
    setDescriptor 3 (Some (TextureDescriptor (Some 9))) ds0 = Some ds' ∧
    encoded ds' = encoded ds0 ++ [encSetTexture (Some 9) 6; retain (Some 9)] ∧
    resourceEntries ds' !! 3 = Some {| resource := Some 9; entryType := TEXTURE |}.
Proof.
  eassert (E0 : newMetalDescriptorSet boundlessDevice
                  {| descriptorRanges :=
                       [ unitRange SAMPLER 1 None;
                         {| type := TEXTURE; binding := 4; count := 3;
                            immutableSampler := None |} ];
                     lastRangeIsBoundless := false; boundlessRangeSize := 0 |} = Some _)
    by (vm_compute; reflexivity).
  match type of E0 with
  | _ = Some ?ds0 =>
      destruct (setDescriptor_ascending _ _ ds0 [] ds0 1 2
                  {| type := TEXTURE; binding := 4; count := 3; immutableSampler := None |}
                  E0 eq_refl) as (A1 & _ & A3)
  end.
  - repeat constructor; simpl; lia.
  - repeat constructor.
  - reflexivity.
  - simpl; lia.
  - destruct (A3 (TextureDescriptor (Some 9)) DataTypeTexture eq_refl eq_refl)
      as (ds' & B1 & B2 & B3).
    eexists _, ds'. split; [exact E0|]. split; [exact A1|]. split; [exact B1|].
    split; [exact B2|exact B3].
Defined.

End DescriptorSetMore.

(* ===================================================================== *)
(** * Properties of the command queue and of presentation               *)
(* ===================================================================== *)

Section CommandQueueProperties.
Import CommandList CommandQueue.

Lemma waitsOn_app e t1 t2 : waitsOn e (t1 ++ t2) = waitsOn e t1 + waitsOn e t2.
Proof. unfold waitsOn. by rewrite filter_app, length_app. Qed.

(** The calls that encode neither a wait nor a signal. *)
Lemma waitsOn_plain e t cs :
  Forall (λ c, ∀ b e v, c ≠ encodeWait b e v) cs → waitsOn e (t ++ cs) = waitsOn e t.
Proof.
  intros H. rewrite waitsOn_app. replace (waitsOn e cs) with 0; [lia|].
  induction H as [|c cs Hc _ IH]; [done|]. unfold waitsOn in *.
  rewrite filter_cons. destruct (decide _) as [Hw|]; [|done].
  destruct c; try done. by destruct (Hc buffer event value).
Qed.

Lemma valuesCounted_snoc t c :
  valuesCounted t →
  (∀ b e v, c = encodeWait b e v ∨ c = encodeSignalEvent b e v →
            v = wrap64 (1 + Z.of_nat (waitsOn e t))) →
  valuesCounted (t ++ [c]).
Proof.
  intros Ht Hc t1 c' t2 E b e v Hc'.
  destruct t2 as [|x t2 _] using rev_ind.
  - apply app_inj_tail in E as [-> ->]. by eapply Hc.
  - rewrite app_comm_cons, (assoc_L (++)) in E. apply app_inj_tail in E as [-> _].
    by eapply Ht.
Qed.

Lemma valuesCounted_plain t cs :
  valuesCounted t →
  Forall (λ c, ∀ b e v, c ≠ encodeWait b e v ∧ c ≠ encodeSignalEvent b e v) cs →
  valuesCounted (t ++ cs).
Proof.
  intros Ht H. revert t Ht. induction H as [|c cs Hc _ IH]; intros t Ht.
  - by rewrite app_nil_r.
  - rewrite (cons_middle c), (assoc_L (++)). apply IH, valuesCounted_snoc; [done|].
    intros b e v [E|E]; by destruct (Hc b e v).
Qed.

Lemma counted_submit cs o :
  Forall (λ c, ∀ b e v, c ≠ encodeWait b e v ∧ c ≠ encodeSignalEvent b e v) cs →
  counted o → counted (submit cs o).
Proof.
  intros H (Hnd & Hval & Ht). split; [done|]. split; simpl.
  - intros i s Hs. rewrite waitsOn_plain; [by eapply Hval|].
    eapply Forall_impl; [exact H|]. intros c Hc b e v. by destruct (Hc b e v).
  - by apply valuesCounted_plain.
Qed.

Lemma wrap64_succ n : wrap64 (wrap64 (1 + Z.of_nat n) + 1) = wrap64 (1 + Z.of_nat (n + 1)).
Proof.
  unfold wrap64. rewrite Zplus_mod_idemp_l. f_equal. lia.
Qed.

Lemma encodeWaits_counted buffer sems : ∀ o o',
  encodeWaits buffer sems o = Some o' → counted o →
  counted o' ∧ commandLists o' = commandLists o ∧
  length (semaphores o') = length (semaphores o).
Proof.
  induction sems as [|sem rest IH]; intros o o' H Ho; simpl in H.
  - by injection H as <-.
  - apply bind_Some in H as (s & Hs & H). apply IH in H as (H1 & H2 & H3).
    + split; [done|]. split; [done|]. rewrite H3. simpl. by rewrite length_insert.
    + destruct Ho as (Hnd & Hval & Ht).
      assert (SwapChain.semMtl <$>
                <[sem := {| SwapChain.semMtl := SwapChain.semMtl s;
                            SwapChain.mtlEventValue :=
                              wrap64 (SwapChain.mtlEventValue s + 1) |}]> (semaphores o)
              = SwapChain.semMtl <$> semaphores o) as Hsame.
      { rewrite list_fmap_insert. simpl. apply list_insert_id.
        by rewrite list_lookup_fmap, Hs. }
      split; simpl; [by rewrite Hsame|]. split.
      * intros i s' Hi. rewrite waitsOn_app. destruct (decide (i = sem)) as [->|Hne].
        -- rewrite list_lookup_insert_eq in Hi by (by eapply lookup_lt_Some).
           injection Hi as <-. simpl. rewrite (Hval sem s Hs).
           unfold waitsOn at 3. rewrite filter_cons, decide_True by (simpl; by rewrite bool_decide_eq_true).
           simpl. apply wrap64_succ.
        -- rewrite list_lookup_insert_ne in Hi by done.
           unfold waitsOn at 2. rewrite filter_cons, decide_False.
           ++ simpl. rewrite Nat.add_0_r. by eapply Hval.
           ++ simpl. rewrite bool_decide_eq_true. intros E.
              apply Hne. eapply (NoDup_lookup _ _ _ _ Hnd).
              ** by rewrite list_lookup_fmap, Hi.
              ** by rewrite list_lookup_fmap, Hs, <- E.
      * apply valuesCounted_snoc; [done|].
        intros b e v [E|E]; [|done]. injection E as _ <- <-. by eapply Hval.
Qed.

Lemma encodeSignals_counted buffer sems : ∀ o o',
  encodeSignals buffer sems o = Some o' → counted o →
  counted o' ∧ commandLists o' = commandLists o ∧ semaphores o' = semaphores o.
Proof.
  induction sems as [|sem rest IH]; intros o o' H Ho; simpl in H.
  - by injection H as <-.
  - apply bind_Some in H as (s & Hs & H). apply IH in H as (H1 & H2 & H3); [done|].
    destruct Ho as (Hnd & Hval & Ht). split; [done|]. split; simpl.
    + intros i s' Hi. rewrite waitsOn_plain; [by eapply Hval|]. by repeat constructor.
    + apply valuesCounted_snoc; [done|].
      intros b e v [E|E]; [done|]. injection E as _ <- <-. by eapply Hval.
Qed.

Lemma commitLists_counted lists : ∀ o o',
  commitLists lists o = Some o' → counted o →
  counted o' ∧ semaphores o' = semaphores o.
Proof.
  induction lists as [|entry rest IH]; intros o o' H Ho; simpl in H.
  - by injection H as <-.
  - apply bind_Some in H as (i & _ & H). apply bind_Some in H as (l & _ & H).
    apply bind_Some in H as (_ & _ & H). apply bind_Some in H as (l' & _ & H).
    apply IH in H as [H1 H2]; [done|].
    destruct Ho as (Hnd & Hval & Ht). split; [done|]. split; simpl.
    + intros j s Hs. rewrite waitsOn_plain; [by eapply Hval|]. by repeat constructor.
    + apply valuesCounted_plain; [done|]. by repeat constructor.
Qed.

Lemma executeCommandLists_counted lists waits signals fence o o' :
  executeCommandLists lists waits signals fence o = Some o' → counted o → counted o'.
Proof.
  unfold executeCommandLists. intros H Ho.
  apply bind_Some in H as (ls & _ & H). apply bind_Some in H as (_ & _ & H).
  apply bind_Some in H as (o1 & H1 & H). apply bind_Some in H as (o2 & H2 & H).
  apply bind_Some in H as (entry & _ & H). apply bind_Some in H as (i & _ & H).
  apply bind_Some in H as (l & _ & H). apply bind_Some in H as (_ & _ & H).
  apply bind_Some in H as (o3 & H3 & H). apply bind_Some in H as (l' & _ & H).
  injection H as <-.
  apply encodeWaits_counted in H1 as (H1 & _); [|apply counted_submit; [by repeat constructor|done]].
  apply commitLists_counted in H2 as (H2 & _);
    [|apply counted_submit; [by repeat constructor|done]].
  apply encodeSignals_counted in H3 as (H3 & _).
  - apply (counted_submit [commitBuffer (ListBuffer i)]) in H3; [|by repeat constructor].
    destruct H3 as (? & ? & ?). by split.
  - destruct fence; repeat (apply counted_submit; [by repeat constructor|]); done.
Qed.

Lemma step_counted op sys sys' :
  step op sys = Some sys' → counted (objects sys) → counted (objects sys').
Proof.
  intros H Ho. destruct op; simpl in H.
  - apply bind_Some in H as (l & _ & H). apply bind_Some in H as (l' & _ & H).
    injection H as <-. destruct Ho as (? & ? & ?). by split.
  - apply bind_Some in H as (o & Ho' & H). injection H as <-. simpl.
    by eapply executeCommandLists_counted.
  - apply bind_Some in H as ([r o] & Hp & H). injection H as <-. simpl.
    unfold present in Hp. apply bind_Some in Hp as (d & _ & Hp).
    apply bind_Some in Hp as (m & _ & Hp). apply bind_Some in Hp as (o1 & H1 & Hp).
    injection Hp as _ <-.
    apply encodeWaits_counted in H1 as (H1 & _);
      [|apply counted_submit; [by repeat constructor|done]].
    apply counted_submit; [by repeat constructor|done].
  - injection H as <-. simpl. apply counted_submit; [by repeat constructor|done].
  - apply bind_Some in H as (r & _ & H). by injection H as <-.
  - by injection H as <-.
Qed.

Lemma run_counted ops : ∀ sys sys',
  run ops sys = Some sys' → counted (objects sys) → counted (objects sys').
Proof.
  induction ops as [|op rest IH]; intros sys sys' H Ho; simpl in H.
  - by injection H as <-.
  - apply bind_Some in H as (sys1 & H1 & H). eapply IH; [exact H|].
    by eapply step_counted.
Qed.

(** X18: the semaphore values of a program.  With semaphores created
    on distinct events, after any sequence of recordings, submissions,
    presents, acquires and resizes, every wait and every signal encoded
    by [executeCommandLists] or [present] carries one more than the
    number of the waits encoded before it on the same event (modulo
    2^64), every semaphore stands at one more than the number of the
    waits on its event, and the next [acquireTexture] signals that
    value. *)
Theorem semaphore_values (events : list ptr) (ops : list Operation) (sys0 sys : System) :
  semaphores (objects sys0) = newMetalCommandSemaphore <$> events →
  NoDup events →
  submitted (objects sys0) = [] →
  run ops sys0 = Some sys →
  valuesCounted (submitted (objects sys)) ∧
  (∀ i s, semaphores (objects sys) !! i = Some s →
     SwapChain.mtlEventValue s =
       wrap64 (1 + Z.of_nat (waitsOn (SwapChain.semMtl s) (submitted (objects sys))))) ∧
  (∀ sem textureIndex next r,
     acquireTexture (Some sem) textureIndex next (swapChain sys) (objects sys) = Some r →
     ∃ s rest,
       semaphores (objects sys) !! sem = Some s ∧
       SwapChain.calls r.2 =
         SwapChain.calls (swapChain sys) ++
           SwapChain.commitAcquireBuffer (SwapChain.semMtl s)
             (wrap64 (1 + Z.of_nat (waitsOn (SwapChain.semMtl s) (submitted (objects sys)))))
           :: rest).
Proof.
  intros Hsem Hnd Hsub Hrun.
  assert (counted (objects sys0)) as H0.
  { split; [|split].
    - rewrite Hsem, <- list_fmap_compose. simpl.
      replace (SwapChain.semMtl ∘ newMetalCommandSemaphore) with (@id ptr) by done.
      by rewrite list_fmap_id.
    - intros i s Hs. rewrite Hsem, list_lookup_fmap in Hs. rewrite Hsub.
      destruct (events !! i); [|done]. by injection Hs as <-.
    - rewrite Hsub. intros t1 c t2 E. by destruct t1. }
  destruct (run_counted _ _ _ Hrun H0) as (_ & Hval & Ht).
  split; [done|]. split; [done|].
  intros sem ti next r Hr. unfold acquireTexture in Hr.
  apply bind_Some in Hr as (s & Hs & Hr). unfold SwapChain.acquireTexture in Hr.
  cbn [mbind option_bind] in Hr. apply bind_Some in Hr as (index & _ & Hr).
  apply bind_Some in Hr as (_ & _ & Hr). rewrite (Hval sem s Hs) in Hr.
  exists s. destruct next as [d|].
  - apply bind_Some in Hr as (? & _ & Hr). apply bind_Some in Hr as (format & _ & Hr).
    injection Hr as <-. simpl. eexists. split; [done|]. by rewrite <- (assoc_L (++)).
  - injection Hr as <-. simpl. eexists. split; [done|]. by rewrite <- (assoc_L (++)).
Qed.

Lemma commit_begun l : mtl l = true → commit l = Some (committed l).
Proof. intros H. unfold commit. by rewrite option_guard_True. Qed.

Lemma encodeWaits_is_Some buffer sems : ∀ o,
  is_Some (encodeWaits buffer sems o) ↔ Forall (λ s, s < length (semaphores o)) sems.
Proof.
  induction sems as [|sem rest IH]; intros o; simpl.
  - split; [constructor|by eexists].
  - rewrite Forall_cons. split.
    + intros [o' H]. apply bind_Some in H as (s & Hs & H). split.
      * by eapply lookup_lt_Some.
      * assert (is_Some (encodeWaits buffer rest
                  {| semaphores :=
                       <[sem := {| SwapChain.semMtl := SwapChain.semMtl s;
                                   SwapChain.mtlEventValue :=
                                     wrap64 (SwapChain.mtlEventValue s + 1) |}]>
                         (semaphores o);
                     commandLists := commandLists o;
                     submitted :=
                       submitted o ++
                         [encodeWait buffer (SwapChain.semMtl s)
                            (SwapChain.mtlEventValue s)] |})) as Hr by (by eexists).
        apply IH in Hr. simpl in Hr. by rewrite length_insert in Hr.
    + intros [Hlt Hrest]. destruct (lookup_lt_is_Some_2 _ _ Hlt) as [s Hs].
      rewrite Hs. simpl. apply IH. simpl. by rewrite length_insert.
Qed.

Lemma encodeWaits_trace buffer sems : ∀ o o',
  encodeWaits buffer sems o = Some o' →
  commandLists o' = commandLists o ∧
  length (semaphores o') = length (semaphores o) ∧
  ∃ W, submitted o' = submitted o ++ W ∧ length W = length sems ∧
       Forall (λ c, ∃ e v, c = encodeWait buffer e v) W.
Proof.
  induction sems as [|sem rest IH]; intros o o' H; simpl in H.
  - injection H as <-. split; [done|]. split; [done|]. exists [].
    by rewrite app_nil_r.
  - apply bind_Some in H as (s & Hs & H). apply IH in H as (H1 & H2 & W & H3 & H4 & H5).
    simpl in *. split; [done|]. split; [by rewrite H2, length_insert|].
    exists (encodeWait buffer (SwapChain.semMtl s) (SwapChain.mtlEventValue s) :: W).
    split; [by rewrite H3, <- (assoc_L (++))|]. split; [simpl; by rewrite H4|].
    constructor; [by eexists _, _|done].
Qed.

Lemma encodeSignals_is_Some buffer sems : ∀ o,
  is_Some (encodeSignals buffer sems o) ↔ Forall (λ s, s < length (semaphores o)) sems.
Proof.
  induction sems as [|sem rest IH]; intros o; simpl.
  - split; [constructor|by eexists].
  - rewrite Forall_cons. split.
    + intros [o' H]. apply bind_Some in H as (s & Hs & H). split.
      * by eapply lookup_lt_Some.
      * eapply (IH (submit _ o)). by eexists.
    + intros [Hlt Hrest]. destruct (lookup_lt_is_Some_2 _ _ Hlt) as [s Hs].
      rewrite Hs. simpl. by apply IH.
Qed.

Lemma encodeSignals_trace buffer sems : ∀ o o',
  encodeSignals buffer sems o = Some o' →
  commandLists o' = commandLists o ∧
  semaphores o' = semaphores o ∧
  ∃ S, submitted o' = submitted o ++ S ∧ length S = length sems ∧
       Forall (λ c, ∃ e v, c = encodeSignalEvent buffer e v) S.
Proof.
  induction sems as [|sem rest IH]; intros o o' H; simpl in H.
  - injection H as <-. split; [done|]. split; [done|]. exists [].
    by rewrite app_nil_r.
  - apply bind_Some in H as (s & Hs & H). apply IH in H as (H1 & H2 & S & H3 & H4 & H5).
    simpl in *. split; [done|]. split; [done|].
    exists (encodeSignalEvent buffer (SwapChain.semMtl s) (SwapChain.mtlEventValue s) :: S).
    split; [by rewrite H3, <- (assoc_L (++))|]. split; [simpl; by rewrite H4|].
    constructor; [by eexists _, _|done].
Qed.

Lemma commitLists_inv lists : ∀ o o',
  commitLists lists o = Some o' →
  ∃ ids, lists = Some <$> ids ∧ NoDup ids ∧ Forall (begun o) ids.
Proof.
  induction lists as [|entry rest IH]; intros o o' H; simpl in H.
  - exists []. split; [done|]. split; constructor.
  - apply bind_Some in H as (i & -> & H). apply bind_Some in H as (l & Hl & H).
    apply bind_Some in H as (Hm & _ & H). apply bind_Some in H as (l' & Hc & H).
    rewrite (commit_begun l Hm) in Hc. injection Hc as <-.
    apply IH in H as (ids & -> & Hnd & Hb). exists (i :: ids).
    split; [done|]. rewrite Forall_forall in Hb.
    split; [|constructor; [by exists l|]].
    + constructor; [|done]. intros Hin. destruct (Hb i Hin) as (l1 & Hl1 & Hm1).
      simpl in Hl1. rewrite list_lookup_insert_eq in Hl1 by (by eapply lookup_lt_Some).
      by injection Hl1 as <-.
    + apply Forall_forall. intros j Hj. destruct (Hb j Hj) as (l1 & Hl1 & Hm1).
      simpl in Hl1. destruct (decide (j = i)) as [->|Hne].
      * rewrite list_lookup_insert_eq in Hl1 by (by eapply lookup_lt_Some).
        by injection Hl1 as <-.
      * rewrite list_lookup_insert_ne in Hl1 by done. by exists l1.
Qed.

Lemma commitLists_spec ids : ∀ o,
  NoDup ids → Forall (begun o) ids →
  ∃ o', commitLists (Some <$> ids) o = Some o' ∧
    semaphores o' = semaphores o ∧
    submitted o' = submitted o ++ listCalls ids ∧
    (∀ i, i ∈ ids →
       ∃ l, commandLists o !! i = Some l ∧ commandLists o' !! i = Some (committed l)) ∧
    (∀ i, i ∉ ids → commandLists o' !! i = commandLists o !! i).
Proof.
  induction ids as [|i ids IH]; intros o Hnd Hb; simpl.
  - exists o. split; [done|]. split; [done|]. split; [by rewrite app_nil_r|].
    split; [by intros i ?%elem_of_nil|done].
  - apply NoDup_cons in Hnd as [Hni Hnd]. apply Forall_cons in Hb as [(l & Hl & Hm) Hb].
    rewrite Hl. simpl. rewrite option_guard_True by done. simpl.
    rewrite (commit_begun l Hm). simpl.
    set (o1 := {| semaphores := semaphores o;
                  commandLists := <[i := committed l]> (commandLists o);
                  submitted := submitted o ++
                    [enqueue (ListBuffer i); commitBuffer (ListBuffer i)] |}).
    destruct (IH o1 Hnd) as (o' & H & Hs & Ht & Hin & Hout).
    { rewrite Forall_forall in Hb |- *. intros j Hj. destruct (Hb j Hj) as (lj & Hlj & Hmj).
      exists lj. split; [|done]. simpl. rewrite list_lookup_insert_ne; [done|].
      intros ->. done. }
    exists o'. split; [done|]. split; [done|].
    split; [by rewrite Ht; simpl; rewrite <- (assoc_L (++))|]. split.
    + intros j Hj. apply elem_of_cons in Hj as [->|Hj].
      * exists l. split; [done|]. rewrite (Hout i Hni). simpl.
        apply list_lookup_insert_eq. by eapply lookup_lt_Some.
      * destruct (Hin j Hj) as (lj & Hlj & Hlj'). exists lj. split; [|done].
        simpl in Hlj. rewrite list_lookup_insert_ne in Hlj; [done|]. by intros ->.
    + intros j Hj. apply not_elem_of_cons in Hj as [Hne Hj].
      rewrite (Hout j Hj). simpl. by rewrite list_lookup_insert_ne.
Qed.

Lemma executeCommandLists_run init last waits signals fence o :
  NoDup (init ++ [last]) → Forall (begun o) (init ++ [last]) →
  Forall (λ s, s < length (semaphores o)) (waits ++ signals) →
  ∃ o' W S,
    executeCommandLists (Some (Some <$> init ++ [last])) waits signals fence o = Some o' ∧
    (∀ i, i ∈ init ++ [last] →
       ∃ l, commandLists o !! i = Some l ∧ commandLists o' !! i = Some (committed l)) ∧
    (∀ i, i ∉ init ++ [last] → commandLists o' !! i = commandLists o !! i) ∧
    length W = length waits ∧ length S = length signals ∧
    Forall (λ c, ∃ e v, c = encodeWait WaitBuffer e v) W ∧
    Forall (λ c, ∃ e v, c = encodeSignalEvent (ListBuffer last) e v) S ∧
    submitted o' = submitted o ++ executeCalls init last fence W S.
Proof.
  intros Hnd Hb Hsem. apply NoDup_app in Hnd as (Hnd & Hdis & _).
  apply Forall_app in Hb as [Hbi Hbl]. apply Forall_app in Hsem as [Hw Hs].
  inversion_clear Hbl as [|?? (l & Hl & Hm) _].
  assert (last ∉ init) as Hni by (intros Hin; apply (Hdis _ Hin); by left).
  unfold executeCommandLists. cbn [mbind option_bind].
  rewrite option_guard_True by (rewrite length_fmap, length_app; simpl; lia).
  cbn [mbind option_bind].
  destruct (proj2 (encodeWaits_is_Some WaitBuffer waits
              (submit [newCommandBuffer WaitBuffer; enqueue WaitBuffer] o)) Hw) as [o1 H1].
  rewrite H1. cbn [mbind option_bind].
  destruct (encodeWaits_trace _ _ _ _ H1) as (Hc1 & Hs1 & W & Ht1 & HW1 & HW2).
  simpl in Hc1, Hs1, Ht1.
  rewrite length_fmap, length_app. simpl length.
  assert (take (length init + 1 - 1) (Some <$> init ++ [last]) = Some <$> init) as ->.
  { replace (length init + 1 - 1) with (length (Some <$> init))
      by (rewrite length_fmap; lia).
    by rewrite fmap_app, take_app_length. }
  assert ((Some <$> init ++ [last]) !! (length init + 1 - 1) = Some (Some last)) as Hlast.
  { rewrite list_lookup_fmap, lookup_app_r by lia.
    by replace (length init + 1 - 1 - length init) with 0 by lia. }
  destruct (commitLists_spec init (submit [commitBuffer WaitBuffer] o1) Hnd)
    as (o2 & H2 & Hs2 & Ht2 & Hin2 & Hout2).
  { rewrite Forall_forall in Hbi |- *. intros j Hj. destruct (Hbi j Hj) as (lj & ? & ?).
    exists lj. simpl. by rewrite Hc1. }
  rewrite H2. cbn [mbind option_bind]. simpl in Hs2, Ht2.
  rewrite Hlast. cbn [mbind option_bind].
  rewrite (Hout2 last Hni). simpl. rewrite Hc1, Hl. simpl.
  rewrite option_guard_True by done. simpl.
  set (o3 := match fence with
             | Some f => submit [addCompletedHandler (ListBuffer last) f]
                           (submit [enqueue (ListBuffer last)] o2)
             | None => submit [enqueue (ListBuffer last)] o2
             end).
  assert (semaphores o3 = semaphores o2 ∧ commandLists o3 = commandLists o2 ∧
          submitted o3 = submitted o2 ++ [enqueue (ListBuffer last)] ++
            match fence with
            | Some f => [addCompletedHandler (ListBuffer last) f]
            | None => []
            end) as (Hs3 & Hc3 & Ht3).
  { unfold o3. destruct fence; simpl; by rewrite <- ?(assoc_L (++)), ?app_nil_r. }
  destruct (proj2 (encodeSignals_is_Some (ListBuffer last) signals o3)) as [o4 H4].
  { by rewrite Hs3, Hs2, Hs1. }
  rewrite H4. simpl. destruct (encodeSignals_trace _ _ _ _ H4) as (Hc4 & Hs4 & S & Ht4 & HS1 & HS2).
  rewrite (commit_begun l Hm). simpl.
  eexists _, W, S. split; [reflexivity|]. simpl.
  split; [|split; [|split; [done|split; [done|split; [done|split; [done|]]]]]].
  - intros j Hj. apply elem_of_app in Hj as [Hj|Hj].
    + destruct (Hin2 j Hj) as (lj & Hlj & Hlj'). simpl in Hlj. rewrite Hc1 in Hlj.
      exists lj. split; [done|]. rewrite list_lookup_insert_ne by (by intros ->).
      by rewrite Hc4, Hc3.
    + apply list_elem_of_singleton in Hj as ->. exists l. split; [done|].
      apply list_lookup_insert_eq. rewrite Hc4, Hc3. eapply lookup_lt_Some.
      rewrite (Hout2 last Hni). simpl. by rewrite Hc1.
  - intros j Hj. rewrite not_elem_of_app, list_elem_of_singleton in Hj.
    destruct Hj as [Hj1 Hj2]. rewrite list_lookup_insert_ne by done.
    rewrite Hc4, Hc3, (Hout2 j Hj1). simpl. by rewrite Hc1.
  - rewrite Ht4, Ht3, Ht2, Ht1. unfold executeCalls.
    by rewrite <- !(assoc_L (++)).
Qed.

Lemma executeCommandLists_inv lists waits signals fence o o' :
  executeCommandLists (Some lists) waits signals fence o = Some o' →
  ∃ init last, lists = Some <$> init ++ [last] ∧
    NoDup (init ++ [last]) ∧ Forall (begun o) (init ++ [last]) ∧
    Forall (λ s, s < length (semaphores o)) (waits ++ signals).
Proof.
  unfold executeCommandLists. cbn [mbind option_bind]. intros H.
  apply bind_Some in H as (Hpos & _ & H).
  apply bind_Some in H as (o1 & H1 & H). apply bind_Some in H as (o2 & H2 & H).
  apply bind_Some in H as (entry & He & H). apply bind_Some in H as (last & -> & H).
  apply bind_Some in H as (l & Hl & H). apply bind_Some in H as (Hm & _ & H).
  apply bind_Some in H as (o4 & H4 & H).
  destruct (encodeWaits_trace _ _ _ _ H1) as (Hc1 & Hs1 & _). simpl in Hc1, Hs1.
  apply commitLists_inv in H2 as Hinv. destruct Hinv as (init & Hinit & Hnd & Hb).
  exists init, last. rewrite fmap_app. simpl. rewrite <- Hinit.
  split; [by apply take_pred_snoc|].
  rewrite Hinit in H2.
  destruct (commitLists_spec init (submit [commitBuffer WaitBuffer] o1) Hnd Hb)
    as (o2' & H2' & Hs2 & _ & Hin2 & Hout2).
  rewrite H2 in H2'. injection H2' as <-. simpl in Hs2.
  assert (last ∉ init) as Hni.
  { intros Hin. destruct (Hin2 last Hin) as (l0 & _ & Hl0). rewrite Hl in Hl0.
    injection Hl0 as ->. done. }
  split; [|split].
  - apply NoDup_app. split; [done|]. split; [|apply NoDup_singleton].
    intros x Hx ->%list_elem_of_singleton. done.
  - apply Forall_app. split.
    + eapply Forall_impl; [exact Hb|]. intros j (lj & Hlj & ?). exists lj.
      simpl in Hlj. by rewrite Hc1 in Hlj.
    + constructor; [|constructor]. exists l. split; [|done].
      rewrite (Hout2 last Hni) in Hl. simpl in Hl. by rewrite Hc1 in Hl.
  - apply Forall_app. split.
    + eapply (encodeWaits_is_Some WaitBuffer waits (submit _ o)). by eexists.
    + rewrite <- Hs1, <- Hs2.
      assert (is_Some (encodeSignals (ListBuffer last) signals
                (match fence with
                 | Some f => submit [addCompletedHandler (ListBuffer last) f]
                               (submit [enqueue (ListBuffer last)] o2)
                 | None => submit [enqueue (ListBuffer last)] o2
                 end))) as Hr by (by eexists).
      apply encodeSignals_is_Some in Hr. by destruct fence.
Qed.


(** X20: a submission that goes through commits the wait buffer first
    and then every command list of the array, in the order of the
    array; the fence handler and the signals are encoded on the buffer
    of the last command list, before its commit.  Afterwards the
    command lists of the array have no command buffer, and the other
    command lists are as before. *)
Theorem executeCommandLists_commits (ids : list nat)
    (waitSemaphores signalSemaphores : list nat) (signalFence : option ptr) (o o' : Objects) :
  executeCommandLists (Some (Some <$> ids)) waitSemaphores signalSemaphores signalFence o
    = Some o' →
  (∀ i, i ∈ ids →
     ∃ l, commandLists o !! i = Some l ∧ commandLists o' !! i = Some (committed l)) ∧
  (∀ i, i ∉ ids → commandLists o' !! i = commandLists o !! i) ∧
  ∃ init last W S,
    ids = init ++ [last] ∧
    length W = length waitSemaphores ∧ length S = length signalSemaphores ∧
    Forall (λ c, ∃ e v, c = encodeWait WaitBuffer e v) W ∧
    Forall (λ c, ∃ e v, c = encodeSignalEvent (ListBuffer last) e v) S ∧
    submitted o' = submitted o ++ executeCalls init last signalFence W S.
Proof.
  intros H. apply executeCommandLists_inv in H as Hinv.
  destruct Hinv as (init & last & E & Hnd & Hb & Hs).
  apply (inj (fmap Some)) in E. subst ids.
  destruct (executeCommandLists_run init last _ _ signalFence o Hnd Hb Hs)
    as (o'' & W & S & H' & Hin & Hout & HW & HS & HW' & HS' & Ht).
  rewrite H in H'. injection H' as <-.
  split; [done|]. split; [done|]. by exists init, last, W, S.
Qed.

Lemma completions_cons op ops :
  completions (op :: ops) = (if isCompletion op then 1 else 0) + completions ops.
Proof.
  unfold completions. rewrite filter_cons. by destruct (isCompletion op).
Qed.

Lemma acquireTexture_slots sem ti next sc r n :
  SwapChain.acquireTexture sem ti next sc = Some r → slotsAt sc n → slotsAt r.2 n.
Proof.
  unfold SwapChain.acquireTexture. intros H [Hl Hc].
  apply bind_Some in H as (s & _ & H). apply bind_Some in H as (index & _ & H).
  apply bind_Some in H as (_ & _ & H). destruct next as [d|].
  - apply bind_Some in H as (? & _ & H). apply bind_Some in H as (format & _ & H).
    injection H as <-. split; simpl; [by rewrite length_insert|done].
  - by injection H as <-.
Qed.

Lemma resize_slots attributes sc n :
  slotsAt sc n → slotsAt (SwapChain.resize attributes sc).2 n.
Proof.
  intros [Hl Hc]. unfold SwapChain.resize. destruct (SwapChain.getWindowSize _) as [w h].
  destruct (_ || _); [done|]. destruct (negb _); [|done].
  split; simpl; [by rewrite length_fmap|done].
Qed.

Lemma next_slot n :
  Z.to_nat (wrap32 (Z.of_nat (n mod SwapChain.MAX_DRAWABLES) + 1)) mod SwapChain.MAX_DRAWABLES
  = (1 + n) mod SwapChain.MAX_DRAWABLES.
Proof.
  unfold wrap32, SwapChain.MAX_DRAWABLES.
  pose proof (Nat.mod_upper_bound n 3 ltac:(done)). rewrite Z.mod_small by lia.
  replace (Z.to_nat (Z.of_nat (n mod 3) + 1)) with (n mod 3 + 1) by lia.
  rewrite Nat.Div0.add_mod_idemp_l. f_equal. lia.
Qed.

Lemma step_slots op sys sys' n :
  step op sys = Some sys' → slotsAt (swapChain sys) n →
  slotsAt (swapChain sys') ((if isCompletion op then 1 else 0) + n).
Proof.
  intros H Hs. destruct op; simpl in H.
  - apply bind_Some in H as (l & _ & H). apply bind_Some in H as (l' & _ & H).
    by injection H as <-.
  - apply bind_Some in H as (o & _ & H). by injection H as <-.
  - apply bind_Some in H as (r & _ & H). by injection H as <-.
  - injection H as <-. destruct Hs as [Hl Hc]. split; [done|].
    change (Z.to_nat (wrap32 (Z.of_nat
              (SwapChain.currentAvailableDrawableIndex (swapChain sys)) + 1))
              mod SwapChain.MAX_DRAWABLES = (1 + n) mod SwapChain.MAX_DRAWABLES).
    rewrite Hc. apply next_slot.
  - apply bind_Some in H as (r & Hr & H). injection H as <-. simpl.
    unfold acquireTexture in Hr. destruct signalSemaphore as [sem|].
    + apply bind_Some in Hr as (s & _ & Hr). by eapply acquireTexture_slots.
    + by eapply acquireTexture_slots.
  - injection H as <-. simpl. by apply resize_slots.
Qed.

Lemma run_slots ops : ∀ sys sys' n,
  run ops sys = Some sys' → slotsAt (swapChain sys) n →
  slotsAt (swapChain sys') (n + completions ops).
Proof.
  induction ops as [|op rest IH]; intros sys sys' n H Hs; simpl in H.
  - injection H as <-. unfold completions. simpl. by rewrite Nat.add_0_r.
  - apply bind_Some in H as (sys1 & H1 & H). rewrite completions_cons.
    replace (n + ((if isCompletion op then 1 else 0) + completions rest))
      with ((if isCompletion op then 1 else 0) + n + completions rest) by lia.
    eapply IH; [exact H|]. by eapply step_slots.
Qed.

(** X21: the drawable slots are handed out in turn.  After any
    sequence of operations on a new swap chain, there are
    [MAX_DRAWABLES] slots and the current one is the number of the
    completed presents modulo [MAX_DRAWABLES].  An [acquireTexture]
    that gets a drawable with a pixel format the mapper knows then
    goes through, returns that slot, and a [present] of the returned
    index schedules the drawable just acquired. *)
Theorem drawables_in_turn (layerSize : SwapChain.CGSize)
    (attributes : SwapChain.CocoaWindowAttributes) (format : Formats.RenderFormat)
    (ops : list Operation) (sys0 sys : System) :
  swapChain sys0 = SwapChain.newMetalSwapChain layerSize attributes format →
  run ops sys0 = Some sys →
  let slot := completions ops mod SwapChain.MAX_DRAWABLES in
  length (SwapChain.drawables (swapChain sys)) = SwapChain.MAX_DRAWABLES ∧
  SwapChain.currentAvailableDrawableIndex (swapChain sys) = slot ∧
  ∀ sem textureIndex d waits,
    sem < length (semaphores (objects sys)) →
    (textureIndex < Z.of_nat SwapChain.MAX_DRAWABLES)%Z →
    is_Some (Formats.mapRenderFormat (SwapChain.pixelFormat d)) →
    Forall (λ s, s < length (semaphores (objects sys))) waits →
    ∃ sc' o',
      acquireTexture (Some sem) (Some textureIndex) (Some d) (swapChain sys) (objects sys)
        = Some (true, Z.of_nat slot, sc') ∧
      present slot waits sc' (objects sys) = Some (true, o') ∧
      ∃ W, submitted o' =
             submitted (objects sys) ++
               [newCommandBuffer PresentBuffer; enqueue PresentBuffer] ++ W ++
               [retainPresented (SwapChain.handle d); addScheduledHandler (SwapChain.handle d);
                addPresentCompletedHandler (SwapChain.handle d); commitBuffer PresentBuffer].
Proof.
  intros Hsc Hrun slot.
  assert (slotsAt (swapChain sys0) 0) as H0.
  { rewrite Hsc. unfold SwapChain.newMetalSwapChain.
    destruct (SwapChain.getWindowSize _) as [w h]. split; simpl; done. }
  destruct (run_slots _ _ _ _ Hrun H0) as [Hl Hc]. rewrite Nat.add_0_l in Hc.
  fold slot in Hc. split; [done|]. split; [done|].
  intros sem ti d waits Hsem Hti [f Hf] Hw.
  destruct (lookup_lt_is_Some_2 _ _ Hsem) as [s Hs].
  assert (slot < length (SwapChain.drawables (swapChain sys))) as Hslot.
  { rewrite Hl. apply Nat.mod_upper_bound. done. }
  destruct (lookup_lt_is_Some_2 _ _ Hslot) as [d0 Hd0].
  unfold acquireTexture. rewrite Hs. cbn [mbind option_bind].
  unfold SwapChain.acquireTexture. cbn [mbind option_bind].
  rewrite option_guard_True by done. cbn [mbind option_bind].
  rewrite Hc, Hd0. cbn [mbind option_bind]. rewrite Hf. cbn [mbind option_bind].
  destruct (proj2 (encodeWaits_is_Some PresentBuffer waits
              (submit [newCommandBuffer PresentBuffer; enqueue PresentBuffer] (objects sys))) Hw)
    as [o1 H1].
  destruct (encodeWaits_trace _ _ _ _ H1) as (_ & _ & W & Ht & _).
  eexists _, _. split; [reflexivity|].
  unfold present. cbn [SwapChain.drawables].
  rewrite list_lookup_insert_eq by done. cbn [mbind option_bind SwapChain.drawableMtl].
  rewrite H1. cbn [mbind option_bind]. split; [reflexivity|].
  exists W. simpl. rewrite Ht. simpl. by rewrite <- !(assoc_L (++)).
Qed.



Lemma semaphore_values_witness :
  ∃ sys,
    run (sampleFrame ++ sampleFrame) sampleSystem = Some sys ∧
    filter (λ c, isWaitOn 101 c = true) (submitted (objects sys)) =
      [encodeWait PresentBuffer 101 1; encodeWait PresentBuffer 101 2] ∧
    valuesCounted (submitted (objects sys)) ∧
    ∀ i s, semaphores (objects sys) !! i = Some s →
      SwapChain.mtlEventValue s =
        wrap64 (1 + Z.of_nat (waitsOn (SwapChain.semMtl s) (submitted (objects sys)))).
Proof.
  eassert (E0 : run (sampleFrame ++ sampleFrame) sampleSystem = Some _)
    by (vm_compute; reflexivity).
  assert (NoDup [100; 101]) as Hnd by (apply (bool_decide_unpack _); vm_compute; exact I).
  destruct (semaphore_values [100; 101] _ sampleSystem _ eq_refl Hnd eq_refl E0)
    as (Hv & Hs & _).
  eexists. split; [exact E0|]. split; [reflexivity|]. split; [exact Hv|exact Hs].
Defined.

Lemma executeCommandLists_commits_witness :
  ∃ o1 o',
    run [Record_ 0 Begin; Record_ 0 End; Record_ 1 Begin; Record_ 1 End] sampleSystem
      = Some {| objects := o1; swapChain := swapChain sampleSystem |} ∧
    executeCommandLists (Some (Some <$> [1; 0])) [0] [1; 0] (Some 77) o1 = Some o' ∧
    mtl <$> commandLists o' = [false; false] ∧
    ∃ init last W S,
      [1; 0] = init ++ [last] ∧ length W = 1 ∧ length S = 2 ∧
      Forall (λ c, ∃ e v, c = encodeWait WaitBuffer e v) W ∧
      Forall (λ c, ∃ e v, c = encodeSignalEvent (ListBuffer last) e v) S ∧
      submitted o' = submitted o1 ++ executeCalls init last (Some 77) W S.
Proof.
  eassert (E0 : run [Record_ 0 Begin; Record_ 0 End; Record_ 1 Begin; Record_ 1 End]
                  sampleSystem = Some {| objects := _; swapChain := _ |})
    by (vm_compute; reflexivity).
  match type of E0 with
  | _ = Some {| objects := ?o1; swapChain := _ |} =>
      eassert (E1 : executeCommandLists (Some (Some <$> [1; 0])) [0] [1; 0] (Some 77) o1
                    = Some _) by (vm_compute; reflexivity)
  end.
  eexists _, _. split; [exact E0|]. split; [exact E1|]. split; [reflexivity|].
  exact (proj2 (proj2 (executeCommandLists_commits _ _ _ _ _ _ E1))).
Defined.

Lemma drawables_in_turn_witness :
  ∃ sys sc' o',
    run (sampleFrame ++ sampleFrame) sampleSystem = Some sys ∧
    SwapChain.currentAvailableDrawableIndex (swapChain sys) = 2 ∧
    acquireTexture (Some 0) (Some 1%Z) (Some sampleNativeDrawable) (swapChain sys) (objects sys)
      = Some (true, 2%Z, sc') ∧
    present 2 [1] sc' (objects sys) = Some (true, o').
Proof.
  eassert (E0 : run (sampleFrame ++ sampleFrame) sampleSystem = Some _)
    by (vm_compute; reflexivity).
  destruct (drawables_in_turn _ _ _ _ sampleSystem _ eq_refl E0) as (_ & Hc & Hacq).
  destruct (Hacq 0 1%Z sampleNativeDrawable [1]) as (sc' & o' & Ha & Hp & _).
  - simpl. lia.
  - reflexivity.
  - by eexists.
  - repeat constructor; simpl; lia.
  - eexists _, sc', o'. split; [exact E0|]. split; [exact Hc|]. split; [exact Ha|exact Hp].
Defined.

End CommandQueueProperties.

(* ===================================================================== *)
(** * Vertex buffers                                                    *)
(* ===================================================================== *)

Section VertexBufferProperties.
Import Formats CommandList.

Lemma storeVertexBuffer_spec startSlot j v s :
  startSlot + j < length (vertexBuffers s) →
  startSlot + j < length (vertexBufferOffsets s) →
  let s' := storeVertexBuffer startSlot s (j, v) in
  length (vertexBuffers s') = length (vertexBuffers s) ∧
  length (vertexBufferOffsets s') = length (vertexBufferOffsets s) ∧
  trace s' = trace s ∧
  vertexBuffers s' = <[startSlot + j := Some (viewBuffer v)]> (vertexBuffers s) ∧
  vertexBufferOffsets s' =
    <[startSlot + j := wrap32 (viewOffset v)]> (vertexBufferOffsets s) ∧
  (∀ i, i < MAX_VERTEX_BUFFER_BINDINGS →
     Z.testbit (vertexBufferSlots (dirtyGraphicsState s')) (Z.of_nat i) =
     Z.testbit (vertexBufferSlots (dirtyGraphicsState s)) (Z.of_nat i) ||
     bool_decide (i = startSlot + j)).
Proof.
  intros H1 H2 s'. unfold s', storeVertexBuffer, viewBuffer, viewOffset. simpl.
  destruct (ref v) as [mtl|]; simpl; rewrite !length_insert;
    (split; [done|]); (split; [done|]); (split; [done|]); (split; [done|]); (split; [done|]);
    intros i Hi; unfold MAX_VERTEX_BUFFER_BINDINGS in *;
    change (Z.shiftl 1 (Z.of_nat 19) - 1)%Z with (Z.ones 19);
    rewrite Z.land_spec, Z.lor_spec, Z.shiftl_1_l, Z.pow2_bits_eqb by lia;
    rewrite Z.testbit_ones_nonneg by lia;
    rewrite (proj2 (Z.ltb_lt _ _)) by lia; rewrite andb_true_r; f_equal;
    destruct (decide (i = startSlot + j)) as [->|Hne];
    [ rewrite bool_decide_eq_true_2 by done; apply Z.eqb_refl
    | rewrite bool_decide_eq_false_2 by done; apply Z.eqb_neq; lia
    | rewrite bool_decide_eq_true_2 by done; apply Z.eqb_refl
    | rewrite bool_decide_eq_false_2 by done; apply Z.eqb_neq; lia ].
Qed.

Lemma storeVertexBuffers_spec startSlot l : ∀ s,
  startSlot + length l ≤ length (vertexBuffers s) →
  startSlot + length l ≤ length (vertexBufferOffsets s) →
  viewsStored startSlot l s (fold_left (storeVertexBuffer startSlot) (imap pair l) s).
Proof.
  induction l as [|v l IH] using rev_ind; intros s H1 H2.
  - simpl. split; [done|]. split; [done|]. split; [done|].
    split; [by intros j v ?|]. split; [done|]. intros i Hi.
    rewrite bool_decide_eq_false_2 by (simpl; lia). by rewrite orb_false_r.
  - rewrite length_app in H1, H2. simpl in H1, H2.
    rewrite imap_app, fold_left_app. simpl. rewrite Nat.add_0_r.
    destruct (IH s) as (L1 & L2 & T & Hin & Hout & Hbit); [lia|lia|].
    set (s1 := fold_left (storeVertexBuffer startSlot) (imap pair l) s) in *.
    destruct (storeVertexBuffer_spec startSlot (length l) v s1) as (M1 & M2 & T' & V & O & B);
      [lia|lia|].
    set (s2 := storeVertexBuffer startSlot s1 (length l, v)) in *.
    split; [congruence|]. split; [congruence|]. split; [congruence|].
    rewrite V, O, length_app. simpl. split; [|split].
    + intros j v' Hj. apply lookup_snoc_Some in Hj as [[Hlt Hj]|[-> ->]].
      * rewrite !list_lookup_insert_ne by lia. by apply Hin.
      * rewrite !list_lookup_insert_eq by lia. done.
    + intros i Hi. rewrite !list_lookup_insert_ne by lia. apply Hout. lia.
    + intros i Hi. rewrite (B i Hi), (Hbit i Hi), <- orb_assoc. f_equal.
      destruct (decide (startSlot ≤ i < startSlot + length l)) as [Ha|Ha];
        destruct (decide (i = startSlot + length l)) as [Hb|Hb];
        rewrite ?(bool_decide_eq_true_2 _ Ha), ?(bool_decide_eq_false_2 _ Ha),
                ?(bool_decide_eq_true_2 _ Hb), ?(bool_decide_eq_false_2 _ Hb); simpl;
        [ rewrite bool_decide_eq_true_2 by lia
        | rewrite bool_decide_eq_true_2 by lia
        | rewrite bool_decide_eq_true_2 by lia
        | rewrite bool_decide_eq_false_2 by lia ]; done.
Qed.

Lemma bindVertexBuffers_trace slots : ∀ s,
  trace (bindVertexBuffers slots s) = trace s ++ (vertexBufferCall s <$> slots) ∧
  vertexBuffers (bindVertexBuffers slots s) = vertexBuffers s ∧
  vertexBufferOffsets (bindVertexBuffers slots s) = vertexBufferOffsets s ∧
  dirtyGraphicsState (bindVertexBuffers slots s) = dirtyGraphicsState s.
Proof.
  unfold bindVertexBuffers.
  change (λ (s : MetalCommandList) (i : nat),
            emit (setVertexBuffer (default None (vertexBuffers s !! i))
                    (default 0%Z (vertexBufferOffsets s !! i))
                    (VERTEX_BUFFERS_BINDING_INDEX + i)) s)
    with (λ (s : MetalCommandList) (i : nat), emit (vertexBufferCall s i) s).
  induction slots as [|i rest IH]; intros s.
  - cbn [fold_left fmap list_fmap]. by rewrite app_nil_r.
  - cbn [fold_left fmap list_fmap].
    destruct (IH (emit (vertexBufferCall s i) s)) as (H1 & H2 & H3 & H4).
    rewrite H1, H2, H3, H4.
    change (trace (emit (vertexBufferCall s i) s)) with (trace s ++ [vertexBufferCall s i]).
    rewrite <- (assoc_L (++)). done.
Qed.

Lemma elem_of_dirtySlots i slots :
  i ∈ dirtySlots slots ↔ i < MAX_VERTEX_BUFFER_BINDINGS ∧ Z.testbit slots (Z.of_nat i) = true.
Proof.
  unfold dirtySlots. rewrite list_elem_of_filter, elem_of_seq. split; intros [? ?]; split;
    try done; lia.
Qed.

Lemma seq_filter_sorted (P : nat → Prop) `{∀ i, Decision (P i)} n : ∀ a,
  StronglySorted lt (filter P (seq a n)).
Proof.
  induction n as [|n IH]; intros a; simpl; [constructor|].
  rewrite filter_cons. destruct (decide (P a)); [|apply IH].
  constructor; [apply IH|]. apply Forall_forall. intros i Hi.
  apply list_elem_of_filter in Hi as [_ Hi]. apply elem_of_seq in Hi. lia.
Qed.

(** What [setVertexBuffers] stores and marks dirty; it makes no call. *)
Lemma setVertexBuffers_stored (startSlot viewCount : nat)
    (views : list RenderBufferReference) (inputSlots : list unit)
    (s s' : MetalCommandList) :
  length (vertexBuffers s) = MAX_VERTEX_BUFFER_BINDINGS →
  length (vertexBufferOffsets s) = MAX_VERTEX_BUFFER_BINDINGS →
  setVertexBuffers startSlot (Some views) viewCount (Some inputSlots) s = Some s' →
  (∀ j v, j < viewCount → views !! j = Some v →
     vertexBuffers s' !! (startSlot + j) = Some (Some (viewBuffer v)) ∧
     vertexBufferOffsets s' !! (startSlot + j) = Some (wrap32 (viewOffset v))) ∧
  (∀ i, ¬ (startSlot ≤ i < startSlot + viewCount) →
     vertexBuffers s' !! i = vertexBuffers s !! i ∧
     vertexBufferOffsets s' !! i = vertexBufferOffsets s !! i) ∧
  (∀ i, i ∈ dirtySlots (vertexBufferSlots (dirtyGraphicsState s')) ↔
        i ∈ dirtySlots (vertexBufferSlots (dirtyGraphicsState s)) ∨
        (startSlot ≤ i < startSlot + viewCount)) ∧
  trace s' = trace s.
Proof.
  intros L1 L2 H.
  assert (∃ l, length l = viewCount ∧ (∀ j v, j < viewCount → views !! j = Some v → l !! j = Some v) ∧
               (0 < viewCount → startSlot + viewCount ≤ MAX_VERTEX_BUFFER_BINDINGS) ∧
               viewsStored startSlot l s s')
    as (l & Hlen & Hl & Hle & (M1 & M2 & T & Hin & Hout & Hbit)).
  { unfold setVertexBuffers in H. destruct (decide (0 < viewCount)) as [Hpos|Hz].
    - apply bind_Some in H as (_ & _ & H). apply bind_Some in H as (Hle & _ & H).
      apply bind_Some in H as (Hvs & _ & H). injection H as <-.
      exists (take viewCount views). split; [rewrite length_take; lia|].
      split; [intros j v Hj Hv; by rewrite lookup_take_lt|]. split; [done|].
      apply storeVertexBuffers_spec; rewrite length_take; lia.
    - injection H as <-. assert (viewCount = 0) as -> by lia. exists [].
      split; [done|]. split; [intros; lia|]. split; [lia|].
      split; [done|]. split; [done|]. split; [done|]. split; [by intros j v ?|].
      split; [done|]. intros i Hi.
      rewrite bool_decide_eq_false_2 by (simpl; lia). by rewrite orb_false_r. }
  rewrite Hlen in Hout, Hbit.
  split; [intros j v Hj Hv; by apply Hin, Hl|]. split; [done|]. split; [|done].
  intros i. rewrite !elem_of_dirtySlots. split.
  - intros [Hi Hb]. rewrite (Hbit i Hi) in Hb. apply orb_true_iff in Hb as [Hb|Hb].
    + by left.
    + right. by apply bool_decide_eq_true in Hb.
  - intros [[Hi Hb]|Hr].
    + split; [done|]. rewrite (Hbit i Hi), Hb. done.
    + assert (i < MAX_VERTEX_BUFFER_BINDINGS) as Hi by (specialize (Hle ltac:(lia)); lia).
      split; [done|].
      rewrite (Hbit i Hi), bool_decide_eq_true_2 by done. apply orb_true_r.
Qed.

End VertexBufferProperties.

(* ===================================================================== *)
(** * Further properties of the format mapper                            *)
(* ===================================================================== *)

Section FormatsMore.
Import Formats.

(** X24: the two format switches agree.  A native pixel format that
    [mapRenderFormat] knows is what [mapPixelFormat] gives for its
    result, and the pixel format [mapPixelFormat] gives for a format is
    one [mapRenderFormat] knows, with a result that has the same pixel
    format: what a layer is given by the one, the other can read back. *)
Theorem pixel_formats_agree (p : PixelFormat) (f : RenderFormat) :
  (mapRenderFormat p = Some f → mapPixelFormat f = Some p) ∧
  (mapPixelFormat f = Some p →
     ∃ f', mapRenderFormat p = Some f' ∧ mapPixelFormat f' = Some p).
Proof.
  split.
  - apply mapPixelFormat_mapRenderFormat.
  - destruct f; simpl; intros [= <-]; eexists; split; reflexivity.
Qed.

End FormatsMore.

Section LayoutBoundless.
Import Layout.

Lemma boundless_entry_when_highest_witness :
  ∃ layout dt before,
    newMetalDescriptorSetLayout boundlessDevice
      {| descriptorRanges := [unitRange SAMPLER 1 None; unitRange TEXTURE 3 None];
         lastRangeIsBoundless := true; boundlessRangeSize := 64 |} = Some layout ∧
    mapDataType TEXTURE = Some dt ∧
    argumentDescriptors layout =
      before ++ [ {| dataType := dt; index := 3; arrayLength := 4096;
                     textureType := textureTypeFor TEXTURE |} ] ∧
    Forall (λ d, index d ≠ 3) before.
Proof.
  eassert (E0 : newMetalDescriptorSetLayout boundlessDevice
                  {| descriptorRanges := [unitRange SAMPLER 1 None; unitRange TEXTURE 3 None];
                     lastRangeIsBoundless := true; boundlessRangeSize := 64 |} = Some _)
    by (vm_compute; reflexivity).
  assert (Forall (λ r, binding r < binding (unitRange TEXTURE 3 None))
            [unitRange SAMPLER 1 None]) as Hf by (repeat constructor).
  destruct (boundless_entry_when_highest boundlessDevice [unitRange SAMPLER 1 None]
              (unitRange TEXTURE 3 None) 64 _ Hf E0) as (dt & before & H).
  eexists _, dt, before. split; [exact E0|]. exact H.
Defined.

End LayoutBoundless.

(* ===================================================================== *)
(** * Push constants                                                    *)
(* ===================================================================== *)

Section PushConstantProperties.
Import Formats CommandList.

Lemma alignUp_16 (m : Z) :
  (0 ≤ m ≤ 18446744073709551600 → alignUp m = 16 * ((m + 15) / 16))%Z.
Proof.
  intros Hm. unfold alignUp. rewrite (Z.mod_small (m + 15)) by lia.
  change 15%Z with (Z.ones 4). rewrite land_lnot_ones by lia. done.
Qed.

Lemma lookup_resize_vector {A} (n : nat) (value : A) (l : list A) (k : nat) :
  k < n → resize_vector n value l !! k = Some (default value (l !! k)).
Proof.
  intros Hk. unfold resize_vector. destruct (decide (k < length l)) as [Hl|Hl].
  - rewrite lookup_app_l by (rewrite length_take; lia).
    rewrite lookup_take_lt by done. by destruct (lookup_lt_is_Some_2 l k Hl) as [x ->].
  - rewrite lookup_app_r by (rewrite length_take; lia). rewrite length_take.
    rewrite lookup_replicate_2 by lia. by rewrite lookup_ge_None_2 by lia.
Qed.

Lemma length_resize_vector {A} (n : nat) (value : A) (l : list A) :
  length (resize_vector n value l) = n.
Proof. unfold resize_vector. rewrite length_app, length_take, length_replicate. lia. Qed.

Lemma bindPushConstant_trace s pc :
  trace (bindPushConstant s pc) = trace s ++ pushConstantCalls pc ∧
  pushConstants (bindPushConstant s pc) = pushConstants s.
Proof.
  unfold bindPushConstant, pushConstantCalls.
  destruct (stageVERTEX (pcStageFlags pc)), (stagePIXEL (pcStageFlags pc)); cbn zeta;
    split; try done;
    repeat change (trace (emit ?c ?x)) with (trace x ++ [c]);
    by rewrite <- ?(assoc_L (++)), ?app_nil_r.
Qed.

Lemma fold_bindPushConstant l : ∀ s,
  trace (fold_left bindPushConstant l s) = trace s ++ flat_map pushConstantCalls l ∧
  pushConstants (fold_left bindPushConstant l s) = pushConstants s.
Proof.
  induction l as [|pc l IH]; intros s.
  - cbn [fold_left flat_map]. by rewrite app_nil_r.
  - cbn [fold_left flat_map]. destruct (IH (bindPushConstant s pc)) as [H1 H2].
    destruct (bindPushConstant_trace s pc) as [H3 H4].
    rewrite H1, H2, H3, H4. by rewrite (assoc_L (++)).
Qed.

Lemma bindGraphicsPushConstants_trace s :
  trace (bindGraphicsPushConstants s) = trace s ++ flat_map pushConstantCalls (pushConstants s) ∧
  pushConstants (bindGraphicsPushConstants s) = pushConstants s.
Proof. apply (fold_bindPushConstant (pushConstants s) s). Qed.

Lemma flushPushConstants_trace s :
  gPushConstants (dirtyGraphicsState s) = true →
  trace (flushPushConstants s) = trace s ++ flat_map pushConstantCalls (pushConstants s).
Proof.
  intros H. unfold flushPushConstants. rewrite H.
  destruct (bindGraphicsPushConstants_trace s) as [Ht _]. etrans; [|exact Ht]. reflexivity.
Qed.

(** What [setGraphicsPushConstants] stores. *)
Lemma setGraphicsPushConstants_stored (rangeIndex : nat) (data : list Byte.byte)
    (offset size : nat) (s s' : MetalCommandList) :
  setGraphicsPushConstants rangeIndex data offset size s = Some s' →
  ∃ l range pc,
    activeGraphicsPipelineLayout s = Some l ∧
    pushConstantRanges l !! rangeIndex = Some range ∧
    pushConstants s' !! rangeIndex = Some pc ∧
    length (pushConstants s') = length (pushConstantRanges l) ∧
    length (pcData pc) = rangeSize range ∧
    let n := if decide (size = 0) then rangeSize range else size in
    let oldData := default [] (pcData <$> pushConstants s !! rangeIndex) in
    offset + n ≤ rangeSize range ∧
    (∀ k, offset ≤ k < offset + n → pcData pc !! k = data !! (k - offset)) ∧
    (∀ k, k < rangeSize range → ¬ (offset ≤ k < offset + n) →
          pcData pc !! k = Some (default Byte.x00 (oldData !! k))) ∧
    (∀ j, j ≠ rangeIndex → j < length (pushConstants s) →
          j < length (pushConstantRanges l) →
          pushConstants s' !! j = pushConstants s !! j) ∧
    (Z.of_nat (rangeSize range) ≤ 4294967280 →
       pcSize pc mod 16 = 0 ∧
       Z.of_nat (length (pcData pc)) ≤ pcSize pc < Z.of_nat (length (pcData pc)) + 16)%Z ∧
    gPushConstants (dirtyGraphicsState s') = true ∧
    trace s' = trace s.
Proof.
  unfold setGraphicsPushConstants, storePushConstants. intros H.
  apply bind_Some in H as (s1 & H & Hs'). injection Hs' as <-.
  apply bind_Some in H as (l & Hl & H). apply bind_Some in H as (range & Hr & H).
  apply bind_Some in H as (_ & _ & H). apply bind_Some in H as (old & Hold & H).
  apply bind_Some in H as ([Hfit Hdata] & _ & H). injection H as <-.
  set (n := if decide (size = 0) then rangeSize range else size) in *.
  set (constants := resize_vector (length (pushConstantRanges l)) defaultPushConstantData
                      (pushConstants s)) in *.
  set (bytes := resize_vector (rangeSize range) Byte.x00 (pcData old)) in *.
  assert (rangeIndex < length (pushConstantRanges l)) as Hri by (by eapply lookup_lt_Some).
  assert (length bytes = rangeSize range) as Hbytes by apply length_resize_vector.
  assert (pcData old = default [] (pcData <$> pushConstants s !! rangeIndex)) as Hod.
  { unfold constants in Hold. rewrite lookup_resize_vector in Hold by done.
    injection Hold as <-. by destruct (pushConstants s !! rangeIndex). }
  eexists l, range, _. split; [done|]. split; [done|].
  split; [apply list_lookup_insert_eq; unfold constants; by rewrite length_resize_vector|].
  split; [simpl; rewrite length_insert; apply length_resize_vector|].
  cbn [pcData pcSize]. fold n.
  assert (length (take offset bytes) = offset) as Ht by (rewrite length_take; lia).
  assert (length (take n data) = n) as Hn by (rewrite length_take; lia).
  split; [rewrite !length_app, Ht, Hn, length_drop; lia|].
  split; [done|]. split; [|split; [|split; [|split; [|split; [done|done]]]]].
  - intros k Hk. rewrite lookup_app_r by lia. rewrite Ht.
    rewrite lookup_app_l by lia. apply lookup_take_lt. lia.
  - intros k Hk Hout. rewrite <- Hod. destruct (decide (k < offset)) as [Hlt|Hge].
    + rewrite lookup_app_l by lia. rewrite lookup_take_lt by lia.
      by apply lookup_resize_vector.
    + rewrite lookup_app_r by lia. rewrite Ht, lookup_app_r by lia. rewrite Hn, lookup_drop.
      replace (offset + n + (k - offset - n)) with k by lia. by apply lookup_resize_vector.
  - intros j Hj Hjs Hjl. simpl. rewrite list_lookup_insert_ne by done.
    unfold constants. rewrite lookup_resize_vector by done.
    by destruct (lookup_lt_is_Some_2 _ _ Hjs) as [x ->].
  - intros Hsmall. rewrite !length_app, Ht, Hn, length_drop, Hbytes.
    replace (offset + (n + (rangeSize range - (offset + n)))) with (rangeSize range) by lia.
    rewrite alignUp_16 by lia. unfold wrap32.
    pose proof (Z.div_mod (Z.of_nat (rangeSize range) + 15) 16 ltac:(lia)) as Hd.
    pose proof (Z.mod_pos_bound (Z.of_nat (rangeSize range) + 15) 16 ltac:(lia)) as Hb.
    rewrite (Z.mod_small (16 * _) 4294967296) by lia. split; [|lia].
    rewrite Z.mul_comm. apply Z.mod_mul. lia.
Qed.

End PushConstantProperties.

(* ===================================================================== *)
(** * When a draw or a dispatch goes through                            *)
(* ===================================================================== *)

Section WhenRecordingSucceeds.
Import Formats CommandList.

(** X27: in a recording between [begin] and [commit], a draw goes
    through exactly when a framebuffer and a graphics pipeline are set. *)
Theorem drawInstanced_succeeds_iff (cs : list Command) (s : MetalCommandList)
    (vc ic sv si : Z) :
  recordAll cs newMetalCommandList = Some s → mtl s = true →
  is_Some (drawInstanced vc ic sv si s) ↔
  is_Some (targetFramebuffer s) ∧ is_Some (activeRenderState s).
Proof.
  intros Hrec Hm. pose proof (recordAll_invariant _ _ Hrec) as Hinv. split.
  - intros [s' H]. unfold drawInstanced in H.
    apply bind_Some in H as (s1 & H1 & H). apply bind_Some in H as (s2 & H2 & H).
    apply bind_Some in H as (state & Hst & _).
    rewrite (checkForUpdatesInGraphicsState_renderState _ _ H2),
            (checkActiveRenderEncoder_renderState _ _ H1) in Hst.
    rewrite checkActiveRenderEncoder_unfold in H1.
    apply bind_Some in H1 as (fb & Hfb & _). split; by eexists.
  - intros [Hfb Hst]. by apply drawInstanced_is_Some.
Qed.

Lemma drawInstanced_succeeds_iff_witness :
  ∃ s0 s,
    recordAll [Begin] newMetalCommandList = Some s0 ∧
    recordAll sampleSetup newMetalCommandList = Some s ∧
    ¬ is_Some (drawInstanced 3 1 0 0 s0) ∧
    is_Some (drawInstanced 3 1 0 0 s).
Proof.
  eassert (E0 : recordAll [Begin] newMetalCommandList = Some _)
    by (vm_compute; reflexivity).
  eassert (E1 : recordAll sampleSetup newMetalCommandList = Some _)
    by (vm_compute; reflexivity).
  eexists _, _. split; [exact E0|]. split; [exact E1|]. split.
  - intros H.
    apply (proj1 (drawInstanced_succeeds_iff [Begin] _ 3 1 0 0 E0 eq_refl)) in H.
    destruct H as [[fb Hfb] _]. discriminate Hfb.
  - apply (proj2 (drawInstanced_succeeds_iff sampleSetup _ 3 1 0 0 E1 eq_refl)).
    split; by eexists.
Defined.

Lemma endOtherEncoders_compute s :
  computeKept s (endOtherEncoders Compute s) ∧
  mtl (endOtherEncoders Compute s) = mtl s ∧
  dirtyComputeState (endOtherEncoders Compute s) = dirtyComputeState s.
Proof.
  rewrite endOtherEncoders_endActive.
  destruct (decide (activeType s = Compute)) as [|Hne]; [done|].
  destruct (activeType s); try done; simpl.
  - unfold endActiveRenderEncoder. by destruct (activeRenderEncoder s).
  - unfold endActiveBlitEncoder. by destruct (activeBlitEncoder s).
  - unfold endActiveResolveTextureComputeEncoder. by destruct (activeResolveComputeEncoder s).
Qed.

Lemma computeKept_fold_left {A} (f : MetalCommandList → A → MetalCommandList) l :
  (∀ s x, computeKept s (f s x)) → ∀ s, computeKept s (fold_left f l s).
Proof.
  intros Hf. induction l as [|x l IH]; intros s; simpl; [done|].
  destruct (IH (f s x)) as (H1 & H2 & H3). destruct (Hf s x) as (K1 & K2 & K3).
  split; [|split]; congruence.
Qed.

Lemma flushComputeDescriptorSets_kept s :
  (cDescriptorSets (dirtyComputeState s) = true → is_Some (activeComputePipelineLayout s)) →
  ∃ s', flushComputeDescriptorSets s = Some s' ∧ computeKept s s'.
Proof.
  intros H. unfold flushComputeDescriptorSets.
  destruct (cDescriptorSets (dirtyComputeState s)); [|by eexists].
  destruct (H eq_refl) as [l ->]. cbn [mbind option_bind]. eexists. split; [done|].
  change (computeKept s (bindDescriptorSets l (computeDescriptorSets s) true
                           (cDescriptorSetDirtyIndex (dirtyComputeState s)) s)).
  unfold bindDescriptorSets. apply computeKept_fold_left. intros s0 i.
  case_decide; [done|]. by destruct (computeDescriptorSets s !! i) as [[?|]|].
Qed.

Lemma flushComputePushConstants_kept s : computeKept s (flushComputePushConstants s).
Proof.
  unfold flushComputePushConstants. destruct (cPushConstants _); [|done].
  change (computeKept s (bindComputePushConstants s)).
  unfold bindComputePushConstants. apply computeKept_fold_left. intros s0 pc.
  by destruct (stageCOMPUTE _).
Qed.

(** X28: a dispatch goes through exactly when a compute pipeline is
    set and, if the compute encoder has to be opened, the command list
    has its command buffer and, if the encoder has to be opened or the
    descriptor sets are dirty, a compute pipeline layout is set. *)
Theorem dispatch_succeeds_iff (x y z : Z) (s : MetalCommandList) :
  is_Some (dispatch x y z s) ↔
  is_Some (activeComputeState s) ∧
  (activeComputeEncoder s = false → mtl s = true) ∧
  (activeComputeEncoder s = false ∨ cDescriptorSets (dirtyComputeState s) = true →
   is_Some (activeComputePipelineLayout s)).
Proof.
  unfold dispatch, checkActiveComputeEncoder. cbv zeta.
  destruct (endOtherEncoders_compute s) as ((Hst & He & Hl) & Hm & Hd).
  set (s1 := set_activeType Compute (endOtherEncoders Compute s)).
  change (activeComputeState (endOtherEncoders Compute s)) with (activeComputeState s1) in Hst.
  change (activeComputeEncoder (endOtherEncoders Compute s))
    with (activeComputeEncoder s1) in He.
  change (activeComputePipelineLayout (endOtherEncoders Compute s))
    with (activeComputePipelineLayout s1) in Hl.
  change (mtl (endOtherEncoders Compute s)) with (mtl s1) in Hm.
  change (dirtyComputeState (endOtherEncoders Compute s)) with (dirtyComputeState s1) in Hd.
  rewrite <- Hst, <- He, <- Hl, <- Hm, <- Hd. clearbody s1. clear.
  (* the state the flushes start from *)
  assert (∀ s2,
    is_Some (s5 ← (s3 ← flushComputePipelineState s2;
                   s4 ← flushComputeDescriptorSets s3;
                   Some (flushComputePushConstants s4));
             guard (activeComputeEncoder s5 = true);;
             state ← activeComputeState s5;
             Some (emit (dispatchThreadgroups x y z (threadGroupSizeX state)
                           (threadGroupSizeY state) (threadGroupSizeZ state)) s5)) ↔
    is_Some (activeComputeState s2) ∧ activeComputeEncoder s2 = true ∧
    (cDescriptorSets (dirtyComputeState s2) = true →
     is_Some (activeComputePipelineLayout s2))) as Hflush.
  { intros s2. split.
    - intros [s' H]. apply bind_Some in H as (s5 & H5 & H).
      apply bind_Some in H5 as (s3 & H3 & H5). apply bind_Some in H5 as (s4 & H4 & H5).
      injection H5 as <-.
      apply bind_Some in H as (Henc & _ & H). apply bind_Some in H as (state & Hstate & _).
      destruct (flushComputePushConstants_kept s4) as (P1 & P2 & P3).
      rewrite P1 in Hstate. rewrite P2 in Henc.
      assert (computeKept s2 s3 ∧
              cDescriptorSets (dirtyComputeState s3) = cDescriptorSets (dirtyComputeState s2))
        as [(K1 & K2 & K3) Kd].
      { unfold flushComputePipelineState in H3. destruct (cPipelineState _).
        - apply bind_Some in H3 as (st & _ & H3). by injection H3 as <-.
        - by injection H3 as <-. }
      assert (cDescriptorSets (dirtyComputeState s3) = true →
              is_Some (activeComputePipelineLayout s3)) as Hneed.
      { intros Hdirty. unfold flushComputeDescriptorSets in H4. rewrite Hdirty in H4.
        apply bind_Some in H4 as (l & Hl & _). by eexists. }
      destruct (flushComputeDescriptorSets_kept s3 Hneed) as (s4' & H4' & (L1 & L2 & L3)).
      rewrite H4 in H4'. injection H4' as <-.
      split; [exists state; congruence|]. split; [congruence|].
      intros Hdirty. rewrite <- K3. apply Hneed. congruence.
    - intros ([state Hstate] & Henc & Hneed).
      assert (∃ s3, flushComputePipelineState s2 = Some s3 ∧ computeKept s2 s3 ∧
                cDescriptorSets (dirtyComputeState s3) = cDescriptorSets (dirtyComputeState s2))
        as (s3 & -> & (K1 & K2 & K3) & Kd).
      { unfold flushComputePipelineState. destruct (cPipelineState _); [|by eexists].
        rewrite Hstate. cbn [mbind option_bind]. by eexists. }
      cbn [mbind option_bind].
      destruct (flushComputeDescriptorSets_kept s3) as (s4 & -> & (L1 & L2 & L3)).
      { rewrite Kd, K3. done. }
      cbn [mbind option_bind].
      destruct (flushComputePushConstants_kept s4) as (P1 & P2 & P3).
      rewrite option_guard_True by congruence. cbn [mbind option_bind].
      rewrite P1, L1, K1, Hstate. by eexists. }
  destruct (activeComputeEncoder s1) eqn:Eenc.
  - cbn [mbind option_bind]. rewrite (Hflush s1), Eenc. split.
    + intros (Hs & _ & Hn). split; [done|]. split; [done|]. intros [|Hdirty]; [done|].
      by apply Hn.
    + intros (Hs & _ & Hn). split; [done|]. split; [done|]. intros Hdirty. apply Hn.
      by right.
  - destruct (mtl s1) eqn:Emtl.
    + rewrite option_guard_True by done. cbn [mbind option_bind]. rewrite Hflush. split.
      * intros (Hs & _ & Hn). split; [done|]. split; [done|]. intros _. by apply Hn.
      * intros (Hs & _ & Hn). split; [done|]. split; [done|]. intros _. apply Hn. by left.
    + rewrite option_guard_False by done. cbn [mbind option_bind]. split.
      * by intros [? ?].
      * intros (_ & Hmtl & _). by specialize (Hmtl eq_refl).
Qed.

End WhenRecordingSucceeds.

(* ===================================================================== *)
(** * Binding descriptor sets                                           *)
(* ===================================================================== *)

Section DescriptorSetBinding.
Import Formats CommandList.

Lemma elem_of_insertSet p q sets : p ∈ insertSet q sets ↔ p = q ∨ p ∈ sets.
Proof.
  unfold insertSet. case_decide.
  - split; [by right|]. intros [->|?]; done.
  - rewrite elem_of_app, list_elem_of_singleton. tauto.
Qed.

Lemma bindSetStep_spec sets isCompute s i :
  trace (bindSetStep sets isCompute s i) =
    trace s ++ from_option (λ c, [c]) [] (bindSetCall sets isCompute i) ∧
  (∀ p, p ∈ currentEncoderDescriptorSets (bindSetStep sets isCompute s i) ↔
        p ∈ currentEncoderDescriptorSets s ∨
        bindSetCall sets isCompute i =
          Some (bindDescriptorSet isCompute p (DESCRIPTOR_SETS_BINDING_INDEX + i))) ∧
  dirtyGraphicsState (bindSetStep sets isCompute s i) = dirtyGraphicsState s ∧
  renderDescriptorSets (bindSetStep sets isCompute s i) = renderDescriptorSets s.
Proof.
  unfold bindSetStep, bindSetCall. case_decide.
  - simpl. rewrite app_nil_r. split; [done|]. split; [|done]. intros p. split; [by left|].
    by intros [?|?].
  - destruct (sets !! i) as [[q|]|]; simpl; rewrite ?app_nil_r.
    + split; [done|]. split; [|done]. intros p. rewrite elem_of_insertSet. split.
      * intros [->|?]; [by right|by left].
      * intros [?|[= ->]]; [by right|by left].
    + split; [done|]. split; [|done]. intros p. split; [by left|]. by intros [?|?].
    + split; [done|]. split; [|done]. intros p. split; [by left|]. by intros [?|?].
Qed.

Lemma bindDescriptorSets_calls sets isCompute idxs : ∀ s,
  let s' := fold_left (bindSetStep sets isCompute) idxs s in
  trace s' = trace s ++ omap (bindSetCall sets isCompute) idxs ∧
  (∀ p, p ∈ currentEncoderDescriptorSets s' ↔
        p ∈ currentEncoderDescriptorSets s ∨
        ∃ i, i ∈ idxs ∧
             bindSetCall sets isCompute i =
               Some (bindDescriptorSet isCompute p (DESCRIPTOR_SETS_BINDING_INDEX + i))) ∧
  dirtyGraphicsState s' = dirtyGraphicsState s ∧
  renderDescriptorSets s' = renderDescriptorSets s.
Proof.
  induction idxs as [|i idxs IH]; intros s; cbn [fold_left omap list_omap].
  - rewrite app_nil_r. split; [done|]. split; [|done]. intros p. split; [by left|].
    intros [?|(i & Hi & _)]; [done|]. by apply elem_of_nil in Hi.
  - destruct (IH (bindSetStep sets isCompute s i)) as (H1 & H2 & H3 & H4).
    destruct (bindSetStep_spec sets isCompute s i) as (K1 & K2 & K3 & K4).
    cbv zeta in *. rewrite H1, H3, H4, K1, K3, K4. split; [|split; [|done]].
    + rewrite <- (assoc_L (++)). f_equal. by destruct (bindSetCall sets isCompute i).
    + intros p. rewrite H2, K2. split.
      * intros [[?|Hi]|(j & Hj & Hc)]; [by left|right..].
        -- exists i. split; [by left|done].
        -- exists j. split; [by right|done].
      * intros [?|(j & Hj & Hc)]; [by left; left|].
        apply elem_of_cons in Hj as [->|Hj]; [by left; right|].
        right. by exists j.
Qed.

End DescriptorSetBinding.

(* ===================================================================== *)
(** * What a draw binds                                                 *)
(* ===================================================================== *)

Section DrawFlushes.
Import Formats CommandList.

Lemma graphicsKept_refl s : graphicsKept s s.
Proof. repeat (split; [done|]). exists []. by rewrite app_nil_r. Qed.

Lemma graphicsKept_trans s1 s2 s3 : graphicsKept s1 s2 → graphicsKept s2 s3 → graphicsKept s1 s3.
Proof.
  intros (A1 & A2 & A3 & A4 & A5 & A6 & A7 & t1 & At & Af)
         (B1 & B2 & B3 & B4 & B5 & B6 & B7 & t2 & Bt & Bf).
  repeat (split; [congruence|]). exists (t1 ++ t2).
  split; [by rewrite Bt, At, (assoc_L (++))|]. by apply Forall_app.
Qed.

Lemma graphicsKept_emit c s : isBindingCall c = false → graphicsKept s (emit c s).
Proof.
  intros Hc. repeat (split; [done|]). exists [c]. split; [done|]. by constructor.
Qed.

Lemma renderOpened_refl s : renderOpened s s.
Proof. split; [apply graphicsKept_refl|]. split; by left. Qed.

Lemma renderOpened_trans s1 s2 s3 : renderOpened s1 s2 → renderOpened s2 s3 → renderOpened s1 s3.
Proof.
  intros (A & [Ad|Ad] & [Ac|Ac]) (B & [Bd|Bd] & [Bc|Bc]);
    (split; [by eapply graphicsKept_trans|]); split;
    first [left; congruence | right; congruence].
Qed.

Lemma endActive_renderOpened k s : renderOpened s (endActive k s).
Proof.
  destruct k; simpl; [apply renderOpened_refl|..].
  - unfold endActiveRenderEncoder. destruct (activeRenderEncoder s); [|apply renderOpened_refl].
    split; [|split; by right]. repeat (split; [done|]).
    exists [useResources false (currentEncoderDescriptorSets s); endEncoding Render].
    split; [|by repeat constructor].
    cbn. by rewrite <- (assoc_L (++)).
  - unfold endActiveComputeEncoder. destruct (activeComputeEncoder s); [|apply renderOpened_refl].
    split; [|split; [by left|by right]]. repeat (split; [done|]).
    exists [useResources true (currentEncoderDescriptorSets s); endEncoding Compute].
    split; [|by repeat constructor].
    cbn. by rewrite <- (assoc_L (++)).
  - unfold endActiveBlitEncoder. destruct (activeBlitEncoder s); [|apply renderOpened_refl].
    split; [|split; by left]. by apply (graphicsKept_emit (endEncoding Blit)).
  - unfold endActiveResolveTextureComputeEncoder.
    destruct (activeResolveComputeEncoder s); [|apply renderOpened_refl].
    split; [|split; by left]. by apply (graphicsKept_emit (endEncoding Resolve)).
Qed.

Lemma renderPrologue_renderOpened s : renderOpened s (renderPrologue s).
Proof.
  unfold renderPrologue. cbv zeta.
  assert (renderOpened s (endOtherEncoders Render s)) as H1.
  { rewrite endOtherEncoders_endActive. case_decide; [apply renderOpened_refl|].
    apply endActive_renderOpened. }
  set (s1 := endOtherEncoders Render s) in *. clearbody s1.
  assert (renderOpened s1 (if active (pendingClears s1) then endActiveRenderEncoder s1 else s1))
    as H2.
  { destruct (active _); [apply (endActive_renderOpened Render)|apply renderOpened_refl]. }
  set (s2 := if active (pendingClears s1) then endActiveRenderEncoder s1 else s1) in *.
  clearbody s2.
  eapply renderOpened_trans; [exact H1|]. eapply renderOpened_trans; [exact H2|].
  split; [|split; by left]. repeat (split; [done|]). exists []. split; [|done].
  cbn. by rewrite app_nil_r.
Qed.

(** What [checkActiveRenderEncoder] leaves of the graphics state. *)
Lemma checkActiveRenderEncoder_renderOpened s s' :
  checkActiveRenderEncoder s = Some s' → renderOpened s s'.
Proof.
  rewrite checkActiveRenderEncoder_unfold. intros H.
  apply bind_Some in H as (fb & _ & H). cbv zeta in H.
  pose proof (renderPrologue_renderOpened s) as R.
  set (s1 := renderPrologue s) in *. clearbody s1.
  destruct (activeRenderEncoder s1); [by injection H as <-|].
  apply bind_Some in H as (colors & _ & H). apply bind_Some in H as (depth & _ & H).
  apply bind_Some in H as (stencil & _ & H). apply bind_Some in H as (_ & _ & H).
  eapply renderOpened_trans; [exact R|].
  assert (renderOpened s1
            (set_activeRenderEncoder true (emit (renderCommandEncoder colors depth stencil) s1)))
    as R2.
  { split; [|split; by left]. by apply (graphicsKept_emit (renderCommandEncoder _ _ _)). }
  match type of H with (if ?c then _ else _) = _ => destruct c end;
    injection H as <-; exact R2.
Qed.

(** The graphics flags after [checkActiveRenderEncoder]: all set when
    a render encoder was open with clears pending, since it has been
    ended, and untouched otherwise. *)
Lemma checkActiveRenderEncoder_dirty s s' :
  checkActiveRenderEncoder s = Some s' →
  dirtyGraphicsState s' =
    if active (pendingClears s) && activeRenderEncoder s then graphicsSetAll
    else dirtyGraphicsState s.
Proof.
  rewrite checkActiveRenderEncoder_unfold. intros H.
  apply bind_Some in H as (fb & _ & H). cbv zeta in H.
  assert (dirtyGraphicsState (renderPrologue s) =
            (if active (pendingClears s) && activeRenderEncoder s then graphicsSetAll
             else dirtyGraphicsState s)) as R.
  { unfold renderPrologue. cbv zeta.
    assert (dirtyGraphicsState (endOtherEncoders Render s) = dirtyGraphicsState s ∧
            pendingClears (endOtherEncoders Render s) = pendingClears s ∧
            activeRenderEncoder (endOtherEncoders Render s) = activeRenderEncoder s)
      as (E1 & E2 & E3).
    { rewrite endOtherEncoders_endActive.
      destruct (decide (activeType s = Render)) as [Hk|Hk]; [done|].
      destruct (activeType s); try done; simpl.
      - unfold endActiveComputeEncoder. by destruct (activeComputeEncoder s).
      - unfold endActiveBlitEncoder. by destruct (activeBlitEncoder s).
      - unfold endActiveResolveTextureComputeEncoder.
        by destruct (activeResolveComputeEncoder s). }
    set (s1 := endOtherEncoders Render s) in *. clearbody s1.
    rewrite <- E1, <- E2, <- E3. destruct (active (pendingClears s1)); [|done].
    unfold endActiveRenderEncoder. by destruct (activeRenderEncoder s1). }
  set (s1 := renderPrologue s) in *. clearbody s1.
  destruct (activeRenderEncoder s1); [by injection H as <-|].
  apply bind_Some in H as (colors & _ & H). apply bind_Some in H as (depth & _ & H).
  apply bind_Some in H as (stencil & _ & H). apply bind_Some in H as (_ & _ & H).
  match type of H with (if ?c then _ else _) = _ => destruct c end;
    injection H as <-; exact R.
Qed.

Lemma bindingsPending_refl s : bindingsPending s s.
Proof. split; [apply graphicsKept_refl|done]. Qed.

Lemma bindingsPending_trans s1 s2 s3 :
  bindingsPending s1 s2 → bindingsPending s2 s3 → bindingsPending s1 s3.
Proof.
  intros (A & A1 & A2 & A3 & A4 & A5) (B & B1 & B2 & B3 & B4 & B5).
  split; [by eapply graphicsKept_trans|]. repeat split; congruence.
Qed.

Lemma flushPipelineState_pending s :
  bindingsPending s (flushPipelineState s) ∧
  gViewports (dirtyGraphicsState (flushPipelineState s)) = gViewports (dirtyGraphicsState s) ∧
  gScissors (dirtyGraphicsState (flushPipelineState s)) = gScissors (dirtyGraphicsState s).
Proof.
  unfold flushPipelineState. destruct (gPipelineState _); [|by split; [apply bindingsPending_refl|]].
  destruct (activeRenderState s) as [state|]; cbv zeta.
  - split; [|done]. split; [|done]. by apply (graphicsKept_emit (setRenderState state)).
  - split; [|done]. split; [|done]. repeat (split; [done|]). exists []. split; [|done].
    cbn. by rewrite app_nil_r.
Qed.

Lemma flushViewports_pending s :
  bindingsPending s (flushViewports s) ∧
  gScissors (dirtyGraphicsState (flushViewports s)) = gScissors (dirtyGraphicsState s).
Proof.
  unfold flushViewports. destruct (gViewports _); [|by split; [apply bindingsPending_refl|]].
  cbv zeta. split; [|done]. split; [|done].
  by apply (graphicsKept_emit (setViewports (viewportVector s))).
Qed.

Lemma flushDepthBias_pending s s' :
  flushDepthBias s = Some s' →
  bindingsPending s s' ∧ gScissors (dirtyGraphicsState s') = gScissors (dirtyGraphicsState s).
Proof.
  unfold flushDepthBias. destruct (gDepthBias _).
  - intros H. apply bind_Some in H as (state & _ & H). injection H as <-.
    destruct (dynamicDepthBiasEnabled state); (split; [|done]); (split; [|done]).
    + by apply (graphicsKept_emit (setDepthBias _ _ _)).
    + by apply (graphicsKept_emit (setDepthBias _ _ _)).
  - intros [= <-]. by split; [apply bindingsPending_refl|].
Qed.

Lemma flushScissors_pending s : bindingsPending s (flushScissors s).
Proof.
  unfold flushScissors. destruct (gScissors _); [|apply bindingsPending_refl].
  cbv zeta. split; [|done]. by apply (graphicsKept_emit (setScissorRects (scissorVector s))).
Qed.

Lemma flushVertexBuffers_calls s :
  trace (flushVertexBuffers s) = trace s ++ vertexBufferCalls s ∧
  vertexBufferSlots (dirtyGraphicsState (flushVertexBuffers s)) = 0%Z ∧
  gDescriptorSets (dirtyGraphicsState (flushVertexBuffers s)) =
    gDescriptorSets (dirtyGraphicsState s) ∧
  gDescriptorSetDirtyIndex (dirtyGraphicsState (flushVertexBuffers s)) =
    gDescriptorSetDirtyIndex (dirtyGraphicsState s) ∧
  gPushConstants (dirtyGraphicsState (flushVertexBuffers s)) =
    gPushConstants (dirtyGraphicsState s) ∧
  currentEncoderDescriptorSets (flushVertexBuffers s) = currentEncoderDescriptorSets s ∧
  pushConstants (flushVertexBuffers s) = pushConstants s ∧
  activeGraphicsPipelineLayout (flushVertexBuffers s) = activeGraphicsPipelineLayout s ∧
  renderDescriptorSets (flushVertexBuffers s) = renderDescriptorSets s.
Proof.
  unfold flushVertexBuffers, vertexBufferCalls.
  destruct (vertexBufferSlots (dirtyGraphicsState s) =? 0)%Z eqn:E; cbn [negb].
  - apply Z.eqb_eq in E. rewrite E. change (dirtySlots 0) with (@nil nat).
    by rewrite app_nil_r.
  - cbv zeta.
    set (slots := dirtySlots (vertexBufferSlots (dirtyGraphicsState s))).
    destruct (bindVertexBuffers_trace slots s) as (B1 & B2 & B3 & B4).
    assert (∀ l s0, currentEncoderDescriptorSets (bindVertexBuffers l s0) =
                      currentEncoderDescriptorSets s0 ∧
                    pushConstants (bindVertexBuffers l s0) = pushConstants s0 ∧
                    activeGraphicsPipelineLayout (bindVertexBuffers l s0) =
                      activeGraphicsPipelineLayout s0 ∧
                    renderDescriptorSets (bindVertexBuffers l s0) = renderDescriptorSets s0)
      as Hk.
    { unfold bindVertexBuffers. induction l as [|i l IH]; intros s0; simpl; [done|].
      destruct (IH (emit (setVertexBuffer (default None (vertexBuffers s0 !! i))
                            (default 0%Z (vertexBufferOffsets s0 !! i))
                            (VERTEX_BUFFERS_BINDING_INDEX + i)) s0)) as (? & ? & ? & ?).
      done. }
    destruct (Hk slots s) as (K1 & K2 & K3 & K4).
    split; [exact B1|]. split; [done|].
    change (gDescriptorSets (dirtyGraphicsState (bindVertexBuffers slots s)) =
              gDescriptorSets (dirtyGraphicsState s) ∧
            gDescriptorSetDirtyIndex (dirtyGraphicsState (bindVertexBuffers slots s)) =
              gDescriptorSetDirtyIndex (dirtyGraphicsState s) ∧
            gPushConstants (dirtyGraphicsState (bindVertexBuffers slots s)) =
              gPushConstants (dirtyGraphicsState s) ∧
            currentEncoderDescriptorSets (bindVertexBuffers slots s) =
              currentEncoderDescriptorSets s ∧
            pushConstants (bindVertexBuffers slots s) = pushConstants s ∧
            activeGraphicsPipelineLayout (bindVertexBuffers slots s) =
              activeGraphicsPipelineLayout s ∧
            renderDescriptorSets (bindVertexBuffers slots s) = renderDescriptorSets s).
    rewrite B4. done.
Qed.

Lemma bindDescriptorSets_fold layout sets isCompute start s :
  bindDescriptorSets layout sets isCompute start s =
    fold_left (bindSetStep sets isCompute) (seq start (setLayoutCount layout - start)) s.
Proof. reflexivity. Qed.

Lemma bindSetStep_kept sets isCompute s i :
  pushConstants (bindSetStep sets isCompute s i) = pushConstants s.
Proof.
  unfold bindSetStep. case_decide; [done|]. by destruct (sets !! i) as [[?|]|].
Qed.

Lemma fold_bindSetStep_kept sets isCompute idxs : ∀ s,
  pushConstants (fold_left (bindSetStep sets isCompute) idxs s) = pushConstants s.
Proof.
  induction idxs as [|i idxs IH]; intros s; simpl; [done|].
  by rewrite IH, bindSetStep_kept.
Qed.

Lemma flushDescriptorSets_calls s :
  trace (flushDescriptorSets s) = trace s ++ descriptorSetCalls s ∧
  gDescriptorSets (dirtyGraphicsState (flushDescriptorSets s)) = false ∧
  vertexBufferSlots (dirtyGraphicsState (flushDescriptorSets s)) =
    vertexBufferSlots (dirtyGraphicsState s) ∧
  gPushConstants (dirtyGraphicsState (flushDescriptorSets s)) =
    gPushConstants (dirtyGraphicsState s) ∧
  pushConstants (flushDescriptorSets s) = pushConstants s ∧
  (∀ p, p ∈ currentEncoderDescriptorSets (flushDescriptorSets s) ↔
        p ∈ currentEncoderDescriptorSets s ∨
        ∃ i, bindDescriptorSet false p (DESCRIPTOR_SETS_BINDING_INDEX + i)
               ∈ descriptorSetCalls s).
Proof.
  unfold flushDescriptorSets, descriptorSetCalls.
  destruct (gDescriptorSets (dirtyGraphicsState s)) eqn:E.
  2:{ rewrite app_nil_r. repeat (split; [done|]). intros p. split; [by left|].
      intros [?|[i Hi]]; [done|]. by apply elem_of_nil in Hi. }
  cbv zeta. destruct (activeGraphicsPipelineLayout s) as [layout|].
  2:{ rewrite app_nil_r. repeat (split; [done|]). intros p. split; [by left|].
      intros [?|[i Hi]]; [done|]. by apply elem_of_nil in Hi. }
  rewrite bindDescriptorSets_fold.
  set (idxs := seq (gDescriptorSetDirtyIndex (dirtyGraphicsState s))
                 (setLayoutCount layout - gDescriptorSetDirtyIndex (dirtyGraphicsState s))).
  destruct (bindDescriptorSets_calls (renderDescriptorSets s) false idxs s) as (T & Cur & D & R).
  cbv zeta in T, Cur, D, R.
  pose proof (fold_bindSetStep_kept (renderDescriptorSets s) false idxs s) as P.
  set (s1 := fold_left (bindSetStep (renderDescriptorSets s) false) idxs s) in *.
  clearbody s1.
  split; [exact T|]. split; [done|].
  split; [change (vertexBufferSlots (dirtyGraphicsState s1) =
                    vertexBufferSlots (dirtyGraphicsState s)); by rewrite D|].
  split; [change (gPushConstants (dirtyGraphicsState s1) =
                    gPushConstants (dirtyGraphicsState s)); by rewrite D|].
  split; [exact P|].
  intros p. etrans; [apply Cur|]. apply or_iff_compat_l. split.
  - intros (i & Hi & Hc). exists i. apply list_elem_of_omap. by exists i.
  - intros (i & Hi). apply list_elem_of_omap in Hi as (j & Hj & Hc).
    assert (j = i) as ->; [|by exists i].
    unfold bindSetCall in Hc. case_decide; [done|].
    destruct (renderDescriptorSets s !! j) as [[q|]|]; try done.
    injection Hc as _ Hc. lia.
Qed.

Lemma flushPushConstants_calls s :
  trace (flushPushConstants s) = trace s ++ pushConstantBindings s ∧
  gPushConstants (dirtyGraphicsState (flushPushConstants s)) = false ∧
  vertexBufferSlots (dirtyGraphicsState (flushPushConstants s)) =
    vertexBufferSlots (dirtyGraphicsState s) ∧
  gDescriptorSets (dirtyGraphicsState (flushPushConstants s)) =
    gDescriptorSets (dirtyGraphicsState s) ∧
  currentEncoderDescriptorSets (flushPushConstants s) = currentEncoderDescriptorSets s.
Proof.
  unfold pushConstantBindings.
  destruct (gPushConstants (dirtyGraphicsState s)) eqn:E.
  - rewrite flushPushConstants_trace by done. split; [done|].
    unfold flushPushConstants. rewrite E. cbv zeta.
    assert (∀ l s0, dirtyGraphicsState (fold_left bindPushConstant l s0) = dirtyGraphicsState s0 ∧
                    currentEncoderDescriptorSets (fold_left bindPushConstant l s0) =
                      currentEncoderDescriptorSets s0) as Hk.
    { induction l as [|pc l IH]; intros s0; simpl; [done|].
      destruct (IH (bindPushConstant s0 pc)) as [-> ->]. unfold bindPushConstant.
      by destruct (stageVERTEX _), (stagePIXEL _). }
    destruct (Hk (pushConstants s) s) as [K1 K2].
    change (bindGraphicsPushConstants s) with (fold_left bindPushConstant (pushConstants s) s).
    set (s1 := fold_left bindPushConstant (pushConstants s) s) in *. clearbody s1.
    split; [done|].
    split; [change (vertexBufferSlots (dirtyGraphicsState s1) =
                      vertexBufferSlots (dirtyGraphicsState s)); by rewrite K1|].
    split; [change (gDescriptorSets (dirtyGraphicsState s1) =
                      gDescriptorSets (dirtyGraphicsState s)); by rewrite K1|].
    exact K2.
  - unfold flushPushConstants. rewrite E. by rewrite app_nil_r.
Qed.

Lemma vertexBufferCalls_ext s s' :
  vertexBuffers s' = vertexBuffers s → vertexBufferOffsets s' = vertexBufferOffsets s →
  vertexBufferSlots (dirtyGraphicsState s') = vertexBufferSlots (dirtyGraphicsState s) →
  vertexBufferCalls s' = vertexBufferCalls s.
Proof.
  intros H1 H2 H3. unfold vertexBufferCalls, vertexBufferCall. by rewrite H1, H2, H3.
Qed.

Lemma descriptorSetCalls_ext s s' :
  activeGraphicsPipelineLayout s' = activeGraphicsPipelineLayout s →
  renderDescriptorSets s' = renderDescriptorSets s →
  gDescriptorSets (dirtyGraphicsState s') = gDescriptorSets (dirtyGraphicsState s) →
  gDescriptorSetDirtyIndex (dirtyGraphicsState s') =
    gDescriptorSetDirtyIndex (dirtyGraphicsState s) →
  descriptorSetCalls s' = descriptorSetCalls s.
Proof. intros H1 H2 H3 H4. unfold descriptorSetCalls. by rewrite H1, H2, H3, H4. Qed.

Lemma pushConstantBindings_ext s s' :
  pushConstants s' = pushConstants s →
  gPushConstants (dirtyGraphicsState s') = gPushConstants (dirtyGraphicsState s) →
  pushConstantBindings s' = pushConstantBindings s.
Proof. intros H1 H2. unfold pushConstantBindings. by rewrite H1, H2. Qed.

(** What [checkForUpdatesInGraphicsState] binds: nothing when it
    returns early, and otherwise the dirty vertex buffer slots, the
    descriptor sets and the push constants, in this order, after the
    calls of the first blocks. *)
Lemma checkForUpdatesInGraphicsState_calls s s' :
  checkForUpdatesInGraphicsState s = Some s' →
  ∃ pre, Forall (λ c, isBindingCall c = false) pre ∧
    if returnsEarly s then
      trace s' = trace s ++ pre ∧
      vertexBufferSlots (dirtyGraphicsState s') = vertexBufferSlots (dirtyGraphicsState s) ∧
      gDescriptorSets (dirtyGraphicsState s') = gDescriptorSets (dirtyGraphicsState s) ∧
      gPushConstants (dirtyGraphicsState s') = gPushConstants (dirtyGraphicsState s) ∧
      currentEncoderDescriptorSets s' = currentEncoderDescriptorSets s
    else
      trace s' = trace s ++ pre ++ vertexBufferCalls s ++ descriptorSetCalls s ++
                   pushConstantBindings s ∧
      vertexBufferSlots (dirtyGraphicsState s') = 0%Z ∧
      gDescriptorSets (dirtyGraphicsState s') = false ∧
      gPushConstants (dirtyGraphicsState s') = false ∧
      (∀ p, p ∈ currentEncoderDescriptorSets s' ↔
            p ∈ currentEncoderDescriptorSets s ∨
            ∃ i, bindDescriptorSet false p (DESCRIPTOR_SETS_BINDING_INDEX + i)
                   ∈ descriptorSetCalls s).
Proof.
  unfold checkForUpdatesInGraphicsState, returnsEarly. cbv zeta. intros H.
  destruct (flushPipelineState_pending s) as (P1 & V1 & S1).
  set (s1 := flushPipelineState s) in *. clearbody s1.
  pose proof P1 as ((_ & _ & Hv1 & Hs1 & _) & _).
  rewrite <- V1, <- Hv1.
  destruct (gViewports (dirtyGraphicsState s1) && bool_decide (viewportVector s1 = [])) eqn:E1.
  { injection H as <-. cbn [orb].
    destruct P1 as ((_ & _ & _ & _ & _ & _ & _ & t & Ht & Hf) & A1 & A2 & A3 & A4 & A5).
    exists t. split; [done|]. done. }
  cbn [orb].
  destruct (flushViewports_pending s1) as (P2 & S2).
  set (s2 := flushViewports s1) in *. clearbody s2.
  apply bind_Some in H as (s3 & H3 & H).
  apply flushDepthBias_pending in H3 as (P3 & S3).
  pose proof (bindingsPending_trans _ _ _ P1 (bindingsPending_trans _ _ _ P2 P3)) as P13.
  pose proof P13 as ((_ & _ & _ & Hs3 & _) & _).
  rewrite <- S1, <- S2, <- S3, <- Hs3. clear P1 P2 P3 S1 S2 S3 V1 Hv1 Hs1 E1 s1 s2.
  destruct (gScissors (dirtyGraphicsState s3) && bool_decide (scissorVector s3 = [])) eqn:E2.
  { injection H as <-.
    destruct P13 as ((_ & _ & _ & _ & _ & _ & _ & t & Ht & Hf) & A1 & A2 & A3 & A4 & A5).
    exists t. split; [done|]. done. }
  injection H as <-.
  pose proof (bindingsPending_trans _ _ _ P13 (flushScissors_pending s3)) as P4.
  set (s4 := flushScissors s3) in *. clearbody s4. clear P13 E2 Hs3 s3.
  destruct P4 as ((K1 & K2 & K3 & K4 & K5 & K6 & K7 & pre & Ht & Hf) & A1 & A2 & A3 & A4 & A5).
  destruct (flushVertexBuffers_calls s4) as (T5 & B1 & B2 & B3 & B4 & B5 & B6 & B7 & B8).
  set (s5 := flushVertexBuffers s4) in *. clearbody s5.
  destruct (flushDescriptorSets_calls s5) as (T6 & C1 & C2 & C3 & C4 & C5).
  set (s6 := flushDescriptorSets s5) in *. clearbody s6.
  destruct (flushPushConstants_calls s6) as (T7 & D1 & D2 & D3 & D4).
  set (s7 := flushPushConstants s6) in *. clearbody s7.
  rewrite (vertexBufferCalls_ext s s4) in T5 by done.
  rewrite (descriptorSetCalls_ext s s5) in T6, C5 by congruence.
  rewrite (pushConstantBindings_ext s s6) in T7 by congruence.
  exists pre. split; [done|].
  split; [rewrite T7, T6, T5, Ht; by rewrite <- !(assoc_L (++))|].
  split; [congruence|]. split; [congruence|]. split; [done|].
  intros p. rewrite D4, C5, B5, A5. done.
Qed.

Lemma filter_nonbinding (P : NativeCall → bool) l :
  (∀ c, P c = true → isBindingCall c = true) →
  Forall (λ c, isBindingCall c = false) l → filter (λ c, P c = true) l = [].
Proof.
  intros HP Hl. induction Hl as [|c l Hc Hl IH]; [done|].
  rewrite filter_cons, IH. case_decide as Hp; [|done].
  apply HP in Hp. congruence.
Qed.

Lemma filter_all (P : NativeCall → bool) l :
  Forall (λ c, P c = true) l → filter (λ c, P c = true) l = l.
Proof.
  intros Hl. induction Hl as [|c l Hc Hl IH]; [done|].
  by rewrite filter_cons, IH, decide_True.
Qed.

Lemma filter_none (P : NativeCall → bool) l :
  Forall (λ c, P c = false) l → filter (λ c, P c = true) l = [].
Proof.
  intros Hl. induction Hl as [|c l Hc Hl IH]; [done|].
  rewrite filter_cons, IH. rewrite decide_False; [done|congruence].
Qed.

Lemma vertexBufferCalls_kind s :
  Forall (λ c, isVertexBufferCall c = true) (vertexBufferCalls s) ∧
  Forall (λ c, isDescriptorSetCall c = false) (vertexBufferCalls s) ∧
  Forall (λ c, isPushConstantCall c = false) (vertexBufferCalls s).
Proof.
  unfold vertexBufferCalls. repeat split; apply Forall_fmap, Forall_true; done.
Qed.

Lemma descriptorSetCalls_kind s :
  Forall (λ c, isDescriptorSetCall c = true) (descriptorSetCalls s) ∧
  Forall (λ c, isVertexBufferCall c = false) (descriptorSetCalls s) ∧
  Forall (λ c, isPushConstantCall c = false) (descriptorSetCalls s).
Proof.
  assert (∀ c, c ∈ descriptorSetCalls s → ∃ p i, c = bindDescriptorSet false p i) as H.
  { intros c Hc. unfold descriptorSetCalls in Hc.
    destruct (gDescriptorSets _); [|by apply elem_of_nil in Hc].
    destruct (activeGraphicsPipelineLayout s); [|by apply elem_of_nil in Hc].
    apply list_elem_of_omap in Hc as (j & _ & Hc). unfold bindSetCall in Hc.
    case_decide; [done|]. destruct (renderDescriptorSets s !! j) as [[q|]|]; try done.
    injection Hc as <-. by eexists _, _. }
  repeat split; apply Forall_forall; intros c Hc; by destruct (H c Hc) as (p & i & ->).
Qed.

Lemma pushConstantBindings_kind s :
  Forall (λ c, isPushConstantCall c = true) (pushConstantBindings s) ∧
  Forall (λ c, isVertexBufferCall c = false) (pushConstantBindings s) ∧
  Forall (λ c, isDescriptorSetCall c = false) (pushConstantBindings s).
Proof.
  assert (∀ c, c ∈ pushConstantBindings s → ∃ st d n i, c = setPushConstantBytes st d n i) as H.
  { intros c Hc. unfold pushConstantBindings in Hc.
    destruct (gPushConstants _); [|by apply elem_of_nil in Hc].
    apply list_elem_of_In, in_flat_map in Hc as (pc & _ & Hc). apply list_elem_of_In in Hc.
    unfold pushConstantCalls in Hc. apply elem_of_app in Hc as [Hc|Hc].
    - destruct (stageVERTEX _); [|by apply elem_of_nil in Hc].
      apply list_elem_of_singleton in Hc as ->. by eexists _, _, _, _.
    - destruct (stagePIXEL _); [|by apply elem_of_nil in Hc].
      apply list_elem_of_singleton in Hc as ->. by eexists _, _, _, _. }
  repeat split; apply Forall_forall; intros c Hc;
    by destruct (H c Hc) as (st & d & n & i & ->).
Qed.

(** The binding calls of a draw.  [s1] is the state the render encoder
    is checked into; the draw call comes last. *)
Lemma draw_bindings c s s' :
  requiredEncoder c = Some Render → record c s = Some s' →
  ∃ s1 added,
    checkActiveRenderEncoder s = Some s1 ∧
    renderOpened s s1 ∧ trace s' = trace s ++ added ∧
    (if returnsEarly s1 then
       Forall (λ c, isBindingCall c = false) added ∧
       vertexBufferSlots (dirtyGraphicsState s') = vertexBufferSlots (dirtyGraphicsState s1) ∧
       gDescriptorSets (dirtyGraphicsState s') = gDescriptorSets (dirtyGraphicsState s1) ∧
       gPushConstants (dirtyGraphicsState s') = gPushConstants (dirtyGraphicsState s1) ∧
       currentEncoderDescriptorSets s' = currentEncoderDescriptorSets s1
     else
       filter (λ c, isVertexBufferCall c = true) added = vertexBufferCalls s1 ∧
       filter (λ c, isDescriptorSetCall c = true) added = descriptorSetCalls s1 ∧
       filter (λ c, isPushConstantCall c = true) added = pushConstantBindings s1 ∧
       vertexBufferSlots (dirtyGraphicsState s') = 0%Z ∧
       gDescriptorSets (dirtyGraphicsState s') = false ∧
       gPushConstants (dirtyGraphicsState s') = false ∧
       (∀ p, p ∈ currentEncoderDescriptorSets s' ↔
             p ∈ currentEncoderDescriptorSets s1 ∨
             ∃ i, bindDescriptorSet false p (DESCRIPTOR_SETS_BINDING_INDEX + i)
                    ∈ descriptorSetCalls s1)).
Proof.
  intros Hk H.
  assert (∃ s1 s2 last,
            checkActiveRenderEncoder s = Some s1 ∧ checkForUpdatesInGraphicsState s1 = Some s2 ∧
            s' = emit last s2 ∧ isBindingCall last = false) as (s1 & s2 & last & H1 & H2 & -> & Hl).
  { destruct c; try discriminate Hk; simpl in H.
    - unfold drawInstanced in H. apply bind_Some in H as (s1 & H1 & H).
      apply bind_Some in H as (s2 & H2 & H). apply bind_Some in H as (state & _ & H).
      injection H as <-. by eexists _, _, _.
    - unfold drawIndexedInstanced in H. apply bind_Some in H as (s1 & H1 & H).
      apply bind_Some in H as (s2 & H2 & H). injection H as <-. by eexists _, _, _. }
  pose proof (checkActiveRenderEncoder_renderOpened _ _ H1) as R.
  pose proof R as ((_ & _ & _ & _ & _ & _ & _ & t & Ht & Hf) & _).
  destruct (checkForUpdatesInGraphicsState_calls _ _ H2) as (pre & Hpre & Hc).
  exists s1. destruct (returnsEarly s1).
  - destruct Hc as (T & A1 & A2 & A3 & A4). exists (t ++ pre ++ [last]).
    split; [done|]. split; [done|].
    split; [change (trace (emit last s2)) with (trace s2 ++ [last]);
             rewrite T, Ht; by rewrite <- !(assoc_L (++))|].
    split; [|done]. apply Forall_app. split; [done|]. apply Forall_app. split; [done|].
    by constructor.
  - destruct Hc as (T & A1 & A2 & A3 & A4).
    exists (t ++ pre ++ vertexBufferCalls s1 ++ descriptorSetCalls s1 ++
            pushConstantBindings s1 ++ [last]).
    split; [done|]. split; [done|].
    split; [change (trace (emit last s2)) with (trace s2 ++ [last]);
             rewrite T, Ht; by rewrite <- !(assoc_L (++))|].
    destruct (vertexBufferCalls_kind s1) as (V1 & V2 & V3).
    destruct (descriptorSetCalls_kind s1) as (D1 & D2 & D3).
    destruct (pushConstantBindings_kind s1) as (P1 & P2 & P3).
    assert (∀ P : NativeCall → bool, (∀ c, P c = true → isBindingCall c = true) →
              filter (λ c, P c = true) (t ++ pre ++ vertexBufferCalls s1 ++
                descriptorSetCalls s1 ++ pushConstantBindings s1 ++ [last]) =
              filter (λ c, P c = true) (vertexBufferCalls s1) ++
              filter (λ c, P c = true) (descriptorSetCalls s1) ++
              filter (λ c, P c = true) (pushConstantBindings s1)) as Hfil.
    { intros P HP. rewrite !filter_app.
      rewrite (filter_nonbinding P t), (filter_nonbinding P pre) by done.
      rewrite (filter_nonbinding P [last]) by (try done; by constructor).
      by rewrite app_nil_r. }
    split; [|split; [|split; [|done]]].
    + rewrite Hfil by (intros c0 Hc0; unfold isBindingCall; by rewrite Hc0).
      rewrite (filter_all _ _ V1), (filter_none _ _ D2), (filter_none _ _ P2).
      by rewrite !app_nil_r.
    + rewrite Hfil by (intros c0 Hc0; unfold isBindingCall; rewrite Hc0; by destruct (isVertexBufferCall c0)).
      by rewrite (filter_none _ _ V2), (filter_all _ _ D1), (filter_none _ _ P3), app_nil_r.
    + rewrite Hfil by (intros c0 Hc0; unfold isBindingCall; rewrite Hc0;
                       by destruct (isVertexBufferCall c0), (isDescriptorSetCall c0)).
      by rewrite (filter_none _ _ V3), (filter_none _ _ D3), (filter_all _ _ P1).
Qed.

(** The early return of a draw, read off the state before it. *)
Lemma returnsEarly_opened s s1 :
  renderOpened s s1 →
  (viewportVector s ≠ [] → scissorVector s ≠ [] → returnsEarly s1 = false) ∧
  (gViewports (dirtyGraphicsState s) = true ∧ viewportVector s = [] ∨
   gScissors (dirtyGraphicsState s) = true ∧ scissorVector s = [] → returnsEarly s1 = true).
Proof.
  intros ((_ & _ & Hv & Hs & _) & Hd & _). unfold returnsEarly. rewrite Hv, Hs. split.
  - intros H1 H2. rewrite !bool_decide_eq_false_2 by done. by rewrite !andb_false_r.
  - intros [[Hf He]|[Hf He]].
    + assert (gViewports (dirtyGraphicsState s1) = true) as ->
        by (destruct Hd as [-> | ->]; [exact Hf|done]).
      rewrite He. by rewrite bool_decide_eq_true_2.
    + assert (gScissors (dirtyGraphicsState s1) = true) as ->
        by (destruct Hd as [-> | ->]; [exact Hf|done]).
      rewrite He. rewrite (bool_decide_eq_true_2 ([] = [])) by done. apply orb_true_r.
Qed.

(** X23: [setVertexBuffers] stores the buffer and the offset of every
    view in the slot [startSlot + j], the device's null buffer at
    offset 0 for a null buffer, leaves the other slots as they are,
    marks exactly the written slots dirty on top of the ones that were
    and makes no call.  A draw that follows, when the viewport and the
    scissor vector are not empty, binds the dirty slots, each once and
    lowest first, at [VERTEX_BUFFERS_BINDING_INDEX + slot], and leaves
    none dirty; the slots are the ones that were dirty, or all of them
    when the draw had to end a render encoder (one was open and clears
    were pending).  When the viewports or the scissors are dirty and
    their vector is empty, the draw binds no vertex buffer and the
    slots stay dirty. *)
Theorem setVertexBuffers_rebinds (startSlot viewCount : nat)
    (views : list RenderBufferReference) (inputSlots : list unit)
    (s s' : MetalCommandList) :
  length (vertexBuffers s) = MAX_VERTEX_BUFFER_BINDINGS →
  length (vertexBufferOffsets s) = MAX_VERTEX_BUFFER_BINDINGS →
  setVertexBuffers startSlot (Some views) viewCount (Some inputSlots) s = Some s' →
  (∀ j v, j < viewCount → views !! j = Some v →
     vertexBuffers s' !! (startSlot + j) = Some (Some (viewBuffer v)) ∧
     vertexBufferOffsets s' !! (startSlot + j) = Some (wrap32 (viewOffset v))) ∧
  (∀ i, ¬ (startSlot ≤ i < startSlot + viewCount) →
     vertexBuffers s' !! i = vertexBuffers s !! i ∧
     vertexBufferOffsets s' !! i = vertexBufferOffsets s !! i) ∧
  (∀ i, i ∈ dirtySlots (vertexBufferSlots (dirtyGraphicsState s')) ↔
        i ∈ dirtySlots (vertexBufferSlots (dirtyGraphicsState s)) ∨
        (startSlot ≤ i < startSlot + viewCount)) ∧
  trace s' = trace s ∧
  ∀ (c : Command) (s'' : MetalCommandList),
    requiredEncoder c = Some Render → record c s' = Some s'' →
    ∃ added slots,
      trace s'' = trace s' ++ added ∧
      slots =
        (if active (pendingClears s') && activeRenderEncoder s'
         then seq 0 MAX_VERTEX_BUFFER_BINDINGS
         else dirtySlots (vertexBufferSlots (dirtyGraphicsState s'))) ∧
      StronglySorted lt slots ∧
      (viewportVector s' ≠ [] → scissorVector s' ≠ [] →
         filter (λ c, isVertexBufferCall c = true) added = vertexBufferCall s' <$> slots ∧
         vertexBufferSlots (dirtyGraphicsState s'') = 0%Z) ∧
      (gViewports (dirtyGraphicsState s') = true ∧ viewportVector s' = [] ∨
       gScissors (dirtyGraphicsState s') = true ∧ scissorVector s' = [] →
         filter (λ c, isVertexBufferCall c = true) added = [] ∧
         dirtySlots (vertexBufferSlots (dirtyGraphicsState s'')) = slots).
Proof.
  intros L1 L2 H.
  destruct (setVertexBuffers_stored _ _ _ _ _ _ L1 L2 H) as (H1 & H2 & H3 & H4).
  split; [done|]. split; [done|]. split; [done|]. split; [done|].
  intros c s'' Hk Hc.
  destruct (draw_bindings _ _ _ Hk Hc) as (s1 & added & H1' & R & T & Hb).
  pose proof (checkActiveRenderEncoder_dirty _ _ H1') as Hdirty1.
  destruct (returnsEarly_opened _ _ R) as [Hlate Hearly].
  pose proof R as ((V1 & V2 & _) & Hd & _).
  set (slots := dirtySlots (vertexBufferSlots (dirtyGraphicsState s1))).
  exists added, slots. split; [done|].
  split; [unfold slots; rewrite Hdirty1; by destruct (active _ && activeRenderEncoder _)|].
  split; [apply seq_filter_sorted|]. split.
  - intros Hv Hs. rewrite (Hlate Hv Hs) in Hb. destruct Hb as (B1 & _ & _ & B4 & _).
    split; [|done]. rewrite B1. unfold vertexBufferCalls, vertexBufferCall.
    by rewrite V1, V2.
  - intros He. rewrite (Hearly He) in Hb. destruct Hb as (B1 & B2 & _).
    split; [|unfold slots; by rewrite B2].
    apply filter_nonbinding; [|done]. intros c0 Hc0. unfold isBindingCall. by rewrite Hc0.
Qed.

Lemma setVertexBuffers_rebinds_witness :
  ∃ s0 s' s'' e0 e' e'',
    recordAll (sampleReady ++ [DrawInstanced 3 1 0 0]) newMetalCommandList = Some s0 ∧
    setVertexBuffers 2
      (Some [ {| ref := Some (Some 5); refOffset := 16 |}; {| ref := None; refOffset := 8 |} ])
      2 (Some [(); ()]) s0 = Some s' ∧
    record (DrawInstanced 3 1 0 0) s' = Some s'' ∧
    trace s'' =
      trace s' ++
        [ setVertexBuffer (Some (BufferMtl (Some 5))) 16 (VERTEX_BUFFERS_BINDING_INDEX + 2);
          setVertexBuffer (Some DeviceNullBuffer) 0 (VERTEX_BUFFERS_BINDING_INDEX + 3);
          drawPrimitives PrimitiveTypeTriangle 0 3 1 0 ] ∧
    recordAll sampleSetup newMetalCommandList = Some e0 ∧
    setVertexBuffers 2
      (Some [ {| ref := Some (Some 5); refOffset := 16 |}; {| ref := None; refOffset := 8 |} ])
      2 (Some [(); ()]) e0 = Some e' ∧
    record (DrawInstanced 3 1 0 0) e' = Some e'' ∧
    (∃ added slots,
       trace s'' = trace s' ++ added ∧
       filter (λ c, isVertexBufferCall c = true) added = vertexBufferCall s' <$> slots ∧
       vertexBufferSlots (dirtyGraphicsState s'') = 0%Z) ∧
    (∃ added slots,
       trace e'' = trace e' ++ added ∧
       filter (λ c, isVertexBufferCall c = true) added = [] ∧
       dirtySlots (vertexBufferSlots (dirtyGraphicsState e'')) = slots) ∧
    (∀ i, i ∈ dirtySlots (vertexBufferSlots (dirtyGraphicsState s')) ↔
          i ∈ dirtySlots (vertexBufferSlots (dirtyGraphicsState s0)) ∨ (2 ≤ i < 2 + 2)).
Proof.
  eassert (E0 : recordAll (sampleReady ++ [DrawInstanced 3 1 0 0]) newMetalCommandList = Some _)
    by (vm_compute; reflexivity).
  eassert (F0 : recordAll sampleSetup newMetalCommandList = Some _)
    by (vm_compute; reflexivity).
  match type of E0 with
  | _ = Some ?s0 =>
      eassert (E1 : setVertexBuffers 2
                      (Some [ {| ref := Some (Some 5); refOffset := 16 |};
                              {| ref := None; refOffset := 8 |} ])
                      2 (Some [(); ()]) s0 = Some _) by (vm_compute; reflexivity)
  end.
  match type of F0 with
  | _ = Some ?e0 =>
      eassert (F1 : setVertexBuffers 2
                      (Some [ {| ref := Some (Some 5); refOffset := 16 |};
                              {| ref := None; refOffset := 8 |} ])
                      2 (Some [(); ()]) e0 = Some _) by (vm_compute; reflexivity)
  end.
  match type of E1 with
  | _ = Some ?s1 =>
      eassert (E2 : record (DrawInstanced 3 1 0 0) s1 = Some _) by (vm_compute; reflexivity)
  end.
  match type of F1 with
  | _ = Some ?e1 =>
      eassert (F2 : record (DrawInstanced 3 1 0 0) e1 = Some _) by (vm_compute; reflexivity)
  end.
  match type of E1 with
  | setVertexBuffers _ _ _ _ ?s0 = Some ?s1 =>
      destruct (setVertexBuffers_rebinds 2 2 _ _ s0 s1 eq_refl eq_refl E1)
        as (_ & _ & Hd & _ & Hdraw)
  end.
  match type of F1 with
  | setVertexBuffers _ _ _ _ ?e0 = Some ?e1 =>
      destruct (setVertexBuffers_rebinds 2 2 _ _ e0 e1 eq_refl eq_refl F1)
        as (_ & _ & _ & _ & Hskip)
  end.
  destruct (Hdraw (DrawInstanced 3 1 0 0) _ eq_refl E2) as (added & slots & T & _ & _ & Hb & _).
  destruct Hb as [B1 B2]; [discriminate|discriminate|].
  destruct (Hskip (DrawInstanced 3 1 0 0) _ eq_refl F2) as (added' & slots' & T' & _ & _ & _ & He).
  destruct He as [C1 C2]; [left; split; reflexivity|].
  eexists _, _, _, _, _, _. split; [exact E0|]. split; [exact E1|]. split; [exact E2|].
  split; [reflexivity|]. split; [exact F0|]. split; [exact F1|]. split; [exact F2|].
  split; [exists added, slots; split; [exact T|]; split; [exact B1|exact B2]|].
  split; [exists added', slots'; split; [exact T'|]; split; [exact C1|exact C2]|].
  exact Hd.
Defined.

(** X26: [setGraphicsPushConstants] copies the given bytes into the
    buffer of the range, [size] bytes from [offset] on and the whole
    range when [size] is 0; the other bytes of the range keep their
    value, zero where there was none, and the other ranges are not
    touched.  The size recorded for the binding is the size of the
    range rounded up to a multiple of 16, not the number of the bytes
    held.  A draw that follows, when the viewport and the scissor
    vector are not empty, binds every range with that size, for the
    vertex stage and for the fragment stage as its flags say; when the
    viewports or the scissors are dirty and their vector is empty, the
    draw binds no push constant and they stay dirty. *)
Theorem setGraphicsPushConstants_stores (rangeIndex : nat) (data : list Byte.byte)
    (offset size : nat) (s s' : MetalCommandList) :
  setGraphicsPushConstants rangeIndex data offset size s = Some s' →
  ∃ l range pc,
    activeGraphicsPipelineLayout s = Some l ∧
    pushConstantRanges l !! rangeIndex = Some range ∧
    pushConstants s' !! rangeIndex = Some pc ∧
    length (pushConstants s') = length (pushConstantRanges l) ∧
    length (pcData pc) = rangeSize range ∧
    let n := if decide (size = 0) then rangeSize range else size in
    let oldData := default [] (pcData <$> pushConstants s !! rangeIndex) in
    offset + n ≤ rangeSize range ∧
    (∀ k, offset ≤ k < offset + n → pcData pc !! k = data !! (k - offset)) ∧
    (∀ k, k < rangeSize range → ¬ (offset ≤ k < offset + n) →
          pcData pc !! k = Some (default Byte.x00 (oldData !! k))) ∧
    (∀ j, j ≠ rangeIndex → j < length (pushConstants s) →
          j < length (pushConstantRanges l) →
          pushConstants s' !! j = pushConstants s !! j) ∧
    (Z.of_nat (rangeSize range) ≤ 4294967280 →
       pcSize pc mod 16 = 0 ∧
       Z.of_nat (length (pcData pc)) ≤ pcSize pc < Z.of_nat (length (pcData pc)) + 16)%Z ∧
    gPushConstants (dirtyGraphicsState s') = true ∧
    trace s' = trace s ∧
    ∀ (c : Command) (s'' : MetalCommandList),
      requiredEncoder c = Some Render → record c s' = Some s'' →
      ∃ added,
        trace s'' = trace s' ++ added ∧
        (viewportVector s' ≠ [] → scissorVector s' ≠ [] →
           filter (λ c, isPushConstantCall c = true) added =
             flat_map pushConstantCalls (pushConstants s') ∧
           gPushConstants (dirtyGraphicsState s'') = false) ∧
        (gViewports (dirtyGraphicsState s') = true ∧ viewportVector s' = [] ∨
         gScissors (dirtyGraphicsState s') = true ∧ scissorVector s' = [] →
           filter (λ c, isPushConstantCall c = true) added = [] ∧
           gPushConstants (dirtyGraphicsState s'') = true).
Proof.
  intros H.
  destruct (setGraphicsPushConstants_stored _ _ _ _ _ _ H)
    as (l & range & pc & H1 & H2 & H3 & H4 & H5 & H6 & H7 & H8 & H9 & H10 & Hdirty & HT).
  exists l, range, pc. split; [done|]. split; [done|]. split; [done|]. split; [done|].
  split; [done|]. cbv zeta. split; [done|]. split; [done|]. split; [done|].
  split; [done|]. split; [done|]. split; [done|]. split; [done|].
  intros c s'' Hk Hc.
  destruct (draw_bindings _ _ _ Hk Hc) as (s1 & added & H1' & R & T & Hb).
  pose proof (checkActiveRenderEncoder_dirty _ _ H1') as Hdirty1.
  destruct (returnsEarly_opened _ _ R) as [Hlate Hearly].
  pose proof R as ((_ & _ & _ & _ & P & _) & Hd & _).
  assert (gPushConstants (dirtyGraphicsState s1) = true) as Hp1
    by (destruct Hd as [-> | ->]; [exact Hdirty|done]).
  exists added. split; [done|]. split.
  - intros Hv Hs. rewrite (Hlate Hv Hs) in Hb. destruct Hb as (_ & _ & B3 & _ & _ & B6 & _).
    split; [|done]. rewrite B3. unfold pushConstantBindings. by rewrite Hp1, P.
  - intros He. rewrite (Hearly He) in Hb. destruct Hb as (B1 & _ & _ & B4 & _).
    split; [|congruence].
    apply filter_nonbinding; [|done]. intros c0 Hc0. unfold isBindingCall. rewrite Hc0.
    by destruct (isVertexBufferCall c0), (isDescriptorSetCall c0).
Qed.

Lemma setGraphicsPushConstants_stores_witness :
  ∃ s0 s' s'',
    recordAll (sampleReady ++ [SetGraphicsPipelineLayout (Some samplePushLayout)])
      newMetalCommandList = Some s0 ∧
    setGraphicsPushConstants 0 sampleData 1 4 s0 = Some s' ∧
    record (DrawInstanced 3 1 0 0) s' = Some s'' ∧
    filter (λ c, isPushConstantCall c = true) (drop (length (trace s')) (trace s'')) =
      [ setPushConstantBytes VertexStage
          [Byte.x00; Byte.x01; Byte.x02; Byte.x03; Byte.x04; Byte.x00] 16
          (PUSH_CONSTANTS_BINDING_INDEX + 1);
        setPushConstantBytes FragmentStage
          [Byte.x00; Byte.x01; Byte.x02; Byte.x03; Byte.x04; Byte.x00] 16
          (PUSH_CONSTANTS_BINDING_INDEX + 1) ] ∧
    (∃ added,
       trace s'' = trace s' ++ added ∧
       filter (λ c, isPushConstantCall c = true) added =
         flat_map pushConstantCalls (pushConstants s') ∧
       gPushConstants (dirtyGraphicsState s'') = false) ∧
    ∃ pc, pushConstants s' !! 0 = Some pc ∧ length (pcData pc) = 6 ∧
          (pcSize pc mod 16 = 0)%Z.
Proof.
  eassert (E0 : recordAll (sampleReady ++ [SetGraphicsPipelineLayout (Some samplePushLayout)])
                  newMetalCommandList = Some _) by (vm_compute; reflexivity).
  match type of E0 with
  | _ = Some ?s0 =>
      eassert (E1 : setGraphicsPushConstants 0 sampleData 1 4 s0 = Some _)
        by (vm_compute; reflexivity)
  end.
  match type of E1 with
  | _ = Some ?s1 =>
      eassert (E2 : record (DrawInstanced 3 1 0 0) s1 = Some _) by (vm_compute; reflexivity)
  end.
  destruct (setGraphicsPushConstants_stores _ _ _ _ _ _ E1)
    as (l & range & pc & Hl & Hr & Hpc & _ & Hlen & _ & _ & _ & _ & Hsize & _ & _ & Hdraw).
  injection Hl as <-. injection Hr as <-.
  destruct (Hdraw (DrawInstanced 3 1 0 0) _ eq_refl E2) as (added & T & Hb & _).
  destruct Hb as [B1 B2]; [discriminate|discriminate|].
  eexists _, _, _. split; [exact E0|]. split; [exact E1|]. split; [exact E2|].
  split; [reflexivity|]. split.
  - exists added. split; [exact T|]. split; [exact B1|exact B2].
  - exists pc. split; [exact Hpc|]. split; [exact Hlen|]. apply Hsize. simpl. lia.
Defined.

(** A draw binds no descriptor set at an index at or above the set
    count of the graphics layout. *)
Lemma draw_never_binds_above c t t' layout p i :
  activeGraphicsPipelineLayout t = Some layout →
  requiredEncoder c = Some Render → record c t = Some t' →
  setLayoutCount layout ≤ i →
  bindDescriptorSet false p (DESCRIPTOR_SETS_BINDING_INDEX + i)
    ∉ drop (length (trace t)) (trace t').
Proof.
  intros Hl Hk Hc Hi Hin.
  destruct (draw_bindings _ _ _ Hk Hc) as (s1 & added & _ & R & T & Hb).
  rewrite T, drop_app_length in Hin.
  pose proof R as ((_ & _ & _ & _ & _ & L & _) & _).
  destruct (returnsEarly s1).
  - destruct Hb as (B1 & _). rewrite Forall_forall in B1. by specialize (B1 _ Hin).
  - destruct Hb as (_ & B2 & _).
    assert (bindDescriptorSet false p (DESCRIPTOR_SETS_BINDING_INDEX + i)
              ∈ filter (λ c, isDescriptorSetCall c = true) added) as Hf
      by (by apply list_elem_of_filter).
    rewrite B2 in Hf. unfold descriptorSetCalls in Hf.
    destruct (gDescriptorSets _); [|by apply elem_of_nil in Hf].
    rewrite L, Hl in Hf. apply list_elem_of_omap in Hf as (j & Hj & Hcall).
    apply elem_of_seq in Hj. unfold bindSetCall in Hcall. case_decide; [done|].
    destruct (renderDescriptorSets s1 !! j) as [[q|]|]; try done.
    injection Hcall as _ Hji. unfold DESCRIPTOR_SETS_BINDING_INDEX in Hji. lia.
Qed.

(** X29: [setGraphicsDescriptorSet] with the set an index already has
    changes nothing.  With another set it stores the set, lowers the
    dirty index to the index written and makes no call.  A draw that
    follows, when the viewport and the scissor vector are not empty,
    binds every index that has a set, from the dirty index (or from 0
    when the draw had to end a render encoder: one was open and clears
    were pending) to the set count of the pipeline layout, at
    [DESCRIPTOR_SETS_BINDING_INDEX + i], and notes each bound set for
    the encoder; when the viewports or the scissors are dirty and their
    vector is empty, the draw binds no set and the sets stay dirty.
    From whatever state, a draw under the layout binds no set at an
    index at or above the set count of the layout. *)
Theorem setGraphicsDescriptorSet_rebinds (descriptorSet : option ptr) (setIndex : nat)
    (layout : MetalPipelineLayout) (s s' : MetalCommandList) :
  activeGraphicsPipelineLayout s = Some layout →
  setGraphicsDescriptorSet descriptorSet setIndex s = Some s' →
  (renderDescriptorSets s !! setIndex = Some descriptorSet → s' = s) ∧
  (renderDescriptorSets s !! setIndex ≠ Some descriptorSet →
   renderDescriptorSets s' = <[setIndex := descriptorSet]> (renderDescriptorSets s) ∧
   gDescriptorSets (dirtyGraphicsState s') = true ∧
   gDescriptorSetDirtyIndex (dirtyGraphicsState s') =
     Nat.min (gDescriptorSetDirtyIndex (dirtyGraphicsState s)) setIndex ∧
   trace s' = trace s ∧
   ∀ (c : Command) (s'' : MetalCommandList),
     requiredEncoder c = Some Render → record c s' = Some s'' →
     ∃ added start,
       trace s'' = trace s' ++ added ∧
       start =
         (if active (pendingClears s') && activeRenderEncoder s' then 0
          else Nat.min (gDescriptorSetDirtyIndex (dirtyGraphicsState s)) setIndex) ∧
       (viewportVector s' ≠ [] → scissorVector s' ≠ [] →
          filter (λ c, isDescriptorSetCall c = true) added =
            omap (bindSetCall (renderDescriptorSets s') false)
              (seq start (setLayoutCount layout - start)) ∧
          (∀ p i, start ≤ i < setLayoutCount layout → i < MAX_DESCRIPTOR_SET_BINDINGS →
                  renderDescriptorSets s' !! i = Some (Some p) →
                  p ∈ currentEncoderDescriptorSets s'') ∧
          (∀ p, p ∈ currentEncoderDescriptorSets s'' →
                p ∈ currentEncoderDescriptorSets s' ∨
                ∃ i, start ≤ i < setLayoutCount layout ∧ i < MAX_DESCRIPTOR_SET_BINDINGS ∧
                     renderDescriptorSets s' !! i = Some (Some p)) ∧
          gDescriptorSets (dirtyGraphicsState s'') = false) ∧
       (gViewports (dirtyGraphicsState s') = true ∧ viewportVector s' = [] ∨
        gScissors (dirtyGraphicsState s') = true ∧ scissorVector s' = [] →
          filter (λ c, isDescriptorSetCall c = true) added = [] ∧
          gDescriptorSets (dirtyGraphicsState s'') = true)) ∧
  ∀ (c : Command) (t t' : MetalCommandList) (p : ptr) (i : nat),
    activeGraphicsPipelineLayout t = Some layout →
    requiredEncoder c = Some Render → record c t = Some t' →
    setLayoutCount layout ≤ i →
    bindDescriptorSet false p (DESCRIPTOR_SETS_BINDING_INDEX + i)
      ∉ drop (length (trace t)) (trace t').
Proof.
  intros Hl H. apply and_assoc. split; [|intros; by eapply draw_never_binds_above].
  unfold setGraphicsDescriptorSet in H.
  apply bind_Some in H as (Hidx & _ & H). apply bind_Some in H as (old & Hold & H).
  destruct (decide (old = descriptorSet)) as [->|Hne].
  { injection H as <-. split; [done|]. intros Hn. by destruct Hn. }
  injection H as <-. split; [intros E; rewrite Hold in E; by injection E|]. intros _.
  set (sets := <[setIndex := descriptorSet]> (renderDescriptorSets s)).
  set (start0 := Nat.min (gDescriptorSetDirtyIndex (dirtyGraphicsState s)) setIndex).
  set (s' := set_dirtyGraphicsState
               (gSetDescriptorSets true start0 (dirtyGraphicsState s))
               (set_renderDescriptorSets sets s)).
  split; [done|]. split; [done|]. split; [done|]. split; [done|].
  assert (renderDescriptorSets s' = sets) as Hsets by done.
  assert (activeGraphicsPipelineLayout s' = Some layout) as Hl' by exact Hl.
  assert (gDescriptorSets (dirtyGraphicsState s') = true) as Hdirty by done.
  assert (gDescriptorSetDirtyIndex (dirtyGraphicsState s') = start0) as Hstart by done.
  clearbody s'.
  intros c s'' Hk Hc.
  destruct (draw_bindings _ _ _ Hk Hc) as (s1 & added & H1' & R & T & Hb).
  pose proof (checkActiveRenderEncoder_dirty _ _ H1') as Hdirty1.
  destruct (returnsEarly_opened _ _ R) as [Hlate Hearly].
  pose proof R as ((_ & _ & _ & _ & _ & L & S & _) & Hd & Hcur).
  set (start := gDescriptorSetDirtyIndex (dirtyGraphicsState s1)).
  assert (gDescriptorSets (dirtyGraphicsState s1) = true) as Hd1
    by (destruct Hd as [-> | ->]; [exact Hdirty|done]).
  assert (descriptorSetCalls s1 =
            omap (bindSetCall sets false) (seq start (setLayoutCount layout - start))) as HDS.
  { unfold descriptorSetCalls. by rewrite Hd1, L, Hl', S, Hsets. }
  assert (∀ p i, bindDescriptorSet false p (DESCRIPTOR_SETS_BINDING_INDEX + i)
                   ∈ descriptorSetCalls s1 ↔
                 start ≤ i < setLayoutCount layout ∧ i < MAX_DESCRIPTOR_SET_BINDINGS ∧
                 sets !! i = Some (Some p)) as Hin.
  { intros p i. rewrite HDS, list_elem_of_omap. split.
    - intros (j & Hj & Hcall). apply elem_of_seq in Hj. unfold bindSetCall in Hcall.
      case_decide; [done|]. destruct (sets !! j) as [[q|]|] eqn:E; try done.
      injection Hcall as -> Hji. assert (j = i) as -> by lia. split; [lia|]. split; [lia|done].
    - intros (Hi & Hmax & Hp). exists i. split; [apply elem_of_seq; lia|].
      unfold bindSetCall. rewrite decide_False by lia. by rewrite Hp. }
  exists added, start. split; [done|].
  split; [unfold start; rewrite Hdirty1; destruct (active _ && activeRenderEncoder _);
          [done|exact Hstart]|].
  rewrite Hsets. split.
  - intros Hv Hs. rewrite (Hlate Hv Hs) in Hb.
    destruct Hb as (_ & B2 & _ & _ & B5 & _ & B7).
    split; [by rewrite B2|]. split; [|split; [|done]].
    + intros p i Hi Hmax Hp. apply B7. right. exists i. by apply Hin.
    + intros p Hp. apply B7 in Hp as [Hp|(i & Hi)].
      * left. destruct Hcur as [<-|Hnil]; [done|]. rewrite Hnil in Hp.
        by apply elem_of_nil in Hp.
      * right. exists i. by apply Hin.
  - intros He. rewrite (Hearly He) in Hb. destruct Hb as (B1 & _ & B3 & _).
    split; [|congruence].
    apply filter_nonbinding; [|done]. intros c0 Hc0. unfold isBindingCall. rewrite Hc0.
    by destruct (isVertexBufferCall c0).
Qed.

Lemma setGraphicsDescriptorSet_rebinds_witness :
  ∃ s0 s' s'' t' t'',
    recordAll (sampleReady ++ [SetGraphicsPipelineLayout (Some sampleSetsLayout);
                               DrawInstanced 3 1 0 0]) newMetalCommandList = Some s0 ∧
    setGraphicsDescriptorSet (Some 7) 1 s0 = Some s' ∧
    setGraphicsDescriptorSet (Some 8) 2 s0 = Some s'' ∧
    record (DrawInstanced 3 1 0 0) s' = Some t' ∧
    record (DrawInstanced 3 1 0 0) s'' = Some t'' ∧
    trace t' =
      trace s0 ++ [ bindDescriptorSet false 7 (DESCRIPTOR_SETS_BINDING_INDEX + 1);
                    drawPrimitives PrimitiveTypeTriangle 0 3 1 0 ] ∧
    trace t'' = trace s0 ++ [drawPrimitives PrimitiveTypeTriangle 0 3 1 0] ∧
    (∃ added start,
       trace t' = trace s' ++ added ∧
       filter (λ c, isDescriptorSetCall c = true) added =
         omap (bindSetCall (renderDescriptorSets s') false) (seq start (2 - start))) ∧
    bindDescriptorSet false 8 (DESCRIPTOR_SETS_BINDING_INDEX + 2)
      ∉ drop (length (trace s'')) (trace t'').
Proof.
  eassert (E0 : recordAll (sampleReady ++ [SetGraphicsPipelineLayout (Some sampleSetsLayout);
                                           DrawInstanced 3 1 0 0])
                  newMetalCommandList = Some _) by (vm_compute; reflexivity).
  match type of E0 with
  | _ = Some ?s0 =>
      eassert (E1 : setGraphicsDescriptorSet (Some 7) 1 s0 = Some _)
        by (vm_compute; reflexivity);
      eassert (E2 : setGraphicsDescriptorSet (Some 8) 2 s0 = Some _)
        by (vm_compute; reflexivity)
  end.
  match type of E1 with
  | _ = Some ?s1 =>
      eassert (E3 : record (DrawInstanced 3 1 0 0) s1 = Some _) by (vm_compute; reflexivity)
  end.
  match type of E2 with
  | _ = Some ?s2 =>
      eassert (E4 : record (DrawInstanced 3 1 0 0) s2 = Some _) by (vm_compute; reflexivity)
  end.
  match type of E1 with
  | setGraphicsDescriptorSet _ _ ?s0 = Some ?s1 =>
      destruct (setGraphicsDescriptorSet_rebinds (Some 7) 1 sampleSetsLayout s0 s1
                  eq_refl E1) as (_ & H1 & Hnever)
  end.
  destruct H1 as (_ & _ & _ & _ & Hdraw); [discriminate|].
  destruct (Hdraw (DrawInstanced 3 1 0 0) _ eq_refl E3) as (added & start & T & _ & Hb & _).
  destruct Hb as (B1 & _); [discriminate|discriminate|].
  eexists _, _, _, _, _. split; [exact E0|]. split; [exact E1|]. split; [exact E2|].
  split; [exact E3|]. split; [exact E4|]. split; [reflexivity|]. split; [reflexivity|].
  split; [exists added, start; split; [exact T|exact B1]|].
  match type of E4 with
  | record _ ?t = Some ?t' =>
      exact (Hnever (DrawInstanced 3 1 0 0) t t' 8 2 eq_refl eq_refl E4 (le_n 2))
  end.
Defined.

End DrawFlushes.
